(* ===== verification/_CoqProject ===== *)
-Q . S2P
Prelude.v
ByteStream.v
WrappingIntegers.v
StdMap.v
StreamReassembler.v
Buffer.v
Parser.v
Checksum.v
Address.v
TCPHeader.v
TCPSegment.v
IPv4.v
Adapters.v
Tcpdump.v
Kernel.v
FileDescriptor.v
Socket.v
Tun.v
EventLoop.v
StreamCopy.v
WebGet.v
TCPReceiver.v
TCPConfig.v
TCPSender.v
Transfer.v
Pace.v
Progress.v
TCPState.v
TCPConnection.v
Handlers.v
FlowControl.v
Network.v
Benchmark.v
Rounds.v
Closing.v
Liveness.v
Random.v
SpongeSocket.v
CommandLine.v
Usage.v
Text.v
Programs.v
Doctests.v
