(* ===== verification/Prelude.v ===== *)
(** * Sponge: a verification development for a user-space TCP stack

    The program (src/) is the CS144 "sponge" library, a TCP implementation in C++ with the
    programs built on it.  Bytes an application writes go through a bounded stream
    ([ByteStream]) to a sender ([TCPSender]) that cuts them into segments; the peer's receiver
    ([TCPReceiver]) puts segments back in order ([StreamReassembler]) and announces an
    acknowledgment and a window; a connection ([TCPConnection]) is one of each; an adapter
    ([Adapters]) carries segments in UDP or IPv4 datagrams; a socket ([SpongeSocket]) drives a
    connection by an event loop ([EventLoop]) over file descriptors.

    ** Files, and the sources they model

    Sources are under src/libsponge/ unless said otherwise.
    - Prelude: machine integers with their wrap-around, byte lists, the [outcome] monad whose [Fault]s
      are the program's exceptions and its undefined behaviour, tactics and hints.
    - ByteStream (byte_stream.cc): the bounded FIFO.  WrappingIntegers (wrapping_integers.cc): 32-bit
      sequence numbers.  StdMap, StreamReassembler (stream_reassembler.cc): the map of
      pending substrings, with std::map as a sorted list and its iterators.
    - Buffer (util/buffer.cc), Parser (util/parser.cc), Checksum (util/util.cc), TCPHeader and TCPSegment
      (tcp_helpers/tcp_header.cc, tcp_segment.cc), IPv4 (ipv4_header.cc, ipv4_datagram.cc):
      the wire formats.
    - Address (util/address.cc) over a class [Resolver] for getaddrinfo and getnameinfo;
      Adapters (tcp_helpers/fd_adapter.cc, tcp_over_ip.cc, tuntap_adapter.hh, lossy_fd_adapter.hh).
    - Kernel (SystemCall of util/util.cc): the operating system as a class of functions of the
      history of calls.  FileDescriptor (util/file_descriptor.cc), Socket (util/socket.cc), Tun
      (util/tun.cc): the program's bookkeeping around the calls.
    - EventLoop (util/eventloop.cc): rules and one round of [wait_next_event].
    - TCPReceiver (tcp_receiver.cc), TCPConfig (tcp_helpers/tcp_config.hh), TCPSender (tcp_sender.hh, .cc),
      TCPState (tcp_helpers/tcp_state.cc), TCPConnection (tcp_connection.hh, .cc).
    - Transfer: a sender and a receiver across an unreliable network.  Pace, FlowControl: why a sender
      that hears all its receiver says stays inside the window and is acknowledged on the
      boundaries of its segments only, for a sender, a receiver and whole connections.  Progress: what
      keeps a sender going, its timer and the bytes its segments carry.  Network: two connections with arbitrary
      applications over links that keep the order and may lose any segment.  Handlers: one description of all paths
      through [segment_received].
    - SpongeSocket (tcp_helpers/tcp_sponge_socket.cc), and the programs StreamCopy
      (src/apps/bidirectional_stream_copy.cc), WebGet (webget.cc), Benchmark (tcp_benchmark.cc; Rounds
      and Liveness: why its first loop ends, Closing: why its second does) and Tcpdump (udp_tcpdump.cc, hexdump of util/util.cc), with libpcap as a class [Pcap].
    - Text: to_string and summary of both headers ([tcp_to_string_injective]).
    - CommandLine: [get_config] of tcp_udp.cc and tcp_ipv4.cc.  Usage: the usage texts, and that they list the
      options.  Programs: the [main] functions of tcp_native.cc, tcp_udp.cc, tcp_ipv4.cc, tun.cc, webget.cc and
      tcp_benchmark.cc, and [CS144TCPSocket].
    - Random (util/util.cc): the clock, and std::mt19937 with its seeding.
    - Doctests (src/doctests/): the three programs of the documentation's examples.

    An object of the program is a [Record] of its members; a method is a function of the object that
    returns the new one, in [outcome] where it can throw.  Several objects of one method are
    threaded in the order of the source's statements.  Every definition has the name of the method it
    models where the language allows it.

    ** What is proved

    - Streams and reassembly: a [ByteStream] refines an abstract FIFO
      ([byte_stream_refines_fifo]); whatever accurate segments arrive, the reader gets a prefix of
      the stream ([reassembly_exact]) and every contiguous byte ([reassembly_complete]).  The source reads
      [end()->first] of an empty map; the read is a parameter of [push_substring_reading], whose result does not
      depend on the value ([push_substring_functional], [push_reads_any]).
    - Wire formats: round trips of segments, datagrams and addresses, what each parser
      accepts, what the checksum detects ([tcp_segment_roundtrip], [ipv4_datagram_roundtrip],
      [checksum_detects_word], [address_roundtrip], [tun_delivers], [unwrap_filters]).
    - Sender and receiver: everything sent is true of the stream ([sender_emits_stream]);
      acknowledgments, the window and the timer ([ack_frees], [fill_window_fills],
      [tick_retransmits], [receiver_feedback]); together [reliable_delivery].
    - Connections: soundness in every session, no faults, the handshake, resets, time-outs and replies
      ([connection_sound], [connection_progress], [handshake_establishes], [rst_resets],
      [tick_decides], [segments_are_answered]).
    - Two connections joined, where nothing about the segments is assumed any more: both directions at once over
      lossy links ([lossy_links_deliver], by the invariant [holds]; [stale_acknowledgment_overruns] shows why the links keep
      the order), the benchmark's two loops ([benchmark_delivers], by the invariant [steady]), and why they do not stall:
      [benchmark_completes], by the invariants [lively] and [over] and a measure of the base of the sender's window,
      the segments under way, the retransmissions and the time left on its timer, and then of the age of
      TIME_WAIT ([going_finishes], [over_ends]).
    - Sockets and programs: rounds of the event loop against their specification [round_spec] ([round_steps],
      [round_keeps_invariant]), the socket
      as a session of its connection ([socket_sound], [socket_runs], [abort_ends_thread]), the copy
      between a socket and the terminal ([copy_sound], [copy_completes], [copy_runs]), fetching a
      page ([get_URL_fetches]), dumping packets ([packets_are_handled], [hexdump_injective],
      [tun_shows_adapter_traffic]).
    - Whole programs: what command lines mean and that every one is handled in bounds
      ([command_lines_parse], [command_lines_are_checked]); whatever they ask for, the socket the program
      starts with is sound ([programs_are_sound]); the exit status of tcp_native
      ([native_main_copies]); tcp_benchmark succeeds ([benchmark_main_succeeds]).
    - Behaviour the source's comments do not promise is proved as it is, among others:
      [fill_window_ignores_shrunk_window], [partial_ack_breaks_retransmission],
      [data_after_fin_unanswered], [stray_reset_answered], [reset_kills], [poll_error_is_success], [native_interrupted],
      [packets_are_handled].

    The theorems about sessions quantify over every sequence of calls an inductive predicate allows
    ([session], [sender_session], [receiver_session], [conn_session], [socket_step]).  The segments of a
    peer are constrained by what a correct peer can send: accurate, not split by the end of the
    advertised window (inside it, or outside as the probe of a closed window is), acknowledging on a boundary of
    what is in flight ([seg_ok], [ack_ok]); that two of these connections are such peers to each other is
    [arrives_ok] and [comes_ok], and the theorems above show what happens outside of that.

    ** Bounds and fuel

    Streams are shorter than [LIMIT] (2^63 - 2^32), or 2^31 where sequence numbers are unwrapped far from
    their checkpoint, so that absolute sequence numbers fit.  A loop of the program over its own data
    takes fuel with a proof that it is enough: [fill_fuel] (a round takes a byte or sends FIN,
    [fill_loop_exits]), [write_fuel] ([write_loop_ends]), [input_fuel] ([write_input_ok]),
    the extension headers ([skip_extensions_ends]), the options of a command line
    ([options_fuel]), the checksum's two folding rounds, 20 decimal digits.  A loop that waits for the outside ([_tcp_loop], [copy_loop], [print_all],
    [loop_while]) takes the list or number of rounds the environment grants and tells whether it
    has returned.

    ** Not modelled

    Threads: the owner of a socket is part of the environment of the connection's thread (its end of the
    pipe and [_abort]); the owner's own code is [owner_main], over its own calls.  The text of exceptions and
    debugging output, what the clock and the entropy device answer, and what libpcap does. *)

From Stdlib Require Export ZArith Lia.
From Stdlib Require Export Strings.Byte.
From stdpp Require Export base option numbers list list_numbers.

#[global] Open Scope Z_scope.
#[global] Set Default Goal Selector "!".

(** ** Machine integers

    An unsigned [w]-bit value of the program is a [Z]; each assignment of the
    source that can wrap is written with the truncation of its type. *)

Definition u8 (z : Z) : Z := z mod 0x100.
Definition u16 (z : Z) : Z := z mod 0x10000.
Definition u32 (z : Z) : Z := z mod 0x100000000.
Definition u64 (z : Z) : Z := z mod 0x10000000000000000.

(** Two's complement conversions to [int32_t] and [int64_t]. *)
Definition i32 (z : Z) : Z := (z + 0x80000000) mod 0x100000000 - 0x80000000.
Definition i64 (z : Z) : Z :=
  (z + 0x8000000000000000) mod 0x10000000000000000 - 0x8000000000000000.

Abbreviation is_u8 z := (0 <= z < 0x100).
Abbreviation is_u16 z := (0 <= z < 0x10000).
Abbreviation is_u32 z := (0 <= z < 0x100000000).
Abbreviation is_u64 z := (0 <= z < 0x10000000000000000).

Lemma u8_id z : is_u8 z -> u8 z = z.
Proof. apply Z.mod_small. Qed.
Lemma u16_id z : is_u16 z -> u16 z = z.
Proof. apply Z.mod_small. Qed.
Lemma u32_id z : is_u32 z -> u32 z = z.
Proof. apply Z.mod_small. Qed.
Lemma u64_id z : is_u64 z -> u64 z = z.
Proof. apply Z.mod_small. Qed.

Lemma u8_range z : is_u8 (u8 z).
Proof. apply Z.mod_pos_bound; lia. Qed.
Lemma u16_range z : is_u16 (u16 z).
Proof. apply Z.mod_pos_bound; lia. Qed.
Lemma u32_range z : is_u32 (u32 z).
Proof. apply Z.mod_pos_bound; lia. Qed.
Lemma u64_range z : is_u64 (u64 z).
Proof. apply Z.mod_pos_bound; lia. Qed.

(** [usimpl] drops the truncations whose argument is known to be in range. *)
Ltac usimpl :=
  repeat first
    [ rewrite u64_id by lia | rewrite u32_id by lia
    | rewrite u16_id by lia | rewrite u8_id by lia ].
Tactic Notation "usimpl" "in" hyp(H) :=
  repeat first
    [ rewrite u64_id in H by lia | rewrite u32_id in H by lia
    | rewrite u16_id in H by lia | rewrite u8_id in H by lia ].

(** [ulia] is [lia] after turning the truncations into their quotient equations. *)
Ltac ulia :=
  unfold u8, u16, u32, u64, i32, i64 in *;
  Z.to_euclidean_division_equations; lia.

(** ** Outcomes

    A function of the source that can throw, or whose behaviour the C++ standard
    leaves undefined for some states, returns an [outcome]. *)

Inductive fault : Set :=
| OutOfRange          (** std::out_of_range *)
| RuntimeError        (** std::runtime_error *)
| InvalidArgument     (** std::invalid_argument *)
| LengthError         (** std::length_error *)
| UseAfterErase       (** undefined: a reference into an erased container node is used *)
| BadConversion       (** undefined: a floating-point value converted to an integer type that cannot hold it *)
| PastTheEnd          (** undefined: iterators beyond the end of a container, or its [front] when empty *)
| OutOfFuel.          (** no behaviour of the source: a loop got too little fuel, shown unreachable *)

Inductive outcome (A : Type) : Type :=
| Ok (a : A)
| Fault (f : fault).
Arguments Ok {A} a.
Arguments Fault {A} f.

#[export] Instance fault_eq_dec : EqDecision fault.
Proof. intros f g. unfold Decision. decide equality. Defined.
#[export] Instance outcome_ret : MRet outcome := @Ok.
#[export] Instance outcome_bind : MBind outcome := fun A B k m =>
  match m with Ok a => k a | Fault f => Fault f end.
#[export] Instance outcome_fmap : FMap outcome := fun A B g m =>
  match m with Ok a => Ok (g a) | Fault f => Fault f end.

Lemma bind_Ok {A B} (m : outcome A) (k : A -> outcome B) b :
  m ≫= k = Ok b <-> exists a, m = Ok a /\ k a = Ok b.
Proof.
  destruct m as [a|f]; simpl; split.
  - eauto.
  - by intros (? & [= ->] & ?).
  - done.
  - by intros (? & ? & ?).
Qed.

Lemma Ok_inj {A} (a b : A) : Ok a = Ok b -> a = b.
Proof. by intros [= ->]. Qed.

Definition is_Ok {A} (m : outcome A) : Prop := exists a, m = Ok a.

(** ** Record update

    [r <| f := v |>] replaces field [f] of [r].  A record declares its eta
    expansion once, and the setter of each field is computed from it. *)

Class Eta (R : Type) := eta : R -> R.
Class Setter {R T : Type} (proj : R -> T) := upd : (T -> T) -> R -> R.
Arguments upd {R T} proj {_} f r /.

Ltac solve_setter :=
  lazymatch goal with
  | |- @Setter ?R ?T ?proj =>
    exact (fun (f : T -> T) (r : R) =>
      ltac:(let e := eval hnf in (@eta R _ r) in
            match eval pattern (proj r) in e with
            | ?g _ => let b := eval cbv beta in (g (f (proj r))) in exact b
            end))
  end.
#[export] Hint Extern 1 (Setter _) => solve_setter : typeclass_instances.

Declare Scope record_scope.
Notation "r <| f := v |>" := (upd f (fun _ => v) r)
  (at level 1, f at level 1, left associativity,
   format "r  <| f  :=  v |>") : record_scope.
#[global] Open Scope record_scope.

(** ** Bytes *)

Abbreviation byte := Byte.byte.
Abbreviation bytes := (list Byte.byte).

(** The value of a byte as [uint8_t], and the [char] an [uint8_t] becomes. *)
Definition b2z (b : byte) : Z := Z.of_N (Byte.to_N b).
Definition z2b (z : Z) : byte :=
  match Byte.of_N (Z.to_N (z mod 256)) with Some b => b | None => x00 end.

#[export] Instance byte_eq_dec : EqDecision byte := Byte.byte_eq_dec.

Lemma b2z_range b : is_u8 (b2z b).
Proof. unfold b2z. pose proof (Byte.to_N_bounded b). lia. Qed.

Lemma z2b_b2z b : z2b (b2z b) = b.
Proof.
  unfold z2b. pose proof (b2z_range b). rewrite Z.mod_small by lia.
  unfold b2z. by rewrite N2Z.id, Byte.of_to_N.
Qed.

Lemma b2z_z2b z : b2z (z2b z) = u8 z.
Proof.
  unfold b2z, z2b, u8. pose proof (Z.mod_pos_bound z 256).
  destruct (Byte.of_N (Z.to_N (z mod 256))) as [b|] eqn:E.
  - apply Byte.to_of_N in E. rewrite E. lia.
  - apply Byte.of_N_None_iff in E. lia.
Qed.

Lemma b2z_inj b1 b2 : b2z b1 = b2z b2 -> b1 = b2.
Proof. intros H. by rewrite <- (z2b_b2z b1), <- (z2b_b2z b2), H. Qed.

(** ** Lists indexed by machine integers *)

Abbreviation zlen l := (Z.of_nat (length l)).

Definition ztake {A} (n : Z) (l : list A) : list A := take (Z.to_nat n) l.
Definition zdrop {A} (n : Z) (l : list A) : list A := drop (Z.to_nat n) l.

(** The element at index [i]; [None] outside the list. *)
Definition zget {A} (l : list A) (i : Z) : option A :=
  if decide (0 <= i) then l !! Z.to_nat i else None.

Section zlists.
  Context {A : Type}.
  Implicit Types (l k : list A) (i n m : Z).

Lemma zlen_ztake n l : 0 <= n -> zlen (ztake n l) = Z.min n (zlen l).
Proof. intros. unfold ztake. rewrite length_take. lia. Qed.
Lemma zlen_zdrop n l : 0 <= n -> zlen (zdrop n l) = Z.max 0 (zlen l - n).
Proof. intros. unfold zdrop. rewrite length_drop. lia. Qed.
Lemma zlen_app l k : zlen (l ++ k) = zlen l + zlen k.
Proof. rewrite length_app. lia. Qed.
Lemma zlen_nil_inv l : zlen l = 0 -> l = [].
Proof. destruct l; simpl; [done|lia]. Qed.

Lemma ztake_ge n l : zlen l <= n -> ztake n l = l.
Proof. intros. apply take_ge. lia. Qed.
Lemma zdrop_ge n l : zlen l <= n -> zdrop n l = [].
Proof. intros. apply drop_ge. lia. Qed.
Lemma ztake_0 l : ztake 0 l = [].
Proof. done. Qed.
Lemma zdrop_0 l : zdrop 0 l = l.
Proof. done. Qed.
Lemma ztake_zdrop n l : ztake n l ++ zdrop n l = l.
Proof. apply take_drop. Qed.
Lemma ztake_app_le n l k : n <= zlen l -> ztake n (l ++ k) = ztake n l.
Proof. intros. apply take_app_le. lia. Qed.
Lemma ztake_app_len l k : ztake (zlen l) (l ++ k) = l.
Proof. unfold ztake. rewrite Nat2Z.id. by apply take_app_length. Qed.
Lemma zdrop_app_len l k : zdrop (zlen l) (l ++ k) = k.
Proof. unfold zdrop. rewrite Nat2Z.id. by apply drop_app_length. Qed.
Lemma zdrop_app_le n l k : n <= zlen l -> zdrop n (l ++ k) = zdrop n l ++ k.
Proof. intros. apply drop_app_le. lia. Qed.
Lemma zdrop_zdrop n m l : 0 <= n -> 0 <= m -> zdrop n (zdrop m l) = zdrop (m + n) l.
Proof. intros. unfold zdrop. rewrite drop_drop. f_equal. lia. Qed.

Lemma zget_Some_range l i x : zget l i = Some x -> 0 <= i < zlen l.
Proof.
    unfold zget. case_decide; [|done]. intros H1%lookup_lt_Some. lia.
Qed.
Lemma zget_None l i : i < 0 \/ zlen l <= i -> zget l i = None.
Proof.
    unfold zget. case_decide; [|done]. intros. apply lookup_ge_None. lia.
Qed.
Lemma zget_is_Some l i : 0 <= i < zlen l -> is_Some (zget l i).
Proof.
    intros. unfold zget. rewrite decide_True by lia. apply lookup_lt_is_Some. lia.
Qed.
Lemma zget_app l k i :
    zget (l ++ k) i = if decide (i < zlen l) then zget l i else zget k (i - zlen l).
Proof.
    unfold zget. repeat case_decide; try done; try lia.
    - apply lookup_app_l. lia.
    - rewrite lookup_app_r by lia. f_equal. lia.
Qed.
Lemma zget_ztake n l i :
    zget (ztake n l) i = if decide (i < n) then zget l i else None.
Proof.
    unfold zget, ztake. repeat case_decide; try done.
    - apply lookup_take_lt. lia.
    - apply lookup_take_ge. lia.
Qed.
Lemma zget_zdrop n l i : 0 <= n -> 0 <= i -> zget (zdrop n l) i = zget l (n + i).
Proof.
    intros. unfold zget, zdrop. rewrite !decide_True by lia.
    rewrite lookup_drop. f_equal. lia.
Qed.
Lemma zget_nil i : zget (@nil A) i = None.
Proof. unfold zget. case_decide; done. Qed.
Lemma zget_ext l k :
    (forall i, 0 <= i -> zget l i = zget k i) -> l = k.
Proof.
    intros H. apply list_eq. intros i. specialize (H (Z.of_nat i)).
    unfold zget in H. rewrite !decide_True, Nat2Z.id in H by lia. apply H. lia.
Qed.

Lemma ztake_app_zdrop p n l :
    0 <= p <= zlen l -> 0 <= n ->
    ztake p l ++ ztake n (zdrop p l) = ztake (Z.min (p + n) (zlen l)) l.
Proof.
    intros Hp Hn. apply zget_ext. intros i Hi.
    rewrite zget_app, !zget_ztake, zlen_ztake, Z.min_l by lia.
    destruct (decide (i < p)).
    - by rewrite decide_True by lia.
    - rewrite zget_zdrop by lia. replace (p + (i - p)) with i by lia.
      repeat case_decide; try done; try lia. apply zget_None. lia.
Qed.
End zlists.
(** [std::string::resize]: cut, or pad with zero bytes. *)
Definition resize (n : Z) (s : bytes) : bytes :=
  ztake n s ++ replicate (Z.to_nat (n - zlen s)) x00.

Lemma resize_grow n s :
  zlen s <= n -> resize n s = s ++ replicate (Z.to_nat (n - zlen s)) x00.
Proof. intros. unfold resize. by rewrite ztake_ge. Qed.

Lemma resize_id s : resize (zlen s) s = s.
Proof. rewrite resize_grow by done. by rewrite Z.sub_diag, app_nil_r. Qed.

(** ** Lists without duplicates *)

Lemma sublist_nodup {A} (l k : list A) : l `sublist_of` k -> NoDup k -> NoDup l.
Proof.
  induction 1 as [|x l k Hs IH|x l k Hs IH]; [done|..]; intros [Hx N]%NoDup_cons; [|auto].
  apply NoDup_cons. split; [|auto]. intros Hin. apply Hx.
  eapply elem_of_submseteq; [exact Hin|by apply sublist_submseteq].
Qed.

Lemma sublist_removed {A} (l1 l2 k : list A) x : (l1 ++ x :: l2) `sublist_of` k -> (l1 ++ l2) `sublist_of` k.
Proof. intros H. etrans; [|exact H]. apply sublist_app; [done|by apply sublist_cons]. Qed.

(** What is left when one element is removed. *)
Lemma nodup_removed {A} (l1 l2 : list A) x y :
  NoDup (l1 ++ x :: l2) -> (y ∈ l1 ++ l2 <-> y ∈ l1 ++ x :: l2 /\ y <> x).
Proof.
  intros N. rewrite !elem_of_app, elem_of_cons.
  apply NoDup_app in N as (_ & N1 & [N2 _]%NoDup_cons).
  assert (x ∉ l1) by (intros Hin; apply (N1 x Hin); by left).
  split; [|intros [[?|[?|?]] ?]; [by left|done|by right]].
  intros [Hin|Hin]; (split; [auto|intros ->; done]).
Qed.

Arguments ztake : simpl never.
Arguments zdrop : simpl never.
Arguments zget : simpl never.

Create HintDb zlist.
Create Rewrite HintDb zlist.
#[export] Hint Rewrite @zlen_app @zdrop_0 @ztake_0 @app_nil_r @length_nil : zlist.
#[export] Hint Rewrite @zlen_ztake @zlen_zdrop using lia : zlist.
#[export] Hint Resolve b2z_range u8_range u16_range u32_range u64_range : zlist.
