(* ===== verification/ByteStream.v ===== *)
(** * ByteStream: the in-order byte stream (byte_stream.hh, byte_stream.cc)

    The concrete class, its representation invariant, and the refinement of an
    abstract bounded FIFO by every sequence of its operations. *)

From S2P Require Import Prelude.

(** ** The class *)

Record ByteStream := mkByteStream {
  _buf : bytes;
  _capacity : Z;
  _size : Z;
  _isInputEnd : bool;
  _num_bytes_written : Z;
  _num_bytes_read : Z;
  _error : bool }.

#[export] Instance eta_ByteStream : Eta ByteStream := fun s =>
  mkByteStream (_buf s) (_capacity s) (_size s) (_isInputEnd s)
    (_num_bytes_written s) (_num_bytes_read s) (_error s).

(** [ByteStream::ByteStream(capacity)], with the member initialisers of the header. *)
Definition new (capacity : Z) : ByteStream :=
  mkByteStream [] capacity 0 false 0 0 false.

Definition write (data : bytes) (s : ByteStream) : Z * ByteStream :=
  if _isInputEnd s || (_capacity s =? _size s) then (0, s)
  else
    let toWrite := Z.min (u64 (_capacity s - _size s)) (zlen data) in
    (toWrite,
     s <| _buf := ztake (_size s) (_buf s) ++ ztake toWrite data ++ zdrop (_size s) (_buf s) |>
       <| _size := u64 (_size s + toWrite) |>
       <| _num_bytes_written := u64 (_num_bytes_written s + toWrite) |>).

Definition remaining_capacity (s : ByteStream) : Z := u64 (_capacity s - _size s).

Definition end_input (s : ByteStream) : ByteStream := s <| _isInputEnd := true |>.

Definition set_error (s : ByteStream) : ByteStream := s <| _error := true |>.

Definition peek_output (len : Z) (s : ByteStream) : bytes :=
  let toPeek := Z.min (_size s) len in ztake toPeek (_buf s).

Definition pop_output (len : Z) (s : ByteStream) : ByteStream :=
  let toPop := Z.min (_size s) len in
  s <| _buf := zdrop toPop (_buf s) |>
    <| _size := u64 (_size s - toPop) |>
    <| _num_bytes_read := u64 (_num_bytes_read s + toPop) |>.

Definition read (len : Z) (s : ByteStream) : bytes * ByteStream :=
  let rst := peek_output len s in (rst, pop_output len s).

Definition input_ended (s : ByteStream) : bool := _isInputEnd s.
Definition error (s : ByteStream) : bool := _error s.
Definition buffer_size (s : ByteStream) : Z := _size s.
Definition buffer_empty (s : ByteStream) : bool := _size s =? 0.
Definition eof (s : ByteStream) : bool := (_size s =? 0) && _isInputEnd s.
Definition bytes_written (s : ByteStream) : Z := _num_bytes_written s.
Definition bytes_read (s : ByteStream) : Z := _num_bytes_read s.

(** ** Representation invariant *)

Record wf (s : ByteStream) : Prop := mk_wf {
  wf_capacity : is_u64 (_capacity s);
  wf_size : _size s = zlen (_buf s);
  wf_bound : _size s <= _capacity s;
  wf_written : is_u64 (_num_bytes_written s);
  wf_read : is_u64 (_num_bytes_read s);
  wf_count : u64 (_num_bytes_written s - _num_bytes_read s) = _size s }.

Lemma bs_wf_new capacity : is_u64 capacity -> wf (new capacity).
Proof. intros. split; simpl; try lia. done. Qed.

Lemma bs_write_bounds data s :
  wf s -> 0 <= fst (write data s) <= Z.min (_capacity s - _size s) (zlen data).
Proof.
  intros [Hc Hs Hb _ _ _]. unfold write.
  destruct (_isInputEnd s || _) eqn:E; simpl; [lia|]. rewrite u64_id by lia. lia.
Qed.

(** What [write] does to a well-formed stream, stated on the buffer alone. *)
Lemma bs_write_buf data s :
  wf s ->
  _buf (snd (write data s)) = _buf s ++ ztake (fst (write data s)) data /\
  _size (snd (write data s)) = _size s + fst (write data s).
Proof.
  intros [Hc Hs Hb _ _ _]. unfold write.
  destruct (_isInputEnd s || _) eqn:E; simpl.
  { autorewrite with zlist. split; [done|lia]. }
  rewrite (u64_id (_capacity s - _size s)) by lia.
  rewrite ztake_ge, zdrop_ge, app_nil_r, u64_id by lia. done.
Qed.

Lemma bs_write_wf data s : wf s -> wf (snd (write data s)).
Proof.
  intros H. pose proof (bs_write_bounds data s H) as Hn.
  pose proof (bs_write_buf data s H) as [Hb Hs]. destruct H as [Hc Hsz Hbd Hw Hr Hk].
  split; rewrite ?Hb, ?Hs; autorewrite with zlist; try lia;
    unfold write in *; destruct (_isInputEnd s || _); simpl in *; try lia;
    autorewrite with zlist; eauto with zlist; ulia.
Qed.

(** The number of bytes accepted: everything that fits, nothing once the input ended. *)
Lemma bs_write_count data s :
  wf s ->
  fst (write data s) =
    if _isInputEnd s then 0 else Z.min (_capacity s - _size s) (zlen data).
Proof.
  intros [Hc Hs Hb _ _ _]. unfold write.
  destruct (_isInputEnd s); simpl; [done|].
  destruct (_capacity s =? _size s) eqn:E; simpl; [lia|].
  rewrite u64_id by lia. done.
Qed.

Lemma bs_write_frame data s :
  _capacity (snd (write data s)) = _capacity s /\
  _isInputEnd (snd (write data s)) = _isInputEnd s /\
  _error (snd (write data s)) = _error s /\
  _num_bytes_read (snd (write data s)) = _num_bytes_read s.
Proof. unfold write. destruct (_isInputEnd s || _); done. Qed.

Lemma bs_write_written data s :
  wf s ->
  _num_bytes_written (snd (write data s)) =
    u64 (_num_bytes_written s + fst (write data s)).
Proof.
  intros [_ _ _ Hw _ _]. unfold write. destruct (_isInputEnd s || _); simpl; [|done].
  rewrite u64_id by lia. lia.
Qed.

Lemma bs_pop_output_buf len s :
  wf s -> 0 <= len ->
  _buf (pop_output len s) = zdrop len (_buf s) /\
  _size (pop_output len s) = Z.max 0 (_size s - len).
Proof.
  intros [Hc Hs Hb _ _ _] Hl. unfold pop_output; simpl. rewrite u64_id by lia.
  split; [|lia]. destruct (decide (len <= _size s)).
  - by rewrite Z.min_r by lia.
  - by rewrite !zdrop_ge by lia.
Qed.

Lemma bs_pop_output_wf len s : wf s -> 0 <= len -> wf (pop_output len s).
Proof.
  intros H Hl. pose proof (bs_pop_output_buf len s H Hl) as [Hb Hs].
  destruct H as [Hc Hsz Hbd Hw Hr Hk].
  split; rewrite ?Hb, ?Hs; unfold pop_output; simpl; autorewrite with zlist;
    eauto with zlist; try lia. ulia.
Qed.

Lemma bs_peek_output_spec len s :
  wf s -> 0 <= len -> peek_output len s = ztake len (_buf s).
Proof.
  intros [_ Hs _ _ _ _] Hl. unfold peek_output. destruct (decide (len <= _size s)).
  - by rewrite Z.min_r by lia.
  - rewrite !ztake_ge by lia. done.
Qed.

Lemma bs_remaining_capacity_spec s :
  wf s -> remaining_capacity s = _capacity s - _size s.
Proof. intros [? ? ? ? ? ?]. unfold remaining_capacity. apply u64_id. lia. Qed.

Lemma bs_end_input_wf s : wf s -> wf (end_input s).
Proof. by intros []; split. Qed.
Lemma bs_set_error_wf s : wf s -> wf (set_error s).
Proof. by intros []; split. Qed.

(** ** The abstract stream: a bounded FIFO with its whole history *)

Record fifo := mk_fifo {
  hist : bytes;          (** every byte accepted so far *)
  popped : Z;            (** how many of them have left *)
  bound : Z;
  ended : bool;
  failed : bool }.

Definition fifo_new (capacity : Z) : fifo := mk_fifo [] 0 capacity false false.

Definition pending (f : fifo) : bytes := zdrop (popped f) (hist f).

Inductive op :=
| OpWrite (data : bytes)
| OpRead (len : Z)
| OpPop (len : Z)
| OpPeek (len : Z)
| OpEnd
| OpError.

Definition op_ok (o : op) : Prop :=
  match o with OpRead n | OpPop n | OpPeek n => is_u64 n | _ => True end.

(** What a caller sees: the value returned, then every accessor. *)
Record obs := mk_obs {
  o_count : Z;
  o_data : bytes;
  o_remaining : Z;
  o_buffered : Z;
  o_total_in : Z;
  o_total_out : Z;
  o_eof : bool;
  o_ended : bool;
  o_error : bool }.

Definition step (o : op) (s : ByteStream) : obs * ByteStream :=
  let '(n, d, s') :=
    match o with
    | OpWrite data => let '(n, s') := write data s in (n, [], s')
    | OpRead len => let '(d, s') := read len s in (0, d, s')
    | OpPop len => (0, [], pop_output len s)
    | OpPeek len => (0, peek_output len s, s)
    | OpEnd => (0, [], end_input s)
    | OpError => (0, [], set_error s)
    end in
  (mk_obs n d (remaining_capacity s') (buffer_size s') (bytes_written s')
     (bytes_read s') (eof s') (input_ended s') (error s'), s').

Definition fifo_step (o : op) (f : fifo) : obs * fifo :=
  let '(n, d, f') :=
    match o with
    | OpWrite data =>
      let n := if ended f then 0
               else Z.min (bound f - zlen (pending f)) (zlen data) in
      (n, [], mk_fifo (hist f ++ ztake n data) (popped f) (bound f) (ended f) (failed f))
    | OpRead len =>
      (0, ztake len (pending f),
       mk_fifo (hist f) (Z.min (popped f + len) (zlen (hist f))) (bound f) (ended f) (failed f))
    | OpPop len =>
      (0, [],
       mk_fifo (hist f) (Z.min (popped f + len) (zlen (hist f))) (bound f) (ended f) (failed f))
    | OpPeek len => (0, ztake len (pending f), f)
    | OpEnd => (0, [], mk_fifo (hist f) (popped f) (bound f) true (failed f))
    | OpError => (0, [], mk_fifo (hist f) (popped f) (bound f) (ended f) true)
    end in
  let p := pending f' in
  (mk_obs n d (bound f' - zlen p) (zlen p) (u64 (zlen (hist f'))) (u64 (popped f'))
     (bool_decide (p = []) && ended f') (ended f') (failed f'), f').

Section runs.
  Context {St : Type} (stp : op -> St -> obs * St).
Fixpoint run (ops : list op) (s : St) : list obs * St :=
    match ops with
    | [] => ([], s)
    | o :: ops => let '(b, s1) := stp o s in let '(bs, s2) := run ops s1 in (b :: bs, s2)
    end.
End runs.

(** The refinement relation. *)
Record refines (s : ByteStream) (f : fifo) : Prop := mk_refines {
  ref_wf : wf s;
  ref_popped : 0 <= popped f <= zlen (hist f);
  ref_buf : _buf s = pending f;
  ref_cap : _capacity s = bound f;
  ref_end : _isInputEnd s = ended f;
  ref_err : _error s = failed f;
  ref_in : _num_bytes_written s = u64 (zlen (hist f));
  ref_out : _num_bytes_read s = u64 (popped f) }.

Lemma bs_refines_accessors s f n d :
  refines s f ->
  mk_obs n d (remaining_capacity s) (buffer_size s) (bytes_written s)
    (bytes_read s) (eof s) (input_ended s) (error s) =
  mk_obs n d (bound f - zlen (pending f)) (zlen (pending f)) (u64 (zlen (hist f)))
    (u64 (popped f)) (bool_decide (pending f = []) && ended f) (ended f) (failed f).
Proof.
  intros [W Hp Hb Hc He Hr Hi Ho]. pose proof (wf_size _ W) as Hs.
  rewrite bs_remaining_capacity_spec by done.
  unfold buffer_size, bytes_written, bytes_read, eof, input_ended, error.
  rewrite Hc, Hs, Hb, Hi, Ho, He, Hr. f_equal. f_equal.
  destruct (pending f); done.
Qed.

Lemma bs_zlen_pending f :
  0 <= popped f <= zlen (hist f) -> zlen (pending f) = zlen (hist f) - popped f.
Proof. intros. unfold pending. rewrite zlen_zdrop by lia. lia. Qed.

Lemma bs_refines_write data s f :
  refines s f ->
  let n := fst (write data s) in
  n = (if ended f then 0 else Z.min (bound f - zlen (pending f)) (zlen data)) /\
  refines (snd (write data s))
    (mk_fifo (hist f ++ ztake n data) (popped f) (bound f) (ended f) (failed f)).
Proof.
  intros [W Hp Hb Hc He Hr Hi Ho] n.
  pose proof (bs_write_bounds data s W) as Hn. pose proof (bs_write_buf data s W) as [Hb' Hs'].
  pose proof (bs_write_frame data s) as (Fc & Fe & Fr & Fo).
  pose proof (bs_write_written data s W) as Hw. fold n in Hn, Hb', Hs', Hw.
  split.
  { unfold n. rewrite bs_write_count, He, Hc, (wf_size _ W), Hb by done. done. }
  split; simpl; rewrite ?Fc, ?Fe, ?Fr, ?Fo; try done.
  - by apply bs_write_wf.
  - autorewrite with zlist. lia.
  - rewrite Hb', Hb. unfold pending; simpl. rewrite zdrop_app_le by lia. done.
  - rewrite Hw, Hi, zlen_app, zlen_ztake, (Z.min_l n) by lia. ulia.
Qed.

Lemma bs_refines_pop len s f :
  refines s f -> 0 <= len ->
  refines (pop_output len s)
    (mk_fifo (hist f) (Z.min (popped f + len) (zlen (hist f))) (bound f) (ended f) (failed f)).
Proof.
  intros [W Hp Hb Hc He Hr Hi Ho] Hl.
  pose proof (bs_pop_output_buf len s W Hl) as [Hb' Hs'].
  split; simpl; try done.
  - by apply bs_pop_output_wf.
  - lia.
  - change (_buf (pop_output len s) = pending (mk_fifo (hist f)
      (Z.min (popped f + len) (zlen (hist f))) (bound f) (ended f) (failed f))).
    rewrite Hb', Hb. unfold pending; simpl. rewrite zdrop_zdrop by lia.
    destruct (decide (popped f + len <= zlen (hist f))).
    + by rewrite Z.min_l by lia.
    + by rewrite !zdrop_ge by lia.
  - rewrite (wf_size _ W), Hb, bs_zlen_pending, Ho by done. ulia.
Qed.

Lemma bs_refines_peek len s f :
  refines s f -> 0 <= len -> peek_output len s = ztake len (pending f).
Proof.
  intros R Hl. rewrite <- (ref_buf _ _ R). apply bs_peek_output_spec; [apply R|done].
Qed.

Lemma bs_refines_end s f :
  refines s f ->
  refines (end_input s) (mk_fifo (hist f) (popped f) (bound f) true (failed f)).
Proof. intros []; split; simpl; try done. by apply bs_end_input_wf. Qed.

Lemma bs_refines_error s f :
  refines s f ->
  refines (set_error s) (mk_fifo (hist f) (popped f) (bound f) (ended f) true).
Proof. intros []; split; simpl; try done. by apply bs_set_error_wf. Qed.

Lemma bs_refines_step o s f :
  refines s f -> op_ok o ->
  fst (step o s) = fst (fifo_step o f) /\ refines (snd (step o s)) (snd (fifo_step o f)).
Proof.
  intros R Hok. unfold step, fifo_step.
  destruct o as [data|len|len|len| |]; simpl in *.
  - pose proof (bs_refines_write data s f R) as [Hn R']. destruct (write data s) as [n s'].
    simpl in *. rewrite <- Hn. split; [|done]. exact (bs_refines_accessors _ _ n [] R').
  - rewrite (bs_refines_peek len s f) by (done || lia).
    pose proof (bs_refines_pop len s f R ltac:(lia)) as R'.
    split; [exact (bs_refines_accessors _ _ 0 _ R')|done].
  - pose proof (bs_refines_pop len s f R ltac:(lia)) as R'.
    split; [exact (bs_refines_accessors _ _ 0 _ R')|done].
  - rewrite (bs_refines_peek len s f) by (done || lia).
    split; [by apply bs_refines_accessors|done].
  - pose proof (bs_refines_end s f R) as R'.
    split; [exact (bs_refines_accessors _ _ 0 _ R')|done].
  - pose proof (bs_refines_error s f R) as R'.
    split; [exact (bs_refines_accessors _ _ 0 _ R')|done].
Qed.

Lemma bs_refines_run ops s f :
  refines s f -> Forall op_ok ops ->
  fst (run step ops s) = fst (run fifo_step ops f) /\
  refines (snd (run step ops s)) (snd (run fifo_step ops f)).
Proof.
  revert s f. induction ops as [|o ops IH]; intros s f R Hok; simpl; [done|].
  inversion Hok as [|? ? Ho Hok']; subst; clear Hok; rename Hok' into Hok.
  pose proof (bs_refines_step o s f R Ho) as [Hobs R'].
  destruct (step o s) as [b s1], (fifo_step o f) as [b' f1]; simpl in *. subst b'.
  pose proof (IH s1 f1 R' Hok) as [Hrest R''].
  destruct (run step ops s1), (run fifo_step ops f1); simpl in *. by subst.
Qed.

Lemma bs_refines_new capacity : is_u64 capacity -> refines (new capacity) (fifo_new capacity).
Proof. intros. split; simpl; try done. by apply bs_wf_new. Qed.

(** ** Properties *)

(** C26. Every sequence of calls on a fresh stream (writes, reads, pops, peeks,
    end of input, error) returns the values, and shows after each call the
    accessor values, of a bounded FIFO that remembers its whole history: reads
    return exactly the bytes written, in order, without loss or duplication, a
    write accepts exactly what fits until the input has ended, and the counters
    are the totals modulo 2^64. *)
Theorem byte_stream_refines_fifo capacity ops :
  is_u64 capacity -> Forall op_ok ops ->
  fst (run step ops (new capacity)) = fst (run fifo_step ops (fifo_new capacity)).
Proof. intros Hc Hok. by apply bs_refines_run; [apply bs_refines_new|]. Qed.

Lemma byte_stream_refines_fifo_witness :
  fst (run step [OpWrite [x61; x62; x63]; OpRead 1; OpWrite [x64; x65]; OpEnd; OpRead 5] (new 3)) =
  fst (run fifo_step [OpWrite [x61; x62; x63]; OpRead 1; OpWrite [x64; x65]; OpEnd; OpRead 5]
         (fifo_new 3)).
Proof.
  apply byte_stream_refines_fifo; [lia|]. repeat constructor; simpl; lia.
Defined.

(** Every state a client can reach satisfies the representation invariant:
    [_size] is the length of the deque, it never exceeds the capacity, and it is
    the difference of the two byte counters; hence no call forms an iterator
    outside the deque and none of the subtractions underflows. *)
Theorem byte_stream_invariant capacity ops :
  is_u64 capacity -> Forall op_ok ops -> wf (snd (run step ops (new capacity))).
Proof. intros Hc Hok. by eapply ref_wf, bs_refines_run; [apply bs_refines_new|]. Qed.

Lemma byte_stream_invariant_witness :
  wf (snd (run step [OpWrite [x61; x62]; OpPop 7; OpWrite [x63]; OpError] (new 2))).
Proof. apply byte_stream_invariant; [lia|]. repeat constructor; simpl; lia. Defined.
