(* ===== verification/WrappingIntegers.v ===== *)
(** * WrappingIntegers: 32-bit sequence numbers (wrapping_integers.hh, wrapping_integers.cc)

    The class [WrappingInt32] with its operators, and the translation between
    64-bit absolute sequence numbers and 32-bit relative ones. *)

From S2P Require Import Prelude.

Record WrappingInt32 := mkWrappingInt32 { raw_value : Z }.

#[export] Instance WrappingInt32_eq_dec : EqDecision WrappingInt32.
Proof. intros [a] [b]. destruct (decide (a = b)); [left|right]; congruence. Defined.

(** Every value the program builds holds a [uint32_t]. *)
Definition valid (a : WrappingInt32) : Prop := is_u32 (raw_value a).

(** [operator-(WrappingInt32, WrappingInt32)]: the [uint32_t] difference converted to [int32_t]. *)
Definition sub (a b : WrappingInt32) : Z := i32 (u32 (raw_value a - raw_value b)).

(** [operator==] and [operator!=]. *)
Definition eqb (a b : WrappingInt32) : bool := raw_value a =? raw_value b.
Definition neqb (a b : WrappingInt32) : bool := negb (eqb a b).

(** [operator+(WrappingInt32, uint32_t)] and [operator-(WrappingInt32, uint32_t)]. *)
Definition add (a : WrappingInt32) (b : Z) : WrappingInt32 :=
  mkWrappingInt32 (u32 (raw_value a + b)).
Definition sub_int (a : WrappingInt32) (b : Z) : WrappingInt32 := add a (u32 (- b)).

Definition wrap (n : Z) (isn : WrappingInt32) : WrappingInt32 := add isn (u32 n).

(** [rst] is an [int64_t]: the conversion of the checkpoint and the addition of
    [1ul << 32] (done in [unsigned long]) are written out.  For checkpoints below
    2^63 - 2^31 the signed subtraction cannot overflow. *)
Definition unwrap (n isn : WrappingInt32) (checkpoint : Z) : Z :=
  let dis := sub (wrap checkpoint isn) n in
  let rst := i64 (i64 checkpoint - dis) in
  let rst := if rst <? 0 then i64 (u64 (rst + 0x100000000)) else rst in
  u64 rst.

(** ** Lemmas *)

Lemma wrap_valid n isn : valid (wrap n isn).
Proof. apply u32_range. Qed.
#[export] Hint Resolve wrap_valid : zlist.

Lemma eqb_spec a b : eqb a b = true <-> a = b.
Proof. unfold eqb. destruct a as [a], b as [b]; simpl. rewrite Z.eqb_eq. naive_solver. Qed.

Lemma raw_wrap n isn : raw_value (wrap n isn) = u32 (raw_value isn + n).
Proof. unfold wrap, add; simpl. ulia. Qed.

Lemma wrap_add n m isn : wrap (n + m) isn = add (wrap n isn) (u32 m).
Proof. unfold wrap, add; simpl. f_equal. ulia. Qed.

(** Equal relative numbers are those of absolute numbers that differ by a multiple of 2^32. *)
Lemma wrap_eq_iff x y isn : wrap x isn = wrap y isn <-> u32 (x - y) = 0.
Proof.
  split.
  - intros H. apply (f_equal raw_value) in H. rewrite !raw_wrap in H. ulia.
  - intros H. unfold wrap, add. f_equal. ulia.
Qed.

Lemma sub_wrap c x isn :
  -0x80000000 <= c - x < 0x80000000 -> sub (wrap c isn) (wrap x isn) = c - x.
Proof. intros H. unfold sub. rewrite !raw_wrap. ulia. Qed.

(** Every valid relative number is that of an absolute one within 2^31 of the checkpoint. *)
Lemma wrap_near c n isn :
  valid n -> exists x, n = wrap x isn /\ -0x80000000 <= c - x < 0x80000000.
Proof.
  intros Hn. exists (c - sub (wrap c isn) n). unfold sub.
  rewrite raw_wrap. destruct n as [n]; unfold valid in Hn; cbn [raw_value] in *. split.
  - unfold wrap, add. f_equal. ulia.
  - ulia.
Qed.

(** The value [unwrap] returns, before it is known which absolute number was meant. *)
Lemma unwrap_eq x isn c :
  0 <= c < 0x7fffffff80000000 -> -0x80000000 <= c - x < 0x80000000 ->
  unwrap (wrap x isn) isn c = if x <? 0 then x + 0x100000000 else x.
Proof.
  intros Hc Hx. unfold unwrap. rewrite sub_wrap by done.
  replace (i64 (i64 c - (c - x))) with x by ulia.
  destruct (x <? 0) eqn:E; ulia.
Qed.

Lemma unwrap_first x isn :
  0 < x < 0x80000000 -> unwrap (wrap x isn) isn 0 = x.
Proof. intros Hx. rewrite unwrap_eq by lia. by rewrite (proj2 (Z.ltb_ge x 0)) by lia. Qed.

(** ** Properties *)

(** C34. Round trip: an absolute sequence number is recovered from its 32-bit
    form whenever the checkpoint is within half the sequence space of it. *)
Theorem unwrap_wrap x isn checkpoint :
  0 <= checkpoint < 0x7fffffff80000000 -> 0 <= x ->
  -0x80000000 <= checkpoint - x < 0x80000000 ->
  unwrap (wrap x isn) isn checkpoint = x.
Proof.
  intros Hc Hx Hd. rewrite unwrap_eq by done. destruct (x <? 0) eqn:E; lia.
Qed.

Lemma unwrap_wrap_witness :
  unwrap (wrap (3 * 0x100000000 + 17) (mkWrappingInt32 0xfffffff0)) (mkWrappingInt32 0xfffffff0)
    (3 * 0x100000000 - 5) = 3 * 0x100000000 + 17.
Proof. apply unwrap_wrap; lia. Defined.

(** What [unwrap] returns wraps back to the number it was given, and no other
    64-bit absolute number that does so is closer to the checkpoint. *)
Theorem unwrap_closest n isn checkpoint r :
  0 <= checkpoint < 0x7fffffff80000000 -> valid n ->
  is_u64 r -> wrap r isn = n ->
  wrap (unwrap n isn checkpoint) isn = n /\
  0 <= unwrap n isn checkpoint /\
  Z.abs (unwrap n isn checkpoint - checkpoint) <= Z.abs (r - checkpoint).
Proof.
  intros Hc Hn Hr Hw. destruct (wrap_near checkpoint n isn Hn) as (x & -> & Hx).
  rewrite unwrap_eq by done. apply wrap_eq_iff in Hw. destruct (x <? 0) eqn:E.
  - split_and!; [apply wrap_eq_iff; ulia|lia|ulia].
  - split_and!; [done|lia|ulia].
Qed.

Lemma unwrap_closest_witness :
  wrap (unwrap (mkWrappingInt32 5) (mkWrappingInt32 7) 0) (mkWrappingInt32 7) = mkWrappingInt32 5 /\
  0 <= unwrap (mkWrappingInt32 5) (mkWrappingInt32 7) 0 /\
  Z.abs (unwrap (mkWrappingInt32 5) (mkWrappingInt32 7) 0 - 0) <= Z.abs (0xfffffffe - 0).
Proof. apply unwrap_closest; unfold valid; simpl; [lia|lia|lia|reflexivity]. Defined.

(** For a checkpoint at or above 2^63 the result is negative as [int64_t], so
    the correction meant for results below zero is applied as well: unwrapping the
    checkpoint's own relative number gives a number 2^32 too large, although the
    documentation promises the closest one for every 64-bit checkpoint. *)
Theorem unwrap_above_int64_max isn checkpoint :
  0x8000000000000000 <= checkpoint < 0xffffffff00000000 ->
  unwrap (wrap checkpoint isn) isn checkpoint = checkpoint + 0x100000000.
Proof.
  intros Hc. unfold unwrap. rewrite sub_wrap by lia.
  replace (i64 (i64 checkpoint - (checkpoint - checkpoint)))
    with (checkpoint - 0x10000000000000000) by ulia.
  destruct (_ <? 0) eqn:E; ulia.
Qed.

Lemma unwrap_above_int64_max_witness :
  unwrap (wrap 0x8000000000000000 (mkWrappingInt32 0)) (mkWrappingInt32 0) 0x8000000000000000 =
  0x8000000000000000 + 0x100000000.
Proof. apply unwrap_above_int64_max. lia. Defined.
