(* ===== verification/StdMap.v ===== *)
(** * StdMap: the part of [std::map<size_t, std::string>] and [std::string] the program uses

    A map is the list of its elements in key order.  An iterator is a position
    in that list: the elements before it and the elements from it on; [end()] is
    the position with nothing after it. *)

From S2P Require Import Prelude.

Abbreviation strmap := (list (Z * bytes)).

Record iter := mk_iter { before : strmap; from : strmap }.

Definition begin (m : strmap) : iter := mk_iter [] m.
Definition end_ (m : strmap) : iter := mk_iter m [].

(** The map an iterator walks over. *)
Definition whole (it : iter) : strmap := before it ++ from it.

(** First element whose key satisfies [p], for the monotone predicates of the bounds. *)
Fixpoint seek (p : Z -> bool) (m : strmap) : iter :=
  match m with
  | [] => mk_iter [] []
  | (k, v) :: m' =>
    if p k then mk_iter [] m
    else let it := seek p m' in mk_iter ((k, v) :: before it) (from it)
  end.
Definition lower_bound (key : Z) (m : strmap) : iter := seek (fun k => key <=? k) m.
Definition upper_bound (key : Z) (m : strmap) : iter := seek (fun k => key <? k) m.

(** [it != m.begin()] and [--it]. *)
Definition is_begin (it : iter) : bool := match before it with [] => true | _ => false end.
Definition prev (it : iter) : iter :=
  match last (before it) with
  | Some e => mk_iter (removelast (before it)) (e :: from it)
  | None => it
  end.

(** [it->first].  The element at [end()] does not exist, and the C++ standard leaves the read undefined: [past] is what it
    does, some value in an implementation that goes on, or a fault. *)
Definition first (past : outcome Z) (it : iter) : outcome Z :=
  match from it with (k, _) :: _ => Ok k | [] => past end.

(** [m\[key\] = v]. *)
Fixpoint assign (key : Z) (v : bytes) (m : strmap) : strmap :=
  match m with
  | [] => [(key, v)]
  | (k, w) :: m' =>
    if key <? k then (key, v) :: m
    else if key =? k then (key, v) :: m'
    else (k, w) :: assign key v m'
  end.

(** [s.replace(pos, n, t)] for [pos <= s.size()]. *)
Definition replace (pos n : Z) (t s : bytes) : bytes :=
  ztake pos s ++ t ++ zdrop (pos + n) s.

Arguments replace : simpl never.

(** ** Well-formed segment maps

    [chain lo m hi]: the segments of [m] are non-empty, in order, disjoint, and
    lie between the indices [lo] and [hi]. *)

Fixpoint chain (lo : Z) (m : strmap) (hi : Z) : Prop :=
  match m with
  | [] => lo <= hi
  | (k, v) :: m' => lo <= k /\ 0 < zlen v /\ chain (k + zlen v) m' hi
  end.

(** The byte stored at absolute index [j], if any. *)
Fixpoint content (m : strmap) (j : Z) : option byte :=
  match m with
  | [] => None
  | (k, v) :: m' =>
    if decide (k <= j < k + zlen v) then zget v (j - k) else content m' j
  end.

(** The number of bytes stored. *)
Fixpoint total (m : strmap) : Z :=
  match m with [] => 0 | (_, v) :: m' => zlen v + total m' end.

(** [data] written over a partial function from index [idx] on. *)
Definition splice (idx : Z) (data : bytes) (f : Z -> option byte) (j : Z) : option byte :=
  if decide (idx <= j < idx + zlen data) then zget data (j - idx) else f j.

Lemma chain_le lo m hi : chain lo m hi -> lo <= hi.
Proof.
  revert lo. induction m as [|[k v] m IH]; intros lo; simpl; [done|].
  intros (? & ? & H%IH). lia.
Qed.

Lemma chain_weaken lo lo' m hi : lo' <= lo -> chain lo m hi -> chain lo' m hi.
Proof. destruct m as [|[k v] m]; simpl; [lia|]. intros ? (? & ? & ?). split_and!; [lia|done|done]. Qed.

Lemma chain_weaken_hi lo m hi hi' : hi <= hi' -> chain lo m hi -> chain lo m hi'.
Proof.
  intros Hh. revert lo. induction m as [|[k v] m IH]; intros lo; simpl; [lia|].
  intros (? & ? & ?). split_and!; auto.
Qed.

Lemma chain_app lo m1 m2 hi :
  chain lo (m1 ++ m2) hi <-> exists mid, chain lo m1 mid /\ chain mid m2 hi.
Proof.
  revert lo. induction m1 as [|[k v] m1 IH]; intros lo; simpl.
  - split.
    + intros H. exists lo. split; [lia|done].
    + intros (mid & ? & H). by apply (chain_weaken mid).
  - rewrite IH. split.
    + intros (? & ? & mid & ? & ?). by exists mid.
    + intros (mid & (? & ? & ?) & ?). split_and!; [done|done|by exists mid].
Qed.

Lemma content_app m1 m2 lo mid hi j :
  chain lo m1 mid -> chain mid m2 hi ->
  content (m1 ++ m2) j = if decide (j < mid) then content m1 j else content m2 j.
Proof.
  revert lo. induction m1 as [|[k v] m1 IH]; intros lo; simpl.
  - intros Hlo H2. case_decide; [|done].
    clear lo Hlo. revert mid H2 H. induction m2 as [|[k v] m2 IH]; intros mid; simpl; [done|].
    intros (? & ? & ?) ?. rewrite decide_False by lia. eapply IH; [done|lia].
  - intros (? & ? & H1) H2. rewrite (IH _ H1 H2).
    pose proof (chain_le _ _ _ H1). repeat case_decide; try done; lia.
Qed.

Lemma content_below lo m hi j : chain lo m hi -> j < lo -> content m j = None.
Proof.
  revert lo. induction m as [|[k v] m IH]; intros lo; simpl; [done|].
  intros (? & ? & Hc) ?. rewrite decide_False by lia. eapply IH; [done|lia].
Qed.

Lemma content_above lo m hi j : chain lo m hi -> hi <= j -> content m j = None.
Proof.
  revert lo. induction m as [|[k v] m IH]; intros lo; simpl; [done|].
  intros (? & ? & Hc) ?. pose proof (chain_le _ _ _ Hc).
  rewrite decide_False by lia. by eapply IH.
Qed.

Lemma total_app m1 m2 : total (m1 ++ m2) = total m1 + total m2.
Proof. induction m1 as [|[k v] m1 IH]; simpl; lia. Qed.

Lemma total_bounds lo m hi : chain lo m hi -> 0 <= total m <= hi - lo.
Proof.
  revert lo. induction m as [|[k v] m IH]; intros lo; simpl; [lia|].
  intros (? & ? & H%IH). lia.
Qed.

(** ** The bounds on a well-formed map *)

Lemma seek_whole p m : whole (seek p m) = m.
Proof.
  induction m as [|[k v] m IH]; simpl; [done|]. destruct (p k); [done|].
  unfold whole in *; simpl. by rewrite IH.
Qed.

Lemma seek_split p A B :
  Forall (fun e => p e.1 = false) A ->
  match B with [] => True | (k, _) :: _ => p k = true end ->
  seek p (A ++ B) = mk_iter A B.
Proof.
  intros HA HB. induction HA as [|[k v] A Hk HA IH]; simpl in *.
  - destruct B as [|[k v] B]; simpl; [done|]. by rewrite HB.
  - rewrite Hk, IH. done.
Qed.

Lemma chain_keys lo m hi : chain lo m hi -> Forall (fun e => lo <= e.1 < hi) m.
Proof.
  revert lo. induction m as [|[k v] m IH]; intros lo; simpl; [done|].
  intros (? & ? & Hc). pose proof (chain_le _ _ _ Hc). constructor; simpl; [lia|].
  eapply Forall_impl; [by apply IH|]. simpl. lia.
Qed.

Lemma prev_snoc A e B : prev (mk_iter (A ++ [e]) B) = mk_iter A (e :: B).
Proof. unfold prev; simpl. by rewrite last_snoc, removelast_last. Qed.

Lemma assign_gap lo A B hi key v :
  chain lo A key -> chain (key + zlen v) B hi -> 0 < zlen v ->
  assign key v (A ++ B) = A ++ (key, v) :: B.
Proof.
  intros HA HB Hv. revert lo HA. induction A as [|[k w] A IH]; intros lo; simpl.
  - intros _. destruct B as [|[k w] B]; simpl in *; [done|].
    destruct HB as (? & ? & ?). rewrite (proj2 (Z.ltb_lt key k)) by lia. done.
  - intros (? & ? & HA). pose proof (chain_le _ _ _ HA).
    rewrite (proj2 (Z.ltb_ge key k)), (proj2 (Z.eqb_neq key k)) by lia.
    by rewrite (IH _ HA).
Qed.

Lemma assign_not_nil key v m : assign key v m <> [].
Proof. destruct m as [|[k w] m]; cbn; [done|]. by repeat case_match. Qed.

(** ** Overwriting part of a segment *)

Lemma zlen_replace pos n t s :
  0 <= pos -> 0 <= n -> pos + n <= zlen s -> zlen (replace pos n t s) = zlen s - n + zlen t.
Proof.
  intros. unfold replace. rewrite !zlen_app, zlen_ztake, zlen_zdrop by lia. lia.
Qed.

Lemma zget_replace pos t s i :
  0 <= pos -> 0 <= i -> pos + zlen t <= zlen s ->
  zget (replace pos (zlen t) t s) i =
    if decide (pos <= i < pos + zlen t) then zget t (i - pos) else zget s i.
Proof.
  intros. unfold replace. rewrite !zget_app, zget_ztake, zlen_ztake, Z.min_l by lia.
  repeat case_decide; try done; try lia.
  rewrite zget_zdrop by lia. f_equal. lia.
Qed.

Lemma splice_split idx data n f j :
  0 <= n <= zlen data ->
  splice (idx + n) (zdrop n data) (splice idx (ztake n data) f) j = splice idx data f j.
Proof.
  intros Hn. unfold splice. rewrite zlen_ztake, zlen_zdrop by lia.
  repeat case_decide; try done; try lia.
  - rewrite zget_zdrop by lia. f_equal. lia.
  - rewrite zget_ztake, decide_True by lia. done.
Qed.

Lemma splice_ext idx data f g j : f j = g j -> splice idx data f j = splice idx data g j.
Proof. unfold splice. by case_decide. Qed.

(** Overwriting part of one segment of a map: the shape is kept and the new
    bytes are spliced in. *)
Lemma chain_update lo A k v v' B hi :
  zlen v' = zlen v -> chain lo (A ++ (k, v) :: B) hi -> chain lo (A ++ (k, v') :: B) hi.
Proof.
  intros Hv. rewrite !chain_app. intros (mid & HA & HB). exists mid. split; [done|].
  simpl in *. by rewrite Hv.
Qed.

Lemma content_update lo A k v B hi p t j :
  chain lo (A ++ (k, v) :: B) hi -> 0 <= p -> p + zlen t <= zlen v ->
  content (A ++ (k, replace p (zlen t) t v) :: B) j =
    splice (k + p) t (content (A ++ (k, v) :: B)) j.
Proof.
  intros Hc Hp Ht.
  assert (Hv : zlen (replace p (zlen t) t v) = zlen v) by (rewrite zlen_replace; lia).
  pose proof (chain_update _ _ _ _ _ _ _ Hv Hc) as Hc'.
  apply chain_app in Hc as (mid & HA & HB). apply chain_app in Hc' as (mid' & HA' & HB').
  unfold splice. rewrite !(content_app _ _ lo mid hi) by (done || by simpl in *; rewrite ?Hv).
  clear HA' HB' mid'. simpl in *. rewrite Hv. destruct HB as (? & ? & HB).
  repeat case_decide; try done; try lia.
  - rewrite zget_replace, decide_True by lia. f_equal. lia.
  - rewrite zget_replace, decide_False by lia. done.
Qed.

Lemma fst_update A k v v' (B : strmap) : (A ++ (k, v') :: B).*1 = (A ++ (k, v) :: B).*1.
Proof. by rewrite !fmap_app. Qed.

Lemma total_update A k v v' B :
  zlen v' = zlen v -> total (A ++ (k, v') :: B) = total (A ++ (k, v) :: B).
Proof. intros H. rewrite !total_app; simpl. lia. Qed.
