(* ===== verification/StreamReassembler.v ===== *)
(** * StreamReassembler (stream_reassembler.hh, stream_reassembler.cc)

    The class, the two lookups and [cutData] it is built from, and the theorem
    that [push_substring] maintains a partial view of the stream in which the
    newest copy of each byte wins and every contiguous byte is delivered. *)

From S2P Require Import Prelude.
From S2P Require Import ByteStream.
From S2P Require Import StdMap.

(** ** The class *)

Record StreamReassembler := mkStreamReassembler {
  _exIdx : Z;
  _unassembledStrs : strmap;
  _unassembledSize : Z;
  _eofSignRecv : bool;
  _eofIdx : Z;
  _output : ByteStream;
  _capacity : Z }.

#[export] Instance eta_StreamReassembler : Eta StreamReassembler := fun s =>
  mkStreamReassembler (_exIdx s) (_unassembledStrs s) (_unassembledSize s)
    (_eofSignRecv s) (_eofIdx s) (_output s) (_capacity s).

Definition new (capacity : Z) : StreamReassembler :=
  mkStreamReassembler 0 [] 0 false 0 (ByteStream.new capacity) capacity.

(** First stored element at or after [idx]. *)
Definition getBackItr (idx : Z) (m : strmap) : iter :=
  if idx =? 0 then upper_bound idx m else upper_bound (u64 (idx - 1)) m.

(** Last stored element at or before [idx], or [end()].  When the map is empty the source compares
    [end()->first] with [idx]; [past] is what reading it does. *)
Definition getFrontItr (past : outcome Z) (idx : Z) (m : strmap) : outcome iter :=
  let fIt := lower_bound (u64 (idx + 1)) m in
  let fIt := if is_begin fIt then fIt else prev fIt in
  key ← first past fIt;
  Ok (if idx <? key then end_ m else fIt).

(** What [cutData] returns ([drop], [newIdx]) with the effects on its reference
    parameter and on the members. *)
Record cut := mk_cut {
  drop : bool;
  newIdx : Z;
  cutStr : bytes;
  cutMap : strmap;
  cutSize : Z }.

(** The loop of the second part, over the elements from [bIt] on; [pre] are the
    elements before [bIt]. *)
Fixpoint cutBack (idx : Z) (data : bytes) (pre rest : strmap) (size : Z) : cut :=
  match rest with
  | [] => mk_cut false idx data (pre ++ rest) size
  | (bIdx, bData) :: rest' =>
    if u64 (idx + zlen data) <=? bIdx then mk_cut false idx data (pre ++ rest) size
    else if u64 (idx + zlen data) <=? u64 (bIdx + zlen bData) then
      if idx =? bIdx then
        mk_cut true 0 data (pre ++ (bIdx, replace 0 (zlen data) data bData) :: rest') size
      else
        let n := u64 (u64 (idx + zlen data) - bIdx) in
        let bData' := replace 0 n (ztake n (zdrop (u64 (bIdx - idx)) data)) bData in
        mk_cut false idx (ztake (u64 (bIdx - idx)) data) (pre ++ (bIdx, bData') :: rest') size
    else cutBack idx data pre rest' (u64 (size - zlen bData))
  end.

(** The first part: compare with what is already assembled, or with the stored
    element in front.  The result is final when [data] is dropped. *)
Definition cutFront (past : outcome Z) (exIdx idx : Z) (data : bytes) (m : strmap) (size : Z) : outcome cut :=
  if idx <? exIdx then
    if u64 (idx + zlen data) <=? exIdx then Ok (mk_cut true 0 data m size)
    else Ok (mk_cut false exIdx (zdrop (u64 (exIdx - idx)) data) m size)
  else
    fIt ← getFrontItr past idx m;
    match from fIt with
    | [] => Ok (mk_cut false idx data m size)
    | (fIdx, fData) :: rest =>
      let fTailIdxNext := u64 (fIdx + zlen fData) in
      if idx <? fTailIdxNext then
        if u64 (idx + zlen data) <=? fTailIdxNext then
          let fData' := replace (u64 (idx - fIdx)) (zlen data) data fData in
          Ok (mk_cut true 0 data (before fIt ++ (fIdx, fData') :: rest) size)
        else
          let n := u64 (fTailIdxNext - idx) in
          let fData' := replace (u64 (idx - fIdx)) n (ztake n data) fData in
          Ok (mk_cut false fTailIdxNext (zdrop n data) (before fIt ++ (fIdx, fData') :: rest) size)
      else Ok (mk_cut false idx data m size)
    end.

Definition cutData (past : outcome Z) (exIdx idx : Z) (data : bytes) (m : strmap) (size : Z) : outcome cut :=
  c ← cutFront past exIdx idx data m size;
  if drop c then Ok c
  else
    let bIt := getBackItr (newIdx c) (cutMap c) in
    Ok (cutBack (newIdx c) (cutStr c) (before bIt) (from bIt) (cutSize c)).

(** Step 3 of [push_substring], over the elements from [it] on.  When the output
    accepts only part of an element, the source erases the element and then goes
    on using [currIdx] and [currData], references into the erased node. *)
Fixpoint pushLoop (rest : strmap) (s : StreamReassembler) : outcome StreamReassembler :=
  match rest with
  | [] => Ok (s <| _unassembledStrs := [] |>)
  | (currIdx, currData) :: rest' =>
    if _exIdx s <? currIdx then Ok (s <| _unassembledStrs := rest |>)
    else
      let '(pushed, out) := write currData (_output s) in
      let exIdx := u64 (_exIdx s + pushed) in
      let out := if _eofSignRecv s && (_eofIdx s <=? exIdx) then end_input out else out in
      let s := s <| _exIdx := exIdx |> <| _output := out |>
                 <| _unassembledSize := u64 (_unassembledSize s - pushed) |> in
      if pushed <? zlen currData then Fault UseAfterErase
      else pushLoop rest' s
  end.

(** [push_substring], where a read of [end()->first] does [past]. *)
Definition push_substring_reading (past : outcome Z) (data : bytes) (index : Z) (eof : bool) (s : StreamReassembler)
  : outcome StreamReassembler :=
  if input_ended (_output s) then Ok s
  else
    let s :=
      if eof then
        let s := s <| _eofSignRecv := true |> <| _eofIdx := u64 (index + zlen data) |> in
        if _eofIdx s =? _exIdx s then s <| _output := end_input (_output s) |> else s
      else s in
    if zlen data =? 0 then Ok s
    else
      c ← cutData past (_exIdx s) index data (_unassembledStrs s) (_unassembledSize s);
      let s := s <| _unassembledStrs := cutMap c |> <| _unassembledSize := cutSize c |> in
      if drop c then Ok s
      else
        let firstUnacceptableIdx :=
          u64 (u64 (_exIdx s + _capacity s) - buffer_size (_output s)) in
        let s :=
          if newIdx c <? firstUnacceptableIdx then
            s <| _unassembledStrs := assign (newIdx c) (cutStr c) (_unassembledStrs s) |>
              <| _unassembledSize := u64 (_unassembledSize s + zlen (cutStr c)) |>
          else s in
        key ← first past (begin (_unassembledStrs s));
        if negb (_exIdx s =? key) then Ok s else pushLoop (_unassembledStrs s) s.

(** In an implementation that goes on after such a read; what value it finds makes no difference
    ([push_reads_any]). *)
Definition push_substring : bytes -> Z -> bool -> StreamReassembler -> outcome StreamReassembler :=
  push_substring_reading (Ok 0).

Definition unassembled_bytes (s : StreamReassembler) : Z := _unassembledSize s.
Definition empty (s : StreamReassembler) : bool := _unassembledSize s =? 0.
Definition stream_out (s : StreamReassembler) : ByteStream := _output s.

(** ** The lookups on a well-formed map *)

Lemma getBackItr_split lo A B hi idx :
  0 <= lo -> is_u64 idx -> chain lo A idx -> chain idx B hi ->
  (idx = 0 -> chain 1 B hi) ->
  getBackItr idx (A ++ B) = mk_iter A B.
Proof.
  intros Hlo Hidx HA HB H0. pose proof (chain_keys _ _ _ HA) as KA.
  unfold getBackItr, upper_bound. destruct (idx =? 0) eqn:E.
  - apply Z.eqb_eq in E as ->. apply seek_split.
    + eapply Forall_impl; [exact KA|]. simpl. lia.
    + destruct B as [|[k v] B]; [done|]. destruct (H0 eq_refl). lia.
  - rewrite u64_id by lia. apply seek_split.
    + eapply Forall_impl; [exact KA|]. simpl. lia.
    + destruct B as [|[k v] B]; [done|]. destruct HB. lia.
Qed.

(** [getFrontItr] splits the map after the last element at or before [idx]. *)
Lemma getFrontItr_split m lo hi idx :
  0 <= lo -> 0 <= idx < 0xffffffffffffffff -> idx < hi -> chain lo m hi ->
  (getFrontItr (Ok 0) idx m = Ok (end_ m) /\ (m = [] \/ chain (idx + 1) m hi)) \/
  (exists A k v B, m = A ++ (k, v) :: B /\ getFrontItr (Ok 0) idx m = Ok (mk_iter A ((k, v) :: B)) /\
     k <= idx /\ chain (Z.max (idx + 1) (k + zlen v)) B hi).
Proof.
  intros Hlo Hidx Hhi Hm.
  assert (exists P B, m = P ++ B /\ Forall (fun e => e.1 <= idx) P /\
            match B with [] => True | (k, _) :: _ => idx + 1 <= k end) as (P & B & -> & HP & HB).
  { clear Hlo. revert lo Hm. induction m as [|[k v] m IH]; intros lo; simpl.
    - intros _. by exists [], [].
    - intros (? & ? & Hc). destruct (decide (k <= idx)).
      + destruct (IH _ Hc) as (P & B & -> & HP & HB).
        exists ((k, v) :: P), B. split_and!; [done| |done]. by constructor.
      + exists [], ((k, v) :: m). split_and!; [done|done|lia]. }
  unfold getFrontItr, lower_bound. rewrite u64_id by lia.
  rewrite seek_split; [| |destruct B as [|[k v] B]; [done|lia]].
  2: { eapply Forall_impl; [exact HP|]. simpl. intros. lia. }
  apply chain_app in Hm as (mid & HcP & HcB). pose proof (chain_le _ _ _ HcB).
  destruct P as [|[k v] P' _] using rev_ind.
  - left. unfold first. simpl. destruct B as [|[k v] B]; simpl; [split; [by destruct (idx <? 0)|by left]|].
    rewrite (proj2 (Z.ltb_lt idx k)) by lia. split; [done|right].
    destruct HcB as (? & ? & ?). split_and!; [lia|done|done].
  - right. exists P', k, v, B. rewrite <- app_assoc; simpl.
    unfold is_begin. destruct (before (mk_iter (P' ++ [(k, v)]) B)) as [|e l] eqn:E.
    { simpl in E. by destruct P'. }
    rewrite prev_snoc; unfold first; simpl. apply Forall_app in HP as [_ HP].
    inversion HP as [|? ? Hk _]; simpl in Hk.
    rewrite (proj2 (Z.ltb_ge idx k)) by lia.
    apply chain_app in HcP as (mid' & _ & ? & ? & ?). simpl in *.
    split_and!; [done|done|lia|].
    destruct B as [|[k' v'] B]; simpl in *; [|by destruct HcB as (? & ? & ?); split_and!; [lia| |]].
    lia.
Qed.

(** Where [getFrontItr] reads [end()->first]: in an empty map, and what it reads makes no difference. *)
Lemma getFrontItr_past past idx m :
  getFrontItr past idx m = if bool_decide (m = []) then _ ← past; getFrontItr (Ok 0) idx m else getFrontItr (Ok 0) idx m.
Proof.
  unfold getFrontItr. case_bool_decide as Hm.
  { subst. unfold first. cbn. destruct past as [v|]; [|done]. cbn. by destruct (idx <? v), (idx <? 0). }
  set (it := lower_bound _ m). assert (Hw : whole it = m) by apply seek_whole. clearbody it.
  assert (exists k v l, from (if is_begin it then it else prev it) = (k, v) :: l) as (k & v & l & E).
  { destruct it as [A B]. unfold whole in Hw. cbn in Hw. destruct A as [|e A]; cbn [is_begin before].
    - destruct B as [|[k v] B]; [by subst|]. by exists k, v, B.
    - unfold prev. cbn [before]. destruct (last (e :: A)) as [[k v]|] eqn:El; [by exists k, v, B|].
      by apply last_None in El. }
  unfold first. by rewrite E.
Qed.

(** Whether a push reads [end()->first] there. *)
Definition reads_end (data : bytes) (idx : Z) (s : StreamReassembler) : bool :=
  negb (input_ended (_output s)) && (0 <? zlen data) && (_exIdx s <=? idx) && bool_decide (_unassembledStrs s = []).

Lemma cutData_past past exIdx idx data m size :
  cutData past exIdx idx data m size =
    if (exIdx <=? idx) && bool_decide (m = []) then _ ← past; cutData (Ok 0) exIdx idx data m size
    else cutData (Ok 0) exIdx idx data m size.
Proof.
  unfold cutData, cutFront. rewrite (Z.leb_antisym idx exIdx). destruct (idx <? exIdx); [done|]. rewrite (getFrontItr_past past).
  cbn [negb andb]. case_bool_decide; [|done]. by destruct past.
Qed.

(** The value such a read finds makes no difference to a push, wherever its data lies. *)
Lemma push_reads_any v data idx eof s : push_substring_reading (Ok v) data idx eof s = push_substring data idx eof s.
Proof.
  unfold push_substring, push_substring_reading. destruct (input_ended _); [done|]. cbv zeta.
  set (s0 := if eof then _ else s). destruct (zlen data =? 0); [done|]. rewrite (cutData_past (Ok v)).
  match goal with |- context [if ?b then _ else cutData _ _ _ _ _ _] => destruct b end; cbn [mbind outcome_bind];
    (destruct (cutData _ _ _ _ _ _) as [c|]; [|done]; cbn [mbind outcome_bind]; destruct (drop c); [done|];
     match goal with |- context [begin (_unassembledStrs ?t)] => set (s1 := t) end;
     unfold first; destruct (_unassembledStrs s1) as [|e m] eqn:Em; [|done]; cbn [begin from mbind outcome_bind pushLoop];
     assert (s1 <| _unassembledStrs := [] |> = s1) as -> by (clearbody s1; destruct s1; cbn in *; by subst);
     by destruct (negb _), (negb _)).
Qed.

(** ** What [cutData] does

    A cut of [data] at [idx] against the map [m], whose segments lie in [lo, hi):
    either the data is absorbed by segments already stored, which keep their
    places, or what is left of it fits a gap of the resulting map.  In both cases
    every byte of [data] has replaced the stored one. *)
Definition absorbed (lo hi idx : Z) (data : bytes) (m m' : strmap) : Prop :=
  chain lo m' hi /\ m'.*1 = m.*1 /\ total m' = total m /\
  (forall j, lo <= j -> content m' j = splice idx data (content m) j).

Definition fits (lo hi idx : Z) (data : bytes) (m : strmap) (newIdx : Z) (str : bytes)
    (m' : strmap) : Prop :=
  0 < zlen str <= zlen data /\ lo <= newIdx /\ newIdx + zlen str <= idx + zlen data /\
  exists A B, m' = A ++ B /\ chain lo A newIdx /\ chain (newIdx + zlen str) B hi /\
    (forall j, lo <= j ->
       content (A ++ (newIdx, str) :: B) j = splice idx data (content m) j).

(** The loop over the elements behind. *)
Lemma cutBack_spec rest : forall lo hi idx data pre size,
  0 <= idx <= lo -> 0 < zlen data -> idx + zlen data <= hi -> is_u64 hi ->
  chain lo rest hi -> is_u64 size -> total rest <= size ->
  let c := cutBack idx data pre rest size in
  (drop c = true /\ cutSize c = size /\
   exists v v' rest', rest = (idx, v) :: rest' /\ cutMap c = pre ++ (idx, v') :: rest' /\
     zlen v' = zlen v /\
     (forall j, idx <= j ->
        content ((idx, v') :: rest') j = splice idx data (content rest) j)) \/
  (drop c = false /\ newIdx c = idx /\ 0 < zlen (cutStr c) <= zlen data /\
   exists rest', cutMap c = pre ++ rest' /\ chain (idx + zlen (cutStr c)) rest' hi /\
     cutSize c = size - total rest + total rest' /\
     (forall j, idx <= j ->
        splice idx (cutStr c) (content rest') j = splice idx data (content rest) j)).
Proof.
  induction rest as [|[k v] rest IH]; intros lo hi idx data pre size Hidx Hd Hhi Hu Hc Hs Ht;
    simpl in *.
  { right. split_and!; try done; try lia. exists []. split_and!; try done; simpl; lia. }
  destruct Hc as (Hk & Hv & Hc). pose proof (chain_le _ _ _ Hc) as Hle.
  pose proof (total_bounds _ _ _ Hc) as Hrt.
  rewrite (u64_id (idx + zlen data)), (u64_id (k + zlen v)) by lia.
  destruct (idx + zlen data <=? k) eqn:E1; simpl.
  { right. split_and!; try done; try lia. exists ((k, v) :: rest).
    split_and!; try done; simpl; [|lia]. split_and!; [lia|done|done]. }
  destruct (idx + zlen data <=? k + zlen v) eqn:E2; [destruct (idx =? k) eqn:E3|]; simpl.
  - apply Z.eqb_eq in E3 as ->. left. split_and!; try done.
    exists v, (replace 0 (zlen data) data v), rest. split_and!; try done.
    + rewrite zlen_replace by lia. lia.
    + intros j Hj. simpl. unfold splice. rewrite zlen_replace by lia.
      repeat case_decide; try done; try lia.
      * rewrite zget_replace, decide_True by lia. f_equal. lia.
      * rewrite zget_replace, decide_False by lia. done.
  - right. rewrite !u64_id by lia. set (n := idx + zlen data - k).
    set (t := ztake n (zdrop (k - idx) data)).
    assert (Ht' : zlen t = n).
    { unfold t, n. rewrite zlen_ztake, zlen_zdrop by lia. lia. }
    rewrite zlen_ztake by lia. split_and!; try done; try lia.
    exists ((k, replace 0 n t v) :: rest). rewrite <- Ht'.
    split_and!; try done; simpl; rewrite ?zlen_replace by lia.
    + split_and!; [lia|lia|]. by replace (k + (zlen v - zlen t + zlen t)) with (k + zlen v) by lia.
    + lia.
    + intros j Hj. unfold splice. rewrite zlen_ztake by lia; simpl.
      rewrite ?zlen_replace by lia. repeat case_decide; try done; try lia.
      * rewrite zget_ztake, decide_True by lia. done.
      * rewrite zget_replace, decide_True by lia. unfold t.
        rewrite zget_ztake, decide_True, zget_zdrop by lia. f_equal. lia.
      * rewrite zget_replace, decide_False by lia. done.
  - rewrite u64_id by lia.
    destruct (IH (k + zlen v) hi idx data pre (size - zlen v)) as
      [(D & S & v0 & v' & rest' & -> & _)|(D & N & L & rest' & M & C & S & P)]; try done; try lia.
    { destruct Hc. lia. }
    right. split_and!; try done; try lia. exists rest'. split_and!; try done; [lia|].
    intros j Hj. rewrite P by done. unfold splice; simpl. repeat case_decide; try done; lia.
Qed.

(** The comparison with the front leaves a piece that starts where the elements
    before it end. *)
Definition trimmed (lo hi idx : Z) (data : bytes) (m : strmap) (c : cut) : Prop :=
  0 < zlen (cutStr c) <= zlen data /\ lo <= newIdx c /\
  newIdx c + zlen (cutStr c) = idx + zlen data /\
  (cutMap c).*1 = m.*1 /\ total (cutMap c) = total m /\
  (forall j, lo <= j ->
     splice (newIdx c) (cutStr c) (content (cutMap c)) j = splice idx data (content m) j) /\
  exists A B, cutMap c = A ++ B /\ chain lo A (newIdx c) /\ chain (newIdx c) B hi /\
    (newIdx c = 0 -> chain 1 B hi).

(** Past data is cut off at the first unassembled index. *)
Lemma cutFront_old exIdx hi idx data m size :
  0 <= idx < exIdx -> 0 < zlen data -> idx + zlen data <= hi -> is_u64 hi ->
  chain exIdx m hi ->
  exists c, cutFront (Ok 0) exIdx idx data m size = Ok c /\ cutSize c = size /\
  if drop c then absorbed exIdx hi idx data m (cutMap c) else trimmed exIdx hi idx data m c.
Proof.
  intros Hi Hd Hhi Hu Hc. unfold cutFront. rewrite (proj2 (Z.ltb_lt idx exIdx)) by lia.
  rewrite u64_id by lia. destruct (idx + zlen data <=? exIdx) eqn:E; (eexists; split; [done|]); simpl.
  - split; [done|]. unfold absorbed. split_and!; try done.
    intros j Hj. unfold splice. rewrite decide_False by lia. done.
  - rewrite u64_id by lia. split; [done|].
    unfold trimmed; simpl. rewrite zlen_zdrop by lia.
    split_and!; try done; try lia.
    + intros j Hj. unfold splice. rewrite zlen_zdrop by lia.
      repeat case_decide; try done; try lia. rewrite zget_zdrop by lia. f_equal. lia.
    + exists [], m. split_and!; try done; [simpl; lia|intros ->; lia].
Qed.

(** Data that reaches over the end of the stored element [(k, v)] leaves its overlap there. *)
Lemma cut_across exIdx hi idx data A k v B size :
  0 <= exIdx -> chain exIdx (A ++ (k, v) :: B) hi -> k <= idx < k + zlen v -> k + zlen v < idx + zlen data ->
  let w := k + zlen v - idx in
  trimmed exIdx hi idx data (A ++ (k, v) :: B)
    (mk_cut false (k + zlen v) (zdrop w data) (A ++ (k, replace (idx - k) w (ztake w data) v) :: B) size).
Proof.
  intros Hex Hc Hk Hd w. pose proof Hc as Hc'. apply chain_app in Hc' as (mid & HA & Hmk & Hv & HB).
  pose proof (chain_le _ _ _ HB). pose proof (chain_le _ _ _ HA). unfold trimmed; simpl.
  assert (Hn : zlen (ztake w data) = w) by (rewrite zlen_ztake; lia).
  replace (replace (idx - k) w) with (replace (idx - k) (zlen (ztake w data))) by (by rewrite Hn).
  assert (Hv' : zlen (replace (idx - k) (zlen (ztake w data)) (ztake w data) v) = zlen v)
    by (rewrite zlen_replace; lia).
  rewrite zlen_zdrop by lia. split_and!; try lia.
  - apply fst_update.
  - by apply total_update.
  - intros j _. rewrite (splice_ext _ _ _ (splice idx (ztake w data) (content (A ++ (k, v) :: B)))).
    + replace (k + zlen v) with (idx + w) by lia. by apply splice_split; lia.
    + erewrite content_update by (done || lia).
      by replace (k + (idx - k)) with idx by lia.
  - exists (A ++ [(k, replace (idx - k) (zlen (ztake w data)) (ztake w data) v)]), B.
    rewrite <- app_assoc. split_and!; try done; [|intros; lia].
    apply chain_app. exists mid. simpl. rewrite Hv'. split_and!; try done; lia.
Qed.

Lemma cutFront_spec exIdx hi idx data m size :
  0 <= exIdx -> 0 <= idx -> 0 < zlen data -> idx + zlen data <= hi -> is_u64 hi ->
  chain exIdx m hi ->
  exists c, cutFront (Ok 0) exIdx idx data m size = Ok c /\ cutSize c = size /\
  if drop c then absorbed exIdx hi idx data m (cutMap c) else trimmed exIdx hi idx data m c.
Proof.
  intros Hex Hi Hd Hhi Hu Hc. destruct (decide (idx < exIdx)).
  { apply cutFront_old; auto with lia. }
  unfold cutFront. rewrite (proj2 (Z.ltb_ge idx exIdx)) by lia.
  destruct (getFrontItr_split m exIdx hi idx) as [[-> Hm]|(A & k & v & B & -> & -> & Hk & HB)];
    try done; try lia; simpl.
  - eexists. split; [done|]. split; [done|]. unfold trimmed; simpl. split_and!; try done; try lia.
    exists [], m. split_and!; try done; [simpl; lia| |].
    + destruct Hm as [->|Hm]; simpl; [lia|]. by apply (chain_weaken (idx + 1)); [lia|].
    + intros ->. destruct Hm as [->|Hm]; simpl; [lia|done].
  - pose proof Hc as Hc'. apply chain_app in Hc' as (mid & HA & HkB).
    destruct HkB as (Hmk & Hv & HkB). pose proof (chain_le _ _ _ HkB). pose proof (chain_le _ _ _ HA).
    rewrite (u64_id (k + zlen v)), (u64_id (idx + zlen data)) by lia.
    destruct (idx <? k + zlen v) eqn:E1; [destruct (_ <=? _) eqn:E2|]; simpl; (eexists; split; [done|]; split; [done|]).
    + rewrite u64_id by lia.
      assert (Hv' : zlen (replace (idx - k) (zlen data) data v) = zlen v)
        by (rewrite zlen_replace; lia).
      unfold absorbed; simpl. split_and!.
      * by apply (chain_update _ _ _ v).
      * apply fst_update.
      * by apply total_update.
      * intros j _. erewrite content_update by (done || lia). unfold splice.
        by replace (k + (idx - k)) with idx by lia.
    + rewrite !u64_id by lia. apply cut_across; try done; lia.
    + unfold trimmed; simpl. split_and!; try done; try lia.
      exists (A ++ [(k, v)]), B. rewrite <- app_assoc. split_and!; try done; [| |intros; lia].
      * apply chain_app. exists mid. simpl. split_and!; try done; lia.
      * by apply (chain_weaken (Z.max (idx + 1) (k + zlen v))); [lia|].
Qed.

Lemma cutData_spec exIdx hi idx data m :
  0 <= exIdx -> 0 <= idx -> 0 < zlen data -> idx + zlen data <= hi -> is_u64 hi ->
  chain exIdx m hi ->
  exists c, cutData (Ok 0) exIdx idx data m (total m) = Ok c /\ cutSize c = total (cutMap c) /\
  if drop c then absorbed exIdx hi idx data m (cutMap c)
  else fits exIdx hi idx data m (newIdx c) (cutStr c) (cutMap c).
Proof.
  intros Hex Hi Hd Hhi Hu Hc. unfold cutData.
  destruct (cutFront_spec exIdx hi idx data m (total m) Hex Hi Hd Hhi Hu Hc) as (c & -> & Hs & Hf).
  cbn [mbind outcome_bind]. destruct (drop c) eqn:ED; (eexists; split; [done|]).
  { rewrite ED. split; [|done]. destruct Hf as (_ & _ & Ht & _). lia. }
  destruct Hf as (Hl & Hn & Hend & Hk & Ht & Hsp & A & B & HAB & HA & HB & H0).
  destruct c as [dr i str m1 sz]; simpl in *. subst.
  pose proof (total_bounds _ _ _ Hc). pose proof (total_bounds _ _ _ HB).
  pose proof (total_bounds _ _ _ HA). rewrite total_app in Ht.
  rewrite (getBackItr_split exIdx A B hi i) by (done || lia). simpl.
  destruct (cutBack_spec B i hi i str A (total m)) as
    [(D & S & v & v' & rest' & -> & M & Hv & P)|(D & N & L & rest' & M & C & S & P)];
    try done; try lia; rewrite D, S.
  - rewrite M. unfold absorbed. split; [by rewrite (total_update _ _ v), total_app|].
    assert (Hcm : chain exIdx (A ++ (i, v) :: rest') hi) by (apply chain_app; eauto).
    assert (Hcm' := chain_update _ _ _ _ v' _ _ Hv Hcm). split_and!; try done.
    + by rewrite (fst_update _ _ v).
    + rewrite (total_update _ _ v) by done. by rewrite total_app.
    + intros j Hj. rewrite <- Hsp by done.
      apply chain_app in Hcm as (mid & HA' & HB'). apply chain_app in Hcm' as (mid' & HA'' & HB'').
      assert (HBi : chain i ((i, v') :: rest') hi) by (destruct HB as (? & ? & ?); simpl; rewrite Hv; split_and!; [lia|lia|done]).
      unfold splice. rewrite !(content_app _ _ exIdx i hi) by done.
      specialize (P j). unfold splice in P. repeat case_decide; try done; try lia.
      all: apply P; lia.
  - rewrite M. split; [rewrite total_app; lia|]. rewrite N.
    unfold fits. split_and!; try lia. exists A, rest'. split_and!; try done.
    intros j Hj. rewrite <- Hsp by done.
    assert (HBi : chain i ((i, cutStr (cutBack i str A B (total m))) :: rest') hi)
      by (simpl; split_and!; [lia|lia|done]).
    unfold splice at 1. rewrite (content_app _ _ exIdx i hi) by done.
    rewrite (content_app _ _ exIdx i hi) by done. simpl.
    specialize (P j). unfold splice in P. repeat case_decide; try done; try lia.
    all: rewrite <- P by lia; done.
Qed.

(** ** Invariant

    [f] is the abstract output stream and [N] the length of the stream being
    reassembled.  [core] describes the state with [m] as the stored segments;
    [inv] adds that no stored byte could be delivered. *)

(** One past the last index the receiver accepts: what has been read plus the capacity. *)
Definition window_end (f : fifo) : Z := popped f + bound f.

Record core (N : Z) (s : StreamReassembler) (f : fifo) (m : strmap) : Prop := mk_core {
  core_out : refines (_output s) f;
  core_idx : _exIdx s = zlen (hist f);
  core_cap : _capacity s = bound f;
  core_chain : chain (_exIdx s) m (Z.min N (window_end f));
  core_size : _unassembledSize s = total m;
  core_eof : _eofSignRecv s = true -> _eofIdx s = N;
  core_ended : ended f = _eofSignRecv s && (_exIdx s =? N);
  core_bound : N + bound f < 0x10000000000000000 }.

Definition inv (N : Z) (s : StreamReassembler) (f : fifo) : Prop :=
  core N s f (_unassembledStrs s) /\ content (_unassembledStrs s) (_exIdx s) = None.

(** The bytes known so far, assembled or stored. *)
Definition view (f : fifo) (m : strmap) (j : Z) : option byte :=
  if decide (j < zlen (hist f)) then zget (hist f) j else content m j.

(** Two abstract outputs of which the second only has more history. *)
Definition extends (f f' : fifo) : Prop :=
  popped f' = popped f /\ bound f' = bound f /\ failed f' = failed f /\
  hist f `prefix_of` hist f'.

Lemma extends_refl f : extends f f.
Proof. by split_and!. Qed.

Lemma extends_trans f g h : extends f g -> extends g h -> extends f h.
Proof.
  intros (? & ? & ? & ?) (? & ? & ? & ?). split_and!; try congruence.
  by transitivity (hist g).
Qed.

Lemma chain_gap lo m hi :
  chain lo m hi ->
  content m lo = None <-> match m with [] => True | (k, _) :: _ => lo < k end.
Proof.
  destruct m as [|[k v] m]; simpl; [done|]. intros (? & ? & Hc). case_decide.
  - split; [|lia]. intros Hn. destruct (zget_is_Some v (lo - k)) as [b Hb]; [lia|congruence].
  - split; [lia|]. intros _. eapply content_below; [done|lia].
Qed.

Lemma core_range N s f m :
  core N s f m ->
  0 <= _exIdx s <= N /\ _exIdx s <= window_end f /\ is_u64 N /\
  is_u64 (window_end f) /\ 0 <= popped f <= _exIdx s /\ is_u64 (bound f).
Proof.
  intros [R Hi Hc Hch _ _ _ Hb]. pose proof (chain_le _ _ _ Hch) as Hle.
  destruct (ref_wf _ _ R) as [Hcap _ _ _ _ _]. rewrite (ref_cap _ _ R) in Hcap.
  pose proof (ref_popped _ _ R). unfold window_end in *. lia.
Qed.

Lemma inv_new N capacity :
  0 <= N -> 0 <= capacity -> N + capacity < 0x10000000000000000 ->
  inv N (new capacity) (fifo_new capacity).
Proof.
  intros. split; [|done].
  split; simpl; try done; [by apply bs_refines_new; lia|unfold window_end; simpl; lia].
Qed.

(** The reader taking bytes from the output only moves the window. *)
Lemma core_pop N s f m n :
  core N s f m -> 0 <= n ->
  core N (s <| _output := pop_output n (_output s) |>)
    (mk_fifo (hist f) (Z.min (popped f + n) (zlen (hist f))) (bound f) (ended f) (failed f)) m.
Proof.
  intros C Hn. pose proof (core_range _ _ _ _ C) as Hr.
  destruct C as [R Hi Hc Hch Hs He Hd Hb]. split; simpl; try done.
  - by apply bs_refines_pop.
  - eapply chain_weaken_hi; [|exact Hch]. unfold window_end in *; simpl. lia.
Qed.

Lemma inv_pop N s f n :
  inv N s f -> 0 <= n ->
  inv N (s <| _output := pop_output n (_output s) |>)
    (mk_fifo (hist f) (Z.min (popped f + n) (zlen (hist f))) (bound f) (ended f) (failed f)).
Proof. intros [C G] Hn. split; [by apply core_pop|done]. Qed.

(** Step 3 delivers every contiguous byte and nothing else changes. *)
Lemma pushLoop_spec N rest : forall s f,
  core N s f rest ->
  exists s' f', pushLoop rest s = Ok s' /\ inv N s' f' /\ extends f f' /\
    _eofSignRecv s' = _eofSignRecv s /\
    forall j, view f' (_unassembledStrs s') j = view f rest j.
Proof.
  induction rest as [|[k v] rest IH]; intros s f C; simpl.
  - exists (s <| _unassembledStrs := [] |>), f.
    split_and!; try done. destruct C; split; [by split|done].
  - pose proof (core_range _ _ _ _ C) as Hr.
    destruct C as [R Hi Hc (Hk & Hv & Hch) Hs He Hd Hb]. pose proof (chain_le _ _ _ Hch) as Hle.
    destruct (_exIdx s <? k) eqn:Ek.
    { exists (s <| _unassembledStrs := (k, v) :: rest |>), f. split_and!; try done.
      split; [by split|].
      simpl. rewrite decide_False by lia. eapply content_below; [done|lia]. }
    assert (k = _exIdx s) as -> by lia.
    pose proof (bs_refines_write v (_output s) f R) as [Hn R'].
    rewrite (bs_zlen_pending f (ref_popped _ _ R)) in Hn.
    assert (ended f = false) as Hne by (rewrite Hd; lia).
    rewrite Hne in Hn. unfold window_end in *. rewrite Z.min_r in Hn by lia.
    destruct (write v (_output s)) as [pushed out]; simpl in *. subst pushed.
    rewrite ztake_ge in R' by done. rewrite Hne in R'.
    rewrite (proj2 (Z.ltb_ge (zlen v) (zlen v))) by lia.
    pose proof (total_bounds _ _ _ Hch).
    rewrite (u64_id (_exIdx s + zlen v)), (u64_id (_unassembledSize s - zlen v)) by lia.
    set (fin := _eofSignRecv s && (_eofIdx s <=? _exIdx s + zlen v)).
    destruct (IH (s <| _exIdx := _exIdx s + zlen v |>
                    <| _output := if fin then end_input out else out |>
                    <| _unassembledSize := _unassembledSize s - zlen v |>)
                 (mk_fifo (hist f ++ v) (popped f) (bound f) fin (failed f)))
      as (s' & f' & E & I & X & Eo & V).
    { split; simpl; try done.
      - destruct fin; [by apply bs_refines_end in R'|done].
      - autorewrite with zlist. lia.
      - lia.
      - unfold fin. destruct (_eofSignRecv s) eqn:Es; [|done]. simpl. rewrite He by done. lia. }
    exists s', f'. split_and!; try done.
    + eapply extends_trans; [|exact X]. split_and!; try done. by apply prefix_app_r.
    + intros j. rewrite V. unfold view; simpl. rewrite zlen_app, zget_app.
      repeat case_decide; try done; try lia. by rewrite Hi.
Qed.

(** The end-of-stream bookkeeping at the head of [push_substring]. *)
Definition note_eof (index len : Z) (s : StreamReassembler) : StreamReassembler :=
  let s := s <| _eofSignRecv := true |> <| _eofIdx := u64 (index + len) |> in
  if _eofIdx s =? _exIdx s then s <| _output := end_input (_output s) |> else s.

Lemma note_eof_spec N s f index len :
  inv N s f -> ended f = false -> 0 <= index -> 0 <= len -> index + len = N ->
  inv N (note_eof index len s)
    (mk_fifo (hist f) (popped f) (bound f) (_exIdx s =? N) (failed f)) /\
  _exIdx (note_eof index len s) = _exIdx s /\
  _capacity (note_eof index len s) = _capacity s /\
  _unassembledStrs (note_eof index len s) = _unassembledStrs s /\
  _eofSignRecv (note_eof index len s) = true.
Proof.
  intros [C G] Hne Hi Hl HN. pose proof (core_range _ _ _ _ C) as Hr.
  destruct C as [R Hx Hc Hch Hs He Hd Hb]. unfold note_eof; simpl.
  rewrite u64_id, HN by lia. rewrite (Z.eqb_sym N).
  destruct (_exIdx s =? N) eqn:E; simpl; split_and!; try done;
    (split; [|done]); split; simpl; try done.
  - by apply bs_refines_end.
  - rewrite <- Hne. by destruct f.
Qed.

(** Inserting what is left of the data, then step 3. *)
Definition store (past : outcome Z) (i : Z) (str : bytes) (s : StreamReassembler) : outcome StreamReassembler :=
  let s := s <| _unassembledStrs := assign i str (_unassembledStrs s) |>
             <| _unassembledSize := u64 (_unassembledSize s + zlen str) |> in
  key ← first past (begin (_unassembledStrs s));
  if negb (_exIdx s =? key) then Ok s else pushLoop (_unassembledStrs s) s.

Lemma store_past past i str s : store past i str s = store (Ok 0) i str s.
Proof.
  unfold store, first. cbn. pose proof (assign_not_nil i str (_unassembledStrs s)).
  by destruct (assign i str _) as [|[k v] m].
Qed.

Lemma store_spec N s f m mc idx data i str :
  core N s f m ->
  fits (_exIdx s) (Z.min N (window_end f)) idx data m i str mc ->
  exists s' f',
    store (Ok 0) i str (s <| _unassembledStrs := mc |> <| _unassembledSize := total mc |>) = Ok s' /\
    inv N s' f' /\ extends f f' /\ _eofSignRecv s' = _eofSignRecv s /\
    forall j, view f' (_unassembledStrs s') j =
      if decide (j < zlen (hist f)) then zget (hist f) j
      else splice idx data (view f m) j.
Proof.
  intros C (Hl & Hi & Hend & A & B & -> & HA & HB & Hsp).
  pose proof (core_range _ _ _ _ C) as Hr. pose proof (chain_le _ _ _ HA).
  pose proof (chain_le _ _ _ HB) as HleB.
  set (m' := A ++ (i, str) :: B).
  assert (Hm' : chain (_exIdx s) m' (Z.min N (window_end f))).
  { apply chain_app. exists i. simpl. split_and!; [done|lia|lia|done]. }
  pose proof (total_bounds _ _ _ Hm') as Htm.
  assert (Ht : total m' = total (A ++ B) + zlen str)
    by (unfold m'; rewrite !total_app; simpl; lia).
  unfold store; simpl. rewrite (assign_gap (_exIdx s) A B (Z.min N (window_end f))) by (done || lia).
  rewrite <- Ht, u64_id by lia. fold m'.
  set (s1 := s <| _unassembledStrs := m' |> <| _unassembledSize := total m' |>).
  change (mkStreamReassembler _ m' (total m') _ _ _ _) with s1.
  assert (C1 : core N s1 f m') by (destruct C; by split).
  assert (HV : forall j, view f m' j =
      if decide (j < zlen (hist f)) then zget (hist f) j else splice idx data (view f m) j).
  { intros j. unfold view. case_decide; [done|].
    unfold m'. rewrite Hsp by (rewrite (core_idx _ _ _ _ C); lia).
    unfold splice. repeat case_decide; done. }
  assert (m' <> []) as Hne by (unfold m'; by destruct A).
  clearbody m'. destruct m' as [|[k v] rest]; [done|].
  unfold first; cbn [from begin mbind outcome_bind]. destruct (_exIdx s =? k) eqn:Ek; cbn [negb].
  - destruct (pushLoop_spec N ((k, v) :: rest) s1 f C1) as (s' & f' & E & I & X & Eo & V).
    exists s', f'. split_and!; try done. intros j. by rewrite V, HV.
  - exists s1, f. split_and!; try done.
    split; [done|]. apply (chain_gap _ _ (Z.min N (window_end f))); [done|].
    simpl in *. lia.
Qed.

(** A non-empty piece of data inside the window. *)
Lemma push_data_spec N s f idx data :
  inv N s f -> 0 <= idx -> 0 < zlen data ->
  idx + zlen data <= Z.min N (window_end f) ->
  exists c, cutData (Ok 0) (_exIdx s) idx data (_unassembledStrs s) (_unassembledSize s) = Ok c /\
  let s1 := s <| _unassembledStrs := cutMap c |> <| _unassembledSize := cutSize c |> in
  (drop c = false -> newIdx c <
     u64 (u64 (_exIdx s1 + _capacity s1) - buffer_size (_output s1))) /\
  exists s' f', (forall past, (if drop c then Ok s1 else store past (newIdx c) (cutStr c) s1) = Ok s') /\
    inv N s' f' /\ extends f f' /\ _eofSignRecv s' = _eofSignRecv s /\
    forall j, view f' (_unassembledStrs s') j =
      if decide (j < zlen (hist f)) then zget (hist f) j
      else splice idx data (view f (_unassembledStrs s)) j.
Proof.
  intros [C G] Hi Hd Hw. pose proof (core_range _ _ _ _ C) as Hr.
  destruct (cutData_spec (_exIdx s) (Z.min N (window_end f)) idx data (_unassembledStrs s)
    ltac:(lia) Hi Hd ltac:(lia) ltac:(lia) (core_chain _ _ _ _ C)) as (c & Ec & Hs & Hc).
  rewrite <- (core_size _ _ _ _ C) in Ec. exists c. split; [exact Ec|]. cbv zeta. rewrite Hs. split.
  { intros Hdr. rewrite Hdr in Hc. destruct Hc as (Hl & _ & Hend & _). simpl.
    unfold buffer_size. pose proof (ref_wf _ _ (core_out _ _ _ _ C)) as Wf.
    rewrite (wf_size _ Wf), (ref_buf _ _ (core_out _ _ _ _ C)).
    rewrite (bs_zlen_pending f (ref_popped _ _ (core_out _ _ _ _ C))).
    pose proof (core_idx _ _ _ _ C). pose proof (core_cap _ _ _ _ C).
    pose proof (core_bound _ _ _ _ C). unfold window_end in *. rewrite (u64_id (_ + _)), u64_id by lia. lia. }
  destruct (drop c).
  - destruct Hc as (Hch & Hk & Ht & Hsp).
    exists (s <| _unassembledStrs := cutMap c |> <| _unassembledSize := total (cutMap c) |>), f.
    split_and!; try done.
    + split; [destruct C; by split|].
      apply (chain_gap _ _ _ (core_chain _ _ _ _ C)) in G.
      apply (chain_gap _ _ _ Hch). simpl.
      destruct (cutMap c) as [|[k w] r], (_unassembledStrs s) as [|[k' w'] r'];
        simpl in *; try done. by injection Hk as ->.
    + intros j. unfold view; simpl. case_decide; [done|].
      rewrite Hsp by (rewrite (core_idx _ _ _ _ C); lia).
      unfold splice. repeat case_decide; done.
  - destruct (store_spec _ _ _ _ _ _ _ _ _ C Hc) as (s' & f' & E & HI). exists s', f'. split; [|exact HI].
    intros past. rewrite <- E. apply store_past.
Qed.

(** The whole of [push_substring] on data inside the window. *)
Lemma push_reading_in_window N s f idx data eof :
  inv N s f -> 0 <= idx -> idx + zlen data <= Z.min N (window_end f) ->
  (eof = true -> idx + zlen data = N) ->
  exists s' f', (forall past, push_substring_reading past data idx eof s =
      if reads_end data idx s then _ ← past; Ok s' else Ok s') /\ inv N s' f' /\ extends f f' /\
    _eofSignRecv s' = _eofSignRecv s || (eof && negb (ended f)) /\
    forall j, view f' (_unassembledStrs s') j =
      if decide (j < zlen (hist f)) then zget (hist f) j
      else splice idx data (view f (_unassembledStrs s)) j.
Proof.
  intros I Hi Hw HN. pose proof I as [C _]. pose proof (core_range _ _ _ _ C) as Hr.
  unfold push_substring_reading, reads_end, input_ended. rewrite (ref_end _ _ (core_out _ _ _ _ C)).
  destruct (ended f) eqn:Hend.
  { exists s, f. rewrite andb_false_r, orb_false_r. split_and!; try done.
    intros j. unfold view. case_decide; [done|]. unfold splice.
    rewrite (core_ended _ _ _ _ C) in Hend. pose proof (core_idx _ _ _ _ C).
    rewrite decide_False by lia. by rewrite decide_False by lia. }
  assert (exists s0 f0, (if eof then note_eof idx (zlen data) s else s) = s0 /\ inv N s0 f0 /\
    hist f0 = hist f /\ popped f0 = popped f /\ bound f0 = bound f /\ failed f0 = failed f /\
    _exIdx s0 = _exIdx s /\
    _unassembledStrs s0 = _unassembledStrs s /\ _eofSignRecv s0 = _eofSignRecv s || eof)
    as (s0 & f0 & E0 & I0 & F1 & F2 & F3 & F4 & F5 & F6 & F7).
  { destruct eof.
    - specialize (HN eq_refl).
      destruct (note_eof_spec N s f idx (zlen data)) as (I0 & ? & ? & ? & ?);
        try done; try lia.
      eexists _, _. split_and!; try done. by rewrite orb_true_r.
    - exists s, f. by rewrite orb_false_r. }
  change (if eof then _ else s) with (if eof then note_eof idx (zlen data) s else s).
  rewrite E0, andb_true_r.
  assert (Hv : forall m j, view f0 m j = view f m j) by (intros; unfold view; by rewrite F1).
  assert (Hwe : window_end f0 = window_end f) by (unfold window_end; by rewrite F2, F3).
  assert (X0 : extends f f0) by (split_and!; try done; by rewrite F1).
  destruct (zlen data =? 0) eqn:Ed.
  { rewrite (proj2 (Z.ltb_ge 0 (zlen data))) by lia. exists s0, f0. split_and!; try done. intros j. rewrite F6, Hv.
    unfold splice. rewrite (decide_False (P := _ <= j < _)) by lia. unfold view.
    by case_decide. }
  destruct (push_data_spec N s0 f0 idx data I0) as (c & Ec & Hlt & s' & f' & E & I' & X & Eo & V);
    try lia.
  exists s', f'. split_and!; try done.
  - intros past. rewrite (cutData_past past), F5, F6, (proj2 (Z.ltb_lt 0 (zlen data))) by lia. cbn [negb andb].
    rewrite F5, F6 in Ec. rewrite Ec.
    assert (Hgo : forall x, x = Ok c -> (c ← x; (let s := s0 <| _unassembledStrs := cutMap c |> <| _unassembledSize := cutSize c |> in
      if drop c then Ok s else
        let s := if newIdx c <? u64 (u64 (_exIdx s + _capacity s) - buffer_size (_output s)) then
          s <| _unassembledStrs := assign (newIdx c) (cutStr c) (_unassembledStrs s) |>
            <| _unassembledSize := u64 (_unassembledSize s + zlen (cutStr c)) |> else s in
        key ← first past (begin (_unassembledStrs s));
        if negb (_exIdx s =? key) then Ok s else pushLoop (_unassembledStrs s) s)) = Ok s').
    { intros x ->. rewrite <- (E past). cbn [mbind outcome_bind]. destruct (drop c); [done|].
      rewrite (proj2 (Z.ltb_lt _ _)) by (by apply Hlt). done. }
    destruct (_ && _); [|by apply Hgo]. destruct past; [by apply Hgo|done].
  - by eapply extends_trans.
  - by rewrite Eo.
  - intros j. rewrite V, F1, F6. case_decide; [done|]. apply splice_ext, Hv.
Qed.

Lemma push_substring_in_window N s f idx data eof :
  inv N s f -> 0 <= idx -> idx + zlen data <= Z.min N (window_end f) ->
  (eof = true -> idx + zlen data = N) ->
  exists s' f', push_substring data idx eof s = Ok s' /\ inv N s' f' /\ extends f f' /\
    _eofSignRecv s' = _eofSignRecv s || (eof && negb (ended f)) /\
    forall j, view f' (_unassembledStrs s') j =
      if decide (j < zlen (hist f)) then zget (hist f) j
      else splice idx data (view f (_unassembledStrs s)) j.
Proof.
  intros I Hi Hw HN. destruct (push_reading_in_window N s f idx data eof I Hi Hw HN) as (s' & f' & E & H).
  exists s', f'. split; [|exact H]. unfold push_substring. rewrite E. by destruct (reads_end _ _ _).
Qed.

(** Data that begins outside the window, once what is assembled already is cut off: nothing is stored. *)
Lemma cutData_outside hi exIdx idx data m size :
  0 <= exIdx <= hi -> 0 <= idx -> hi <= Z.max idx exIdx -> idx + zlen data < 0x10000000000000000 -> 0 < zlen data ->
  is_u64 hi -> chain exIdx m hi ->
  exists c, cutData (Ok 0) exIdx idx data m size = Ok c /\
  cutMap c = m /\ cutSize c = size /\ (drop c = false -> hi <= newIdx c).
Proof.
  intros Hx Hi Hhi Hb Hd Hu Hc. unfold cutData, cutFront. destruct (Z.ltb_spec idx exIdx) as [Hlt|Hge].
  - assert (m = []) as ->.
    { destruct m as [|[k v] m]; [done|]. destruct Hc as (Hk & Hv & Hc). apply chain_le in Hc. lia. }
    rewrite u64_id by lia. destruct (_ <=? _); (eexists; split; [done|]); [by cbn|].
    unfold getBackItr, upper_bound. cbn [drop newIdx cutMap cutStr cutSize]. destruct (exIdx =? 0); cbn; (split_and!; [done|done|lia]).
  - assert (Hc' : chain exIdx m (idx + 1)) by (eapply chain_weaken_hi; [|exact Hc]; lia).
    assert (exists it, getFrontItr (Ok 0) idx m = Ok it /\ match from it with
      | [] => True
      | (k, v) :: _ => k + zlen v <= idx /\ is_u64 (k + zlen v) end) as (it & -> & E).
    { destruct (getFrontItr_split m exIdx (idx + 1) idx) as [[-> _]|(A & k & v & B & -> & -> & Hk & _)];
        try done; try lia; (eexists; split; [done|]); [done|]. cbn. apply chain_app in Hc as (mid & HA & (Hk' & Hv & HB)).
      apply chain_le in HA, HB. lia. }
    assert (Eb : getBackItr idx m = mk_iter m []).
    { rewrite <- (app_nil_r m) at 1. apply (getBackItr_split exIdx m [] (idx + 1) idx); try done; try lia.
      - eapply chain_weaken_hi; [|exact Hc]. lia.
      - cbn. lia.
      - intros ->. cbn. lia. }
    assert (Hb0 : forall c, drop c = false -> newIdx c = idx -> cutMap c = m -> cutSize c = size ->
      exists c', (if drop c then Ok c else let bIt := getBackItr (newIdx c) (cutMap c) in
        Ok (cutBack (newIdx c) (cutStr c) (before bIt) (from bIt) (cutSize c))) = Ok c' /\
      cutMap c' = m /\ cutSize c' = size /\ (drop c' = false -> hi <= newIdx c')).
    { intros c -> -> -> ->. rewrite Eb. cbn. rewrite app_nil_r. eexists. split_and!; [done|done|done|cbn; lia]. }
    cbn [mbind outcome_bind]. destruct (from it) as [|[k v] rest]; [by apply Hb0|].
    rewrite u64_id by lia. destruct (Z.ltb_spec idx (k + zlen v)); [lia|by apply Hb0].
Qed.

Lemma push_substring_outside N s f idx data eof :
  inv N s f -> 0 <= idx -> idx + zlen data <= N -> window_end f <= Z.max idx (_exIdx s) ->
  (eof = true -> idx + zlen data = N) ->
  exists s' f', push_substring data idx eof s = Ok s' /\ inv N s' f' /\ extends f f' /\
    hist f' = hist f /\ _eofSignRecv s' = _eofSignRecv s || (eof && negb (ended f)) /\
    _unassembledStrs s' = _unassembledStrs s.
Proof.
  intros I Hi Hw Hout HN. pose proof I as [C _].
  unfold push_substring, push_substring_reading, input_ended. rewrite (ref_end _ _ (core_out _ _ _ _ C)).
  destruct (ended f) eqn:Hend.
  { exists s, f. rewrite andb_false_r, orb_false_r. by split_and!. }
  assert (exists s0 f0, (if eof then note_eof idx (zlen data) s else s) = s0 /\ inv N s0 f0 /\ extends f f0 /\
    hist f0 = hist f /\ window_end f0 = window_end f /\ _exIdx s0 = _exIdx s /\
    _unassembledStrs s0 = _unassembledStrs s /\ _eofSignRecv s0 = _eofSignRecv s || eof)
    as (s0 & f0 & E0 & I0 & X0 & F1 & F2 & F5 & F6 & F7).
  { destruct eof.
    - destruct (note_eof_spec N s f idx (zlen data)) as (I0 & ? & ? & ? & ?); try done; try lia; auto.
      eexists _, _. split_and!; try done. by rewrite orb_true_r.
    - exists s, f. rewrite orb_false_r. by split_and!. }
  change (if eof then _ else s) with (if eof then note_eof idx (zlen data) s else s).
  rewrite E0, andb_true_r. exists s0, f0. split; [|by split_and!].
  destruct (zlen data =? 0) eqn:Ed; [done|].
  pose proof I0 as [C0 G0]. pose proof (core_range _ _ _ _ C0) as Hr. pose proof (core_bound _ _ _ _ C0).
  destruct (cutData_outside (Z.min N (window_end f0)) (_exIdx s0) idx data (_unassembledStrs s0) (_unassembledSize s0))
    as (c & -> & Em & Es & Hn); try lia; [apply C0|]. cbn [mbind outcome_bind]. rewrite Em, Es.
  assert (Eta : s0 <| _unassembledStrs := _unassembledStrs s0 |> <| _unassembledSize := _unassembledSize s0 |> = s0)
    by by destruct s0.
  rewrite Eta. destruct (drop c); [done|]. specialize (Hn eq_refl).
  assert (Efu : u64 (u64 (_exIdx s0 + _capacity s0) - buffer_size (_output s0)) = window_end f0).
  { unfold buffer_size. pose proof (core_out _ _ _ _ C0) as R.
    rewrite (wf_size _ (ref_wf _ _ R)), (ref_buf _ _ R), (bs_zlen_pending f0 (ref_popped _ _ R)),
      (core_cap _ _ _ _ C0), <- (core_idx _ _ _ _ C0).
    unfold window_end in *. rewrite (u64_id (_ + _)), u64_id; lia. }
  rewrite Efu, (proj2 (Z.ltb_ge _ _)) by lia.
  apply (chain_gap _ _ _ (core_chain _ _ _ _ C0)) in G0.
  unfold first. destruct (_unassembledStrs s0) as [|[k v] m] eqn:Em0; cbn [begin from mbind outcome_bind].
  - destruct (negb _); [done|]. cbn [pushLoop]. f_equal. clear -Em0. destruct s0; cbn in *; by subst.
  - by rewrite (proj2 (Z.eqb_neq _ _)) by lia.
Qed.

(** ** Sessions: reassembling one stream [S] while a reader drains the output *)

(** [data] is what [S] holds from [idx] on. *)
Definition slice_at (S : bytes) (idx : Z) (data : bytes) : Prop :=
  0 <= idx /\ idx + zlen data <= zlen S /\ data = ztake (zlen data) (zdrop idx S).

(** The first index beyond the window, computed as [push_substring] does. *)
Definition first_unacceptable (s : StreamReassembler) : Z :=
  _exIdx s + _capacity s - buffer_size (_output s).

Definition valid_push (S : bytes) (s : StreamReassembler) (data : bytes) (idx : Z) (eof : bool)
  : Prop :=
  slice_at S idx data /\ idx + zlen data <= first_unacceptable s /\
  (eof = true -> idx + zlen data = zlen S).

(** A push that begins beyond the window, as a probe of a closed window does. *)
Definition outside_push (S : bytes) (s : StreamReassembler) (data : bytes) (idx : Z) (eof : bool)
  : Prop :=
  slice_at S idx data /\ first_unacceptable s <= Z.max idx (_exIdx s) /\
  (eof = true -> idx + zlen data = zlen S).

(** [session S cap s out ps e]: from a fresh reassembler, some accurate pushes, those inside the window
    with index and length listed in [ps] and the others beyond it; [e] tells
    whether one was marked as the last; and some reads that returned [out]. *)
Inductive session (S : bytes) (cap : Z) :
  StreamReassembler -> bytes -> list (Z * Z) -> bool -> Prop :=
| session_new : session S cap (new cap) [] [] false
| session_push s out ps e data idx eof s' :
    session S cap s out ps e -> valid_push S s data idx eof ->
    push_substring data idx eof s = Ok s' ->
    session S cap s' out ((idx, zlen data) :: ps) (e || eof)
| session_outside s out ps e data idx eof s' :
    session S cap s out ps e -> outside_push S s data idx eof ->
    push_substring data idx eof s = Ok s' ->
    session S cap s' out ps (e || eof)
| session_read s out ps e n :
    session S cap s out ps e -> 0 <= n ->
    session S cap (s <| _output := snd (read n (_output s)) |>)
      (out ++ fst (read n (_output s))) ps e.

(** Some push reached index [j]. *)
Definition covered (ps : list (Z * Z)) (j : Z) : bool :=
  existsb (fun p => (fst p <=? j) && (j <? fst p + snd p)) ps.

Record session_inv (S : bytes) (cap : Z) (out : bytes) (ps : list (Z * Z)) (e : bool)
    (s : StreamReassembler) (f : fifo) : Prop := mk_session_inv {
  si_inv : inv (zlen S) s f;
  si_out : out = ztake (popped f) (hist f);
  si_view : forall j b, view f (_unassembledStrs s) j = Some b -> zget S j = Some b;
  si_cov : forall j, is_Some (view f (_unassembledStrs s) j) <-> covered ps j = true;
  si_eof : _eofSignRecv s = e;
  si_cap : bound f = cap;
  si_ok : failed f = false }.

Lemma first_unacceptable_window N s f m :
  core N s f m -> first_unacceptable s = window_end f.
Proof.
  intros [R Hi Hc _ _ _ _ _]. unfold first_unacceptable, window_end, buffer_size.
  rewrite (wf_size _ (ref_wf _ _ R)), (ref_buf _ _ R), (bs_zlen_pending f (ref_popped _ _ R)).
  lia.
Qed.

Lemma slice_zget S idx data j :
  slice_at S idx data -> idx <= j < idx + zlen data -> zget data (j - idx) = zget S j.
Proof.
  intros (Hi & Hl & Hd) Hj. rewrite Hd at 1.
  rewrite zget_ztake, decide_True, zget_zdrop by lia. f_equal. lia.
Qed.

(** The end of the stream is noted once. *)
Lemma noted_end N s f m (e eof : bool) :
  core N s f m -> _eofSignRecv s = e -> _eofSignRecv s || (eof && negb (ended f)) = e || eof.
Proof.
  intros C <-. destruct (ended f) eqn:Hend; [|by rewrite andb_true_r].
  rewrite (core_ended _ _ _ _ C) in Hend. by apply andb_true_iff in Hend as [-> _].
Qed.

Lemma session_inv_push S cap out ps e s f data idx eof :
  session_inv S cap out ps e s f -> valid_push S s data idx eof ->
  exists s' f', push_substring data idx eof s = Ok s' /\ extends f f' /\
    session_inv S cap out ((idx, zlen data) :: ps) (e || eof) s' f'.
Proof.
  intros [I Ho Hv Hcov He Hbd Hok] (Hsl & Hw & HN). pose proof I as [C _].
  rewrite (first_unacceptable_window _ _ _ _ C) in Hw. destruct (Hsl) as (Hi & Hl & _).
  destruct (push_substring_in_window (zlen S) s f idx data eof I Hi ltac:(lia) HN)
    as (s' & f' & E & I' & X & Eo & V).
  exists s', f'. split; [done|]. split; [done|]. pose proof (core_range _ _ _ _ C).
  pose proof (core_idx _ _ _ _ C) as Hx.
  assert (V' : forall j, view f' (_unassembledStrs s') j =
    if decide (idx <= j < idx + zlen data /\ zlen (hist f) <= j) then zget S j
    else view f (_unassembledStrs s) j).
  { intros j. rewrite V. unfold splice, view. repeat case_decide; try done; try lia.
    by apply slice_zget. }
  split; try done.
  - destruct X as (-> & _ & _ & [t ->]). by rewrite ztake_app_le by lia.
  - intros j b. rewrite V'. case_decide; [done|]. apply Hv.
  - intros j. rewrite V'. simpl. rewrite orb_true_iff, <- Hcov. case_decide as Hd.
    + split; [left; lia|]. intros _. apply zget_is_Some. lia.
    + split; [by right|]. intros [Hj|?]; [|done]. unfold view.
      rewrite decide_True by lia. apply zget_is_Some. lia.
  - rewrite Eo. by eapply noted_end.
  - rewrite <- Hbd. apply X.
  - rewrite <- Hok. apply X.
Qed.

Lemma session_inv_outside S cap out ps e s f data idx eof :
  session_inv S cap out ps e s f -> outside_push S s data idx eof ->
  exists s' f', push_substring data idx eof s = Ok s' /\ extends f f' /\
    session_inv S cap out ps (e || eof) s' f'.
Proof.
  intros [I Ho Hv Hcov He Hbd Hok] ((Hi & Hl & _) & Hw & HN). pose proof I as [C _].
  rewrite (first_unacceptable_window _ _ _ _ C) in Hw.
  destruct (push_substring_outside (zlen S) s f idx data eof I Hi Hl Hw HN)
    as (s' & f' & E & I' & X & Hh & Eo & Em).
  exists s', f'. split; [done|]. split; [done|].
  assert (V : forall j, view f' (_unassembledStrs s') j = view f (_unassembledStrs s) j)
    by (intros j; unfold view; by rewrite Hh, Em).
  destruct X as (Hp & Hbd' & Hok' & _). split; try done.
  - by rewrite Hp, Hh.
  - intros j b. rewrite V. apply Hv.
  - intros j. by rewrite V.
  - rewrite Eo. by eapply noted_end.
  - congruence.
  - congruence.
Qed.

Lemma session_inv_read S cap out ps e s f n :
  session_inv S cap out ps e s f -> 0 <= n ->
  exists f', session_inv S cap (out ++ fst (read n (_output s))) ps e
    (s <| _output := snd (read n (_output s)) |>) f'.
Proof.
  intros [I Ho Hv Hcov He Hbd Hok] Hn. pose proof I as [C _].
  exists (mk_fifo (hist f) (Z.min (popped f + n) (zlen (hist f))) (bound f) (ended f) (failed f)).
  split; try done.
  - by apply inv_pop.
  - unfold read; simpl. rewrite (bs_refines_peek n _ f) by (apply C || done). subst out.
    pose proof (ref_popped _ _ (core_out _ _ _ _ C)). by apply ztake_app_zdrop.
Qed.

Lemma session_invariant S cap s out ps e :
  0 <= cap -> zlen S + cap < 0x10000000000000000 -> session S cap s out ps e ->
  exists f, session_inv S cap out ps e s f.
Proof.
  intros Hcap Hb. induction 1 as [|s out ps e data idx eof s' _ [f IH] Hp E
    |s out ps e data idx eof s' _ [f IH] Hp E|s out ps e n _ [f IH] Hn].
  - exists (fifo_new cap). split; try done.
    + apply inv_new; lia.
    + intros j b. unfold view; simpl. case_decide; [|done]. by rewrite zget_nil.
    + intros j. unfold view; simpl. rewrite zget_nil. case_decide; split; [by intros [? ?]|done|by intros [? ?]|done].
  - destruct (session_inv_push _ _ _ _ _ _ _ _ _ _ IH Hp) as (s'' & f' & E' & _ & IH').
    rewrite E in E'. injection E' as ->. by exists f'.
  - destruct (session_inv_outside _ _ _ _ _ _ _ _ _ _ IH Hp) as (s'' & f' & E' & _ & IH').
    rewrite E in E'. injection E' as ->. by exists f'.
  - by eapply session_inv_read.
Qed.


(** What pushes only move forward, with the window where it was. *)
Definition grown (s s' : StreamReassembler) : Prop :=
  first_unacceptable s' = first_unacceptable s /\ _exIdx s <= _exIdx s' /\
  (input_ended (_output s) = true -> input_ended (_output s') = true).

#[export] Instance grown_preorder : PreOrder grown.
Proof.
  split; [by intros s|]. intros s1 s2 s3 (E1 & L1 & D1) (E2 & L2 & D2).
  split_and!; [congruence|lia|auto].
Qed.

(** Either kind of push and what it adds to the list. *)
Definition some_push (S : bytes) (s : StreamReassembler) (data : bytes) (idx : Z) (eof : bool)
    (ps ps' : list (Z * Z)) : Prop :=
  valid_push S s data idx eof /\ ps' = (idx, zlen data) :: ps \/ outside_push S s data idx eof /\ ps' = ps.

Lemma session_push_ok S cap s out ps e data idx eof ps' :
  0 <= cap -> zlen S + cap < 0x10000000000000000 -> session S cap s out ps e ->
  some_push S s data idx eof ps ps' ->
  exists s', push_substring data idx eof s = Ok s' /\ session S cap s' out ps' (e || eof) /\ grown s s'.
Proof.
  intros Hc Hb Hs Hp. destruct (session_invariant S cap s out ps e Hc Hb Hs) as [f SI].
  assert (exists s' f', push_substring data idx eof s = Ok s' /\ extends f f' /\
    session_inv S cap out ps' (e || eof) s' f' /\ session S cap s' out ps' (e || eof))
    as (s' & f' & E & (X1 & X2 & _ & [t X3]) & SI' & Hs').
  { destruct Hp as [[Hp ->]|[Hp ->]].
    - destruct (session_inv_push _ _ _ _ _ _ _ _ _ _ SI Hp) as (s' & f' & E & X & SI').
      exists s', f'. split_and!; try done. by eapply session_push.
    - destruct (session_inv_outside _ _ _ _ _ _ _ _ _ _ SI Hp) as (s' & f' & E & X & SI').
      exists s', f'. split_and!; try done. by eapply session_outside. }
  exists s'. split; [done|]. split; [done|].
  destruct SI as [[C _] _ _ _ He _ _], SI' as [[C' _] _ _ _ He' _ _].
  pose proof (core_idx _ _ _ _ C). pose proof (core_idx _ _ _ _ C') as Hx'. rewrite X3, zlen_app in Hx'.
  split_and!; [|lia|].
  - rewrite (first_unacceptable_window _ _ _ _ C), (first_unacceptable_window _ _ _ _ C').
    unfold window_end. congruence.
  - unfold input_ended. rewrite (ref_end _ _ (core_out _ _ _ _ C)), (ref_end _ _ (core_out _ _ _ _ C')).
    rewrite (core_ended _ _ _ _ C), (core_ended _ _ _ _ C'), He, He'.
    intros [-> Hz%Z.eqb_eq]%andb_true_iff. cbn [orb andb].
    pose proof (core_range _ _ _ _ C'). lia.
Qed.

(** How many of the indices in [lo, hi) satisfy [P]. *)
Definition count (P : Z -> bool) (lo hi : Z) : Z :=
  zlen (filter (fun j => P j = true) (seqZ lo (hi - lo))).

Lemma count_split P lo mid hi :
  lo <= mid <= hi -> count P lo hi = count P lo mid + count P mid hi.
Proof.
  intros. unfold count. replace (hi - lo) with ((mid - lo) + (hi - mid)) by lia.
  rewrite seqZ_app, filter_app, zlen_app by lia. by replace (lo + (mid - lo)) with mid by lia.
Qed.

Lemma count_const P lo hi b :
  lo <= hi -> (forall j, lo <= j < hi -> P j = b) -> count P lo hi = if b then hi - lo else 0.
Proof.
  intros Hle HP. unfold count.
  assert (Forall (fun j => P j = b) (seqZ lo (hi - lo))) as HF
    by (apply Forall_seqZ; intros; apply HP; lia).
  transitivity (if b then zlen (seqZ lo (hi - lo)) else 0).
  - clear HP Hle. induction HF as [|j l Hj HF IH]; [by destruct b|].
    rewrite filter_cons, Hj. destruct b; simpl in *; lia || done.
  - destruct b; [|done]. rewrite length_seqZ. lia.
Qed.

Lemma total_count P m : forall lo hi,
  chain lo m hi -> (forall j, lo <= j < hi -> is_Some (content m j) <-> P j = true) ->
  total m = count P lo hi.
Proof.
  induction m as [|[k v] m IH]; intros lo hi; simpl.
  - intros Hle HP. rewrite (count_const P lo hi false); [done|done|].
    intros j Hj. apply not_true_iff_false. rewrite <- HP by done. by intros [? ?].
  - intros (Hk & Hv & Hc) HP. pose proof (chain_le _ _ _ Hc).
    rewrite (count_split P lo k hi), (count_split P k (k + zlen v) hi) by lia.
    rewrite (count_const P lo k false), (count_const P k _ true); try lia.
    + rewrite <- IH; [lia|done|]. intros j Hj. rewrite <- HP by lia.
      by rewrite decide_False by lia.
    + intros j Hj. apply HP; [lia|]. rewrite decide_True by lia. apply zget_is_Some. lia.
    + intros j Hj. apply not_true_iff_false. rewrite <- HP by lia.
      rewrite decide_False by lia. rewrite (content_below (k + zlen v) m hi j) by (done || lia).
      by intros [? ?].
Qed.

Lemma session_out S cap out ps e s f :
  session_inv S cap out ps e s f -> out ++ _buf (_output s) = ztake (_exIdx s) S.
Proof.
  intros [[C G] Ho Hv _ _ _]. pose proof (core_idx _ _ _ _ C) as Hx.
  pose proof (core_range _ _ _ _ C).
  rewrite Ho, (ref_buf _ _ (core_out _ _ _ _ C)). unfold pending. rewrite ztake_zdrop.
  apply zget_ext. intros j Hj. rewrite zget_ztake, Hx. case_decide; [|apply zget_None; lia].
  destruct (zget_is_Some (hist f) j) as [b Hb]; [lia|]. rewrite Hb. symmetry. apply Hv.
  unfold view. by rewrite decide_True by lia.
Qed.

Lemma session_gap S cap out ps e s f :
  session_inv S cap out ps e s f -> covered ps (_exIdx s) = false.
Proof.
  intros [[C G] _ _ Hcov _ _]. pose proof (core_idx _ _ _ _ C).
  apply not_true_iff_false. rewrite <- Hcov. unfold view. rewrite decide_False, G by lia.
  by intros [? ?].
Qed.

(** ** Properties *)

(** C24. The full effect of a call: on any data that lies inside the window, [push_substring] throws nothing,
    never reaches the use of an erased element, keeps the invariant, and every index not yet assembled holds the new
    byte if the data covers it (also where it contradicts a stored byte) and what
    it held before otherwise.  There is one undefined read, [end()->first], and it happens exactly if data that is not empty and not
    assembled already comes while the map is empty and the stream has not ended: whatever value it yields the result is
    the same, and if it faults so does the call ([past] is what the read does). *)
Theorem push_substring_functional N s f idx data eof :
  inv N s f -> 0 <= idx -> idx + zlen data <= Z.min N (window_end f) ->
  (eof = true -> idx + zlen data = N) ->
  exists s' f', push_substring data idx eof s = Ok s' /\ inv N s' f' /\ extends f f' /\
    (forall j, view f' (_unassembledStrs s') j =
      if decide (j < zlen (hist f)) then zget (hist f) j
      else splice idx data (view f (_unassembledStrs s)) j) /\
    forall past, push_substring_reading past data idx eof s =
      if reads_end data idx s then _ ← past; Ok s' else Ok s'.
Proof.
  intros I Hi Hw HN.
  destruct (push_reading_in_window N s f idx data eof I Hi Hw HN)
    as (s' & f' & E & I' & X & _ & V). exists s', f'. split_and!; try done.
  unfold push_substring. rewrite E. by destruct (reads_end _ _ _).
Qed.

Lemma push_substring_functional_witness :
  exists s' f', push_substring [x62; x63] 1 true (new 8) = Ok s' /\ inv 3 s' f' /\
    extends (fifo_new 8) f' /\
    (forall j, view f' (_unassembledStrs s') j =
      if decide (j < zlen (hist (fifo_new 8))) then zget (hist (fifo_new 8)) j
      else splice 1 [x62; x63] (view (fifo_new 8) (_unassembledStrs (new 8))) j) /\
    forall past, push_substring_reading past [x62; x63] 1 true (new 8) = _ ← past; Ok s'.
Proof.
  apply (push_substring_functional 3 (new 8)); [apply inv_new; lia|lia|by vm_compute|done].
Defined.

(** A concrete session: "abcd" pushed as "cd" (the end), "ab", then one byte read. *)
Definition demo_stream : bytes := [x61; x62; x63; x64].
Definition demo_push (data : bytes) (idx : Z) (eof : bool) (s : StreamReassembler) :=
  match push_substring data idx eof s with Ok s' => s' | Fault _ => s end.
Definition demo_state1 := demo_push [x63; x64] 2 true (new 5).
Definition demo_state2 := demo_push [x61; x62] 0 false demo_state1.
Definition demo_state3 := demo_state2 <| _output := snd (read 1 (_output demo_state2)) |>.

Lemma demo_session1 : session demo_stream 5 demo_state1 [] [(2, 2)] true.
Proof.
  apply (session_push _ _ (new 5) [] [] false [x63; x64] 2 true); [constructor| |by vm_compute].
  split_and!; by vm_compute.
Qed.

Lemma demo_session3 : session demo_stream 5 demo_state3 [x61] [(0, 2); (2, 2)] true.
Proof.
  apply (session_read _ _ demo_state2 [] _ _ 1); [|lia].
  apply (session_push _ _ demo_state1 [] [(2, 2)] true [x61; x62] 0 false);
    [apply demo_session1| |by vm_compute].
  split_and!; by vm_compute.
Qed.

(** C10. Exact reassembly: in every session on a stream [S], the bytes read so far
    followed by the bytes waiting in the output are the first [_exIdx] bytes of
    [S], and [_exIdx] is the first index no push inside the window has covered: contiguous bytes are
    delivered at once and in order, whatever the order and overlap of the pushes, also when some begin beyond
    the window. *)
Theorem reassembly_exact S cap s out ps e :
  0 <= cap -> zlen S + cap < 0x10000000000000000 -> session S cap s out ps e ->
  out ++ _buf (_output s) = ztake (_exIdx s) S /\
  (forall j, 0 <= j < _exIdx s -> covered ps j = true) /\
  covered ps (_exIdx s) = false.
Proof.
  intros Hcap Hb Hs. destruct (session_invariant _ _ _ _ _ _ Hcap Hb Hs) as [f SI].
  split_and!; [by eapply session_out| |by eapply session_gap].
  intros j Hj. apply (si_cov _ _ _ _ _ _ _ SI). unfold view.
  pose proof (core_idx _ _ _ _ (proj1 (si_inv _ _ _ _ _ _ _ SI))).
  rewrite decide_True by lia. apply zget_is_Some. lia.
Qed.

Lemma reassembly_exact_witness :
  [x61] ++ _buf (_output demo_state3) = ztake (_exIdx demo_state3) demo_stream /\
  (forall j, 0 <= j < _exIdx demo_state3 -> covered [(0, 2); (2, 2)] j = true) /\
  covered [(0, 2); (2, 2)] (_exIdx demo_state3) = false.
Proof.
  apply (reassembly_exact demo_stream 5 demo_state3 [x61] [(0, 2); (2, 2)] true);
    [lia|by vm_compute|apply demo_session3].
Defined.

(** C25. Completion: the output has ended exactly when a push was marked as the
    last one and every byte has been assembled, and once pushes have covered the
    whole stream the reader has, or can read, all of [S]. *)
Theorem reassembly_complete S cap s out ps e :
  0 <= cap -> zlen S + cap < 0x10000000000000000 -> session S cap s out ps e ->
  input_ended (_output s) = e && (_exIdx s =? zlen S) /\
  ((forall j, 0 <= j < zlen S -> covered ps j = true) ->
   out ++ _buf (_output s) = S /\ _exIdx s = zlen S /\ unassembled_bytes s = 0).
Proof.
  intros Hcap Hb Hs. destruct (session_invariant _ _ _ _ _ _ Hcap Hb Hs) as [f SI].
  pose proof (session_out _ _ _ _ _ _ _ SI) as Hout.
  pose proof (session_gap _ _ _ _ _ _ _ SI) as Hgap. destruct SI as [[C _] _ _ _ He _].
  pose proof (core_range _ _ _ _ C) as Hr. split.
  - unfold input_ended. by rewrite (ref_end _ _ (core_out _ _ _ _ C)), (core_ended _ _ _ _ C), He.
  - intros Hcov.
    assert (Hx : _exIdx s = zlen S).
    { destruct (decide (_exIdx s < zlen S)); [|lia]. rewrite Hcov in Hgap by lia. done. }
    rewrite Hout, Hx, ztake_ge by lia. split_and!; [done|done|].
    unfold unassembled_bytes. rewrite (core_size _ _ _ _ C).
    pose proof (total_bounds _ _ _ (core_chain _ _ _ _ C)). lia.
Qed.

Lemma reassembly_complete_witness :
  input_ended (_output demo_state3) = true && (_exIdx demo_state3 =? zlen demo_stream) /\
  ((forall j, 0 <= j < zlen demo_stream -> covered [(0, 2); (2, 2)] j = true) ->
   [x61] ++ _buf (_output demo_state3) = demo_stream /\
   _exIdx demo_state3 = zlen demo_stream /\ unassembled_bytes demo_state3 = 0).
Proof.
  apply (reassembly_complete demo_stream 5 demo_state3 [x61] [(0, 2); (2, 2)] true);
    [lia|by vm_compute|apply demo_session3].
Defined.

(** Memory: [unassembled_bytes] counts each stored index once, however often it
    was pushed, and together with the unread output it stays within the capacity. *)
Theorem unassembled_bytes_exact S cap s out ps e :
  0 <= cap -> zlen S + cap < 0x10000000000000000 -> session S cap s out ps e ->
  unassembled_bytes s = count (covered ps) (_exIdx s) (zlen S) /\
  empty s = (count (covered ps) (_exIdx s) (zlen S) =? 0) /\
  0 <= unassembled_bytes s /\ unassembled_bytes s + buffer_size (_output s) <= cap.
Proof.
  intros Hcap Hb Hs.
  destruct (session_invariant _ _ _ _ _ _ Hcap Hb Hs) as [f [[C _] _ _ Hcov _ Hc]].
  pose proof (core_range _ _ _ _ C) as Hr. pose proof (core_idx _ _ _ _ C) as Hx.
  assert (Ht : total (_unassembledStrs s) = count (covered ps) (_exIdx s) (zlen S)).
  { apply total_count.
    - eapply chain_weaken_hi; [|apply (core_chain _ _ _ _ C)]. lia.
    - intros j Hj. rewrite <- Hcov. unfold view. by rewrite decide_False by lia. }
  unfold unassembled_bytes, empty. rewrite (core_size _ _ _ _ C), <- Ht.
  pose proof (total_bounds _ _ _ (core_chain _ _ _ _ C)) as Htb.
  split_and!; [done|done|lia|]. unfold buffer_size.
  rewrite (wf_size _ (ref_wf _ _ (core_out _ _ _ _ C))), (ref_buf _ _ (core_out _ _ _ _ C)).
  rewrite (bs_zlen_pending f (ref_popped _ _ (core_out _ _ _ _ C))).
  unfold window_end in *. lia.
Qed.

Lemma unassembled_bytes_exact_witness :
  unassembled_bytes demo_state1 = count (covered [(2, 2)]) (_exIdx demo_state1) (zlen demo_stream) /\
  empty demo_state1 = (count (covered [(2, 2)]) (_exIdx demo_state1) (zlen demo_stream) =? 0) /\
  0 <= unassembled_bytes demo_state1 /\
  unassembled_bytes demo_state1 + buffer_size (_output demo_state1) <= 5.
Proof.
  apply (unassembled_bytes_exact demo_stream 5 demo_state1 [] [(2, 2)] true);
    [lia|by vm_compute|apply demo_session1].
Defined.

(** A push that overruns the window uses freed memory: on a fresh reassembler a
    first substring longer than the capacity is stored whole, the output takes
    only part of it, and the source then goes on with references into the element
    it has just erased. *)
Theorem push_overrun_use_after_erase cap data eof :
  0 < cap < zlen data -> zlen data + cap < 0x10000000000000000 ->
  push_substring data 0 eof (new cap) = Fault UseAfterErase.
Proof.
  intros Hc Hd. unfold push_substring, push_substring_reading; simpl.
  assert (H0 : (zlen data =? 0) = false) by lia.
  assert (Hw : fst (write data (ByteStream.new cap)) = cap).
  { rewrite bs_write_count by (apply bs_wf_new; lia). simpl. lia. }
  destruct (write data (ByteStream.new cap)) as [pushed out] eqn:E; simpl in Hw; subst pushed.
  destruct eof; simpl; rewrite ?(u64_id (0 + zlen data)) by lia;
    rewrite ?(proj2 (Z.eqb_neq (0 + zlen data) 0)) by lia;
    rewrite ?H0; unfold cutData, cutFront, getFrontItr, first; simpl;
    rewrite (u64_id (u64 (0 + cap) - 0)) by (rewrite u64_id by lia; lia);
    rewrite u64_id by lia; rewrite (proj2 (Z.ltb_lt 0 _)) by lia; simpl;
    rewrite E; by rewrite (proj2 (Z.ltb_lt cap (zlen data))) by lia.
Qed.

Lemma push_overrun_use_after_erase_witness :
  push_substring [x61; x62; x63] 0 false (new 2) = Fault UseAfterErase.
Proof. apply push_overrun_use_after_erase; by vm_compute. Defined.

(** The capacity does not bound what is stored: a substring that starts inside
    the window of a fresh reassembler is kept whole, however long it is, although
    the interface promises to discard the bytes that exceed the capacity. *)
Theorem push_beyond_capacity_is_stored cap data :
  1 < cap -> 0 < zlen data -> zlen data + cap + 1 < 0x10000000000000000 ->
  exists s, push_substring data 1 false (new cap) = Ok s /\ unassembled_bytes s = zlen data.
Proof.
  intros Hc Hd Hb. unfold push_substring, push_substring_reading; simpl.
  rewrite (proj2 (Z.eqb_neq (zlen data) 0)) by lia. unfold cutData, cutFront, getFrontItr, first; simpl.
  rewrite (u64_id (u64 (0 + cap) - 0)) by (rewrite u64_id by lia; lia).
  rewrite !u64_id by lia. rewrite (proj2 (Z.ltb_lt 1 _)) by lia. simpl.
  eexists. split; [done|]. done.
Qed.

Lemma push_beyond_capacity_is_stored_witness :
  exists s, push_substring [x61; x62; x63; x64] 1 false (new 2) = Ok s /\
    unassembled_bytes s = 4.
Proof. apply (push_beyond_capacity_is_stored 2 [x61; x62; x63; x64]); by vm_compute. Defined.
