(* ===== verification/Buffer.v ===== *)
(** * Buffer: packet storage (util/buffer.hh, util/buffer.cc)

    [Buffer] is a shared, read-only string that can drop a prefix; [BufferList]
    and [BufferViewList] are sequences of such pieces.  The shared string is never
    written through, so a copy of a [Buffer] is a copy of its value. *)

From S2P Require Import Prelude.

(** ** Buffer *)

Record Buffer := mkBuffer { _storage : option bytes; _starting_offset : Z }.

(** [Buffer()] and [Buffer(std::string &&)]. *)
Definition empty : Buffer := mkBuffer None 0.
Definition of_string (s : bytes) : Buffer := mkBuffer (Some s) 0.

Definition str (b : Buffer) : bytes :=
  match _storage b with
  | None => []
  | Some s => zdrop (_starting_offset b) s
  end.

Definition size (b : Buffer) : Z := zlen (str b).
Definition copy (b : Buffer) : bytes := str b.

(** [string_view::at] throws outside the view. *)
Definition at_ (n : Z) (b : Buffer) : outcome Z :=
  match zget (str b) n with Some c => Ok (b2z c) | None => Fault OutOfRange end.

Definition remove_prefix (n : Z) (b : Buffer) : outcome Buffer :=
  if zlen (str b) <? n then Fault OutOfRange
  else
    let off := u64 (_starting_offset b + n) in
    match _storage b with
    | Some s => if off =? zlen s then Ok (mkBuffer None off) else Ok (mkBuffer (Some s) off)
    | None => Ok (mkBuffer None off)
    end.

(** ** BufferList and BufferViewList *)

Record BufferList := mkBufferList { _buffers : list Buffer }.
Record BufferViewList := mkBufferViewList { _views : list bytes }.

Module BufferList.

Definition empty : BufferList := mkBufferList [].
Definition of_buffer (b : Buffer) : BufferList := mkBufferList [b].
Definition of_string (s : bytes) : BufferList := mkBufferList [Buffer.of_string s].

Definition append (other this : BufferList) : BufferList :=
  mkBufferList (_buffers this ++ _buffers other).

(** [operator Buffer()] refuses to flatten. *)
Definition to_buffer (bl : BufferList) : outcome Buffer :=
  match _buffers bl with
  | [] => Ok Buffer.empty
  | [b] => Ok b
  | _ => Fault RuntimeError
  end.

Definition concatenate (bl : BufferList) : bytes :=
  foldl (fun ret buf => ret ++ str buf) [] (_buffers bl).

Definition size (bl : BufferList) : Z :=
  foldl (fun ret buf => u64 (ret + Buffer.size buf)) 0 (_buffers bl).

(** The loop of [remove_prefix]. *)
Fixpoint remove_loop (n : Z) (bs : list Buffer) : outcome (list Buffer) :=
  if n =? 0 then Ok bs
  else
    match bs with
    | [] => Fault OutOfRange
    | b :: bs' =>
      if n <? zlen (str b) then b' ← Buffer.remove_prefix n b; Ok (b' :: bs')
      else remove_loop (u64 (n - zlen (str b))) bs'
    end.

Definition remove_prefix (n : Z) (bl : BufferList) : outcome BufferList :=
  mkBufferList <$> remove_loop n (_buffers bl).

End BufferList.

Module BufferViewList.

Definition of_string (s : bytes) : BufferViewList := mkBufferViewList [s].
Definition of_list (bl : BufferList) : BufferViewList :=
  mkBufferViewList (str <$> _buffers bl).

Fixpoint remove_loop (n : Z) (vs : list bytes) : outcome (list bytes) :=
  if n =? 0 then Ok vs
  else
    match vs with
    | [] => Fault OutOfRange
    | v :: vs' =>
      if n <? zlen v then Ok (zdrop n v :: vs')
      else remove_loop (u64 (n - zlen v)) vs'
    end.

Definition remove_prefix (n : Z) (vl : BufferViewList) : outcome BufferViewList :=
  mkBufferViewList <$> remove_loop n (_views vl).

Definition size (vl : BufferViewList) : Z :=
  foldl (fun ret v => u64 (ret + zlen v)) 0 (_views vl).

(** The [iovec]s handed to [writev]: base and length of each view. *)
Definition as_iovecs (vl : BufferViewList) : list (bytes * Z) :=
  (fun v => (v, zlen v)) <$> _views vl.

End BufferViewList.

(** ** Lemmas *)

(** The offset never passes the end of the storage, and the storage is dropped
    exactly when nothing of it is left to see. *)
Definition wf (b : Buffer) : Prop :=
  match _storage b with
  | Some s => 0 <= _starting_offset b /\ _starting_offset b <= zlen s /\ is_u64 (zlen s)
  | None => is_u64 (_starting_offset b)
  end.

Lemma buffer_of_string_wf s : is_u64 (zlen s) -> wf (of_string s).
Proof. unfold wf; simpl. lia. Qed.

Lemma str_of_string s : str (of_string s) = s.
Proof. done. Qed.

Lemma remove_prefix_ok n b :
  wf b -> 0 <= n <= zlen (str b) ->
  exists b', remove_prefix n b = Ok b' /\ wf b' /\ str b' = zdrop n (str b).
Proof.
  intros Hw Hn. unfold remove_prefix. rewrite (proj2 (Z.ltb_ge _ _)) by lia.
  unfold wf, str in *. destruct b as [[s|] off]; simpl in *.
  - rewrite zlen_zdrop in Hn by lia. rewrite u64_id by lia.
    destruct (off + n =? zlen s) eqn:E; eexists; split; try done; simpl;
      rewrite zdrop_zdrop by lia; split; try done; try lia.
    by rewrite zdrop_ge by lia.
  - eexists. split; [done|]. simpl. split; [apply u64_range|]. by rewrite zdrop_ge by (simpl; lia).
Qed.

Lemma remove_prefix_throws n b : zlen (str b) < n -> remove_prefix n b = Fault OutOfRange.
Proof. intros H. unfold remove_prefix. by rewrite (proj2 (Z.ltb_lt _ _)). Qed.

Lemma foldl_app_bytes {A} (f : A -> bytes) l acc :
  foldl (fun ret x => ret ++ f x) acc l = acc ++ concat (f <$> l).
Proof.
  revert acc. induction l as [|x l IH]; intros acc; simpl; [by rewrite app_nil_r|].
  by rewrite IH, <- app_assoc.
Qed.

Lemma concatenate_concat bl : BufferList.concatenate bl = concat (str <$> _buffers bl).
Proof. unfold BufferList.concatenate. apply (foldl_app_bytes str _ []). Qed.

Lemma concatenate_append a b :
  BufferList.concatenate (BufferList.append b a) =
  BufferList.concatenate a ++ BufferList.concatenate b.
Proof. rewrite !concatenate_concat; simpl. by rewrite fmap_app, concat_app. Qed.

Lemma foldl_size {A} (f : A -> bytes) l acc :
  0 <= acc -> acc + zlen (concat (f <$> l)) < 0x10000000000000000 ->
  foldl (fun ret x => u64 (ret + zlen (f x))) acc l = acc + zlen (concat (f <$> l)).
Proof.
  revert acc. induction l as [|x l IH]; intros acc; [cbn; lia|].
  rewrite fmap_cons. cbn [concat foldl]. rewrite zlen_app. intros H0 H.
  rewrite (u64_id (acc + _)) by lia. rewrite IH by lia. lia.
Qed.

Lemma view_remove_spec n vs :
  is_u64 n -> zlen (concat vs) < 0x10000000000000000 ->
  if decide (n <= zlen (concat vs)) then
    exists vs', BufferViewList.remove_loop n vs = Ok vs' /\ concat vs' = zdrop n (concat vs)
  else BufferViewList.remove_loop n vs = Fault OutOfRange.
Proof.
  revert n. induction vs as [|v vs IH]; intros n Hn; simpl.
  - intros _. destruct (n =? 0) eqn:E; case_decide; try lia; [|done].
    exists []. split; [done|]. by rewrite zdrop_ge by (simpl; lia).
  - rewrite zlen_app. intros Hb. destruct (n =? 0) eqn:E.
    { apply Z.eqb_eq in E as ->. rewrite decide_True by lia. by exists (v :: vs). }
    destruct (n <? zlen v) eqn:E2.
    { rewrite decide_True by lia. exists (zdrop n v :: vs). split; [done|]. simpl.
      by rewrite zdrop_app_le by lia. }
    rewrite u64_id by lia. specialize (IH (n - zlen v) ltac:(lia) ltac:(lia)).
    repeat case_decide; try lia; [|done].
    destruct IH as (vs' & -> & Hc). exists vs'. split; [done|]. rewrite Hc.
    rewrite <- (zdrop_app_len v (concat vs)) at 1. rewrite zdrop_zdrop by lia.
    f_equal. lia.
Qed.

(** Dropping from the pieces is dropping from their views. *)
Lemma list_remove_views n bs :
  Forall wf bs -> 0 <= n ->
  match BufferList.remove_loop n bs with
  | Ok bs' => Forall wf bs' /\ BufferViewList.remove_loop n (str <$> bs) = Ok (str <$> bs')
  | Fault f => BufferViewList.remove_loop n (str <$> bs) = Fault f
  end.
Proof.
  intros Hw. revert n. induction Hw as [|b bs Hb Hw IH]; intros n Hn; simpl.
  - by destruct (n =? 0).
  - destruct (n =? 0) eqn:E; [split; [by constructor|done]|].
    destruct (n <? zlen (str b)) eqn:E2.
    + destruct (remove_prefix_ok n b Hb) as (b' & -> & Hb' & Hs); [lia|]. simpl.
      rewrite Hs. split; [by constructor|done].
    + apply IH. apply u64_range.
Qed.

(** ** Properties *)

(** Dropping a prefix of a packet: on a well-formed [BufferList] (no piece
    past the end of its storage), removing [n] bytes leaves exactly the bytes
    after the first [n], whatever the boundaries between the pieces, agrees with
    [BufferViewList], and throws [out_of_range] exactly when [n] exceeds the size. *)
Theorem buffer_list_remove_prefix n bl :
  Forall wf (_buffers bl) -> is_u64 n ->
  zlen (BufferList.concatenate bl) < 0x10000000000000000 ->
  BufferList.size bl = zlen (BufferList.concatenate bl) /\
  if decide (n <= BufferList.size bl) then
    exists bl', BufferList.remove_prefix n bl = Ok bl' /\ Forall wf (_buffers bl') /\
      BufferList.concatenate bl' = zdrop n (BufferList.concatenate bl) /\
      BufferViewList.remove_prefix n (BufferViewList.of_list bl) =
        Ok (BufferViewList.of_list bl')
  else BufferList.remove_prefix n bl = Fault OutOfRange /\
       BufferViewList.remove_prefix n (BufferViewList.of_list bl) = Fault OutOfRange.
Proof.
  intros Hw Hn Hb. rewrite concatenate_concat in *.
  assert (Hs : BufferList.size bl = zlen (concat (str <$> _buffers bl))).
  { unfold BufferList.size. by rewrite (foldl_size str) by lia. }
  split; [done|]. rewrite Hs.
  pose proof (view_remove_spec n (str <$> _buffers bl) Hn Hb) as HV.
  pose proof (list_remove_views n (_buffers bl) Hw (proj1 Hn)) as HL.
  unfold BufferList.remove_prefix, BufferViewList.remove_prefix, BufferViewList.of_list; simpl.
  case_decide.
  - destruct HV as (vs' & HV & Hc). destruct (BufferList.remove_loop n (_buffers bl)) as [bs'|f].
    + destruct HL as [Hw' HL]. exists (mkBufferList bs'). rewrite concatenate_concat; simpl.
      rewrite HL in *. injection HV as <-. done.
    + congruence.
  - rewrite HV in *. destruct (BufferList.remove_loop n (_buffers bl)) as [bs'|f].
    + by destruct HL.
    + injection HL as <-. done.
Qed.

Lemma buffer_list_remove_prefix_witness :
  let bl := mkBufferList [of_string [x61; x62]; empty; of_string [x63]] in
  BufferList.size bl = zlen (BufferList.concatenate bl) /\
  if decide (2 <= BufferList.size bl) then
    exists bl', BufferList.remove_prefix 2 bl = Ok bl' /\ Forall wf (_buffers bl') /\
      BufferList.concatenate bl' = zdrop 2 (BufferList.concatenate bl) /\
      BufferViewList.remove_prefix 2 (BufferViewList.of_list bl) =
        Ok (BufferViewList.of_list bl')
  else BufferList.remove_prefix 2 bl = Fault OutOfRange /\
       BufferViewList.remove_prefix 2 (BufferViewList.of_list bl) = Fault OutOfRange.
Proof.
  intros bl. apply buffer_list_remove_prefix; [|lia|by vm_compute].
  repeat constructor; simpl; lia.
Defined.
