(* ===== verification/Parser.v ===== *)
(** * Parser: network-order integers (util/parser.hh, util/parser.cc)

    [NetParser] consumes a [Buffer] and remembers its first error; [NetUnparser]
    appends integers to a string.  A parser is a state transformer on [NetParser]
    that can throw, because [Buffer::at] and [Buffer::remove_prefix] can; that no
    parse does throw on a well-formed buffer is proved below. *)

From Stdlib Require Import Strings.String.
From S2P Require Import Prelude Buffer.

(** ** ParseResult *)

Inductive ParseResult : Set :=
| NoError | BadChecksum | PacketTooShort | WrongIPVersion
| HeaderTooShort | TruncatedPacket | Unsupported.

#[export] Instance ParseResult_eq_dec : EqDecision ParseResult.
Proof. intros r r'. unfold Decision. decide equality. Defined.

(** [static_cast<size_t>(r)]. *)
Definition index (r : ParseResult) : Z :=
  match r with
  | NoError => 0 | BadChecksum => 1 | PacketTooShort => 2 | WrongIPVersion => 3
  | HeaderTooShort => 4 | TruncatedPacket => 5 | Unsupported => 6
  end.

Definition _names : list String.string :=
  ["NoError"; "BadChecksum"; "PacketTooShort"; "WrongIPVersion"; "HeaderTooShort";
   "TruncatedPacket"]%string.

(** The table is indexed without a check; its rows end at [TruncatedPacket]. *)
Definition as_string (r : ParseResult) : outcome String.string :=
  match zget _names (index r) with Some s => Ok s | None => Fault PastTheEnd end.

(** ** NetParser *)

Record NetParser := mkNetParser { _buffer : Buffer; _error : ParseResult }.
#[export] Instance eta_NetParser : Eta NetParser :=
  fun p => mkNetParser (_buffer p) (_error p).

Definition parser (A : Type) : Type := NetParser -> outcome (A * NetParser).
#[export] Instance parser_ret : MRet parser := fun A a p => Ok (a, p).
#[export] Instance parser_bind : MBind parser := fun A B k m p =>
  match m p with Ok (a, p') => k a p' | Fault f => Fault f end.

(** The value an integer of [len] bytes keeps of [z]. *)
Definition trunc (len z : Z) : Z := z mod 256 ^ len.

Module NetParser.

Definition new (b : Buffer) : NetParser := mkNetParser b NoError.
Definition buffer (p : NetParser) : Buffer := _buffer p.
Definition get_error (p : NetParser) : ParseResult := _error p.
Definition set_error (res : ParseResult) (p : NetParser) : NetParser :=
  p <| _error := res |>.
Definition error (p : NetParser) : bool := negb (bool_decide (get_error p = NoError)).

Definition _check_size (size : Z) (p : NetParser) : NetParser :=
  if Buffer.size (_buffer p) <? size then set_error PacketTooShort p else p.

(** The loop of [_parse_int], over the indices [idx]. *)
Fixpoint _parse_loop (len : Z) (b : Buffer) (idx : list Z) (ret : Z) : outcome Z :=
  match idx with
  | [] => Ok ret
  | i :: idx' =>
    c ← Buffer.at_ i b;
    _parse_loop len b idx' (trunc len (trunc len (Z.shiftl ret 8) + c))
  end.

Definition _parse_int (len : Z) : parser Z := fun p =>
  let p := _check_size len p in
  if error p then Ok (0, p)
  else
    ret ← _parse_loop len (_buffer p) (seqZ 0 len) 0;
    b ← Buffer.remove_prefix len (_buffer p);
    Ok (ret, p <| _buffer := b |>).

Definition u32 : parser Z := _parse_int 4.
Definition u16 : parser Z := _parse_int 2.
Definition u8 : parser Z := _parse_int 1.

Definition remove_prefix (n : Z) : parser unit := fun p =>
  let p := _check_size n p in
  if error p then Ok (tt, p)
  else b ← Buffer.remove_prefix n (_buffer p); Ok (tt, p <| _buffer := b |>).

(** Reading the parser's own state inside a parse. *)
Definition get : parser NetParser := fun p => Ok (p, p).

End NetParser.

(** ** NetUnparser *)

Module NetUnparser.

Definition _unparse_int (len : Z) (s : bytes) (val : Z) : bytes :=
  foldl (fun s i => s ++ [z2b (Z.land (Z.shiftr val ((len - i - 1) * 8)) 0xff)]) s
    (seqZ 0 len).

Definition u32 (s : bytes) (val : Z) : bytes := _unparse_int 4 s val.
Definition u16 (s : bytes) (val : Z) : bytes := _unparse_int 2 s val.
Definition u8 (s : bytes) (val : Z) : bytes := _unparse_int 1 s val.

End NetUnparser.

(** ** Big-endian values *)

(** The integer a string spells in network byte order, and the string of [len]
    bytes that spells an integer. *)
Definition be (s : bytes) : Z := foldl (fun r b => r * 256 + b2z b) 0 s.

Fixpoint enc (len : nat) (z : Z) : bytes :=
  match len with
  | O => []
  | S k => z2b (Z.shiftr z (8 * Z.of_nat k)) :: enc k z
  end.

Lemma foldl_be s r :
  foldl (fun r b => r * 256 + b2z b) r s = r * 256 ^ zlen s + be s.
Proof.
  unfold be. revert r. induction s as [|c s IH]; intros r; cbn [foldl length]; [lia|].
  rewrite (IH (r * 256 + b2z c)), (IH (0 * 256 + b2z c)), Nat2Z.inj_succ, Z.pow_succ_r by lia.
  ring.
Qed.

Lemma be_cons c s : be (c :: s) = b2z c * 256 ^ zlen s + be s.
Proof. unfold be at 1. cbn [foldl]. rewrite foldl_be. ring. Qed.

Lemma be_range s : 0 <= be s < 256 ^ zlen s.
Proof.
  induction s as [|c s IH]; [done|]. rewrite be_cons. cbn [length].
  rewrite Nat2Z.inj_succ, Z.pow_succ_r by lia. pose proof (b2z_range c). nia.
Qed.

Lemma length_enc k z : length (enc k z) = k.
Proof. induction k; simpl; congruence. Qed.

Lemma pow256 k : 256 ^ Z.of_nat k = 2 ^ (8 * Z.of_nat k).
Proof. change 256 with (2 ^ 8). rewrite <- Z.pow_mul_r by lia. done. Qed.

Lemma be_enc k z : be (enc k z) = z mod 256 ^ Z.of_nat k.
Proof.
  induction k as [|k IH]; [by rewrite Z.mod_1_r|].
  cbn [enc]. rewrite be_cons, length_enc, IH, b2z_z2b, Z.shiftr_div_pow2, <- pow256 by lia.
  rewrite Nat2Z.inj_succ, Z.pow_succ_r by lia. unfold u8.
  rewrite (Z.mul_comm 256), Z.rem_mul_r by lia. lia.
Qed.

Lemma be_inj s t : length s = length t -> be s = be t -> s = t.
Proof.
  revert t. induction s as [|c s IH]; intros [|d t]; try done. intros [= Hl].
  rewrite !be_cons, Hl. intros H.
  pose proof (be_range s) as Hs. pose proof (be_range t) as Ht. rewrite Hl in Hs.
  assert (b2z c = b2z d) by nia. f_equal; [by apply b2z_inj|apply IH; [done|nia]].
Qed.

Lemma enc_be k s : length s = k -> enc k (be s) = s.
Proof.
  intros H. apply be_inj; [by rewrite length_enc|].
  rewrite be_enc, Z.mod_small; [done|]. subst k. apply be_range.
Qed.

(** [_unparse_int] appends the encoding. *)
Lemma unparse_enc (k : nat) s z :
  NetUnparser._unparse_int (Z.of_nat k) s z = s ++ enc k z.
Proof.
  unfold NetUnparser._unparse_int.
  assert (G : forall m i s, (i + Z.of_nat m = Z.of_nat k)%Z -> 0 <= i ->
    foldl (fun s i => s ++ [z2b (Z.land (Z.shiftr z ((Z.of_nat k - i - 1) * 8)) 255)]) s
      (seqZ i (Z.of_nat m)) = s ++ enc m z).
  { induction m as [|m IH]; intros i s' Hi H0; [by rewrite app_nil_r|].
    rewrite seqZ_cons by lia. cbn [foldl enc].
    replace (Z.pred (Z.of_nat (S m))) with (Z.of_nat m) by lia.
    rewrite IH by lia. rewrite <- app_assoc. do 2 f_equal. simpl. f_equal.
    replace ((Z.of_nat k - i - 1) * 8) with (8 * Z.of_nat m) by lia.
    apply b2z_inj. rewrite !b2z_z2b. change 255 with (Z.ones 8).
    rewrite Z.land_ones by lia. unfold u8. apply Z.mod_mod. lia. }
  apply G; lia.
Qed.

Lemma unparse_u32 s z : NetUnparser.u32 s z = s ++ enc 4 z.
Proof. apply (unparse_enc 4). Qed.
Lemma unparse_u16 s z : NetUnparser.u16 s z = s ++ enc 2 z.
Proof. apply (unparse_enc 2). Qed.
Lemma unparse_u8 s z : NetUnparser.u8 s z = s ++ enc 1 z.
Proof. apply (unparse_enc 1). Qed.
#[export] Hint Rewrite unparse_u32 unparse_u16 unparse_u8 : zlist.

(** ** Behaviour of the parser *)

(** [p] has seen no error and [s] is what is left. *)
Definition ready (p : NetParser) (s : bytes) : Prop :=
  _error p = NoError /\ wf (_buffer p) /\ str (_buffer p) = s.

Lemma ready_new b : wf b -> ready (NetParser.new b) (str b).
Proof. done. Qed.

Lemma ready_error p s : ready p s -> NetParser.error p = false.
Proof. intros (He & _). unfold NetParser.error, NetParser.get_error. by rewrite He. Qed.

Lemma check_size_ok p s n :
  ready p s -> n <= zlen s -> NetParser._check_size n p = p.
Proof.
  intros (He & Hw & Hs) Hn. unfold NetParser._check_size, Buffer.size. rewrite Hs.
  by rewrite (proj2 (Z.ltb_ge _ _)).
Qed.

Lemma parse_loop_spec b (len : Z) (m : nat) i ret :
  0 <= i -> i + Z.of_nat m = len -> len <= zlen (str b) -> 0 <= ret < 256 ^ i ->
  NetParser._parse_loop len b (seqZ i (Z.of_nat m)) ret =
    Ok (ret * 256 ^ Z.of_nat m + be (ztake (Z.of_nat m) (zdrop i (str b)))).
Proof.
  revert i ret. induction m as [|m IH]; intros i ret Hi Hm Hlen Hret.
  - rewrite ztake_0. change (be []) with 0. cbn. f_equal. lia.
  - rewrite seqZ_cons by lia. cbn [NetParser._parse_loop].
    replace (Z.pred (Z.of_nat (S m))) with (Z.of_nat m) by lia.
    destruct (zget_is_Some (str b) i) as [c Hc]; [lia|].
    unfold Buffer.at_. rewrite Hc. cbn. pose proof (b2z_range c) as Hb.
    assert (Hp : 256 ^ (i + 1) <= 256 ^ len) by (apply Z.pow_le_mono_r; lia).
    rewrite Z.pow_add_r in Hp by lia. change (256 ^ 1) with 256 in Hp.
    unfold trunc. rewrite Z.shiftl_mul_pow2 by lia. change (2 ^ 8) with 256.
    rewrite (Z.mod_small (ret * 256)) by nia. rewrite Z.mod_small by nia.
    rewrite IH; [|lia|lia|lia|rewrite Z.pow_succ_r by lia; nia].
    change (Z.succ i) with (i + 1).
    assert (E : ztake (Z.of_nat (S m)) (zdrop i (str b)) =
                c :: ztake (Z.of_nat m) (zdrop (i + 1) (str b))).
    { unfold ztake, zdrop, zget in *. rewrite decide_True in Hc by lia.
      rewrite (drop_S _ _ _ Hc). replace (Z.to_nat (i + 1)) with (S (Z.to_nat i)) by lia.
      by rewrite !Nat2Z.id. }
    rewrite E, be_cons, zlen_ztake, zlen_zdrop by lia.
    rewrite Z.min_l by lia. rewrite Nat2Z.inj_succ, Z.pow_succ_r by lia. f_equal. ring.
Qed.

Lemma parse_int_spec (k : nat) p s :
  ready p s -> Z.of_nat k <= zlen s ->
  exists p', NetParser._parse_int (Z.of_nat k) p = Ok (be (ztake (Z.of_nat k) s), p') /\
    ready p' (zdrop (Z.of_nat k) s).
Proof.
  intros HR Hk. unfold NetParser._parse_int.
  rewrite (check_size_ok p s), (ready_error p s) by done.
  destruct HR as (He & Hw & Hs). subst s.
  rewrite parse_loop_spec by lia. cbn.
  destruct (remove_prefix_ok (Z.of_nat k) _ Hw) as (b' & -> & Hw' & Hs'); [lia|].
  rewrite zdrop_0. eexists. split; [done|]. done.
Qed.

(** A parser that has failed stays put and returns zeros. *)
Lemma parse_int_error len p :
  NetParser.error p = true -> exists e,
  NetParser._parse_int len p = Ok (0, p <| _error := e |>) /\ e <> NoError.
Proof.
  intros H. unfold NetParser._parse_int, NetParser._check_size.
  destruct (Buffer.size _ <? len).
  - unfold NetParser.set_error. eexists. split; [done|done].
  - rewrite H. exists (_error p). split; [by destruct p|].
    unfold NetParser.error, NetParser.get_error in H. by case_bool_decide.
Qed.

Lemma parse_int_short len p s :
  ready p s -> zlen s < len ->
  NetParser._parse_int len p = Ok (0, p <| _error := PacketTooShort |>).
Proof.
  intros (He & Hw & Hs) Hn. unfold NetParser._parse_int, NetParser._check_size, Buffer.size.
  rewrite Hs, (proj2 (Z.ltb_lt _ _)) by lia. done.
Qed.

Lemma parse_enc (k : nat) p z t :
  ready p (enc k z ++ t) -> 0 <= z < 256 ^ Z.of_nat k ->
  exists p', NetParser._parse_int (Z.of_nat k) p = Ok (z, p') /\ ready p' t.
Proof.
  intros HR Hz. destruct (parse_int_spec k p _ HR) as (p' & E & HR').
  { rewrite zlen_app, length_enc. lia. }
  assert (L : Z.of_nat k = zlen (enc k z)) by (by rewrite length_enc).
  exists p'. rewrite E. rewrite L in HR' at 1. rewrite zdrop_app_len in HR'. split; [|done].
  rewrite L at 1. rewrite ztake_app_len, be_enc, Z.mod_small by done. done.
Qed.

Lemma remove_prefix_spec n p s :
  ready p s -> 0 <= n <= zlen s ->
  exists p', NetParser.remove_prefix n p = Ok (tt, p') /\ ready p' (zdrop n s).
Proof.
  intros HR Hn. unfold NetParser.remove_prefix.
  rewrite (check_size_ok p s), (ready_error p s) by (try done; lia).
  destruct HR as (He & Hw & Hs). subst s.
  destruct (remove_prefix_ok n _ Hw) as (b' & -> & Hw' & Hs'); [lia|].
  eexists. split; [done|]. done.
Qed.

Lemma remove_prefix_short n p s :
  ready p s -> zlen s < n ->
  NetParser.remove_prefix n p = Ok (tt, p <| _error := PacketTooShort |>).
Proof.
  intros (He & Hw & Hs) Hn. unfold NetParser.remove_prefix, NetParser._check_size, Buffer.size.
  rewrite Hs, (proj2 (Z.ltb_lt _ _)) by lia. done.
Qed.

(** *** Reading through a message

    [field s off len] is the integer the wire format puts at offset [off].  While a
    message [s] is parsed field by field, the parser either is at offset [off] of [s]
    ([at_offset]) or has run past the end ([tracks]). *)

Definition field (s : bytes) (off len : Z) : Z := be (ztake len (zdrop off s)).

Definition at_offset (p : NetParser) (s : bytes) (off : Z) : Prop :=
  0 <= off <= zlen s /\ ready p (zdrop off s).

Definition tracks (p : NetParser) (s : bytes) (off : Z) : Prop :=
  at_offset p s off \/ _error p = PacketTooShort.

Lemma parse_at k p s off :
  at_offset p s off -> 0 <= k -> off + k <= zlen s ->
  exists p', NetParser._parse_int k p = Ok (field s off k, p') /\ at_offset p' s (off + k).
Proof.
  intros [Ho HR] Hk Hl. rewrite <- (Z2Nat.id k) by lia.
  destruct (parse_int_spec (Z.to_nat k) p _ HR) as (p' & E & HR').
  { rewrite zlen_zdrop; lia. }
  exists p'. split; [done|]. split; [lia|]. by rewrite zdrop_zdrop in HR' by lia.
Qed.

Lemma parse_tracks k p s off :
  tracks p s off -> 0 <= k ->
  exists z p', NetParser._parse_int k p = Ok (z, p') /\ tracks p' s (off + k).
Proof.
  intros [HA|HE] Hk.
  - destruct (decide (off + k <= zlen s)).
    + destruct (parse_at k p s off HA) as (p' & E & HA'); [lia..|].
      eexists _, p'. split; [done|]. by left.
    + destruct HA as [Ho HR]. erewrite parse_int_short; [|done|rewrite zlen_zdrop; lia].
      eexists _, _. split; [done|]. by right.
  - unfold NetParser._parse_int, NetParser._check_size, NetParser.error, NetParser.get_error.
    destruct (Buffer.size _ <? k); cbn; rewrite ?HE, bool_decide_eq_false_2 by done; cbn;
      eexists _, _; (split; [done|]); by right.
Qed.

Lemma remove_prefix_at n p s off :
  at_offset p s off -> 0 <= n -> off + n <= zlen s ->
  exists p', NetParser.remove_prefix n p = Ok (tt, p') /\ at_offset p' s (off + n).
Proof.
  intros [Ho HR] Hn Hl. destruct (remove_prefix_spec n p _ HR) as (p' & E & HR').
  { rewrite zlen_zdrop; lia. }
  exists p'. split; [done|]. split; [lia|]. by rewrite zdrop_zdrop in HR' by lia.
Qed.

Lemma remove_prefix_tracks n p s off :
  tracks p s off -> 0 <= n ->
  exists p', NetParser.remove_prefix n p = Ok (tt, p') /\ tracks p' s (off + n).
Proof.
  intros [HA|HE] Hn.
  - destruct (decide (off + n <= zlen s)).
    + destruct (remove_prefix_at n p s off HA) as (p' & E & HA'); [lia..|].
      exists p'. split; [done|]. by left.
    + destruct HA as [Ho HR]. erewrite remove_prefix_short; [|done|rewrite zlen_zdrop; lia].
      eexists. split; [done|]. by right.
  - unfold NetParser.remove_prefix, NetParser._check_size, NetParser.error, NetParser.get_error.
    destruct (Buffer.size _ <? n); cbn; rewrite ?HE, bool_decide_eq_false_2 by done; cbn;
      eexists; (split; [done|]); by right.
Qed.

(** [parse_field] reads one field off a goal [(x ← read; k) p = …]. *)
Lemma parser_bind_Ok {A B} (m : parser A) (k : A -> parser B) p a p' :
  m p = Ok (a, p') -> (m ≫= k) p = k a p'.
Proof. intros E. unfold mbind, parser_bind. by rewrite E. Qed.

Lemma parser_get_bind {B} (k : NetParser -> parser B) p : (NetParser.get ≫= k) p = k p p.
Proof. done. Qed.

Ltac parse_field H :=
  let p' := fresh "p" in let E := fresh "E" in let H' := fresh "H" in
  match type of H with
  | at_offset ?p ?s ?off =>
    match goal with |- context [(NetParser._parse_int ?k ≫= _) p] =>
      destruct (parse_at k p s off H) as (p' & E & H'); [lia|lia|];
      rewrite (parser_bind_Ok _ _ _ _ _ E); clear H E;
      let o := eval cbv in (off + k) in change (off + k) with o in H'; rename H' into H
    end
  | tracks ?p ?s ?off =>
    match goal with |- context [(NetParser._parse_int ?k ≫= _) p] =>
      let z := fresh "z" in
      destruct (parse_tracks k p s off H) as (z & p' & E & H'); [lia|];
      rewrite (parser_bind_Ok _ _ _ _ _ E); clear H E;
      let o := eval cbv in (off + k) in change (off + k) with o in H'; rename H' into H
    end
  end.

(** Fields of a message built by appending. *)
Lemma field_range s off (k : nat) : 0 <= field s off (Z.of_nat k) < 256 ^ Z.of_nat k.
Proof.
  unfold field. pose proof (be_range (ztake (Z.of_nat k) (zdrop off s))) as H.
  rewrite zlen_ztake in H by lia.
  pose proof (Z.pow_le_mono_r 256 (Z.min (Z.of_nat k) (zlen (zdrop off s))) (Z.of_nat k)). lia.
Qed.

Lemma field_app_skip a s off k :
  zlen a <= off -> field (a ++ s) off k = field s (off - zlen a) k.
Proof.
  intros H. unfold field.
  replace off with (zlen a + (off - zlen a)) at 1 by lia.
  by rewrite <- zdrop_zdrop, zdrop_app_len by lia.
Qed.

Lemma field_enc (k : nat) z s :
  0 <= z < 256 ^ Z.of_nat k -> field (enc k z ++ s) 0 (Z.of_nat k) = z.
Proof.
  intros Hz. unfold field. rewrite zdrop_0.
  replace (Z.of_nat k) with (zlen (enc k z)) by (by rewrite length_enc).
  rewrite ztake_app_len, be_enc, Z.mod_small by done. done.
Qed.

Lemma zlen_enc k z : zlen (enc k z) = Z.of_nat k.
Proof. by rewrite length_enc. Qed.

(** [read_fields] evaluates the fields of a message that is a concatenation of encodings. *)
Lemma field_skip_enc (k : nat) z s off len :
  (Z.of_nat k <=? off) = true -> field (enc k z ++ s) off len = field s (off - Z.of_nat k) len.
Proof. intros H. rewrite field_app_skip; rewrite zlen_enc; [done|lia]. Qed.

Lemma field_head (k : nat) z s off len :
  off = 0 -> len = Z.of_nat k -> 0 <= z < 256 ^ Z.of_nat k -> field (enc k z ++ s) off len = z.
Proof. intros -> -> Hz. by apply field_enc. Qed.

Ltac width_lia :=
  match goal with |- _ <= _ < ?p => let v := eval vm_compute in p in change p with v; lia end.
Ltac read_fields :=
  repeat match goal with
  | |- context [field (enc ?k ?z ++ ?s) ?off ?len] =>
    first [ rewrite (field_head k z s off len); [|reflexivity|reflexivity|width_lia]
          | rewrite (field_skip_enc k z s off len) by reflexivity ]
  end.
