(* ===== verification/Checksum.v ===== *)
(** * Checksum: the Internet checksum (util/util.hh, util/util.cc) *)

From S2P Require Import Prelude Buffer Parser.

Record InternetChecksum := mkChecksum { _sum : Z; _parity : bool }.

Module InternetChecksum.

Definition new (initial_sum : Z) : InternetChecksum := mkChecksum (u32 initial_sum) false.

(** One round of the loop of [add]. *)
Definition add_byte (c : InternetChecksum) (data_i : byte) : InternetChecksum :=
  let val := b2z data_i in
  let val := if _parity c then val else u16 (Z.shiftl val 8) in
  mkChecksum (u32 (_sum c + val)) (negb (_parity c)).

Definition add (data : bytes) (c : InternetChecksum) : InternetChecksum :=
  foldl add_byte c data.

(** The [while] loop of [value]; two rounds always reach its exit
    ([fold_loop_exits]). *)
Fixpoint fold_loop (fuel : nat) (ret : Z) : Z :=
  match fuel with
  | O => ret
  | S fuel' =>
    if 0xffff <? ret then fold_loop fuel' (u32 (Z.shiftr ret 16 + Z.land ret 0xffff))
    else ret
  end.

Definition value (c : InternetChecksum) : Z :=
  let ret := fold_loop 2 (_sum c) in u16 (Z.lnot ret).

End InternetChecksum.
Import InternetChecksum.

(** ** The sum of 16-bit words *)

(** The sum of the big-endian 16-bit words of [s]; with [odd], [s] starts with the
    low byte of a word. *)
Fixpoint word_sum (odd : bool) (s : bytes) : Z :=
  match s with
  | [] => 0
  | b :: s' => (if odd then b2z b else b2z b * 256) + word_sum (negb odd) s'
  end.

Lemma word_sum_range odd s : 0 <= word_sum odd s <= 65280 * zlen s.
Proof.
  revert odd. induction s as [|b s IH]; intros odd; cbn [word_sum length]; [lia|].
  specialize (IH (negb odd)). pose proof (b2z_range b). destruct odd; lia.
Qed.

(** The parity after [n] bytes. *)
Definition flip (odd : bool) (s : bytes) : bool := xorb odd (Nat.odd (length s)).

Lemma flip_cons odd b s : flip odd (b :: s) = flip (negb odd) s.
Proof.
  unfold flip. cbn [length]. rewrite Nat.odd_succ, <- Nat.negb_odd.
  by destruct odd, (Nat.odd (length s)).
Qed.

Lemma word_sum_app odd s t :
  word_sum odd (s ++ t) = word_sum odd s + word_sum (flip odd s) t.
Proof.
  revert odd. induction s as [|b s IH]; intros odd.
  - unfold flip. cbn. by rewrite xorb_false_r.
  - rewrite flip_cons. cbn [app word_sum]. rewrite IH. lia.
Qed.

Lemma word_sum_enc2 z : is_u16 z -> word_sum false (enc 2 z) = z.
Proof.
  intros Hz. cbn [enc word_sum negb]. rewrite !b2z_z2b, !Z.shiftr_div_pow2 by lia.
  change (2 ^ (8 * Z.of_nat 1)) with 256. change (2 ^ (8 * Z.of_nat 0)) with 1. ulia.
Qed.

Lemma add_spec s c :
  is_u32 (_sum c) ->
  add s c = mkChecksum (u32 (_sum c + word_sum (_parity c) s)) (flip (_parity c) s).
Proof.
  revert c. induction s as [|b s IH]; intros [sum p] Hs.
  - unfold flip. cbn in *. rewrite u32_id, xorb_false_r by lia. f_equal. lia.
  - rewrite flip_cons. unfold add in *. cbn [foldl]. rewrite IH by apply u32_range.
    cbn [add_byte _sum _parity word_sum] in *. pose proof (b2z_range b). f_equal.
    rewrite Z.shiftl_mul_pow2 by lia. change (2 ^ 8) with 256.
    destruct p; ulia.
Qed.

Lemma add_app s t c : add (s ++ t) c = add t (add s c).
Proof. apply foldl_app. Qed.

(** ** Folding the carries *)

Lemma fold_step r :
  Z.shiftr r 16 + Z.land r 0xffff = r / 65536 + r mod 65536.
Proof.
  change 0xffff with (Z.ones 16). rewrite Z.land_ones, Z.shiftr_div_pow2 by lia. done.
Qed.

(** The loop exits within two rounds, on the 16-bit one's complement value. *)
Lemma fold_loop_exits r n :
  is_u32 r ->
  fold_loop (2 + n) r = (if r =? 0 then 0 else (r - 1) mod 65535 + 1).
Proof.
  intros Hr.
  assert (G : forall m r', 0 <= r' <= 65535 -> fold_loop m r' = r').
  { intros [|m] r' H; [done|]. simpl. by rewrite (proj2 (Z.ltb_ge _ _)) by lia. }
  simpl. rewrite fold_step. destruct (0xffff <? r) eqn:E1.
  - rewrite u32_id, fold_step by ulia. destruct (0xffff <? r / 65536 + r mod 65536) eqn:E2.
    + rewrite u32_id, G by ulia. rewrite (proj2 (Z.eqb_neq r 0)) by lia. ulia.
    + rewrite (proj2 (Z.eqb_neq r 0)) by lia. ulia.
  - destruct (r =? 0) eqn:E3; [lia|]. rewrite Z.mod_small by lia. lia.
Qed.

Lemma value_eq c :
  is_u32 (_sum c) ->
  value c = if _sum c =? 0 then 65535 else 65534 - (_sum c - 1) mod 65535.
Proof.
  intros Hs. unfold value. rewrite (fold_loop_exits _ 0) by done.
  unfold Z.lnot. destruct (_sum c =? 0); [done|]. ulia.
Qed.

Lemma value_range c : is_u16 (value c).
Proof. apply u16_range. Qed.

Lemma value_zero c :
  is_u32 (_sum c) -> value c = 0 <-> 0 < _sum c /\ _sum c mod 65535 = 0.
Proof.
  intros Hs. rewrite value_eq by done. destruct (_sum c =? 0) eqn:E; [lia|]. ulia.
Qed.

Lemma sum_add s i :
  is_u32 i -> i + word_sum false s < 0x100000000 ->
  _sum (add s (new i)) = i + word_sum false s.
Proof.
  intros Hi Hs. pose proof (word_sum_range false s).
  rewrite add_spec by apply u32_range. unfold new; cbn. rewrite (u32_id i), u32_id; lia.
Qed.

(** A two-byte field at an even offset, holding [z]. *)
Lemma word_sum_field a z b :
  Nat.even (length a) = true -> is_u16 z ->
  word_sum false (a ++ enc 2 z ++ b) = word_sum false a + z + word_sum false b.
Proof.
  intros Ha Hz. rewrite word_sum_app, word_sum_app.
  assert (flip false a = false) as ->.
  { unfold flip. by rewrite <- Nat.negb_even, Ha. }
  rewrite word_sum_enc2 by done. change (flip false (enc 2 z)) with false. lia.
Qed.

(** Filling a zeroed field with the checksum of the whole makes the whole sum to a
    positive multiple of 65535, which is what [value] reads as 0. *)
Lemma checksum_fills i a b :
  is_u32 i -> Nat.even (length a) = true ->
  i + 65280 * zlen (a ++ enc 2 0 ++ b) + 65535 < 0x100000000 ->
  value (add (a ++ enc 2 (value (add (a ++ enc 2 0 ++ b) (new i))) ++ b) (new i)) = 0.
Proof.
  intros Hi Ha Hb. set (c := value (add (a ++ enc 2 0 ++ b) (new i))).
  assert (Hc : is_u16 c) by apply value_range.
  pose proof (word_sum_range false (a ++ enc 2 0 ++ b)) as R.
  rewrite word_sum_field in R by (done || lia).
  assert (Hsum : forall z, is_u16 z ->
    _sum (add (a ++ enc 2 z ++ b) (new i)) = i + (word_sum false a + z + word_sum false b)).
  { intros z Hz. rewrite sum_add, word_sum_field; try done; rewrite ?word_sum_field; try done.
    lia. }
  assert (E : c = if i + (word_sum false a + 0 + word_sum false b) =? 0 then 65535
                  else 65534 - (i + (word_sum false a + 0 + word_sum false b) - 1) mod 65535).
  { subst c. pose proof (Hsum 0 ltac:(lia)) as S0. rewrite value_eq; rewrite S0; [done|lia]. }
  clearbody c. apply value_zero; rewrite Hsum; try done; [lia|].
  split; destruct (_ =? 0) eqn:Z0 in E; ulia.
Qed.

(** ** Properties *)

(** C35. Detection: when a message of fewer than 65536 bytes verifies ([value] is
    0), changing one aligned 16-bit word is detected, except for the change between
    0x0000 and 0xffff, the two representations of zero in one's complement. *)
Theorem checksum_detects_word i a w w' b :
  0 <= i < 0x100000 -> Nat.even (length a) = true -> is_u16 w -> is_u16 w' ->
  zlen (a ++ enc 2 w ++ b) < 65536 ->
  value (add (a ++ enc 2 w ++ b) (new i)) = 0 ->
  value (add (a ++ enc 2 w' ++ b) (new i)) = 0 <->
    w = w' \/ 0 < i + word_sum false a + word_sum false b /\
              (w = 0 /\ w' = 65535 \/ w = 65535 /\ w' = 0).
Proof.
  intros Hi Ha Hw Hw' Hl. rewrite !zlen_app, length_enc in Hl.
  pose proof (word_sum_range false a) as Ra. pose proof (word_sum_range false b) as Rb.
  pose proof (word_sum_range false (a ++ enc 2 w ++ b)) as R.
  pose proof (word_sum_range false (a ++ enc 2 w' ++ b)) as R'.
  rewrite !zlen_app, !length_enc in R, R'. rewrite word_sum_field in R, R' by done.
  rewrite !value_zero; rewrite !sum_add; rewrite ?word_sum_field by done; [|lia..].
  intros [H0 H1]. split.
  - intros [H2 H3]. ulia.
  - intros [->|[H2 [[-> ->]|[-> ->]]]]; split; ulia.
Qed.

Lemma checksum_detects_word_witness :
  value (add ([x45; x00] ++ enc 2 0x14 ++ [xba; xeb]) (new 0)) = 0 /\
  value (add ([x45; x00] ++ enc 2 0x15 ++ [xba; xeb]) (new 0)) <> 0.
Proof.
  assert (H : value (add ([x45; x00] ++ enc 2 0x14 ++ [xba; xeb]) (new 0)) = 0)
    by (vm_compute; reflexivity).
  split; [exact H|].
  intros H'. apply (checksum_detects_word 0 _ 0x14 0x15) in H'; [|lia|done|lia|lia|cbn; lia|exact H].
  destruct H' as [H'|[_ [[H' _]|[H' _]]]]; discriminate H'.
Defined.
