(* ===== verification/Address.v ===== *)
(** * Address (util/address.hh, util/address.cc)

    Socket addresses: a [sockaddr_storage] of 128 bytes and the size in use.  The
    resolver functions of the C library are a class with the documented laws the
    adapters rely on.  A [sockaddr_in] has the layout of Linux on a
    little-endian machine. *)

From Stdlib Require Import Strings.String Strings.Ascii.
From S2P Require Import Prelude Parser.

(** ** Numbers as strings *)

Definition digit (n : Z) : ascii := ascii_of_nat (Z.to_nat (48 + n)).

(** [std::to_string] of an unsigned number; 20 digits are enough for 64 bits. *)
Fixpoint to_digits (fuel : nat) (n : Z) (acc : string) : string :=
  match fuel with
  | O => acc
  | S fuel' =>
    let acc := String (digit (n mod 10)) acc in
    if n <? 10 then acc else to_digits fuel' (n / 10) acc
  end.
Definition to_string (n : Z) : string := to_digits 20 n EmptyString.

Definition digit_value (c : ascii) : option Z :=
  let n := Z.of_nat (nat_of_ascii c) - 48 in
  if (0 <=? n) && (n <? 10) then Some n else None.

(** The decimal digits at the start of a string; [None] when there are none. *)
Fixpoint scan_digits (s : string) (acc : option Z) : option Z :=
  match s with
  | EmptyString => acc
  | String c s' =>
    match digit_value c with
    | Some d => scan_digits s' (Some (default 0 acc * 10 + d))
    | None => acc
    end
  end.

(** [isspace] of the C locale. *)
Definition is_space (c : ascii) : bool :=
  let n := Z.of_nat (nat_of_ascii c) in (n =? 32) || ((9 <=? n) && (n <=? 13)).
Fixpoint skip_space (s : string) : string :=
  match s with
  | String c s' => if is_space c then skip_space s' else s
  | EmptyString => EmptyString
  end.

(** [std::stoi]. *)
Definition stoi (s : string) : outcome Z :=
  let '(sign, digits) :=
    match skip_space s with
    | String "-" s' => (-1, s')
    | String "+" s' => (1, s')
    | s' => (1, s')
    end in
  match scan_digits digits None with
  | None => Fault InvalidArgument
  | Some n =>
    if (-0x80000000 <=? sign * n) && (sign * n <? 0x80000000) then Ok (sign * n)
    else Fault OutOfRange
  end.

(** ** The resolver *)

Definition AF_INET : Z := 2.
Definition AI_NUMERICHOST : Z := 0x4.
Definition AI_ALL : Z := 0x10.
Definition AI_NUMERICSERV : Z := 0x400.
Definition SIZE_OF_STORAGE : Z := 128.
Definition SIZE_OF_SOCKADDR_IN : Z := 16.

(** The first address [getaddrinfo] finds for the family AF_INET, under the given
    flags; what [getnameinfo] says in numeric form; and the dotted quad of an address, given
    in host byte order. *)
Class Resolver := {
  getaddrinfo : string -> string -> Z -> option bytes;
  getnameinfo : bytes -> option (string * string);
  inet_ntoa : Z -> string }.

(** ** Address *)

Record Address := mkAddress { _size : Z; storage : bytes }.

#[export] Instance address_eq_dec : EqDecision Address.
Proof. solve_decision. Defined.

(** A [sockaddr_in]. *)
Definition sockaddr_in (ip port : Z) : bytes :=
  [z2b AF_INET; x00] ++ enc 2 port ++ enc 4 ip ++ replicate 8 x00.

(** [Address(addr, size)]. *)
Definition of_sockaddr (addr : bytes) (size : Z) : outcome Address :=
  if SIZE_OF_STORAGE <? size then Fault RuntimeError
  else Ok (mkAddress size (resize SIZE_OF_STORAGE (ztake size addr))).

Definition ss_family (a : Address) : Z :=
  match storage a with lo :: hi :: _ => b2z lo + 256 * b2z hi | _ => 0 end.

Definition ipv4_numeric (a : Address) : outcome Z :=
  if negb (ss_family a =? AF_INET) || negb (_size a =? SIZE_OF_SOCKADDR_IN)
  then Fault RuntimeError
  else Ok (be (ztake 4 (zdrop 4 (storage a)))).

Definition from_ipv4_numeric (ip_address : Z) : outcome Address :=
  of_sockaddr (sockaddr_in ip_address 0) SIZE_OF_SOCKADDR_IN.

(** [memcmp] over the size in use. *)
Definition eqb (this other : Address) : bool :=
  if negb (_size this =? _size other) then false
  else bool_decide (ztake (_size this) (storage this) = ztake (_size this) (storage other)).

Section resolver.
Context `{Resolver}.

(** The private constructor; every failure is a [std::runtime_error] or derived from it. *)
Definition of_node (node service : string) (flags : Z) : outcome Address :=
  match getaddrinfo node service flags with
  | None => Fault RuntimeError
  | Some addr => of_sockaddr addr (zlen addr)
  end.

Definition of_host (hostname service : string) : outcome Address :=
  of_node hostname service AI_ALL.
Definition of_ip (ip : string) (port : Z) : outcome Address :=
  of_node ip (to_string port) (Z.lor AI_NUMERICHOST AI_NUMERICSERV).

Definition ip_port (a : Address) : outcome (string * Z) :=
  match getnameinfo (ztake (_size a) (storage a)) with
  | None => Fault RuntimeError
  | Some (ip, port) => n ← stoi port; Ok (ip, u16 n)
  end.
Definition ip (a : Address) : outcome string := '(i, _) ← ip_port a; Ok i.
Definition port (a : Address) : outcome Z := '(_, p) ← ip_port a; Ok p.
Definition address_string (a : Address) : outcome string :=
  '(i, p) ← ip_port a; Ok (i ++ ":" ++ to_string p)%string.
End resolver.

(** What the manual pages promise for numeric addresses and ports. *)
Class ResolverLaws `(Resolver) := {
  getnameinfo_numeric ip port : is_u32 ip -> is_u16 port ->
    getnameinfo (sockaddr_in ip port) = Some (inet_ntoa ip, to_string port);
  getaddrinfo_numeric ip port : is_u32 ip -> is_u16 port ->
    getaddrinfo (inet_ntoa ip) (to_string port) (Z.lor AI_NUMERICHOST AI_NUMERICSERV) =
      Some (sockaddr_in ip port) }.

(** ** Lemmas *)

(** The address with this number and port. *)
Definition inet (ip port : Z) : Address :=
  mkAddress SIZE_OF_SOCKADDR_IN (resize SIZE_OF_STORAGE (sockaddr_in ip port)).

Lemma sockaddr_in_len ip port : zlen (sockaddr_in ip port) = SIZE_OF_SOCKADDR_IN.
Proof. unfold sockaddr_in. by rewrite !zlen_app, !zlen_enc. Qed.

Lemma of_sockaddr_in ip port :
  of_sockaddr (sockaddr_in ip port) SIZE_OF_SOCKADDR_IN = Ok (inet ip port).
Proof.
  unfold of_sockaddr, inet. cbn [Z.ltb Z.compare SIZE_OF_STORAGE SIZE_OF_SOCKADDR_IN].
  by rewrite ztake_ge by by rewrite sockaddr_in_len.
Qed.

Lemma inet_bytes ip port : ztake (_size (inet ip port)) (storage (inet ip port)) = sockaddr_in ip port.
Proof.
  cbn [_size storage inet]. rewrite resize_grow by by rewrite sockaddr_in_len.
  rewrite <- (sockaddr_in_len ip port). apply ztake_app_len.
Qed.

Lemma inet_numeric ip port : is_u32 ip -> ipv4_numeric (inet ip port) = Ok ip.
Proof.
  intros Hip. unfold ipv4_numeric. change (ss_family (inet ip port)) with AF_INET.
  cbn [negb orb]. f_equal.
  change (ztake 4 (zdrop 4 (storage (inet ip port)))) with (enc 4 ip).
  rewrite be_enc. apply Z.mod_small. lia.
Qed.

Lemma enc_inj k x y :
  0 <= x < 256 ^ Z.of_nat k -> 0 <= y < 256 ^ Z.of_nat k -> enc k x = enc k y -> x = y.
Proof.
  intros Hx Hy E. apply (f_equal be) in E. rewrite !be_enc, !Z.mod_small in E; done.
Qed.

Lemma inet_inj ip port ip' port' :
  is_u32 ip -> is_u16 port -> is_u32 ip' -> is_u16 port' ->
  inet ip port = inet ip' port' -> ip = ip' /\ port = port'.
Proof.
  intros H1 H2 H3 H4 E.
  pose proof (inet_bytes ip port) as E1. rewrite E, inet_bytes in E1. unfold sockaddr_in in E1.
  apply app_inj_1 in E1 as [_ E1]; [|done].
  apply app_inj_1 in E1 as [Ep E1]; [|by rewrite !length_enc].
  apply app_inj_1 in E1 as [Ei _]; [|by rewrite !length_enc].
  split; symmetry; [apply (enc_inj 4)|apply (enc_inj 2)]; (done || lia).
Qed.

(** Numbers survive the trip through their decimal form. *)
Lemma digit_value_digit d : 0 <= d < 10 -> digit_value (digit d) = Some d.
Proof.
  intros Hd. unfold digit_value, digit. rewrite nat_ascii_embedding by lia.
  rewrite Z2Nat.id by lia. replace (48 + d - 48) with d by lia.
  by rewrite (proj2 (Z.leb_le _ _)), (proj2 (Z.ltb_lt _ _)) by lia.
Qed.

Lemma scan_to_digits fuel : forall n acc o,
  0 <= n < 10 ^ Z.of_nat fuel -> (0 < fuel)%nat ->
  exists k, scan_digits (to_digits fuel n acc) o = scan_digits acc (Some (default 0 o * k + n)).
Proof.
  induction fuel as [|fuel IH]; intros n acc o Hn Hf; [lia|].
  cbn [to_digits]. pose proof (Z.mod_pos_bound n 10 ltac:(lia)) as Hm.
  pose proof (Z.div_mod n 10 ltac:(lia)) as Hdm.
  destruct (Z.ltb_spec n 10) as [Hlt|Hge].
  - exists 10. cbn [scan_digits]. rewrite digit_value_digit, Z.mod_small by lia. done.
  - assert (fuel <> 0%nat) by (intros ->; change (10 ^ Z.of_nat 1) with 10 in Hn; lia).
    rewrite Nat2Z.inj_succ, Z.pow_succ_r in Hn by lia.
    destruct (IH (n / 10) (String (digit (n mod 10)) acc) o) as [k ->]; [|lia|].
    { split; [lia|]. apply Z.div_lt_upper_bound; lia. }
    exists (k * 10). cbn [scan_digits]. rewrite digit_value_digit by done.
    cbn [default id]. do 2 f_equal. lia.
Qed.

Lemma scan_to_string n : is_u64 n -> scan_digits (to_string n) None = Some n.
Proof.
  intros Hn. destruct (scan_to_digits 20 n EmptyString None) as [k E]; [|lia|].
  - change (10 ^ Z.of_nat 20) with 100000000000000000000. lia.
  - unfold to_string. by rewrite E.
Qed.

Lemma to_digits_head fuel : forall n acc,
  0 <= n -> (0 < fuel)%nat -> exists d s, 0 <= d < 10 /\ to_digits fuel n acc = String (digit d) s.
Proof.
  induction fuel as [|fuel IH]; intros n acc Hn Hf; [lia|].
  cbn [to_digits]. pose proof (Z.mod_pos_bound n 10 ltac:(lia)) as Hm.
  destruct (n <? 10); [by exists (n mod 10), acc|].
  destruct fuel as [|fuel]; [by exists (n mod 10), acc|].
  apply IH; [|lia]. apply Z.div_pos; lia.
Qed.

Lemma stoi_port n : is_u16 n -> stoi (to_string n) = Ok n.
Proof.
  intros Hn. pose proof (scan_to_string n ltac:(lia)) as E.
  destruct (to_digits_head 20 n EmptyString) as (d & s & Hd & Hs); [lia|lia|].
  unfold stoi, to_string in *. rewrite Hs in *.
  assert (skip_space (String (digit d) s) = String (digit d) s /\
    match String (digit d) s with
    | String "-" s' => (-1, s') | String "+" s' => (1, s') | s' => (1, s') end
    = (1, String (digit d) s)) as [-> ->].
  { assert (d = 0 \/ d = 1 \/ d = 2 \/ d = 3 \/ d = 4 \/ d = 5 \/ d = 6 \/ d = 7 \/ d = 8 \/ d = 9)
      as Hc by lia. by repeat destruct Hc as [->|Hc]; [..|rewrite Hc]. }
  rewrite E, Z.mul_1_l. by rewrite (proj2 (Z.leb_le _ _)), (proj2 (Z.ltb_lt _ _)) by lia.
Qed.

Section laws.
Context `{HR : ResolverLaws}.

Lemma inet_port ip n : is_u32 ip -> is_u16 n -> port (inet ip n) = Ok n.
Proof.
  intros Hip Hn. unfold port, ip_port. rewrite inet_bytes, getnameinfo_numeric by done.
  cbn [mbind outcome_bind]. rewrite stoi_port by done. cbn [mbind outcome_bind].
  by rewrite u16_id.
Qed.

Lemma of_ip_inet i n : is_u32 i -> is_u16 n -> of_ip (inet_ntoa i) n = Ok (inet i n).
Proof.
  intros Hi Hn. unfold of_ip, of_node. rewrite getaddrinfo_numeric by done.
  rewrite sockaddr_in_len. apply of_sockaddr_in.
Qed.
End laws.

Lemma eqb_inet ip port ip' port' :
  is_u32 ip -> is_u16 port -> is_u32 ip' -> is_u16 port' ->
  eqb (inet ip port) (inet ip' port') = (ip =? ip') && (port =? port').
Proof.
  intros H1 H2 H3 H4. unfold eqb. cbn [_size inet negb Z.eqb].
  change (negb (SIZE_OF_SOCKADDR_IN =? SIZE_OF_SOCKADDR_IN)) with false. cbv iota.
  pose proof (inet_bytes ip port) as E1. pose proof (inet_bytes ip' port') as E2.
  cbn [_size inet] in E1, E2. rewrite E1, E2.
  destruct (bool_decide_reflect (sockaddr_in ip port = sockaddr_in ip' port')) as [E|E].
  - assert (inet ip port = inet ip' port') as E' by (unfold inet; by rewrite E).
    apply inet_inj in E' as [-> ->]; try done. by rewrite !Z.eqb_refl.
  - destruct (Z.eqb_spec ip ip') as [->|]; [|done]. destruct (Z.eqb_spec port port') as [->|]; done.
Qed.

(** ** Properties *)

(** Addresses round trip: the address made of the dotted quad of [i] and the port [n]
    has the number [i] and the port [n], equals (operator==) only addresses with the
    same two, and [from_ipv4_numeric] agrees with it at port 0. *)
Theorem address_roundtrip `{ResolverLaws} i n :
  is_u32 i -> is_u16 n ->
  exists a, of_ip (inet_ntoa i) n = Ok a /\ ipv4_numeric a = Ok i /\ port a = Ok n /\
    ip a = Ok (inet_ntoa i) /\
    (forall j m, is_u32 j -> is_u16 m ->
       exists b, of_ip (inet_ntoa j) m = Ok b /\ (eqb a b = true <-> i = j /\ n = m)) /\
    (n = 0 -> from_ipv4_numeric i = Ok a).
Proof.
  intros Hi Hn. exists (inet i n). rewrite of_ip_inet, inet_numeric, inet_port by done.
  split_and!; try done.
  - unfold ip, ip_port. rewrite inet_bytes, getnameinfo_numeric by done.
    cbn [mbind outcome_bind]. by rewrite stoi_port.
  - intros j m Hj Hm. exists (inet j m). split; [by apply of_ip_inet|].
    rewrite eqb_inet, andb_true_iff, !Z.eqb_eq by done. done.
  - intros ->. unfold from_ipv4_numeric. by rewrite of_sockaddr_in.
Qed.

(** ** A resolver that writes and reads addresses as one decimal number (which
    [inet_aton] accepts) *)

Definition demo_getaddrinfo (node service : string) (_ : Z) : option bytes :=
  match scan_digits node None, scan_digits service None with
  | Some i, Some n => Some (sockaddr_in i n)
  | _, _ => None
  end.
Definition demo_getnameinfo (addr : bytes) : option (string * string) :=
  Some (to_string (be (ztake 4 (zdrop 4 addr))), to_string (be (ztake 2 (zdrop 2 addr)))).

#[export] Instance demo_resolver : Resolver :=
  {| getaddrinfo := demo_getaddrinfo; getnameinfo := demo_getnameinfo; inet_ntoa := to_string |}.

Lemma sockaddr_in_fields i n :
  ztake 4 (zdrop 4 (sockaddr_in i n)) = enc 4 i /\ ztake 2 (zdrop 2 (sockaddr_in i n)) = enc 2 n.
Proof. done. Qed.

#[export] Instance demo_resolver_laws : ResolverLaws demo_resolver.
Proof.
  split; cbn -[sockaddr_in to_string enc be]; intros i n Hi Hn.
  - unfold demo_getnameinfo. destruct (sockaddr_in_fields i n) as [-> ->].
    by rewrite !be_enc, !Z.mod_small by (simpl; lia).
  - unfold demo_getaddrinfo. by rewrite !scan_to_string by lia.
Qed.

Lemma address_roundtrip_witness :
  exists a, of_ip (inet_ntoa 0x0a000001) 80 = Ok a /\ ipv4_numeric a = Ok 0x0a000001 /\
    port a = Ok 80.
Proof.
  destruct (address_roundtrip 0x0a000001 80) as (a & H1 & H2 & H3 & _); [lia|lia|].
  by exists a.
Defined.
