(* ===== verification/TCPHeader.v ===== *)
(** * TCPHeader: the TCP header (tcp_helpers/tcp_header.hh, tcp_helpers/tcp_header.cc) *)

From S2P Require Import Prelude WrappingIntegers Buffer Parser.

Definition LENGTH : Z := 20.

Record TCPHeader := mkTCPHeader {
  sport : Z;
  dport : Z;
  seqno : WrappingInt32;
  ackno : WrappingInt32;
  doff : Z;
  urg : bool;
  ack : bool;
  psh : bool;
  rst : bool;
  syn : bool;
  fin : bool;
  win : Z;
  cksum : Z;
  uptr : Z }.

#[export] Instance eta_TCPHeader : Eta TCPHeader := fun h =>
  mkTCPHeader (sport h) (dport h) (seqno h) (ackno h) (doff h) (urg h) (ack h) (psh h)
    (rst h) (syn h) (fin h) (win h) (cksum h) (uptr h).

Definition default : TCPHeader :=
  mkTCPHeader 0 0 (mkWrappingInt32 0) (mkWrappingInt32 0) (LENGTH / 4)
    false false false false false false 0 0 0.

(** [static_cast<bool>(fl_b & mask)]. *)
Definition flag (mask fl_b : Z) : bool := negb (Z.land fl_b mask =? 0).

(** [this] is what the header holds before; every field is assigned. *)
Definition parse (this : TCPHeader) : parser (ParseResult * TCPHeader) :=
  sport' ← NetParser.u16;
  dport' ← NetParser.u16;
  seqno' ← NetParser.u32;
  ackno' ← NetParser.u32;
  doff_b ← NetParser.u8;
  fl_b ← NetParser.u8;
  win' ← NetParser.u16;
  cksum' ← NetParser.u16;
  uptr' ← NetParser.u16;
  let h := mkTCPHeader sport' dport' (mkWrappingInt32 seqno') (mkWrappingInt32 ackno')
    (Z.shiftr doff_b 4) (flag 0x20 fl_b) (flag 0x10 fl_b) (flag 0x08 fl_b)
    (flag 0x04 fl_b) (flag 0x02 fl_b) (flag 0x01 fl_b) win' cksum' uptr' in
  if doff h <? 5 then mret (HeaderTooShort, h)
  else
    _ ← NetParser.remove_prefix (u64 (doff h * 4 - LENGTH));
    p ← NetParser.get;
    if NetParser.error p then mret (NetParser.get_error p, h) else mret (NoError, h).

Definition flags_byte (h : TCPHeader) : Z :=
  Z.lor (if urg h then 0x20 else 0) (Z.lor (if ack h then 0x10 else 0)
  (Z.lor (if psh h then 0x08 else 0) (Z.lor (if rst h then 0x04 else 0)
  (Z.lor (if syn h then 0x02 else 0) (if fin h then 0x01 else 0))))).

Definition serialize (h : TCPHeader) : outcome bytes :=
  if doff h <? 5 then Fault RuntimeError
  else
    let ret := [] in
    let ret := NetUnparser.u16 ret (sport h) in
    let ret := NetUnparser.u16 ret (dport h) in
    let ret := NetUnparser.u32 ret (raw_value (seqno h)) in
    let ret := NetUnparser.u32 ret (raw_value (ackno h)) in
    let ret := NetUnparser.u8 ret (u8 (Z.shiftl (doff h) 4)) in
    let fl_b := flags_byte h in
    let ret := NetUnparser.u8 ret fl_b in
    let ret := NetUnparser.u16 ret (win h) in
    let ret := NetUnparser.u16 ret (cksum h) in
    let ret := NetUnparser.u16 ret (uptr h) in
    Ok (resize (4 * doff h) ret).

(** [operator==]: the ports and the checksum are not compared. *)
Definition eqb (h other : TCPHeader) : bool :=
  WrappingIntegers.eqb (seqno h) (seqno other) && WrappingIntegers.eqb (ackno h) (ackno other) &&
  (doff h =? doff other) && Bool.eqb (urg h) (urg other) && Bool.eqb (ack h) (ack other) &&
  Bool.eqb (psh h) (psh other) && Bool.eqb (rst h) (rst other) &&
  Bool.eqb (syn h) (syn other) && Bool.eqb (fin h) (fin other) &&
  (win h =? win other) && (uptr h =? uptr other).

(** ** The wire format *)

(** The header whose fields are the integers at the offsets of RFC 793. *)
Definition decode (s : bytes) : TCPHeader :=
  let fl_b := field s 13 1 in
  mkTCPHeader (field s 0 2) (field s 2 2) (mkWrappingInt32 (field s 4 4))
    (mkWrappingInt32 (field s 8 4)) (Z.shiftr (field s 12 1) 4)
    (flag 0x20 fl_b) (flag 0x10 fl_b) (flag 0x08 fl_b) (flag 0x04 fl_b) (flag 0x02 fl_b)
    (flag 0x01 fl_b) (field s 14 2) (field s 16 2) (field s 18 2).

(** Every field holds a value of its type, and [doff] one of its four bits. *)
Record wf (h : TCPHeader) : Prop := mk_wf {
  wf_sport : is_u16 (sport h);
  wf_dport : is_u16 (dport h);
  wf_seqno : valid (seqno h);
  wf_ackno : valid (ackno h);
  wf_doff : 0 <= doff h < 16;
  wf_win : is_u16 (win h);
  wf_cksum : is_u16 (cksum h);
  wf_uptr : is_u16 (uptr h) }.

Lemma decode_wf s : wf (decode s).
Proof.
  assert (Hd : is_u8 (field s 12 1)) by apply (field_range s 12 1).
  split; cbn [decode sport dport seqno ackno doff win cksum uptr];
    try apply (field_range s _ 2); try apply (field_range s _ 4).
  rewrite Z.shiftr_div_pow2 by lia. change (2 ^ 4) with 16. ulia.
Qed.

(** What [serialize] writes. *)
Definition before_cksum (h : TCPHeader) : bytes :=
  enc 2 (sport h) ++ enc 2 (dport h) ++ enc 4 (raw_value (seqno h)) ++
  enc 4 (raw_value (ackno h)) ++ enc 1 (u8 (Z.shiftl (doff h) 4)) ++ enc 1 (flags_byte h) ++
  enc 2 (win h).

Definition after_cksum (h : TCPHeader) : bytes :=
  enc 2 (uptr h) ++ replicate (Z.to_nat (4 * doff h - LENGTH)) x00.

Lemma serialize_eq h :
  5 <= doff h ->
  serialize h = Ok (before_cksum h ++ enc 2 (cksum h) ++ after_cksum h).
Proof.
  intros Hd. unfold serialize. rewrite (proj2 (Z.ltb_ge _ _)) by lia.
  cbv zeta. rewrite !unparse_u8, !unparse_u16, !unparse_u32.
  rewrite resize_grow; rewrite !zlen_app, !zlen_enc; [|cbn; lia].
  unfold before_cksum, after_cksum. by rewrite <- !app_assoc.
Qed.

Lemma before_cksum_len h : zlen (before_cksum h) = 16.
Proof. unfold before_cksum. by rewrite !zlen_app, !zlen_enc. Qed.

Lemma after_cksum_len h : 5 <= doff h -> zlen (after_cksum h) = 4 * doff h - 18.
Proof.
  intros. unfold after_cksum, LENGTH. rewrite zlen_app, zlen_enc, length_replicate. lia.
Qed.

Lemma flags_roundtrip h :
  let b := field (enc 1 (flags_byte h)) 0 1 in
  (flag 0x20 b, flag 0x10 b, flag 0x08 b, flag 0x04 b, flag 0x02 b, flag 0x01 b) =
  (urg h, ack h, psh h, rst h, syn h, fin h).
Proof.
  unfold flags_byte. destruct (urg h), (ack h), (psh h), (rst h), (syn h), (fin h); reflexivity.
Qed.

Lemma flags_byte_range h : is_u8 (flags_byte h).
Proof.
  unfold flags_byte. destruct (urg h), (ack h), (psh h), (rst h), (syn h), (fin h); vm_compute; split; congruence.
Qed.

Lemma decode_serialized h s t :
  wf h -> 5 <= doff h -> serialize h = Ok s -> decode (s ++ t) = h.
Proof.
  intros Hw Hd Hs. rewrite serialize_eq in Hs by done. apply Ok_inj in Hs as <-.
  destruct Hw as [w1 w2 w3 w4 w5 w6 w7 w8]. unfold valid in *.
  pose proof (flags_roundtrip h) as HF. pose proof (flags_byte_range h) as HFr.
  pose proof (u8_range (Z.shiftl (doff h) 4)) as Hu.
  unfold decode, before_cksum, after_cksum. rewrite <- !app_assoc. read_fields.
  rewrite <- (app_nil_r (enc 1 _)) in HF. cbv zeta in HF.
  rewrite field_head in HF by (try reflexivity; width_lia). injection HF as -> -> -> -> -> ->.
  rewrite Z.shiftl_mul_pow2, Z.shiftr_div_pow2, u8_id by lia.
  change (2 ^ 4) with 16. rewrite Z.div_mul by lia.
  destruct h as [? ? [] [] ? ? ? ? ? ? ? ? ? ?]; done.
Qed.

(** ** Parsing *)

(** On a message of at least 20 bytes [parse] decodes the fixed fields, and then
    checks the data offset and drops the options. *)
Lemma parse_long this p s :
  at_offset p s 0 -> LENGTH <= zlen s ->
  let h := decode s in
  exists p',
    if doff h <? 5 then
      parse this p = Ok ((HeaderTooShort, h), p') /\ at_offset p' s LENGTH
    else if 4 * doff h <=? zlen s then
      parse this p = Ok ((NoError, h), p') /\ at_offset p' s (4 * doff h)
    else parse this p = Ok ((PacketTooShort, h), p') /\ _error p' = PacketTooShort.
Proof.
  intros HA Hl h. unfold LENGTH in *. pose proof (decode_wf s) as [_ _ _ _ Hd _ _ _].
  fold h in Hd. unfold parse, NetParser.u16, NetParser.u32, NetParser.u8.
  do 9 parse_field HA. unfold LENGTH. cbv zeta.
  change (mkTCPHeader _ _ _ _ _ _ _ _ _ _ _ _ _ _) with h.
  destruct (doff h <? 5) eqn:E5; [by eexists|].
  rewrite u64_id by lia. destruct (4 * doff h <=? zlen s) eqn:E4.
  - destruct (remove_prefix_at (doff h * 4 - 20) _ _ _ HA) as (p' & E & HA'); [lia..|].
    rewrite (parser_bind_Ok _ _ _ _ _ E). exists p'.
    rewrite parser_get_bind, (ready_error _ _ (proj2 HA')). split; [done|].
    by replace (4 * doff h) with (20 + (doff h * 4 - 20)) by lia.
  - destruct HA as [_ HR]. eexists. split.
    + erewrite parser_bind_Ok; [|eapply remove_prefix_short; [done|rewrite zlen_zdrop; lia]].
      by rewrite parser_get_bind.
    + done.
Qed.

(** A shorter message leaves the parser in error, whatever [parse] itself returns. *)
Lemma parse_short this p s :
  at_offset p s 0 -> zlen s < LENGTH ->
  exists r h p', parse this p = Ok ((r, h), p') /\ r <> NoError /\ _error p' = PacketTooShort.
Proof.
  unfold LENGTH. intros HA Hl. assert (HT : tracks p s 0) by (by left).
  unfold parse, NetParser.u16, NetParser.u32, NetParser.u8. do 9 parse_field HT.
  unfold LENGTH. cbv zeta. set (h := mkTCPHeader _ _ _ _ _ _ _ _ _ _ _ _ _ _).
  assert (He : forall q n, tracks q s (20 + n) -> 0 <= n -> _error q = PacketTooShort).
  { intros q n [[? _]|]; [lia|done]. }
  destruct (doff h <? 5).
  - eexists _, _, _. split; [done|]. split; [done|]. apply (He _ 0); [done|lia].
  - pose proof (u64_range (doff h * 4 - 20)) as Hu.
    destruct (remove_prefix_tracks _ _ _ _ HT (proj1 Hu)) as (p' & E & HT').
    rewrite (parser_bind_Ok _ _ _ _ _ E). apply He in HT'; [|lia].
    rewrite parser_get_bind. unfold NetParser.error, NetParser.get_error. rewrite HT', bool_decide_eq_false_2 by done.
    eexists _, _, _. split; [done|]. done.
Qed.
