(* ===== verification/TCPSegment.v ===== *)
(** * TCPSegment: a TCP segment (tcp_helpers/tcp_segment.hh, tcp_helpers/tcp_segment.cc) *)

From S2P Require Import Prelude WrappingIntegers Buffer Parser Checksum TCPHeader.

Record TCPSegment := mkTCPSegment { _header : TCPHeader; _payload : Buffer }.
#[export] Instance eta_TCPSegment : Eta TCPSegment :=
  fun s => mkTCPSegment (_header s) (_payload s).

Definition default : TCPSegment := mkTCPSegment TCPHeader.default Buffer.empty.

(** The result of [_header.parse] is dropped: only the parser's own error counts. *)
Definition parse (buffer : Buffer) (datagram_layer_checksum : Z) (this : TCPSegment)
  : outcome (ParseResult * TCPSegment) :=
  let check := InternetChecksum.new datagram_layer_checksum in
  let check := InternetChecksum.add (str buffer) check in
  if negb (InternetChecksum.value check =? 0) then Ok (BadChecksum, this)
  else
    let p := NetParser.new buffer in
    '(_, h, p) ← TCPHeader.parse (_header this) p;
    Ok (NetParser.get_error p, mkTCPSegment h (NetParser.buffer p)).

Definition length_in_sequence_space (s : TCPSegment) : Z :=
  u64 (u64 (zlen (str (_payload s)) + (if syn (_header s) then 1 else 0))
       + (if fin (_header s) then 1 else 0)).

Definition serialize (datagram_layer_checksum : Z) (s : TCPSegment) : outcome BufferList :=
  let header_out := (_header s) <| cksum := 0 |> in
  let check := InternetChecksum.new datagram_layer_checksum in
  zeroed ← TCPHeader.serialize header_out;
  let check := InternetChecksum.add zeroed check in
  let check := InternetChecksum.add (str (_payload s)) check in
  let header_out := header_out <| cksum := InternetChecksum.value check |> in
  final ← TCPHeader.serialize header_out;
  let ret := BufferList.empty in
  let ret := BufferList.append (BufferList.of_string final) ret in
  Ok (BufferList.append (BufferList.of_buffer (_payload s)) ret).

(** ** Lemmas *)

Lemma before_cksum_set h c : before_cksum (h <| cksum := c |>) = before_cksum h.
Proof. done. Qed.
Lemma after_cksum_set h c : after_cksum (h <| cksum := c |>) = after_cksum h.
Proof. done. Qed.

Lemma wf_set_cksum h c : TCPHeader.wf h -> is_u16 c -> TCPHeader.wf (h <| cksum := c |>).
Proof. intros [] Hc. by split. Qed.

(** The checksum [serialize] computes. *)
Definition checksum_of (dlc : Z) (s : TCPSegment) : Z :=
  InternetChecksum.value (InternetChecksum.add
    (before_cksum (_header s) ++ enc 2 0 ++ after_cksum (_header s) ++ str (_payload s))
    (InternetChecksum.new dlc)).

Lemma serialize_bytes dlc s :
  5 <= doff (_header s) ->
  exists bl, serialize dlc s = Ok bl /\
    BufferList.concatenate bl =
      before_cksum (_header s) ++ enc 2 (checksum_of dlc s) ++
      after_cksum (_header s) ++ str (_payload s).
Proof.
  intros Hd. unfold serialize. rewrite serialize_eq by done. cbn [mbind outcome_bind].
  rewrite serialize_eq by done. cbn [mbind outcome_bind]. eexists. split; [done|].
  rewrite !concatenate_append. unfold BufferList.concatenate at 2 3, checksum_of.
  cbn [_buffers BufferList.of_string BufferList.of_buffer foldl str of_string].
  rewrite <- !add_app, !before_cksum_set, !after_cksum_set.
  unfold BufferList.concatenate; cbn [BufferList.empty _buffers foldl].
  cbn [app]. rewrite <- !app_assoc. done.
Qed.

Lemma parse_accepted dlc b this :
  Buffer.wf b ->
  InternetChecksum.value (InternetChecksum.add (str b) (InternetChecksum.new dlc)) = 0 ->
  LENGTH <= zlen (str b) -> 4 * doff (decode (str b)) <= zlen (str b) ->
  exists seg, parse b dlc this = Ok (NoError, seg) /\
    _header seg = decode (str b) /\
    Buffer.wf (_payload seg) /\
    str (_payload seg) = zdrop (Z.max LENGTH (4 * doff (decode (str b)))) (str b).
Proof.
  intros Hw Hc Hl Hd. unfold parse. rewrite Hc. cbn [negb Z.eqb].
  assert (HA : at_offset (NetParser.new b) (str b) 0).
  { split; [unfold LENGTH in *; lia|]. by rewrite zdrop_0. }
  destruct (parse_long (_header this) _ _ HA Hl) as (p' & HP).
  pose proof (decode_wf (str b)) as [_ _ _ _ Hdr _ _ _].
  destruct (doff (decode (str b)) <? 5) eqn:E5; [|rewrite (proj2 (Z.leb_le _ _)) in HP by done].
  - destruct HP as (-> & _ & He & Hw' & Hs). rewrite Z.max_l by (unfold LENGTH; lia).
    eexists. cbn [mbind outcome_bind]. unfold NetParser.get_error. by rewrite He.
  - destruct HP as (-> & _ & He & Hw' & Hs). rewrite Z.max_r by (unfold LENGTH; lia).
    eexists. cbn [mbind outcome_bind]. unfold NetParser.get_error. by rewrite He.
Qed.

Lemma parse_rejected dlc b this :
  Buffer.wf b ->
  InternetChecksum.value (InternetChecksum.add (str b) (InternetChecksum.new dlc)) = 0 ->
  zlen (str b) < LENGTH \/ zlen (str b) < 4 * doff (decode (str b)) ->
  exists seg, parse b dlc this = Ok (PacketTooShort, seg).
Proof.
  intros Hw Hc Hl. unfold parse. rewrite Hc. cbn [negb Z.eqb].
  assert (HA : at_offset (NetParser.new b) (str b) 0).
  { split; [lia|]. by rewrite zdrop_0. }
  destruct (decide (zlen (str b) < LENGTH)) as [Hs|Hs].
  - destruct (parse_short (_header this) _ _ HA Hs) as (r & h & p' & -> & _ & He).
    cbn [mbind outcome_bind]. unfold NetParser.get_error. rewrite He. by eexists.
  - destruct (parse_long (_header this) _ _ HA) as (p' & HP); [lia|]. unfold LENGTH in *.
    rewrite (proj2 (Z.ltb_ge _ _)), (proj2 (Z.leb_gt _ _)) in HP by lia.
    destruct HP as (-> & He). cbn. unfold NetParser.get_error. rewrite He. by eexists.
Qed.

(** What [serialize] writes is accepted from any buffer that holds it. *)
Lemma segment_serialize_parse dlc s this :
  0 <= dlc < 0x100000 -> TCPHeader.wf (_header s) -> 5 <= doff (_header s) ->
  4 * doff (_header s) + zlen (str (_payload s)) <= 65535 ->
  exists bl, serialize dlc s = Ok bl /\
    zlen (BufferList.concatenate bl) = 4 * doff (_header s) + zlen (str (_payload s)) /\
    forall b, Buffer.wf b -> str b = BufferList.concatenate bl ->
      exists seg, parse b dlc this = Ok (NoError, seg) /\
        _header seg = (_header s) <| cksum := checksum_of dlc s |> /\
        str (_payload seg) = str (_payload s).
Proof.
  intros Hdlc Hw Hd Hl. destruct (serialize_bytes dlc s Hd) as (bl & Hbl & Hs).
  set (h := (_header s) <| cksum := checksum_of dlc s |>).
  assert (Hser : TCPHeader.serialize h = Ok (before_cksum (_header s) ++
    enc 2 (checksum_of dlc s) ++ after_cksum (_header s))) by by rewrite serialize_eq.
  assert (Hdec : decode (BufferList.concatenate bl) = h).
  { rewrite Hs. rewrite !app_assoc, <- (app_assoc (before_cksum _)).
    apply decode_serialized; [|done..]. apply wf_set_cksum; [done|apply value_range]. }
  assert (Hlen : zlen (BufferList.concatenate bl) = 4 * doff (_header s) + zlen (str (_payload s))).
  { rewrite Hs, !zlen_app, before_cksum_len, after_cksum_len, zlen_enc by done. lia. }
  pose proof (wf_doff _ Hw) as Hdr. exists bl. split; [done|]. split; [done|]. intros b Hb Eb.
  destruct (parse_accepted dlc b this) as (seg & HP & Hh & _ & Hp); rewrite ?Eb, ?Hdec.
  - done.
  - rewrite Hs. apply checksum_fills; [lia| |].
    + pose proof (before_cksum_len (_header s)) as Hbc.
      assert (length (before_cksum (_header s)) = 16)%nat as -> by lia. done.
    + rewrite !zlen_app, before_cksum_len, after_cksum_len, zlen_enc by done. lia.
  - unfold LENGTH. lia.
  - cbn. lia.
  - exists seg. split; [done|]. rewrite Eb, Hdec in *.
    split; [done|]. rewrite Hp, Z.max_r, Hs by (unfold LENGTH; cbn; lia).
    rewrite !app_assoc. cbn [doff h upd]. rewrite zdrop_app_le, zdrop_ge; [done| |];
    rewrite !zlen_app, before_cksum_len, after_cksum_len, zlen_enc by done; cbn; lia.
Qed.

(** ** Properties *)

(** C31. Round trip: a segment whose fields hold values of their types, with a data
    offset of at least 5 and at most 65535 bytes in all, serializes without throwing;
    parsing the bytes under the same pseudo-header checksum, into any segment object,
    reports no error and gives back the header, with the checksum filled in, and the
    payload. *)
Theorem tcp_segment_roundtrip dlc s this :
  0 <= dlc < 0x100000 -> TCPHeader.wf (_header s) -> 5 <= doff (_header s) ->
  4 * doff (_header s) + zlen (str (_payload s)) <= 65535 ->
  exists bl seg, serialize dlc s = Ok bl /\
    parse (of_string (BufferList.concatenate bl)) dlc this = Ok (NoError, seg) /\
    _header seg = (_header s) <| cksum := checksum_of dlc s |> /\
    str (_payload seg) = str (_payload s).
Proof.
  intros Hdlc Hw Hd Hl. destruct (segment_serialize_parse dlc s this Hdlc Hw Hd Hl)
    as (bl & Hbl & Hlen & HP).
  destruct (HP (of_string (BufferList.concatenate bl))) as (seg & H); [|done|by exists bl, seg].
  apply buffer_of_string_wf. pose proof (wf_doff _ Hw). lia.
Qed.

Definition demo_segment : TCPSegment :=
  mkTCPSegment (TCPHeader.default <| syn := true |> <| doff := 6 |> <| sport := 80 |>)
    (of_string [x61; x62; x63]).

Lemma tcp_segment_roundtrip_witness :
  exists bl seg, serialize 0x1234 demo_segment = Ok bl /\
    parse (of_string (BufferList.concatenate bl)) 0x1234 default = Ok (NoError, seg) /\
    _header seg = (_header demo_segment) <| cksum := checksum_of 0x1234 demo_segment |> /\
    str (_payload seg) = [x61; x62; x63].
Proof.
  apply (tcp_segment_roundtrip 0x1234 demo_segment default);
    [lia|split; unfold valid; cbn; lia|by vm_compute|by vm_compute].
Defined.

(** What the parser accepts: [parse] never throws; it returns [NoError] exactly
    when the Internet checksum over the pseudo header and the segment verifies, there are 20
    bytes for the fixed header and the bytes the data offset announces are there,
    and then the header is the one RFC 793 lays out and the payload is what follows
    it.  A data offset below 5 is no reason to refuse. *)
Theorem tcp_segment_parse_accepts b dlc this :
  Buffer.wf b ->
  exists r seg, parse b dlc this = Ok (r, seg) /\
    (r = NoError <->
      InternetChecksum.value (InternetChecksum.add (str b) (InternetChecksum.new dlc)) = 0 /\
      LENGTH <= zlen (str b) /\ 4 * doff (decode (str b)) <= zlen (str b)) /\
    (r = NoError ->
      _header seg = decode (str b) /\
      str (_payload seg) = zdrop (Z.max LENGTH (4 * doff (decode (str b)))) (str b)) /\
    (r = BadChecksum -> seg = this).
Proof.
  intros Hw.
  destruct (decide (InternetChecksum.value (InternetChecksum.add (str b)
    (InternetChecksum.new dlc)) = 0)) as [Hc|Hc].
  - destruct (decide (LENGTH <= zlen (str b) /\ 4 * doff (decode (str b)) <= zlen (str b)))
      as [[Hl Hd]|Hl].
    + destruct (parse_accepted dlc b this) as (seg & HP & Hh & _ & Hp); [done..|].
      exists NoError, seg. naive_solver.
    + destruct (parse_rejected dlc b this) as (seg & HP); [done|done|lia|].
      exists PacketTooShort, seg. naive_solver.
  - exists BadChecksum, this. unfold parse.
    rewrite (proj2 (Z.eqb_neq _ 0)) by done. naive_solver.
Qed.

Definition demo_wire : Buffer :=
  of_string [x00; x50; x00; x00; x00; x00; x00; x00; x00; x00; x00; x00;
             x40; x10; x00; x00; xbf; x9f; x00; x00].

(** A segment whose header claims 16 bytes. *)
Lemma tcp_segment_parse_accepts_witness :
  exists seg, parse demo_wire 0 default = Ok (NoError, seg) /\ doff (_header seg) = 4.
Proof.
  destruct (tcp_segment_parse_accepts demo_wire 0 default) as (r & seg & HP & Hiff & Hval & _).
  { unfold Buffer.wf, demo_wire; cbn. lia. }
  assert (r = NoError) as -> by (apply Hiff; vm_compute; repeat split; congruence).
  exists seg. split; [exact HP|]. destruct (Hval eq_refl) as [Hh _].
  rewrite Hh. vm_compute. reflexivity.
Defined.
