(* ===== verification/IPv4.v ===== *)
(** * IPv4: headers and datagrams (tcp_helpers/ipv4_header.hh, ipv4_header.cc,
    ipv4_datagram.hh, ipv4_datagram.cc) *)

From S2P Require Import Prelude Buffer Parser Checksum.

(** ** IPv4Header *)

Definition LENGTH : Z := 20.
Definition DEFAULT_TTL : Z := 128.
Definition PROTO_TCP : Z := 6.

Record IPv4Header := mkIPv4Header {
  ver : Z;
  hlen : Z;
  tos : Z;
  len : Z;
  id : Z;
  df : bool;
  mf : bool;
  offset : Z;
  ttl : Z;
  proto : Z;
  cksum : Z;
  src : Z;
  dst : Z }.

#[export] Instance eta_IPv4Header : Eta IPv4Header := fun h =>
  mkIPv4Header (ver h) (hlen h) (tos h) (len h) (id h) (df h) (mf h) (offset h) (ttl h)
    (proto h) (cksum h) (src h) (dst h).

Module IPv4Header.

Definition default : IPv4Header :=
  mkIPv4Header 4 (LENGTH / 4) 0 0 0 true false 0 DEFAULT_TTL PROTO_TCP 0 0 0.

Definition bit (mask v : Z) : bool := negb (Z.land v mask =? 0).

(** A buffer below 20 bytes is refused before any field is assigned; otherwise all
    fields are, whatever the result. *)
Definition parse (this : IPv4Header) : parser (ParseResult * IPv4Header) :=
  p0 ← NetParser.get;
  let original_serialized_version := NetParser.buffer p0 in
  let data_size := Buffer.size (NetParser.buffer p0) in
  if data_size <? LENGTH then mret (PacketTooShort, this)
  else
    first_byte ← NetParser.u8;
    tos' ← NetParser.u8;
    len' ← NetParser.u16;
    id' ← NetParser.u16;
    fo_val ← NetParser.u16;
    ttl' ← NetParser.u8;
    proto' ← NetParser.u8;
    cksum' ← NetParser.u16;
    src' ← NetParser.u32;
    dst' ← NetParser.u32;
    let h := mkIPv4Header (Z.shiftr first_byte 4) (Z.land first_byte 0x0f) tos' len' id'
      (bit 0x4000 fo_val) (bit 0x2000 fo_val) (Z.land fo_val 0x1fff) ttl' proto' cksum'
      src' dst' in
    if data_size <? 4 * hlen h then mret (PacketTooShort, h)
    else if negb (ver h =? 4) then mret (WrongIPVersion, h)
    else if hlen h <? 5 then mret (HeaderTooShort, h)
    else if negb (data_size =? len h) then mret (TruncatedPacket, h)
    else
      _ ← NetParser.remove_prefix (u64 (hlen h * 4 - LENGTH));
      p ← NetParser.get;
      if NetParser.error p then mret (NetParser.get_error p, h)
      else
        let check := InternetChecksum.new 0 in
        let check :=
          InternetChecksum.add (ztake (4 * hlen h) (str original_serialized_version)) check in
        if negb (InternetChecksum.value check =? 0) then mret (BadChecksum, h)
        else mret (NoError, h).

Definition serialize (h : IPv4Header) : outcome bytes :=
  if negb (ver h =? 4) then Fault RuntimeError
  else if 4 * hlen h <? LENGTH then Fault RuntimeError
  else
    let ret := [] in
    let first_byte := u8 (Z.lor (Z.shiftl (ver h) 4) (Z.land (hlen h) 0xf)) in
    let ret := NetUnparser.u8 ret first_byte in
    let ret := NetUnparser.u8 ret (tos h) in
    let ret := NetUnparser.u16 ret (len h) in
    let ret := NetUnparser.u16 ret (id h) in
    let fo_val := u16 (Z.lor (if df h then 0x4000 else 0)
      (Z.lor (if mf h then 0x2000 else 0) (Z.land (offset h) 0x1fff))) in
    let ret := NetUnparser.u16 ret fo_val in
    let ret := NetUnparser.u8 ret (ttl h) in
    let ret := NetUnparser.u8 ret (proto h) in
    let ret := NetUnparser.u16 ret (cksum h) in
    let ret := NetUnparser.u32 ret (src h) in
    let ret := NetUnparser.u32 ret (dst h) in
    Ok (resize (4 * hlen h) ret).

Definition payload_length (h : IPv4Header) : Z := u16 (len h - 4 * hlen h).

Definition pseudo_cksum (h : IPv4Header) : Z :=
  let pcksum := u32 (Z.shiftr (src h) 16 + Z.land (src h) 0xffff) in
  let pcksum := u32 (pcksum + u32 (Z.shiftr (dst h) 16 + Z.land (dst h) 0xffff)) in
  let pcksum := u32 (pcksum + proto h) in
  u32 (pcksum + payload_length h).

End IPv4Header.

(** ** IPv4Datagram *)

Record IPv4Datagram := mkIPv4Datagram { _header : IPv4Header; _payload : BufferList }.
#[export] Instance eta_IPv4Datagram : Eta IPv4Datagram :=
  fun d => mkIPv4Datagram (_header d) (_payload d).

Module IPv4Datagram.

Definition default : IPv4Datagram := mkIPv4Datagram IPv4Header.default BufferList.empty.

(** The result of [_header.parse] is dropped: only the size of what it left and the
    parser's own error count. *)
Definition parse (buffer : Buffer) (this : IPv4Datagram)
  : outcome (ParseResult * IPv4Datagram) :=
  let p := NetParser.new buffer in
  '(_, h, p) ← IPv4Header.parse (_header this) p;
  let d := mkIPv4Datagram h (BufferList.of_buffer (NetParser.buffer p)) in
  if negb (BufferList.size (_payload d) =? IPv4Header.payload_length h)
  then Ok (PacketTooShort, d)
  else Ok (NetParser.get_error p, d).

Definition serialize (d : IPv4Datagram) : outcome BufferList :=
  if negb (BufferList.size (_payload d) =? IPv4Header.payload_length (_header d))
  then Fault RuntimeError
  else
    let header_out := (_header d) <| cksum := 0 |> in
    header_zero_checksum ← IPv4Header.serialize header_out;
    let check := InternetChecksum.new 0 in
    let check := InternetChecksum.add header_zero_checksum check in
    let header_out := header_out <| cksum := InternetChecksum.value check |> in
    final ← IPv4Header.serialize header_out;
    let ret := BufferList.empty in
    let ret := BufferList.append (BufferList.of_string final) ret in
    Ok (BufferList.append (_payload d) ret).

End IPv4Datagram.

(** ** The wire format *)

(** The header whose fields are the integers at the offsets of RFC 791. *)
Definition decode (s : bytes) : IPv4Header :=
  let fo_val := field s 6 2 in
  mkIPv4Header (Z.shiftr (field s 0 1) 4) (Z.land (field s 0 1) 0x0f) (field s 1 1)
    (field s 2 2) (field s 4 2) (IPv4Header.bit 0x4000 fo_val) (IPv4Header.bit 0x2000 fo_val)
    (Z.land fo_val 0x1fff) (field s 8 1) (field s 9 1) (field s 10 2) (field s 12 4)
    (field s 16 4).

Record wf (h : IPv4Header) : Prop := mk_wf {
  wf_ver : 0 <= ver h < 16;
  wf_hlen : 0 <= hlen h < 16;
  wf_tos : is_u8 (tos h);
  wf_len : is_u16 (len h);
  wf_id : is_u16 (id h);
  wf_offset : 0 <= offset h < 0x2000;
  wf_ttl : is_u8 (ttl h);
  wf_proto : is_u8 (proto h);
  wf_cksum : is_u16 (cksum h);
  wf_src : is_u32 (src h);
  wf_dst : is_u32 (dst h) }.

(** What the header's own [parse] answers. *)
Definition verdict (s : bytes) : ParseResult :=
  let h := decode s in
  if zlen s <? LENGTH then PacketTooShort
  else if zlen s <? 4 * hlen h then PacketTooShort
  else if negb (ver h =? 4) then WrongIPVersion
  else if hlen h <? 5 then HeaderTooShort
  else if negb (zlen s =? len h) then TruncatedPacket
  else if negb (InternetChecksum.value
    (InternetChecksum.add (ztake (4 * hlen h) s) (InternetChecksum.new 0)) =? 0)
  then BadChecksum
  else NoError.

(** How far it gets: the options are dropped last, once the lengths are checked. *)
Definition consumed (s : bytes) : Z :=
  let h := decode s in
  if zlen s <? LENGTH then 0
  else if (4 * hlen h <=? zlen s) && (ver h =? 4) && (5 <=? hlen h) && (zlen s =? len h)
  then 4 * hlen h else LENGTH.

Lemma land_ones_mod z (n : Z) m : 0 <= n -> m = Z.ones n -> Z.land z m = z mod 2 ^ n.
Proof. intros Hn ->. by apply Z.land_ones. Qed.

Lemma ip_decode_wf s : wf (decode s).
Proof.
  assert (Hd : is_u8 (field s 0 1)) by apply (field_range s 0 1).
  split; cbn [decode ver hlen tos len id offset ttl proto cksum src dst];
    try apply (field_range s _ 1); try apply (field_range s _ 2); try apply (field_range s _ 4).
  - rewrite Z.shiftr_div_pow2 by lia. change (2 ^ 4) with 16. ulia.
  - rewrite (land_ones_mod _ 4) by done. apply Z.mod_pos_bound. lia.
  - rewrite (land_ones_mod _ 13) by done. apply Z.mod_pos_bound. lia.
Qed.

Lemma header_parse_spec this p s :
  at_offset p s 0 ->
  exists p', IPv4Header.parse this p =
      Ok ((verdict s, if zlen s <? LENGTH then this else decode s), p') /\
    at_offset p' s (consumed s).
Proof.
  intros HA. unfold IPv4Header.parse. rewrite parser_get_bind.
  destruct (proj2 HA) as (_ & _ & Hstr). rewrite zdrop_0 in Hstr.
  unfold Buffer.size, NetParser.buffer, verdict, consumed. rewrite !Hstr. cbv zeta.
  destruct (zlen s <? LENGTH) eqn:E20; [by exists p|].
  pose proof (ip_decode_wf s) as [_ Hh _ _ _ _ _ _ _ _ _]. unfold LENGTH in *.
  unfold NetParser.u16, NetParser.u32, NetParser.u8. do 10 parse_field HA. cbv zeta.
  change (mkIPv4Header _ _ _ _ _ _ _ _ _ _ _ _ _) with (decode s).
  set (h := decode s) in *.
  destruct (zlen s <? 4 * hlen h) eqn:E1.
  { rewrite (proj2 (Z.leb_gt (4 * hlen h) (zlen s))) by lia. by eexists. }
  rewrite (proj2 (Z.leb_le (4 * hlen h) (zlen s))) by lia.
  destruct (ver h =? 4); cbn [negb andb]; [|by eexists].
  rewrite Z.leb_antisym. destruct (hlen h <? 5) eqn:E2; cbn [negb andb]; [by eexists|].
  destruct (zlen s =? len h); cbn [negb]; [|by eexists].
  rewrite u64_id by lia.
  destruct (remove_prefix_at (hlen h * 4 - 20) _ _ _ HA) as (p' & E & HA'); [lia..|].
  rewrite (parser_bind_Ok _ _ _ _ _ E), parser_get_bind, (ready_error _ _ (proj2 HA')).
  exists p'. replace (4 * hlen h) with (20 + (hlen h * 4 - 20)) by lia.
  by destruct (InternetChecksum.value _ =? 0).
Qed.

(** ** Serialized headers *)

Definition first_byte (h : IPv4Header) : Z := u8 (Z.lor (Z.shiftl (ver h) 4) (Z.land (hlen h) 0xf)).
Definition fo_val (h : IPv4Header) : Z :=
  u16 (Z.lor (if df h then 0x4000 else 0)
    (Z.lor (if mf h then 0x2000 else 0) (Z.land (offset h) 0x1fff))).

Definition before_cksum (h : IPv4Header) : bytes :=
  enc 1 (first_byte h) ++ enc 1 (tos h) ++ enc 2 (len h) ++ enc 2 (id h) ++
  enc 2 (fo_val h) ++ enc 1 (ttl h) ++ enc 1 (proto h).
Definition after_cksum (h : IPv4Header) : bytes :=
  enc 4 (src h) ++ enc 4 (dst h) ++ replicate (Z.to_nat (4 * hlen h - LENGTH)) x00.

Lemma ip_serialize_eq h :
  ver h = 4 -> 5 <= hlen h ->
  IPv4Header.serialize h = Ok (before_cksum h ++ enc 2 (cksum h) ++ after_cksum h).
Proof.
  intros Hv Hh. unfold IPv4Header.serialize. rewrite Hv at 1. cbn [negb Z.eqb Pos.eqb].
  unfold LENGTH. rewrite (proj2 (Z.ltb_ge _ _)) by lia. cbv zeta.
  rewrite !unparse_u8, !unparse_u16, !unparse_u32.
  rewrite resize_grow; rewrite !zlen_app, !zlen_enc; [|cbn; lia].
  unfold before_cksum, after_cksum. by rewrite <- !app_assoc.
Qed.

Lemma serialize_throws h :
  ver h <> 4 \/ hlen h < 5 -> IPv4Header.serialize h = Fault RuntimeError.
Proof.
  intros H. unfold IPv4Header.serialize, LENGTH. destruct (ver h =? 4) eqn:E; [|done].
  cbn [negb]. by rewrite (proj2 (Z.ltb_lt _ _)) by lia.
Qed.

Lemma ip_before_cksum_len h : zlen (before_cksum h) = 10.
Proof. unfold before_cksum. by rewrite !zlen_app, !zlen_enc. Qed.
Lemma ip_after_cksum_len h : 5 <= hlen h -> zlen (after_cksum h) = 4 * hlen h - 12.
Proof.
  intros. unfold after_cksum, LENGTH. rewrite !zlen_app, !zlen_enc, length_replicate. lia.
Qed.

(** The two packed fields. *)
Lemma lor_disjoint a b (n : Z) :
  0 <= n -> 0 <= b < 2 ^ n -> Z.lor (a * 2 ^ n) b = a * 2 ^ n + b.
Proof.
  intros Hn Hb. rewrite <- Z.shiftl_mul_pow2 by done.
  assert (L : Z.land (Z.shiftl a n) b = 0).
  { apply Z.bits_inj'. intros i Hi. rewrite Z.land_spec, Z.bits_0, Z.shiftl_spec by done.
    destruct (decide (i < n)); [by rewrite (Z.testbit_neg_r a) by lia|].
    rewrite <- (Z.mod_small b (2 ^ n)), Z.mod_pow2_bits_high by lia. apply andb_false_r. }
  rewrite <- Z.lxor_lor, Z.add_nocarry_lxor by done. done.
Qed.

Lemma first_byte_eq h :
  0 <= ver h < 16 -> 0 <= hlen h < 16 -> first_byte h = ver h * 16 + hlen h.
Proof.
  intros Hv Hh. unfold first_byte. rewrite (land_ones_mod _ 4), Z.shiftl_mul_pow2 by done.
  change (2 ^ 4) with 16. rewrite Z.mod_small by lia.
  rewrite (lor_disjoint _ _ 4) by lia. change (2 ^ 4) with 16. ulia.
Qed.

Lemma fo_val_eq h :
  0 <= offset h < 0x2000 ->
  fo_val h = (if df h then 0x4000 else 0) + (if mf h then 0x2000 else 0) + offset h.
Proof.
  intros Ho. unfold fo_val. rewrite (land_ones_mod _ 13) by done. change (2 ^ 13) with 0x2000.
  rewrite Z.mod_small by lia. destruct (df h), (mf h); cbv iota.
  - rewrite Z.lor_assoc. change (Z.lor 0x4000 0x2000) with (3 * 2 ^ 13).
    rewrite (lor_disjoint 3) by lia. ulia.
  - rewrite Z.lor_0_l. change 0x4000 with (2 * 2 ^ 13) at 1. rewrite (lor_disjoint 2) by lia. ulia.
  - rewrite Z.lor_0_l. change 0x2000 with (1 * 2 ^ 13) at 1. rewrite (lor_disjoint 1) by lia. ulia.
  - rewrite !Z.lor_0_l. ulia.
Qed.

Lemma bit_high (k v : Z) : 0 <= k -> IPv4Header.bit (2 ^ k) v = Z.odd (v / 2 ^ k).
Proof.
  intros Hk. unfold IPv4Header.bit. rewrite <- Z.shiftr_div_pow2, <- Z.bit0_odd by done.
  rewrite Z.shiftr_spec, Z.add_0_l by lia.
  destruct (Z.testbit v k) eqn:E.
  - destruct (Z.eqb_spec (Z.land v (2 ^ k)) 0) as [H|]; [|done]. exfalso.
    apply (f_equal (fun z => Z.testbit z k)) in H.
    rewrite Z.land_spec, Z.pow2_bits_true, E, Z.bits_0 in H by done. done.
  - rewrite (proj2 (Z.eqb_eq _ _)); [done|]. apply Z.bits_inj'. intros i Hi.
    rewrite Z.land_spec, Z.bits_0, Z.pow2_bits_eqb by done.
    destruct (Z.eqb_spec k i) as [<-|]; [by rewrite E|apply andb_false_r].
Qed.

Lemma fo_val_bits h :
  0 <= offset h < 0x2000 ->
  IPv4Header.bit 0x4000 (fo_val h) = df h /\ IPv4Header.bit 0x2000 (fo_val h) = mf h /\
  Z.land (fo_val h) 0x1fff = offset h.
Proof.
  intros Ho. rewrite fo_val_eq by done.
  rewrite (bit_high 14), (bit_high 13), (land_ones_mod _ 13) by done.
  change (2 ^ 14) with 0x4000. change (2 ^ 13) with 0x2000.
  set (o := offset h) in *. clearbody o. split_and!.
  - destruct (df h), (mf h); cbv iota.
    + by replace ((_ + _ + o) / _) with 1 by ulia.
    + by replace ((_ + _ + o) / _) with 1 by ulia.
    + by replace ((_ + _ + o) / _) with 0 by ulia.
    + by replace ((_ + _ + o) / _) with 0 by ulia.
  - destruct (df h), (mf h); cbv iota.
    + by replace ((_ + _ + o) / _) with 3 by ulia.
    + by replace ((_ + _ + o) / _) with 2 by ulia.
    + by replace ((_ + _ + o) / _) with 1 by ulia.
    + by replace ((_ + _ + o) / _) with 0 by ulia.
  - destruct (df h), (mf h); cbv iota; ulia.
Qed.

Lemma ip_decode_serialized h t :
  wf h -> decode ((before_cksum h ++ enc 2 (cksum h) ++ after_cksum h) ++ t) = h.
Proof.
  intros [w1 w2 w3 w4 w5 w6 w7 w8 w9 w10 w11].
  pose proof (fo_val_bits h w6) as (Hdf & Hmf & Hoff).
  pose proof (first_byte_eq h w1 w2) as Hfb.
  assert (is_u16 (fo_val h)) by (rewrite fo_val_eq by done; destruct (df h), (mf h); lia).
  unfold decode, before_cksum, after_cksum. rewrite <- !app_assoc. read_fields.
  rewrite Hdf, Hmf, Hoff, Hfb, (land_ones_mod _ 4), Z.shiftr_div_pow2 by done.
  change (2 ^ 4) with 16. rewrite Z.div_add_l, Z.div_small, Z.add_0_r by lia.
  rewrite Z.add_comm, Z.mod_add, Z.mod_small by lia. by destruct h.
Qed.

(** ** The pseudo header *)

Lemma pseudo_cksum_eq h :
  wf h ->
  IPv4Header.pseudo_cksum h =
    src h / 65536 + src h mod 65536 + (dst h / 65536 + dst h mod 65536) + proto h +
    IPv4Header.payload_length h.
Proof.
  intros [w1 w2 w3 w4 w5 w6 w7 w8 w9 w10 w11]. unfold IPv4Header.pseudo_cksum. cbv zeta.
  pose proof (u16_range (len h - 4 * hlen h)) as Hp.
  fold (IPv4Header.payload_length h) in Hp. set (pl := IPv4Header.payload_length h) in *.
  rewrite !(land_ones_mod _ 16), !Z.shiftr_div_pow2 by done. change (2 ^ 16) with 65536.
  clearbody pl. pose proof (Z.mod_pos_bound (src h) 65536 ltac:(lia)).
  pose proof (Z.mod_pos_bound (dst h) 65536 ltac:(lia)).
  assert (0 <= src h / 65536 < 65536) by ulia. assert (0 <= dst h / 65536 < 65536) by ulia.
  rewrite (u32_id (src h / 65536 + _)) by lia. rewrite (u32_id (dst h / 65536 + _)) by lia.
  rewrite (u32_id (_ + (dst h / 65536 + _))) by lia. rewrite (u32_id (_ + proto h)) by lia.
  by rewrite u32_id by lia.
Qed.

Lemma pseudo_cksum_range h : wf h -> 0 <= IPv4Header.pseudo_cksum h < 0x100000.
Proof.
  intros Hw. rewrite pseudo_cksum_eq by done. destruct Hw as [w1 w2 w3 w4 w5 w6 w7 w8 w9 w10 w11].
  pose proof (u16_range (len h - 4 * hlen h)) as Hp. fold (IPv4Header.payload_length h) in Hp. ulia.
Qed.

Lemma word_sum_enc4 z : is_u32 z -> word_sum false (enc 4 z) = z / 65536 + z mod 65536.
Proof.
  intros Hz. cbn [enc word_sum negb]. rewrite !b2z_z2b, !Z.shiftr_div_pow2 by lia.
  change (2 ^ (8 * Z.of_nat 3)) with 0x1000000. change (2 ^ (8 * Z.of_nat 2)) with 0x10000.
  change (2 ^ (8 * Z.of_nat 1)) with 256. change (2 ^ (8 * Z.of_nat 0)) with 1. ulia.
Qed.

(** ** Datagrams *)

Definition header_checksum (h : IPv4Header) : Z :=
  InternetChecksum.value (InternetChecksum.add
    (before_cksum h ++ enc 2 0 ++ after_cksum h) (InternetChecksum.new 0)).

Lemma bufferlist_size bl :
  zlen (BufferList.concatenate bl) < 0x10000000000000000 ->
  BufferList.size bl = zlen (BufferList.concatenate bl).
Proof.
  rewrite concatenate_concat. intros. unfold BufferList.size. by rewrite (foldl_size str).
Qed.

Lemma concatenate_one b : BufferList.concatenate (BufferList.of_buffer b) = str b.
Proof. done. Qed.

Lemma datagram_serialize_bytes d :
  ver (_header d) = 4 -> 5 <= hlen (_header d) ->
  zlen (BufferList.concatenate (_payload d)) < 65536 ->
  IPv4Header.payload_length (_header d) = zlen (BufferList.concatenate (_payload d)) ->
  exists bl, IPv4Datagram.serialize d = Ok bl /\
    BufferList.concatenate bl =
      before_cksum (_header d) ++ enc 2 (header_checksum (_header d)) ++
      after_cksum (_header d) ++ BufferList.concatenate (_payload d).
Proof.
  intros Hv Hh Hl Hp. unfold IPv4Datagram.serialize.
  rewrite bufferlist_size, Hp, Z.eqb_refl by lia. cbn [negb].
  rewrite ip_serialize_eq by done. cbn [mbind outcome_bind].
  rewrite ip_serialize_eq by done. cbn [mbind outcome_bind]. eexists. split; [done|].
  rewrite !concatenate_append. change (BufferList.concatenate BufferList.empty) with (@nil byte).
  unfold BufferList.concatenate at 1.
  cbn [_buffers BufferList.of_string foldl str of_string _storage _starting_offset app].
  rewrite zdrop_0, <- !app_assoc. done.
Qed.

Lemma datagram_parse_spec b this :
  Buffer.wf b -> LENGTH <= zlen (str b) < 0x10000000000000000 ->
  exists d, IPv4Datagram.parse b this =
      Ok (if zlen (str b) - consumed (str b) =? IPv4Header.payload_length (decode (str b))
          then NoError else PacketTooShort, d) /\
    _header d = decode (str b) /\
    BufferList.concatenate (_payload d) = zdrop (consumed (str b)) (str b) /\
    exists b', _payload d = BufferList.of_buffer b' /\ Buffer.wf b'.
Proof.
  intros Hw Hl. set (s := str b) in *.
  assert (HA : at_offset (NetParser.new b) s 0).
  { split; [unfold LENGTH in *; lia|]. by rewrite zdrop_0. }
  destruct (header_parse_spec (_header this) _ _ HA) as (p' & HP & [Hc (He & Hw' & Hs')]).
  unfold IPv4Datagram.parse. rewrite HP, (proj2 (Z.ltb_ge (zlen s) LENGTH)) by lia.
  cbn [mbind outcome_bind _payload]. rewrite bufferlist_size, concatenate_one;
    unfold NetParser.buffer; rewrite ?concatenate_one, Hs', zlen_zdrop, ?Z.max_r; try lia.
  unfold NetParser.get_error. rewrite He.
  destruct (_ =? _); eexists; cbn [negb]; split_and!; try done; by eexists.
Qed.

Lemma datagram_serialize_parse d this :
  wf (_header d) -> ver (_header d) = 4 -> 5 <= hlen (_header d) ->
  len (_header d) = 4 * hlen (_header d) + zlen (BufferList.concatenate (_payload d)) ->
  exists bl d', IPv4Datagram.serialize d = Ok bl /\
    IPv4Datagram.parse (of_string (BufferList.concatenate bl)) this = Ok (NoError, d') /\
    _header d' = (_header d) <| cksum := header_checksum (_header d) |> /\
    BufferList.concatenate (_payload d') = BufferList.concatenate (_payload d) /\
    verdict (BufferList.concatenate bl) = NoError /\
    exists b, _payload d' = BufferList.of_buffer b /\ Buffer.wf b.
Proof.
  intros Hw Hv Hh Hlen. pose proof (wf_len _ Hw) as Hl. pose proof (wf_hlen _ Hw) as Hhr.
  set (pay := BufferList.concatenate (_payload d)) in *.
  assert (Hpl : IPv4Header.payload_length (_header d) = zlen pay).
  { unfold IPv4Header.payload_length. rewrite u16_id; lia. }
  destruct (datagram_serialize_bytes d Hv Hh) as (bl & Hbl & Hs); [fold pay; lia|done|].
  fold pay in Hs. set (h := (_header d) <| cksum := header_checksum (_header d) |>).
  set (hdr := before_cksum (_header d) ++ enc 2 (header_checksum (_header d)) ++
              after_cksum (_header d)).
  assert (Hs' : BufferList.concatenate bl = hdr ++ pay).
  { rewrite Hs. unfold hdr. by rewrite <- !app_assoc. }
  assert (Hhdr : zlen hdr = 4 * hlen (_header d)).
  { unfold hdr. rewrite !zlen_app, ip_before_cksum_len, ip_after_cksum_len, zlen_enc; lia. }
  assert (Hdec : decode (BufferList.concatenate bl) = h).
  { rewrite Hs'. apply (ip_decode_serialized h). destruct Hw. split; try done. apply value_range. }
  assert (Htot : zlen (BufferList.concatenate bl) = len (_header d)).
  { rewrite Hs', zlen_app. lia. }
  assert (Hck : InternetChecksum.value (InternetChecksum.add hdr (InternetChecksum.new 0)) = 0).
  { apply checksum_fills; [lia| |].
    - pose proof (ip_before_cksum_len (_header d)).
      assert (length (before_cksum (_header d)) = 10)%nat as -> by lia. done.
    - rewrite !zlen_app, ip_before_cksum_len, ip_after_cksum_len, zlen_enc; lia. }
  assert (Hcons : consumed (BufferList.concatenate bl) = 4 * hlen (_header d)).
  { unfold consumed, LENGTH. rewrite Hdec, Htot. unfold h; cbn [hlen ver len upd].
    rewrite Hv, (proj2 (Z.ltb_ge _ _)), (proj2 (Z.leb_le _ _)), (proj2 (Z.leb_le 5 _)), !Z.eqb_refl
      by lia. done. }
  destruct (datagram_parse_spec (of_string (BufferList.concatenate bl)) this) as (d' & HP & Hh' & Hp' & Hb).
  { apply buffer_of_string_wf. lia. }
  { rewrite str_of_string. unfold LENGTH. lia. }
  rewrite str_of_string, Hcons, Hdec, Htot in *. exists bl, d'. split; [done|].
  change (IPv4Header.payload_length h) with (IPv4Header.payload_length (_header d)) in HP.
  rewrite (proj2 (Z.eqb_eq _ _)) in HP by lia. rewrite HP, Hp', Hs', <- Hhdr, zdrop_app_len.
  split_and!; try done. rewrite <- Hs'. unfold verdict, LENGTH. rewrite Hdec, Htot.
  unfold h; cbn [hlen ver len upd]. rewrite Hv, !Z.eqb_refl.
  rewrite (proj2 (Z.ltb_ge _ 20)), (proj2 (Z.ltb_ge _ (4 * _))), (proj2 (Z.ltb_ge _ 5)) by lia.
  cbn [negb]. rewrite Hs', <- Hhdr, ztake_app_len, Hck. done.
Qed.

(** ** Properties *)

(** C32. Round trip: a version 4 datagram with 5 <= hlen <= 15 whose length field is
    that of header and payload serializes without throwing, and parsing the bytes,
    into any datagram object, reports no error and gives back the header, with the
    header checksum filled in, and the payload; the header parser's own verdict on
    those bytes, checksum included, is [NoError]. *)
Theorem ipv4_datagram_roundtrip d this :
  wf (_header d) -> ver (_header d) = 4 -> 5 <= hlen (_header d) ->
  len (_header d) = 4 * hlen (_header d) + zlen (BufferList.concatenate (_payload d)) ->
  exists bl d', IPv4Datagram.serialize d = Ok bl /\
    IPv4Datagram.parse (of_string (BufferList.concatenate bl)) this = Ok (NoError, d') /\
    _header d' = (_header d) <| cksum := header_checksum (_header d) |> /\
    BufferList.concatenate (_payload d') = BufferList.concatenate (_payload d) /\
    verdict (BufferList.concatenate bl) = NoError.
Proof.
  intros Hw Hv Hh Hl. destruct (datagram_serialize_parse d this Hw Hv Hh Hl)
    as (bl & d' & H1 & H2 & H3 & H4 & H5 & _). by exists bl, d'.
Qed.

Definition demo_datagram : IPv4Datagram :=
  mkIPv4Datagram
    (IPv4Header.default <| len := 22 |> <| src := 0x0a000001 |> <| dst := 0x0a000002 |>)
    (mkBufferList [of_string [x61]; of_string [x62]]).

Lemma ipv4_datagram_roundtrip_witness :
  exists bl d', IPv4Datagram.serialize demo_datagram = Ok bl /\
    IPv4Datagram.parse (of_string (BufferList.concatenate bl)) IPv4Datagram.default
      = Ok (NoError, d') /\
    _header d' = (_header demo_datagram) <| cksum := header_checksum (_header demo_datagram) |> /\
    BufferList.concatenate (_payload d') = [x61; x62] /\
    verdict (BufferList.concatenate bl) = NoError.
Proof.
  apply (ipv4_datagram_roundtrip demo_datagram IPv4Datagram.default);
    [split; by vm_compute|done|by vm_compute|by vm_compute].
Defined.

(** C33. What the header parser does on every buffer: it never throws; below 20
    bytes it assigns nothing; otherwise the header is the one RFC 791 lays out and the
    verdict, in this order, is PacketTooShort (the header does not fit),
    WrongIPVersion, HeaderTooShort, TruncatedPacket (the length field is not the size of the
    buffer), BadChecksum or NoError; options are consumed when the lengths agree. *)
Theorem ipv4_header_parse_functional this b :
  Buffer.wf b ->
  exists p', IPv4Header.parse this (NetParser.new b) =
      Ok ((verdict (str b), if zlen (str b) <? LENGTH then this else decode (str b)), p') /\
    NetParser.get_error p' = NoError /\
    str (NetParser.buffer p') = zdrop (consumed (str b)) (str b).
Proof.
  intros Hw. destruct (header_parse_spec this (NetParser.new b) (str b)) as (p' & HP & _ & He & _ & Hs).
  { split; [lia|]. by rewrite zdrop_0. }
  by exists p'.
Qed.

Definition demo_header : bytes :=
  [x45; x00; x00; x14; x00; x00; x40; x00; x80; x06; xfa; xe4;
   x00; x00; x00; x00; x00; x00; x00; x00].

Lemma ipv4_header_parse_functional_witness :
  exists p', IPv4Header.parse IPv4Header.default (NetParser.new (of_string demo_header)) =
      Ok ((NoError, IPv4Header.default <| len := 20 |> <| cksum := 0xfae4 |>), p').
Proof.
  destruct (ipv4_header_parse_functional IPv4Header.default (of_string demo_header))
    as (p' & HP & _).
  { unfold Buffer.wf; cbn; lia. }
  exists p'. vm_compute in HP |- *. exact HP.
Defined.

(** The pseudo header's contribution is the sum of its 16-bit words (source,
    destination, zero and protocol, payload length), without overflow, and it is
    small enough for the segment checksum not to overflow either. *)
Theorem pseudo_cksum_words h :
  wf h ->
  IPv4Header.pseudo_cksum h =
    word_sum false (enc 4 (src h) ++ enc 4 (dst h) ++ enc 2 (proto h) ++
                    enc 2 (IPv4Header.payload_length h)) /\
  0 <= IPv4Header.pseudo_cksum h < 0x100000.
Proof.
  intros Hw. split; [|by apply pseudo_cksum_range]. rewrite pseudo_cksum_eq by done.
  destruct Hw as [w1 w2 w3 w4 w5 w6 w7 w8 w9 w10 w11].
  pose proof (u16_range (len h - 4 * hlen h)) as Hp.
  fold (IPv4Header.payload_length h) in Hp.
  rewrite !word_sum_app. unfold flip. rewrite !length_enc. cbn [Nat.odd xorb negb Nat.even].
  rewrite !word_sum_enc4, !word_sum_enc2 by lia. lia.
Qed.

Lemma pseudo_cksum_words_witness :
  0 <= IPv4Header.pseudo_cksum (_header demo_datagram) < 0x100000.
Proof. apply pseudo_cksum_words. split; by vm_compute. Defined.

(** The datagram parser decides by sizes alone: a buffer of at least 20 bytes
    with hlen 5 and a length field equal to its size is accepted whatever its version
    and its header checksum, although the header's own [parse] reports WrongIPVersion
    or BadChecksum for it. *)
Theorem ipv4_datagram_ignores_verdict b this :
  Buffer.wf b -> hlen (decode (str b)) = 5 -> len (decode (str b)) = zlen (str b) ->
  LENGTH <= zlen (str b) ->
  exists d, IPv4Datagram.parse b this = Ok (NoError, d) /\ _header d = decode (str b) /\
    BufferList.concatenate (_payload d) = zdrop LENGTH (str b).
Proof.
  intros Hw Hh Hlen Hl. pose proof (wf_len _ (ip_decode_wf (str b))) as Hr.
  destruct (datagram_parse_spec b this Hw) as (d & HP & Hd & Hp & _); [lia|].
  assert (Hc : consumed (str b) = LENGTH).
  { unfold consumed, LENGTH in Hl |- *. rewrite (proj2 (Z.ltb_ge _ _)), Hh by lia.
    match goal with |- context [if ?c then _ else _] => by destruct c end. }
  rewrite Hc in *. exists d. split; [|done]. rewrite HP.
  unfold IPv4Header.payload_length, LENGTH in *. rewrite Hh, Hlen, u16_id by lia.
  by rewrite (proj2 (Z.eqb_eq _ _)) by lia.
Qed.

Lemma ipv4_datagram_ignores_verdict_witness :
  let s := <[10%nat := x00]> demo_header in
  verdict s = BadChecksum /\
  exists d, IPv4Datagram.parse (of_string s) IPv4Datagram.default = Ok (NoError, d).
Proof.
  split; [by vm_compute|].
  destruct (ipv4_datagram_ignores_verdict (of_string (<[10%nat := x00]> demo_header))
    IPv4Datagram.default) as (d & HP & _); [unfold Buffer.wf; cbn; lia|done|done|by vm_compute|].
  by exists d.
Defined.
