(* ===== verification/Adapters.v ===== *)
(** * Adapters (tcp_config.hh, fd_adapter.hh, fd_adapter.cc, tcp_over_ip.hh,
    tcp_over_ip.cc, tuntap_adapter.hh, lossy_fd_adapter.hh)

    How segments travel: in UDP payloads, or in IPv4 datagrams read from and written to a
    TUN device, with random loss on top.  The devices are outside: [read] gets what
    the device delivers and [write] returns what it is given to send. *)

From Stdlib Require Import Strings.String.
From S2P Require Import Prelude WrappingIntegers Buffer Parser Checksum Address.
From S2P Require Import IPv4 TCPHeader TCPSegment.

(** ** FdAdapterBase *)

Record FdAdapterConfig := mkFdAdapterConfig {
  source : Address;
  destination : Address;
  loss_rate_dn : Z;
  loss_rate_up : Z }.

#[export] Instance eta_FdAdapterConfig : Eta FdAdapterConfig := fun c =>
  mkFdAdapterConfig (source c) (destination c) (loss_rate_dn c) (loss_rate_up c).

Record FdAdapterBase := mkFdAdapterBase { _cfg : FdAdapterConfig; _listen : bool }.

#[export] Instance eta_FdAdapterBase : Eta FdAdapterBase := fun a =>
  mkFdAdapterBase (_cfg a) (_listen a).

Definition set_listening (l : bool) (a : FdAdapterBase) : FdAdapterBase := a <| _listen := l |>.
Definition listening (a : FdAdapterBase) : bool := _listen a.
Definition config (a : FdAdapterBase) : FdAdapterConfig := _cfg a.
Definition set_config (c : FdAdapterConfig) (a : FdAdapterBase) : FdAdapterBase := a <| _cfg := c |>.
Definition tick (ms_since_last_tick : Z) (a : FdAdapterBase) : FdAdapterBase := a.

(** The members [AdaptT] must have, and what one reads from and writes to the device. *)
Class FdAdapter (A In Out : Type) := {
  adapter_read : In -> A -> outcome (option TCPSegment * A);
  adapter_write : TCPSegment -> A -> outcome (option Out * A);
  adapter_config : A -> FdAdapterConfig;
  adapter_set_config : FdAdapterConfig -> A -> A;
  adapter_set_listening : bool -> A -> A;
  adapter_tick : Z -> A -> A }.

Section adapters.
Context `{Resolver}.

(** Both adapters begin a write by putting the ports into the segment. *)
Definition set_ports (c : FdAdapterConfig) (seg : TCPSegment) : outcome TCPSegment :=
  sp ← port (source c);
  dp ← port (destination c);
  Ok (seg <| _header := (_header seg) <| sport := sp |> <| dport := dp |> |>).

(** ** TCPOverUDPSocketAdapter *)

Record received_datagram := mk_received_datagram {
  source_address : Address; payload : bytes }.

Definition udp_read (datagram : received_datagram) (a : FdAdapterBase)
  : outcome (option TCPSegment * FdAdapterBase) :=
  if negb (listening a) && negb (Address.eqb (source_address datagram) (destination (config a)))
  then Ok (None, a)
  else
    '(r, seg) ← TCPSegment.parse (of_string (payload datagram)) 0 TCPSegment.default;
    if negb (bool_decide (r = NoError)) then Ok (None, a)
    else if listening a then
      if syn (_header seg) && negb (rst (_header seg)) then
        let a := set_config ((config a) <| destination := source_address datagram |>) a in
        Ok (Some seg, set_listening false a)
      else Ok (None, a)
    else Ok (Some seg, a).

(** [sendto] gets the destination and the bytes. *)
Definition udp_write (seg : TCPSegment) (a : FdAdapterBase) : outcome (Address * bytes) :=
  seg ← set_ports (config a) seg;
  bl ← TCPSegment.serialize 0 seg;
  Ok (destination (config a), BufferList.concatenate bl).

(** ** TCPOverIPv4Adapter *)

(** The last two checks, once the segment has been parsed. *)
Definition accept_segment (ip_dgram : IPv4Datagram) (tcp_seg : TCPSegment) (a : FdAdapterBase)
  : outcome (option TCPSegment * FdAdapterBase) :=
  let from_peer a :=
    dp ← port (destination (config a));
    Ok (if sport (_header tcp_seg) =? dp then Some tcp_seg else None, a) in
  if listening a then
    if syn (_header tcp_seg) && negb (rst (_header tcp_seg)) then
      sp ← port (source (config a));
      src' ← of_ip (inet_ntoa (dst (IPv4._header ip_dgram))) sp;
      let a := set_config ((config a) <| source := src' |>) a in
      dst' ← of_ip (inet_ntoa (src (IPv4._header ip_dgram))) (sport (_header tcp_seg));
      let a := set_config ((config a) <| destination := dst' |>) a in
      from_peer (set_listening false a)
    else Ok (None, a)
  else from_peer a.

Definition unwrap_tcp_in_ip (ip_dgram : IPv4Datagram) (a : FdAdapterBase)
  : outcome (option TCPSegment * FdAdapterBase) :=
  let h := IPv4._header ip_dgram in
  not_for_us ← (if listening a then Ok false
                else i ← ipv4_numeric (source (config a)); Ok (negb (dst h =? i)));
  if (not_for_us : bool) then Ok (None, a)
  else
    not_from_peer ← (if listening a then Ok false
                     else i ← ipv4_numeric (destination (config a)); Ok (negb (src h =? i)));
    if (not_from_peer : bool) then Ok (None, a)
    else if negb (proto h =? PROTO_TCP) then Ok (None, a)
    else
      b ← BufferList.to_buffer (IPv4._payload ip_dgram);
      '(r, tcp_seg) ← TCPSegment.parse b (IPv4Header.pseudo_cksum h) TCPSegment.default;
      if negb (bool_decide (r = NoError)) then Ok (None, a)
      else
        sp ← port (source (config a));
        if negb (dport (_header tcp_seg) =? sp) then Ok (None, a)
        else accept_segment ip_dgram tcp_seg a.

Definition wrap_tcp_in_ip (seg : TCPSegment) (a : FdAdapterBase) : outcome IPv4Datagram :=
  seg ← set_ports (config a) seg;
  src' ← ipv4_numeric (source (config a));
  dst' ← ipv4_numeric (destination (config a));
  let h := IPv4Header.default <| src := src' |> <| dst := dst' |> in
  let h := h <| IPv4.len := u16 (hlen h * 4 + doff (_header seg) * 4 + Buffer.size (_payload seg)) |> in
  bl ← TCPSegment.serialize (IPv4Header.pseudo_cksum h) seg;
  Ok (mkIPv4Datagram h bl).

(** ** TCPOverIPv4OverTunFdAdapter *)

Definition tun_read (data : bytes) (a : FdAdapterBase)
  : outcome (option TCPSegment * FdAdapterBase) :=
  '(r, ip_dgram) ← IPv4Datagram.parse (of_string data) IPv4Datagram.default;
  if negb (bool_decide (r = NoError)) then Ok (None, a)
  else unwrap_tcp_in_ip ip_dgram a.

Definition tun_write (seg : TCPSegment) (a : FdAdapterBase) : outcome bytes :=
  ip_dgram ← wrap_tcp_in_ip seg a;
  bl ← IPv4Datagram.serialize ip_dgram;
  Ok (BufferList.concatenate bl).

(** The two adapters differ in the type of what the device delivers. *)
#[export] Instance udp_adapter : FdAdapter FdAdapterBase received_datagram (Address * bytes) := {|
  adapter_read := udp_read;
  adapter_write seg a := d ← udp_write seg a; Ok (Some d, a);
  adapter_config := config;
  adapter_set_config := set_config;
  adapter_set_listening := set_listening;
  adapter_tick := tick |}.

#[export] Instance tun_adapter : FdAdapter FdAdapterBase bytes bytes := {|
  adapter_read := tun_read;
  adapter_write seg a := d ← tun_write seg a; Ok (Some d, a);
  adapter_config := config;
  adapter_set_config := set_config;
  adapter_set_listening := set_listening;
  adapter_tick := tick |}.
End adapters.

(** ** LossyFdAdapter

    [next] is the random number generator, [mt19937] in the program. *)

Record LossyFdAdapter (R A : Type) := mkLossyFdAdapter { _rand : R; _adapter : A }.
Arguments mkLossyFdAdapter {R A} _ _.
Arguments _rand {R A} _.
Arguments _adapter {R A} _.

Section lossy.
Context {R A In Out : Type} `{FdAdapter A In Out} (next : R -> Z * R).

Definition should_drop (uplink : bool) (a : LossyFdAdapter R A) : bool * LossyFdAdapter R A :=
  let cfg := adapter_config (_adapter a) in
  let loss := if uplink then loss_rate_up cfg else loss_rate_dn cfg in
  if negb (loss =? 0) then
    let '(n, r) := next (_rand a) in (u16 n <? loss, mkLossyFdAdapter r (_adapter a))
  else (false, a).

Definition lossy_read (d : In) (a : LossyFdAdapter R A)
  : outcome (option TCPSegment * LossyFdAdapter R A) :=
  '(ret, ad) ← adapter_read d (_adapter a);
  let '(drop, a) := should_drop false (mkLossyFdAdapter (_rand a) ad) in
  Ok (if (drop : bool) then None else ret, a).

Definition lossy_write (seg : TCPSegment) (a : LossyFdAdapter R A)
  : outcome (option Out * LossyFdAdapter R A) :=
  let '(drop, a) := should_drop true a in
  if (drop : bool) then Ok (None, a)
  else
    '(out, ad) ← adapter_write seg (_adapter a);
    Ok (out, mkLossyFdAdapter (_rand a) ad).

Definition on_adapter (f : A -> A) (a : LossyFdAdapter R A) : LossyFdAdapter R A :=
  mkLossyFdAdapter (_rand a) (f (_adapter a)).

#[export] Instance lossy_adapter : FdAdapter (LossyFdAdapter R A) In Out := {|
  adapter_read := lossy_read;
  adapter_write := lossy_write;
  adapter_config a := adapter_config (_adapter a);
  adapter_set_config c := on_adapter (adapter_set_config c);
  adapter_set_listening l := on_adapter (adapter_set_listening l);
  adapter_tick n := on_adapter (adapter_tick n) |}.
End lossy.

(** ** Lemmas *)

(** The configuration of the endpoint (i, n) that talks to (j, m). *)
Definition between (i n j m : Z) (c : FdAdapterConfig) : Prop :=
  source c = inet i n /\ destination c = inet j m /\
  is_u32 i /\ is_u16 n /\ is_u32 j /\ is_u16 m.

(** A segment that fits into one datagram. *)
Definition sendable (seg : TCPSegment) : Prop :=
  TCPHeader.wf (_header seg) /\ 5 <= doff (_header seg) /\
  20 + 4 * doff (_header seg) + zlen (str (_payload seg)) <= 65535.

(** What arrives of [seg] from port [n] at port [m]. *)
Definition arrives (n m : Z) (seg seg' : TCPSegment) : Prop :=
  _header seg' = (_header seg) <| sport := n |> <| dport := m |>
                   <| cksum := cksum (_header seg') |> /\
  str (_payload seg') = str (_payload seg).

Definition with_ports (n m : Z) (seg : TCPSegment) : TCPSegment :=
  seg <| _header := (_header seg) <| sport := n |> <| dport := m |> |>.

(** The header a wrapped segment gets. *)
Definition ip_header (i j total : Z) : IPv4Header :=
  IPv4Header.default <| src := i |> <| dst := j |> <| IPv4.len := total |>.

Lemma ip_header_wf i j total : is_u32 i -> is_u32 j -> is_u16 total -> IPv4.wf (ip_header i j total).
Proof. intros Hi Hj Ht. split; cbn; try done; unfold DEFAULT_TTL, PROTO_TCP; lia. Qed.

Section laws.
Context `{HR : ResolverLaws}.

Lemma set_ports_eq c i n j m seg :
  between i n j m c -> set_ports c seg = Ok (with_ports n m seg).
Proof.
  intros (Es & Ed & Hi & Hn & Hj & Hm). unfold set_ports. rewrite Es, Ed.
  by rewrite !inet_port by done.
Qed.

Lemma sendable_ports n m seg :
  is_u16 n -> is_u16 m -> sendable seg -> TCPHeader.wf (_header (with_ports n m seg)).
Proof. intros Hn Hm [[] _]. by split. Qed.

Lemma wrap_eq a i n j m seg :
  between i n j m (config a) -> sendable seg ->
  let h := ip_header i j (20 + 4 * doff (_header seg) + zlen (str (_payload seg))) in
  wrap_tcp_in_ip seg a =
    bl ← TCPSegment.serialize (IPv4Header.pseudo_cksum h) (with_ports n m seg);
    Ok (mkIPv4Datagram h bl).
Proof.
  intros Hb (Hw & Hd & Hl) h. unfold wrap_tcp_in_ip. rewrite (set_ports_eq _ i n j m) by done.
  destruct Hb as (Es & Ed & Hi & Hn & Hj & Hm). rewrite Es, Ed.
  cbn [mbind outcome_bind]. rewrite !inet_numeric by done. cbn [mbind outcome_bind].
  unfold Buffer.size. pose proof (wf_doff _ Hw) as Hdr.
  replace (u16 _) with (20 + 4 * doff (_header seg) + zlen (str (_payload seg))); [done|].
  cbn [hlen upd eta eta_IPv4Header IPv4Header.default _payload _header with_ports eta_TCPSegment doff
    eta_TCPHeader].
  change (IPv4.LENGTH / 4) with 5. rewrite u16_id; lia.
Qed.

(** The datagram [a] writes, as the other end parses it. *)
Lemma tun_wire a i n j m seg :
  between i n j m (config a) -> sendable seg ->
  exists wire d seg', tun_write seg a = Ok wire /\
    IPv4Datagram.parse (of_string wire) IPv4Datagram.default = Ok (NoError, d) /\
    src (IPv4._header d) = i /\ dst (IPv4._header d) = j /\ proto (IPv4._header d) = PROTO_TCP /\
    (b ← BufferList.to_buffer (IPv4._payload d);
     TCPSegment.parse b (IPv4Header.pseudo_cksum (IPv4._header d)) TCPSegment.default) =
      Ok (NoError, seg') /\
    arrives n m seg seg'.
Proof.
  intros Hb Hs. pose proof Hb as (_ & _ & Hi & Hn & Hj & Hm). pose proof Hs as (Hw & Hd & Hl).
  pose proof (wf_doff _ Hw) as Hdr.
  unfold tun_write. rewrite (wrap_eq a i n j m) by done.
  set (h := ip_header i j _).
  assert (Hwh : IPv4.wf h) by (apply ip_header_wf; lia || done).
  destruct (segment_serialize_parse (IPv4Header.pseudo_cksum h) (with_ports n m seg) TCPSegment.default)
    as (bl & Hbl & Hlen & HP);
    [by apply pseudo_cksum_range|by apply sendable_ports|exact Hd| |].
  { cbn [doff _header _payload with_ports upd eta eta_TCPSegment eta_TCPHeader]. lia. }
  rewrite Hbl. cbn [mbind outcome_bind].
  destruct (datagram_serialize_parse (mkIPv4Datagram h bl) IPv4Datagram.default Hwh)
    as (bl' & d & Hser & Hpar & Hh & Hpay & _ & b & Eb & Hwb);
    [done|done| |].
  { cbn [IPv4._header IPv4._payload]. rewrite Hlen. change (hlen h) with 5.
    change (IPv4.len h) with (20 + 4 * doff (_header seg) + zlen (str (_payload seg))).
    change (_payload (with_ports n m seg)) with (_payload seg).
    change (doff (_header (with_ports n m seg))) with (doff (_header seg)). lia. }
  rewrite Hser. cbn [mbind outcome_bind].
  rewrite Eb in Hpay. change (BufferList.concatenate (BufferList.of_buffer b)) with (str b) in Hpay.
  destruct (HP b Hwb Hpay) as (seg' & Hseg & Hsh & Hsp).
  exists (BufferList.concatenate bl'), d, seg'. rewrite Hh, Eb. split_and!; try done.
  split; [|exact Hsp]. by rewrite Hsh.
Qed.
End laws.

(** ** Properties *)

Section properties.
Context `{HR : ResolverLaws}.

(** C27. TCP over IPv4 over TUN, both ends configured for each other: whatever segment with
    fields of its types that fits a datagram one end writes, the other end reads it
    back, with the ports of the two ends and a checksum filled in. *)
Theorem tun_delivers a b i n j m seg :
  between i n j m (config a) -> between j m i n (config b) -> listening b = false ->
  sendable seg ->
  exists wire seg', tun_write seg a = Ok wire /\ tun_read wire b = Ok (Some seg', b) /\
    arrives n m seg seg'.
Proof.
  intros Ha Hb Hl Hs.
  destruct (tun_wire a i n j m seg Ha Hs) as (wire & d & seg' & H1 & H2 & Hi & Hj & Hp & HP & Har).
  exists wire, seg'. split; [done|]. split; [|done]. unfold tun_read. rewrite H2.
  cbn [mbind outcome_bind]. rewrite bool_decide_eq_true_2 by done. cbn [negb].
  destruct Hb as (Es & Ed & Hj' & Hm & Hi' & Hn).
  assert (dport (_header seg') = m /\ sport (_header seg') = n) as [Edp Esp]
    by by rewrite (proj1 Har).
  unfold unwrap_tcp_in_ip. rewrite Hl, Es, Ed, !inet_numeric by done.
  cbn [mbind outcome_bind]. rewrite Hi, Hj, Hp, !Z.eqb_refl. cbn [negb].
  apply bind_Ok in HP as (buf & -> & HP).
  cbn [mbind outcome_bind]. rewrite HP. cbn [mbind outcome_bind].
  rewrite bool_decide_eq_true_2, inet_port by done. cbn [negb mbind outcome_bind].
  rewrite Edp, Z.eqb_refl. cbn [negb]. unfold accept_segment. rewrite Hl, Ed, inet_port by done.
  cbn [mbind outcome_bind]. by rewrite Esp, Z.eqb_refl.
Qed.

(** A listening TUN adapter takes the first SYN without RST for its port, whoever sent it
    and to whichever of its addresses, and from then on talks to that sender from
    that address; a segment without SYN, or with RST, is dropped and changes nothing. *)
Theorem tun_listens a b i n j m k seg :
  between i n j m (config a) -> source (config b) = inet k m -> is_u32 k -> listening b = true ->
  sendable seg ->
  exists wire seg', tun_write seg a = Ok wire /\ arrives n m seg seg' /\
    if syn (_header seg) && negb (rst (_header seg)) then
      exists b', tun_read wire b = Ok (Some seg', b') /\ listening b' = false /\
        between j m i n (config b')
    else tun_read wire b = Ok (None, b).
Proof.
  intros Ha Es Hk Hl Hs.
  destruct (tun_wire a i n j m seg Ha Hs) as (wire & d & seg' & H1 & H2 & Hi & Hj & Hp & HP & Har).
  exists wire, seg'. split; [done|]. split; [done|].
  assert (E : tun_read wire b = accept_segment d seg' b).
  { unfold tun_read. rewrite H2. cbn [mbind outcome_bind].
    rewrite bool_decide_eq_true_2 by done. cbn [negb].
    destruct Ha as (_ & _ & _ & _ & _ & Hm).
    unfold unwrap_tcp_in_ip. rewrite Hl, Hp, Z.eqb_refl. cbn [mbind outcome_bind negb].
    apply bind_Ok in HP as (buf & -> & HP). cbn [mbind outcome_bind]. rewrite HP.
    cbn [mbind outcome_bind]. rewrite bool_decide_eq_true_2, Es, inet_port by done.
    cbn [negb mbind outcome_bind]. rewrite (proj1 Har). cbn [dport upd eta eta_TCPHeader].
    by rewrite Z.eqb_refl. }
  rewrite E. unfold accept_segment. rewrite Hl.
  assert (syn (_header seg') = syn (_header seg) /\ rst (_header seg') = rst (_header seg) /\
          sport (_header seg') = n) as (-> & -> & En) by by rewrite (proj1 Har).
  destruct (_ && _); [|done]. destruct Ha as (_ & _ & Hi' & Hn & Hj' & Hm).
  rewrite Es, inet_port by done. cbn [mbind outcome_bind]. rewrite Hi, Hj, En.
  rewrite !of_ip_inet by done. cbn [mbind outcome_bind config set_config set_listening upd eta
    eta_FdAdapterBase _cfg eta_FdAdapterConfig destination].
  rewrite inet_port by done. cbn [mbind outcome_bind]. rewrite Z.eqb_refl.
  eexists. split; [done|]. by split_and!.
Qed.

(** C28. What a TUN adapter hands up is from its connection: a datagram is only unwrapped to a
    segment when it claims to carry TCP, the segment parses under the pseudo header and is
    for our port; and then either we were not listening, and the addresses and the port
    are our peer's and nothing changes, or we were, and it is a SYN without RST. *)
Theorem unwrap_filters d a seg a' i n j m :
  between i n j m (config a) ->
  unwrap_tcp_in_ip d a = Ok (Some seg, a') ->
  proto (IPv4._header d) = PROTO_TCP /\ dport (_header seg) = n /\
  (exists b, BufferList.to_buffer (IPv4._payload d) = Ok b /\
     TCPSegment.parse b (IPv4Header.pseudo_cksum (IPv4._header d)) TCPSegment.default
       = Ok (NoError, seg)) /\
  if listening a then
    syn (_header seg) = true /\ rst (_header seg) = false /\ listening a' = false
  else
    dst (IPv4._header d) = i /\ src (IPv4._header d) = j /\ sport (_header seg) = m /\ a' = a.
Proof.
  intros (Es & Ed & Hi & Hn & Hj & Hm). unfold unwrap_tcp_in_ip.
  rewrite Es, Ed, !inet_numeric, inet_port by done. cbn [mbind outcome_bind].
  set (h := IPv4._header d). intros U.
  assert (H0 : (listening a = true \/ dst h = i /\ src h = j) /\ proto h = PROTO_TCP /\
    (b ← BufferList.to_buffer (IPv4._payload d);
     '(r, tcp_seg) ← TCPSegment.parse b (IPv4Header.pseudo_cksum h) TCPSegment.default;
     if negb (bool_decide (r = NoError)) then Ok (None, a)
     else if negb (dport (_header tcp_seg) =? n) then Ok (None, a)
     else accept_segment d tcp_seg a) = Ok (Some seg, a')).
  { destruct (listening a); cbn [mbind outcome_bind] in U.
    - destruct (Z.eqb_spec (proto h) PROTO_TCP); [|done]. split; [by left|]. by split.
    - destruct (Z.eqb_spec (dst h) i); [|done]. destruct (Z.eqb_spec (src h) j); [|done].
      destruct (Z.eqb_spec (proto h) PROTO_TCP); [|done]. split; [by right|]. by split. }
  clear U. destruct H0 as (Hw & Hp & U). apply bind_Ok in U as (b & Eb & U).
  apply bind_Ok in U as ([r t] & EP & U).
  destruct (bool_decide_reflect (r = NoError)) as [->|]; [|done]. cbn [negb] in U.
  destruct (Z.eqb_spec (dport (_header t)) n) as [Ep|]; [|done]. cbn [negb] in U.
  unfold accept_segment in U. destruct (listening a).
  - destruct (syn (_header t)) eqn:E1, (rst (_header t)) eqn:E2; try done. cbn [andb negb] in U.
    apply bind_Ok in U as (sp & _ & U). apply bind_Ok in U as (src' & _ & U).
    apply bind_Ok in U as (dst' & _ & U). apply bind_Ok in U as (dp & _ & U).
    destruct (_ =? dp); [|done]. apply Ok_inj in U. injection U as -> <-. eauto 10.
  - destruct Hw as [?|[Hd Hs]]; [done|]. rewrite Ed, inet_port in U by done.
    cbn [mbind outcome_bind] in U. destruct (Z.eqb_spec (sport (_header t)) m); [|done].
    apply Ok_inj in U. injection U as -> <-. eauto 10.
Qed.

(** TCP over UDP, both ends configured for each other: what one end sends to the
    other's address is read back there, with the ports and a checksum filled in; and a
    datagram from any other address is ignored. *)
Theorem udp_delivers a b i n j m seg :
  between i n j m (config a) -> between j m i n (config b) -> listening b = false ->
  sendable seg ->
  exists wire seg', udp_write seg a = Ok (inet j m, wire) /\
    udp_read (mk_received_datagram (inet i n) wire) b = Ok (Some seg', b) /\
    arrives n m seg seg' /\
    forall i' n', is_u32 i' -> is_u16 n' -> i' <> i \/ n' <> n ->
      udp_read (mk_received_datagram (inet i' n') wire) b = Ok (None, b).
Proof.
  intros Ha (_ & Ed & Hj & Hm & Hi & Hn) Hl Hs. pose proof Ha as (_ & Eda & _).
  pose proof Hs as (Hw & Hd & Hlen). pose proof (wf_doff _ Hw) as Hdr.
  destruct (segment_serialize_parse 0 (with_ports n m seg) TCPSegment.default)
    as (bl & Hbl & Hlb & HP); [lia|by apply sendable_ports|exact Hd| |].
  { cbn [doff _header _payload with_ports upd eta eta_TCPSegment eta_TCPHeader]. lia. }
  cbn [doff _header _payload with_ports upd eta eta_TCPSegment eta_TCPHeader] in Hlb.
  destruct (HP (of_string (BufferList.concatenate bl))) as (seg' & Hp & Hh & Hpay);
    [apply buffer_of_string_wf; lia|done|].
  exists (BufferList.concatenate bl), seg'. split_and!.
  - unfold udp_write. rewrite (set_ports_eq _ i n j m), Eda by done. cbn [mbind outcome_bind].
    by rewrite Hbl.
  - unfold udp_read. rewrite Hl, Ed. cbn [source_address payload].
    rewrite eqb_inet, !Z.eqb_refl, Hp by done. cbn [andb negb mbind outcome_bind].
    by rewrite bool_decide_eq_true_2.
  - split; [|exact Hpay]. by rewrite Hh.
  - intros i' n' Hi' Hn' Hne. unfold udp_read. rewrite Hl, Ed. cbn [source_address].
    rewrite eqb_inet by done.
    destruct (Z.eqb_spec i' i), (Z.eqb_spec n' n); (done || by destruct Hne).
Qed.
End properties.

(** Reading a sequence of datagrams: what comes up. *)
Section reads.
Context {A In Out : Type} `{FdAdapter A In Out}.

Fixpoint read_all (ds : list In) (a : A) : outcome (list TCPSegment * A) :=
  match ds with
  | [] => Ok ([], a)
  | d :: ds' =>
    '(ret, a) ← adapter_read d a;
    '(segs, a) ← read_all ds' a;
    Ok (match ret with Some seg => seg :: segs | None => segs end, a)
  end.
End reads.

(** Loss only loses: over any random numbers and any adapter, reading datagrams through
    [LossyFdAdapter] fails exactly when the adapter does, leaves the adapter in the same
    state, and hands up a subsequence of its segments; when no configuration it passes
    through has a downlink loss rate, exactly its segments. *)
Theorem lossy_loses {R A In Out : Type} `{FdAdapter A In Out} (next : R -> Z * R) ds : forall r a,
  match read_all ds a with
  | Ok (segs, a') =>
    exists segs' r',
      @read_all _ _ _ (lossy_adapter next) ds (mkLossyFdAdapter r a) =
        Ok (segs', mkLossyFdAdapter r' a') /\
      segs' `sublist_of` segs /\
      ((forall k l b, read_all (take k ds) a = Ok (l, b) -> loss_rate_dn (adapter_config b) = 0) ->
       segs' = segs /\ r' = r)
  | Fault f => @read_all _ _ _ (lossy_adapter next) ds (mkLossyFdAdapter r a) = Fault f
  end.
Proof.
  induction ds as [|d ds IH]; intros r a; cbn [read_all].
  { exists [], r. split_and!; [done..|by intros _]. }
  cbn [adapter_read lossy_adapter]. unfold lossy_read. cbn [_adapter _rand].
  destruct (adapter_read d a) as [[ret a1]|f] eqn:Er; cbn [mbind outcome_bind]; [|done].
  assert (exists drop r1, should_drop next false (mkLossyFdAdapter r a1) =
      (drop, mkLossyFdAdapter r1 a1) /\
      (loss_rate_dn (adapter_config a1) = 0 -> drop = false /\ r1 = r))
    as (drop & r1 & -> & Hd).
  { unfold should_drop. cbn [_adapter _rand]. destruct (Z.eqb_spec (loss_rate_dn (adapter_config a1)) 0).
    - by exists false, r.
    - cbn [negb]. destruct (next r) as [x r1]. by eexists _, r1. }
  cbn [mbind outcome_bind]. specialize (IH r1 a1).
  destruct (read_all ds a1) as [[segs a']|f]; cbn [mbind outcome_bind].
  - destruct IH as (segs' & r' & -> & Hsub & Hz). cbn [mbind outcome_bind].
    eexists _, r'. split; [done|]. split.
    + destruct drop, ret; [by apply sublist_cons|done|by apply sublist_skip|done].
    + intros Hc.
      assert (Hc1 : forall k l b, read_all (take k ds) a1 = Ok (l, b) ->
        loss_rate_dn (adapter_config b) = 0).
      { intros k l b E. eapply (Hc (S k) _ b). cbn [take read_all]. rewrite Er.
        cbn [mbind outcome_bind]. by rewrite E. }
      destruct (Hd (Hc1 0%nat [] a1 eq_refl)) as [-> ->]. destruct (Hz Hc1) as [-> ->].
      by destruct ret.
  - by rewrite IH.
Qed.

(** ** A concrete pair of endpoints: 10.0.0.1:80 and 10.0.0.2:90 *)

Definition demo_a : FdAdapterBase :=
  mkFdAdapterBase (mkFdAdapterConfig (inet 0x0a000001 80) (inet 0x0a000002 90) 0 0) false.
Definition demo_b : FdAdapterBase :=
  mkFdAdapterBase (mkFdAdapterConfig (inet 0x0a000002 90) (inet 0x0a000001 80) 0 0) false.
(** Bound to port 90 of any address. *)
Definition demo_listener : FdAdapterBase :=
  mkFdAdapterBase (mkFdAdapterConfig (inet 0 90) (inet 0 0) 0 0) true.
Definition demo_seg : TCPSegment :=
  mkTCPSegment (TCPHeader.default <| syn := true |>) (of_string [x61; x62]).

Lemma demo_between :
  between 0x0a000001 80 0x0a000002 90 (config demo_a) /\
  between 0x0a000002 90 0x0a000001 80 (config demo_b).
Proof. split; (split; [done|split; [done|lia]]). Qed.

Lemma demo_sendable : sendable demo_seg.
Proof.
  split; [|split]; [|by vm_compute|by vm_compute].
  split; by vm_compute.
Qed.

Lemma tun_delivers_witness :
  exists wire seg', tun_write demo_seg demo_a = Ok wire /\
    tun_read wire demo_b = Ok (Some seg', demo_b) /\ arrives 80 90 demo_seg seg'.
Proof.
  destruct demo_between as [Ha Hb].
  apply (tun_delivers demo_a demo_b 0x0a000001 80 0x0a000002 90 demo_seg Ha Hb eq_refl demo_sendable).
Defined.

Lemma tun_listens_witness :
  exists wire seg' b', tun_write demo_seg demo_a = Ok wire /\
    tun_read wire demo_listener = Ok (Some seg', b') /\
    between 0x0a000002 90 0x0a000001 80 (config b').
Proof.
  destruct demo_between as [Ha _].
  destruct (tun_listens demo_a demo_listener 0x0a000001 80 0x0a000002 90 0 demo_seg Ha eq_refl
    ltac:(lia) eq_refl demo_sendable) as (wire & seg' & H1 & _ & b' & H2 & _ & H3).
  exists wire, seg', b'. split; [exact H1|]. split; [exact H2|exact H3].
Defined.

(** What the client writes, parsed as a datagram. *)
Definition demo_dgram : IPv4Datagram :=
  match tun_write demo_seg demo_a with
  | Ok wire =>
    match IPv4Datagram.parse (of_string wire) IPv4Datagram.default with
    | Ok (_, d) => d | Fault _ => IPv4Datagram.default
    end
  | Fault _ => IPv4Datagram.default
  end.
Definition demo_arrived : TCPSegment :=
  match unwrap_tcp_in_ip demo_dgram demo_b with
  | Ok (Some seg, _) => seg | _ => TCPSegment.default end.

Lemma unwrap_filters_witness :
  dport (_header demo_arrived) = 90 /\ sport (_header demo_arrived) = 80.
Proof.
  destruct demo_between as [_ Hb].
  assert (E : unwrap_tcp_in_ip demo_dgram demo_b = Ok (Some demo_arrived, demo_b))
    by by vm_compute.
  destruct (unwrap_filters demo_dgram demo_b demo_arrived demo_b 0x0a000002 90 0x0a000001 80 Hb E)
    as (_ & H1 & _ & _ & _ & H2 & _). by split.
Defined.

Lemma udp_delivers_witness :
  exists wire seg', udp_write demo_seg demo_a = Ok (inet 0x0a000002 90, wire) /\
    udp_read (mk_received_datagram (inet 0x0a000001 80) wire) demo_b = Ok (Some seg', demo_b).
Proof.
  destruct demo_between as [Ha Hb].
  destruct (udp_delivers demo_a demo_b 0x0a000001 80 0x0a000002 90 demo_seg Ha Hb eq_refl demo_sendable)
    as (wire & seg' & H1 & H2 & _). by exists wire, seg'.
Defined.
