(* ===== verification/Tcpdump.v ===== *)
(** * Tcpdump (apps/udp_tcpdump.cc, hexdump of util/util.cc)

    The program finds the UDP payload of each captured packet, parses it as a TCP segment and
    prints both.  Reading a packet outside its captured bytes is a fault.  The capture
    library is outside; [inet_ntop] is a class. *)

From Stdlib Require Import Strings.String Strings.Ascii.
From S2P Require Import Prelude WrappingIntegers Buffer Parser Checksum Address TCPHeader TCPSegment Adapters.

(** ** Command line *)

Inductive parsed := Parsed (exp_start : Z) (dev : option string) | Exits (status : Z).

(** [parse_arguments], from argument number [curr] on. *)
Fixpoint parse_arguments (args : list string) (curr : Z) (dev : option string) : parsed :=
  match args with
  | [] => Parsed curr dev
  | a :: rest =>
    if String.eqb a "-i" then
      match rest with
      | [] => Exits 1
      | d :: rest => parse_arguments rest (curr + 2) (Some d)
      end
    else if String.eqb a "-h" || String.eqb a "--help" then Exits 0
    else Parsed curr dev
  end.

(** ** Packets *)

Definition AF_INET6 : Z := 10.

(** [inet_ntop]: the text of an address of 4 or 16 bytes. *)
Class Ntop := inet_ntop : Z -> bytes -> option string.

(** [data[n]], and the [k] bytes from [data + n] on. *)
Definition byte_at (data : bytes) (n : Z) : outcome Z :=
  match zget data n with Some c => Ok (b2z c) | None => Fault PastTheEnd end.
Definition bytes_at (data : bytes) (n k : Z) : outcome bytes :=
  if (n <? 0) || (zlen data <? n + k) then Fault PastTheEnd else Ok (ztake k (zdrop n data)).

Definition inet4_addr `{Ntop} (data : bytes) (n : Z) : outcome string :=
  addr ← bytes_at data n 4; Ok (from_option id "unknown"%string (inet_ntop AF_INET addr)).
Definition inet6_addr `{Ntop} (data : bytes) (n : Z) : outcome string :=
  addr ← bytes_at data n 16; Ok (from_option id "unknown"%string (inet_ntop AF_INET6 addr)).

(** The loop over the extension headers of IPv6: the offset behind the last one, [None] for -1.  Each
    takes 8 bytes at least, so that [len] rounds are enough ([skip_extensions_ends]). *)
Fixpoint skip_extensions (fuel : nat) (len : Z) (data : bytes) (nxt data_offset : Z) : outcome (option Z) :=
  if nxt =? 0x11 then Ok (Some data_offset)
  else if negb (nxt =? 0) && negb (nxt =? 43) && negb (nxt =? 60) then Ok None
  else
    match fuel with
    | O => Fault OutOfFuel
    | S fuel =>
      nxt ← byte_at data data_offset;
      n ← byte_at data (data_offset + 1);
      let data_offset := data_offset + 8 * (1 + n) in
      if len <? data_offset + 2 then Ok None else skip_extensions fuel len data nxt data_offset
    end.

(** [process_ipv4_ipv6]: the offset of the UDP payload and the addresses, [None] for -1. *)
Definition process_ipv4_ipv6 `{Ntop} (len : Z) (data : bytes) : outcome (option (Z * string * string)) :=
  if len <? 1 then Ok None
  else
    first ← byte_at data 0;
    let pt := Z.land first 0xf0 in
    if pt =? 0x40 then
      let data_offset := Z.land first 0x0f * 4 in
      if len <? data_offset then Ok None
      else
        proto ← byte_at data 9;
        if negb (proto =? 0x11) then Ok None
        else
          src_addr ← inet4_addr data 12;
          dst_addr ← inet4_addr data 16;
          Ok (Some (data_offset + 8, src_addr, dst_addr))
    else if pt =? 0x60 then
      if len <? 42 then Ok None
      else
        nxt ← byte_at data 6;
        offset ← skip_extensions (length data) len data nxt 40;
        match offset with
        | None => Ok None
        | Some data_offset =>
          src_addr ← inet6_addr data 8;
          dst_addr ← inet6_addr data 24;
          Ok (Some (data_offset + 8, src_addr, dst_addr))
        end
    else Ok None.

Definition DLT_NULL : Z := 0.
Definition DLT_EN10MB : Z := 1.
Definition DLT_RAW : Z := 12.
Definition DLT_LINUX_SLL : Z := 113.
Definition DLT_LINUX_SLL2 : Z := 276.

Inductive link := Header (hdr_off : Z) | Skip | GiveUp.

(** A link layer with [hdr_off] bytes of header and the protocol at [proto]. *)
Definition ether_link (hdr_off proto : Z) (pkt : bytes) : outcome link :=
  if zlen pkt <? hdr_off then Ok Skip
  else
    hi ← byte_at pkt proto;
    lo ← byte_at pkt (proto + 1);
    let pt := Z.lor (Z.shiftl hi 8) lo in
    Ok (if negb (pt =? 0x0800) && negb (pt =? 0x86dd) then Skip else Header hdr_off).

(** Where the IP packet starts. *)
Definition link_offset (dl_type : Z) (pkt : bytes) : outcome link :=
  if dl_type =? DLT_NULL then
    if zlen pkt <? 4 then Ok Skip
    else
      pt ← byte_at pkt 3;
      Ok (if negb (pt =? 2) && negb (pt =? 24) && negb (pt =? 28) && negb (pt =? 30) then Skip else Header 4)
  else if dl_type =? DLT_EN10MB then ether_link 14 12 pkt
  else if dl_type =? DLT_LINUX_SLL then ether_link 16 14 pkt
  else if dl_type =? DLT_LINUX_SLL2 then ether_link 20 0 pkt
  else if negb (dl_type =? DLT_RAW) then Ok GiveUp
  else Ok (Header 0).

(** What is printed of a packet: nothing, or the payload with the segment and its verdict if one was
    recognized. *)
Inductive report :=
| Skipped
| GivesUp
| Malformed
| Dumped (src dst : string) (recognized : option (ParseResult * TCPSegment)) (payload : bytes).

(** [string(payload)] for the view of [k] bytes from [data + n] on: no string is longer than the largest pointer
    difference, whatever [max_size()] is. *)
Definition PTRDIFF_MAX : Z := 0x7fffffffffffffff.
Definition copy_view (data : bytes) (n k : Z) : outcome bytes :=
  if PTRDIFF_MAX <? k then Fault LengthError else bytes_at data n k.

(** The body of the capture loop for the packet [pkt] of [caplen] bytes. *)
Definition handle_packet `{Ntop} (dl_type : Z) (pkt : bytes) : outcome report :=
  l ← link_offset dl_type pkt;
  match l with
  | Skip => Ok Skipped
  | GiveUp => Ok GivesUp
  | Header hdr_off =>
    r ← process_ipv4_ipv6 (zlen pkt - hdr_off) (zdrop hdr_off pkt);
    match r with
    | None => Ok Malformed
    | Some (start_off, src, dst) =>
      let payload_off := hdr_off + start_off in
      let payload_len := u64 (zlen pkt - payload_off) in
      payload ← copy_view pkt payload_off payload_len;
      '(res, seg) ← TCPSegment.parse (of_string payload) 0 TCPSegment.default;
      Ok (Dumped src dst (if index BadChecksum <? index res then None else Some (res, seg)) payload)
    end
  end.

(** ** The capture

    [P] is an open capture of the library and [F] a compiled filter; [None] is its error. *)

Inductive next_packet :=
| NextTimeout
| NextPacket (pkt : bytes)
| NextError
| NextBreak.
Class Pcap (P F : Type) := {
  pcap_open_live : option string -> option P;
  pcap_datalink : P -> Z;
  pcap_compile : P -> string -> option F;
  pcap_setfilter : F -> P -> option P;
  pcap_next_ex : P -> next_packet * P }.

Section capture.
Context `{Ntop} {P F : Type} `{Pcap P F}.

(** The capture loop, as many calls of [pcap_next_ex] as there are rounds: what was done with each packet, and the
    exit status once it has ended. *)
Fixpoint capture (rounds : nat) (dl_type : Z) (p_hdl : P) : outcome (list report * option Z) :=
  match rounds with
  | O => Ok ([], None)
  | S rounds =>
    let '(next_ret, p_hdl) := pcap_next_ex p_hdl in
    match next_ret with
    | NextTimeout => capture rounds dl_type p_hdl
    | NextError => Ok ([], Some 1)
    | NextBreak => Ok ([], Some 0)
    | NextPacket pkt =>
      r ← handle_packet dl_type pkt;
      match r with
      | GivesUp => Ok ([GivesUp], Some 1)
      | r => '(rs, status) ← capture rounds dl_type p_hdl; Ok (r :: rs, status)
      end
    end
  end.

Definition supported (dlt : Z) : bool :=
  (dlt =? DLT_RAW) || (dlt =? DLT_NULL) || (dlt =? DLT_EN10MB) || (dlt =? DLT_LINUX_SLL) || (dlt =? DLT_LINUX_SLL2).

Fixpoint filter_expression (args : list string) : string :=
  match args with [] => EmptyString | a :: args => (a ++ " " ++ filter_expression args)%string end.

Definition tcpdump_main (rounds : nat) (argv : list string) : outcome (list report * option Z) :=
  match parse_arguments (tail argv) 1 None with
  | Exits status => Ok ([], Some status)
  | Parsed exp_start dev =>
    match pcap_open_live dev with
    | None => Ok ([], Some 1)
    | Some p_hdl =>
      let dl_type := pcap_datalink p_hdl in
      if negb (supported dl_type) then Ok ([], Some 1)
      else
        match pcap_compile p_hdl (filter_expression (zdrop exp_start argv)) with
        | None => Ok ([], Some 1)
        | Some p_flt =>
          match pcap_setfilter p_flt p_hdl with
          | None => Ok ([], Some 1)
          | Some p_hdl => capture rounds dl_type p_hdl
          end
        end
    end
  end.

Lemma link_known dl pkt : supported dl = true -> link_offset dl pkt <> Ok GiveUp.
Proof.
  assert (He : forall off pr, ether_link off pr pkt <> Ok GiveUp).
  { intros off pr E. unfold ether_link in E. destruct (_ <? _); [done|].
    apply bind_Ok in E as (hi & _ & E). apply bind_Ok in E as (lo & _ & E). by destruct (_ && _). }
  unfold supported. intros Hs. repeat (apply orb_true_iff in Hs as [Hs|Hs]); apply Z.eqb_eq in Hs as ->;
    unfold link_offset; cbn; try apply He; try done.
  destruct (_ <? _); [done|]. intros (pt & _ & E)%bind_Ok. by destruct (_ && _).
Qed.

(** The link layers [main] accepts are those the loop knows: it never gives up. *)
Theorem capture_never_gives_up rounds argv rs status :
  tcpdump_main rounds argv = Ok (rs, status) -> GivesUp ∉ rs.
Proof.
  assert (Hcap : forall dl p, supported dl = true -> capture rounds dl p = Ok (rs, status) -> GivesUp ∉ rs).
  { intros dl p Hs. revert p rs status. induction rounds as [|n IH]; intros p rs' status' E; cbn [capture] in E.
    { apply Ok_inj in E. injection E as <- _. apply not_elem_of_nil. }
    destruct (pcap_next_ex p) as [[|pkt| |] p1]; [by eapply IH| |apply Ok_inj in E; injection E as <- _;
      apply not_elem_of_nil..].
    apply bind_Ok in E as (r & Er & E). assert (r <> GivesUp) as Hr.
    { intros ->. unfold handle_packet in Er. apply bind_Ok in Er as (l & El & Er).
      assert (l <> GiveUp) as Hl.
      { intros ->. by eapply link_known. }
      destruct l; [|done|done]. apply bind_Ok in Er as ([[[? ?] ?]|] & _ & Er); [|done].
      apply bind_Ok in Er as (? & _ & Er). by apply bind_Ok in Er as ([? ?] & _ & Er). }
    assert (exists rs1 st1, capture n dl p1 = Ok (rs1, st1) /\ rs' = r :: rs1) as (rs1 & st1 & E1 & ->).
    { destruct r; try done; apply bind_Ok in E as ([rs1 st1] & E1 & E); apply Ok_inj in E;
        injection E as <- <-; by eauto. }
    intros [?|Hin]%elem_of_cons; [by subst|]. by eapply IH. }
  unfold tcpdump_main. intros E. destruct (parse_arguments _ _ _) as [exp_start dev|st].
  2: { apply Ok_inj in E. injection E as <- _. apply not_elem_of_nil. }
  destruct (pcap_open_live dev) as [p|]; [|apply Ok_inj in E; injection E as <- _; apply not_elem_of_nil].
  destruct (supported (pcap_datalink p)) eqn:Es; cbn [negb] in E;
    [|apply Ok_inj in E; injection E as <- _; apply not_elem_of_nil].
  destruct (pcap_compile _ _) as [f|]; [|apply Ok_inj in E; injection E as <- _; apply not_elem_of_nil].
  destruct (pcap_setfilter f p) as [p1|]; [|apply Ok_inj in E; injection E as <- _; apply not_elem_of_nil].
  by eapply Hcap.
Qed.
End capture.

(** ** Text *)

Definition hex_digit (n : Z) : ascii := ascii_of_nat (Z.to_nat (if n <? 10 then 48 + n else 87 + n)).
(** A number in [hex]; 8 digits are enough for 32 bits. *)
Fixpoint to_hex_digits (fuel : nat) (n : Z) (acc : string) : string :=
  match fuel with
  | O => acc
  | S fuel =>
    let acc := String (hex_digit (n mod 16)) acc in
    if n <? 16 then acc else to_hex_digits fuel (n / 16) acc
  end.
Definition to_hex (n : Z) : string := to_hex_digits 8 n EmptyString.

Fixpoint repeat_char (n : nat) (c : ascii) : string :=
  match n with O => EmptyString | S n => String c (repeat_char n c) end.
(** [setw(w)] with [setfill('0')]. *)
Definition pad (w : nat) (s : string) : string := (repeat_char (w - String.length s) "0" ++ s)%string.
Definition spaces (n : Z) : string := repeat_char (Z.to_nat n) " ".
Definition LF : string := String "010" EmptyString.

Definition flag (b : bool) (s : string) : string := if b then s else EmptyString.

(** What the loop prints of a recognized segment. *)
Definition segment_line (src dst : string) (res : ParseResult) (seg : TCPSegment) (payload_len : Z) : string :=
  let h := _header seg in
  let seqlen := u32 (length_in_sequence_space seg) in
  let occupies := 0 <? seqlen in
  (src ++ ":" ++ to_string (sport h) ++ " > " ++ dst ++ ":" ++ to_string (dport h) ++ LF ++ "    Flags ["
   ++ flag (urg h) "U" ++ flag (psh h) "P" ++ flag (rst h) "R"
   ++ flag (syn h) "S" ++ flag (fin h) "F" ++ flag (ack h) "."
   ++ "] cksum 0x" ++ pad 4 (to_hex (cksum h))
   ++ (if bool_decide (res = NoError) then " (correct)" else " (incorrect!)")
   ++ " seq " ++ to_string (raw_value (seqno h))
   ++ (if occupies then ":" ++ to_string (raw_value (add (seqno h) seqlen)) else EmptyString)
   ++ " ack " ++ to_string (raw_value (ackno h)) ++ " win " ++ to_string (win h)
   ++ " length " ++ to_string payload_len ++ LF)%string.

(** [pchars]: a stream made from a string writes at its start, over what is there. *)
Record stringstream := mk_stream { content : list ascii; put : nat }.
Definition set_str (s : list ascii) : stringstream := mk_stream s 0.
Definition put_char (c : ascii) (st : stringstream) : stringstream :=
  mk_stream (take (put st) (content st) ++ c :: drop (put st + 1) (content st)) (put st + 1).
Definition stream_str (st : stringstream) : string := String.string_of_list_ascii (content st).

Definition is_print (c : Z) : bool := (32 <=? c) && (c <? 127).

(** The loop of [hexdump] over the bytes from number [printed] on, and the end of the last line. *)
Fixpoint hexdump_loop (data : bytes) (indent printed : Z) (pchars : stringstream) : string :=
  match data with
  | [] =>
    let print_rem := Z.rem (16 - Z.land printed 0xf) 16 in
    (spaces (2 * print_rem + print_rem / 2 + 4) ++ stream_str pchars ++ LF ++ LF)%string
  | c :: data =>
    let '(before, pchars) :=
      if Z.land printed 0xf =? 0 then
        let '(ended, pchars) :=
          if negb (printed =? 0) then ("    " ++ stream_str pchars ++ LF, set_str [" "%char])%string
          else (EmptyString, pchars) in
        ((ended ++ spaces indent ++ pad 8 (to_hex printed) ++ ":    ")%string, pchars)
      else if Z.land printed 1 =? 0 then (" "%string, pchars)
      else (EmptyString, pchars) in
    let shown := if is_print (b2z c) then ascii_of_byte c else "."%char in
    (before ++ pad 2 (to_hex (b2z c)) ++ hexdump_loop data indent (printed + 1) (put_char shown pchars))%string
  end.
Definition hexdump (data : bytes) (indent : Z) : string :=
  hexdump_loop data indent 0 (set_str [" "%char]).

(** Everything printed of a packet. *)
Definition print_report (r : report) : string :=
  match r with
  | Dumped src dst recognized payload =>
    ((match recognized with
      | None => "(did not recognize TCP header) src: " ++ src ++ " dst: " ++ dst ++ LF
      | Some (res, seg) => segment_line src dst res seg (zlen payload)
      end) ++ hexdump payload 8)%string
  | _ => EmptyString
  end.

(** ** Packets are read in bounds *)

Lemma byte_at_ok data n : 0 <= n < zlen data -> exists c, byte_at data n = Ok (b2z c).
Proof.
  intros Hn. unfold byte_at. destruct (zget_is_Some data n Hn) as [c ->]. by eauto.
Qed.

Lemma bytes_at_ok data n k : 0 <= n -> n + k <= zlen data -> bytes_at data n k = Ok (ztake k (zdrop n data)).
Proof. intros. unfold bytes_at. by rewrite (proj2 (Z.ltb_ge n 0)), (proj2 (Z.ltb_ge _ _)) by lia. Qed.

Lemma copy_view_ok data n k : 0 <= n -> 0 <= k <= 0x7fffffff -> n + k <= zlen data ->
  copy_view data n k = Ok (ztake k (zdrop n data)).
Proof.
  intros. unfold copy_view, PTRDIFF_MAX. rewrite (proj2 (Z.ltb_ge _ _)) by lia. by apply bytes_at_ok.
Qed.

Lemma inet4_addr_ok `{Ntop} data n : 0 <= n -> n + 4 <= zlen data -> exists s, inet4_addr data n = Ok s.
Proof. intros. unfold inet4_addr. rewrite bytes_at_ok by lia. cbn. by eauto. Qed.
Lemma inet6_addr_ok `{Ntop} data n : 0 <= n -> n + 16 <= zlen data -> exists s, inet6_addr data n = Ok s.
Proof. intros. unfold inet6_addr. rewrite bytes_at_ok by lia. cbn. by eauto. Qed.

(** The walk over the extension headers ends, in bounds. *)
Lemma skip_extensions_ends fuel data : forall nxt off,
  0 <= off -> off + 2 <= zlen data -> zlen data - off <= Z.of_nat fuel ->
  exists r, skip_extensions fuel (zlen data) data nxt off = Ok r /\
    forall off', r = Some off' -> off <= off' /\ off' + 2 <= zlen data.
Proof.
  induction fuel as [|fuel IH]; intros nxt off H0 Ho Hf; [lia|]. cbn [skip_extensions].
  destruct (nxt =? 0x11); [eexists; split; [done|]; by intros ? [= <-]|].
  destruct (_ && _); [by eexists|].
  destruct (byte_at_ok data off ltac:(lia)) as [c ->]. cbn [mbind outcome_bind].
  destruct (byte_at_ok data (off + 1) ltac:(lia)) as [n ->]. cbn [mbind outcome_bind].
  destruct (Z.ltb_spec (zlen data) (off + 8 * (1 + b2z n) + 2)); [by eexists|].
  pose proof (b2z_range n). destruct (IH (b2z c) (off + 8 * (1 + b2z n))) as (r & -> & Hr); [lia..|].
  exists r. split; [done|]. intros off' E. destruct (Hr off' E). lia.
Qed.

(** The first half of the first byte. *)
Definition version (data : bytes) : Z :=
  match zget data 0 with Some c => Z.shiftr (b2z c) 4 | None => 0 end.

Lemma version_land c : (Z.land (b2z c) 0xf0 =? 0x40) = (Z.shiftr (b2z c) 4 =? 4) /\
  (Z.land (b2z c) 0xf0 =? 0x60) = (Z.shiftr (b2z c) 4 =? 6) /\ 0 <= Z.land (b2z c) 0x0f < 16.
Proof. destruct c; by vm_compute. Qed.

Lemma process_ok `{Ntop} data :
  (version data = 4 -> 20 <= zlen data) ->
  exists r, process_ipv4_ipv6 (zlen data) data = Ok r /\
    forall off src dst, r = Some (off, src, dst) -> 0 <= off <= zlen data + 8.
Proof.
  intros Hv. unfold process_ipv4_ipv6. destruct (Z.ltb_spec (zlen data) 1); [by eexists|].
  destruct (zget_is_Some data 0 ltac:(lia)) as [c E0]. unfold version in Hv. rewrite E0 in Hv.
  assert (byte_at data 0 = Ok (b2z c)) as -> by by unfold byte_at; rewrite E0.
  cbn [mbind outcome_bind]. destruct (version_land c) as (-> & -> & Hn).
  destruct (Z.eqb_spec (Z.shiftr (b2z c) 4) 4) as [H4|H4].
  - specialize (Hv H4). destruct (Z.ltb_spec (zlen data) (Z.land (b2z c) 0x0f * 4)); [by eexists|].
    destruct (byte_at_ok data 9 ltac:(lia)) as [p ->]. cbn [mbind outcome_bind].
    destruct (negb _); [by eexists|].
    destruct (inet4_addr_ok data 12 ltac:(lia) ltac:(lia)) as [s ->]. cbn [mbind outcome_bind].
    destruct (inet4_addr_ok data 16 ltac:(lia) ltac:(lia)) as [d ->]. cbn [mbind outcome_bind].
    eexists. split; [done|]. intros ??? [= <- _ _]. lia.
  - destruct (_ =? 6); [|by eexists]. destruct (Z.ltb_spec (zlen data) 42); [by eexists|].
    destruct (byte_at_ok data 6 ltac:(lia)) as [nxt ->]. cbn [mbind outcome_bind].
    destruct (skip_extensions_ends (length data) data (b2z nxt) 40) as (r & -> & Hr); [lia..|].
    cbn [mbind outcome_bind]. destruct r as [off|]; [|by eexists]. destruct (Hr off eq_refl).
    destruct (inet6_addr_ok data 8 ltac:(lia) ltac:(lia)) as [s ->]. cbn [mbind outcome_bind].
    destruct (inet6_addr_ok data 24 ltac:(lia) ltac:(lia)) as [d ->]. cbn [mbind outcome_bind].
    eexists. split; [done|]. intros ??? [= <- _ _]. lia.
Qed.

Lemma parse_total b dlc this : Buffer.wf b -> exists res seg, TCPSegment.parse b dlc this = Ok (res, seg).
Proof.
  intros Hw. destruct (decide (InternetChecksum.value (InternetChecksum.add (str b) (InternetChecksum.new dlc)) = 0)) as [Hc|Hc].
  - destruct (decide (LENGTH <= zlen (str b) /\ 4 * doff (decode (str b)) <= zlen (str b))) as [[H1 H2]|Hn].
    + destruct (parse_accepted dlc b this Hw Hc H1 H2) as (seg & -> & _). by eauto.
    + destruct (parse_rejected dlc b this Hw Hc) as (seg & ->); [lia|by eauto].
  - unfold TCPSegment.parse. rewrite (proj2 (Z.eqb_neq _ _) Hc). by eauto.
Qed.

(** ** Dumps *)

Lemma append_cancel (a x y : string) : (a ++ x)%string = (a ++ y)%string -> x = y.
Proof. induction a as [|c a IH]; cbn; [done|]. intros [= E]. by apply IH. Qed.
Lemma append_length (a b : string) : String.length (a ++ b) = (String.length a + String.length b)%nat.
Proof. induction a as [|c a IH]; cbn; [done|]. by rewrite IH. Qed.
Lemma repeat_char_length n c : String.length (repeat_char n c) = n.
Proof. induction n as [|n IH]; cbn; [done|]. by rewrite IH. Qed.
Lemma spaces_length n : String.length (spaces n) = Z.to_nat n.
Proof. apply repeat_char_length. Qed.
Lemma pad_length w t : (w <= String.length (pad w t))%nat.
Proof. unfold pad. rewrite append_length, repeat_char_length. lia. Qed.

Definition unhex (c : ascii) : Z :=
  let n := Z.of_nat (nat_of_ascii c) in if n <? 58 then n - 48 else n - 87.

(** The two digits of a byte say which it is. *)
Lemma hex2 c : exists h l, pad 2 (to_hex (b2z c)) = String h (String l EmptyString) /\
  h <> " "%char /\ 16 * unhex h + unhex l = b2z c.
Proof. destruct c; (eexists _, _; split; [vm_compute; reflexivity|by vm_compute]). Qed.

Lemma spaces_add n : 1 <= n -> spaces n = String " " (spaces (n - 1)).
Proof. intros. unfold spaces. by replace (Z.to_nat n) with (S (Z.to_nat (n - 1))) by lia. Qed.

(** The end of a dump is not the start of another byte. *)
Lemma hexdump_loop_end c data indent printed st :
  (printed = 0 -> st = set_str [" "%char]) ->
  hexdump_loop [] indent printed st <> hexdump_loop (c :: data) indent printed st.
Proof.
  intros H0. destruct (hex2 c) as (h & l & Hh & Hsp & _). cbn [hexdump_loop].
  destruct (Z.eqb_spec (Z.land printed 0xf) 0) as [E|E].
  - rewrite E. change (2 * Z.rem (16 - 0) 16 + Z.rem (16 - 0) 16 / 2 + 4) with 4.
    intros EE%(f_equal String.length). revert EE. destruct (Z.eqb_spec printed 0) as [->|Hne]; cbn [negb].
    + rewrite (H0 eq_refl), !append_length, !spaces_length.
      change (String.length LF) with 1%nat. change (String.length (stream_str _)) with 1%nat.
      pose proof (pad_length 8 (to_hex 0)). lia.
    + rewrite !append_length, !spaces_length. change (String.length LF) with 1%nat.
      change (String.length "    ") with 4%nat. pose proof (pad_length 8 (to_hex printed)). lia.
  - assert (Hr : 0 <= Z.rem (16 - Z.land printed 15) 16).
    { apply Z.rem_nonneg; [done|]. assert (Z.land printed 15 = printed mod 16) as -> by (by apply (Z.land_ones printed 4)).
      pose proof (Z.mod_pos_bound printed 16). lia. }
    pose proof (Z.div_pos (Z.rem (16 - Z.land printed 15) 16) 2 Hr).
    set (k := 2 * _ + _ / 2 + 4). assert (Hk : 4 <= k) by (unfold k; lia).
    rewrite (spaces_add k), (spaces_add (k - 1)) by lia. rewrite Hh.
    destruct (_ =? 0); cbn; intros [=]; congruence.
Qed.

Lemma hexdump_loop_injective indent data : forall data' printed st,
  0 <= printed -> (printed = 0 -> st = set_str [" "%char]) ->
  hexdump_loop data indent printed st = hexdump_loop data' indent printed st -> data = data'.
Proof.
  induction data as [|c data IH]; intros [|c' data'] printed st Hp H0 E; [done|..].
  - by apply hexdump_loop_end in E.
  - symmetry in E. by apply hexdump_loop_end in E.
  - destruct (hex2 c) as (h & l & Hh & _ & Hv), (hex2 c') as (h' & l' & Hh' & _ & Hv').
    cbn [hexdump_loop] in E. destruct (if _ =? 0 then _ else _) as [before st1].
    apply append_cancel in E. rewrite Hh, Hh' in E. cbn in E. injection E as <- <- E.
    assert (c = c') as <- by (apply b2z_inj; congruence).
    f_equal. eapply (IH _ (printed + 1)); [lia|intros; exfalso; lia|exact E].
Qed.

(** ** Properties *)

(** A dump shows every byte: two sequences of bytes that print alike are the same. *)
Theorem hexdump_injective indent data data' : hexdump data indent = hexdump data' indent -> data = data'.
Proof. intros E. by eapply hexdump_loop_injective; [..|exact E]. Qed.

(** C39. Captured packets: an IPv6 packet, or an IPv4 packet of at least 20 bytes, of any other
    content is walked in bounds and to the end of its extension headers; the packet is then dismissed, or
    its UDP payload, from the offset found to the end, is parsed and dumped; unless the UDP header is cut
    short: then the length of the payload wraps around, and the copy of the payload throws an exception ([main]
    catches none, so that the capture ends). *)
Theorem packets_are_handled `{Ntop} pkt :
  zlen pkt < 0x10000 -> (version pkt = 4 -> 20 <= zlen pkt) ->
  (process_ipv4_ipv6 (zlen pkt) pkt = Ok None /\ handle_packet DLT_RAW pkt = Ok Malformed) \/
  exists off src dst, process_ipv4_ipv6 (zlen pkt) pkt = Ok (Some (off, src, dst)) /\
    0 <= off <= zlen pkt + 8 /\
    if off <=? zlen pkt
    then exists recognized, handle_packet DLT_RAW pkt = Ok (Dumped src dst recognized (zdrop off pkt))
    else handle_packet DLT_RAW pkt = Fault LengthError.
Proof.
  intros Hl Hv. destruct (process_ok pkt Hv) as (r & E & Hr).
  assert (Hh : handle_packet DLT_RAW pkt = match r with None => Ok Malformed | Some (off, src, dst) =>
    payload ← copy_view pkt off (u64 (zlen pkt - off));
    '(res, seg) ← TCPSegment.parse (of_string payload) 0 TCPSegment.default;
    Ok (Dumped src dst (if index BadChecksum <? index res then None else Some (res, seg)) payload) end).
  { unfold handle_packet. cbn [link_offset DLT_RAW DLT_NULL DLT_EN10MB DLT_LINUX_SLL DLT_LINUX_SLL2 Z.eqb
      Pos.eqb negb mbind outcome_bind]. rewrite zdrop_0, Z.sub_0_r, E. cbn [mbind outcome_bind].
    by destruct r as [[[off src] dst]|]. }
  rewrite Hh. destruct r as [[[off src] dst]|]; [right|by left].
  destruct (Hr off src dst eq_refl) as [H0 H1]. exists off, src, dst. split; [done|]. split; [done|].
  destruct (Z.leb_spec off (zlen pkt)) as [Hle|Hgt].
  - rewrite u64_id, copy_view_ok by lia. cbn [mbind outcome_bind]. rewrite ztake_ge by (rewrite zlen_zdrop; lia).
    destruct (parse_total (of_string (zdrop off pkt)) 0 TCPSegment.default) as (res & seg & ->).
    { apply Buffer.buffer_of_string_wf. rewrite zlen_zdrop by lia. lia. }
    cbn [mbind outcome_bind]. by eauto.
  - unfold copy_view, PTRDIFF_MAX. rewrite (proj2 (Z.ltb_lt _ _)); [done|ulia].
Qed.

(** C40. What the UDP adapter sends is recognized: capture, behind any accepted link header, the datagram that
    [TCPOverUDPSocketAdapter] sends for a segment, in an IPv4 packet without options: the dump names the
    packet's addresses and shows the segment itself, with the adapter's ports and a correct checksum. *)
Theorem adapter_traffic_is_dumped `{ResolverLaws} `{Ntop} a i n j m seg dl l ip udp :
  between i n j m (config a) -> sendable seg ->
  (forall rest, link_offset dl (l ++ rest) = Ok (Header (zlen l))) -> zlen l < 0x10000 ->
  zlen ip = 20 -> zget ip 0 = Some x45 -> zget ip 9 = Some x11 -> zlen udp = 8 ->
  exists wire seg', udp_write seg a = Ok (inet j m, wire) /\ arrives n m seg seg' /\
    handle_packet dl (l ++ ip ++ udp ++ wire) =
      Ok (Dumped (from_option id "unknown"%string (inet_ntop AF_INET (ztake 4 (zdrop 12 ip))))
                 (from_option id "unknown"%string (inet_ntop AF_INET (ztake 4 (zdrop 16 ip))))
                 (Some (NoError, seg')) wire).
Proof.
  intros Ha Hs Hlink Hll Hip Hb0 Hb9 Hudp. pose proof Ha as (_ & Eda & _).
  pose proof Hs as (Hw & Hd & Hlen). pose proof (wf_doff _ Hw) as Hdr.
  destruct (segment_serialize_parse 0 (with_ports n m seg) TCPSegment.default)
    as (bl & Hbl & Hlb & HP); [lia|by apply sendable_ports; destruct Ha as (_ & _ & _ & ? & _ & ?)|exact Hd| |].
  { cbn [doff _header _payload with_ports upd eta eta_TCPSegment eta_TCPHeader]. lia. }
  cbn [doff _header _payload with_ports upd eta eta_TCPSegment eta_TCPHeader] in Hlb.
  set (wire := BufferList.concatenate bl) in *.
  destruct (HP (of_string wire)) as (seg' & Hp & Hh & Hpay); [apply buffer_of_string_wf; lia|done|].
  exists wire, seg'. split; [|split; [split; [by rewrite Hh|exact Hpay]|]].
  { unfold udp_write. rewrite (set_ports_eq _ i n j m), Eda by done. cbn [mbind outcome_bind].
    by rewrite Hbl. }
  set (data := ip ++ udp ++ wire).
  assert (Hd20 : zlen data = 28 + zlen wire) by (unfold data; rewrite !zlen_app; lia).
  assert (Hpk : zlen (l ++ data) - zlen l = zlen data) by (rewrite zlen_app; lia).
  assert (Hfirst : forall k, 0 <= k < 20 -> zget data k = zget ip k).
  { intros k Hk. unfold data. by rewrite zget_app, decide_True by lia. }
  assert (Hsl : forall k, 0 <= k <= 16 -> bytes_at data k 4 = Ok (ztake 4 (zdrop k ip))).
  { intros k Hk. rewrite bytes_at_ok by lia. f_equal. unfold data.
    rewrite zdrop_app_le, ztake_app_le by (rewrite ?zlen_zdrop; lia). done. }
  unfold handle_packet. rewrite Hlink. cbn [mbind outcome_bind]. rewrite Hpk, zdrop_app_len.
  unfold process_ipv4_ipv6. rewrite (proj2 (Z.ltb_ge _ 1)) by lia.
  unfold inet4_addr, byte_at. rewrite !Hfirst, Hb0, Hb9, !Hsl by lia. cbn [mbind outcome_bind].
  change (Z.land (b2z x45) 0xf0 =? 0x40) with true. change (Z.land (b2z x45) 0x0f * 4) with 20.
  change (b2z x11 =? 0x11) with true. cbn [negb]. rewrite (proj2 (Z.ltb_ge _ 20)) by lia.
  cbn [mbind outcome_bind]. rewrite zlen_app, u64_id, copy_view_ok by (rewrite ?zlen_app; lia).
  cbn [mbind outcome_bind].
  assert (E : ztake (zlen l + zlen data - (zlen l + (20 + 8))) (zdrop (zlen l + (20 + 8)) (l ++ data)) = wire).
  { rewrite <- zdrop_zdrop, zdrop_app_len by lia. unfold data. rewrite app_assoc.
    replace (20 + 8) with (zlen (ip ++ udp)) by (rewrite zlen_app; lia). rewrite zdrop_app_len.
    apply ztake_ge. rewrite !zlen_app. lia. }
  rewrite E, Hp. done.
Qed.

#[local] Instance demo_ntop : Ntop := fun _ _ => Some "1.2.3.4"%string.

(** A UDP packet whose header is cut short. *)
Definition demo_short : bytes := [x45] ++ replicate 8 x00 ++ [x11] ++ replicate 10 x00.

Lemma packets_are_handled_witness :
  process_ipv4_ipv6 (zlen demo_short) demo_short = Ok (Some (28, "1.2.3.4", "1.2.3.4")%string) /\
  handle_packet DLT_RAW demo_short = Fault LengthError.
Proof.
  split; [by vm_compute|].
  destruct (packets_are_handled demo_short ltac:(done) ltac:(by vm_compute)) as [[E _]|(off & s & d & E & _ & Hf)].
  - by vm_compute in E.
  - assert (off = 28) as ->; [|exact Hf]. vm_compute in E. congruence.
Defined.

Definition demo_ip : bytes := [x45] ++ replicate 8 x00 ++ [x11] ++ replicate 2 x00 ++ [x0a; x00; x00; x01; x0a; x00; x00; x02].

Lemma adapter_traffic_is_dumped_witness : exists wire seg',
  udp_write demo_seg demo_a = Ok (inet 0x0a000002 90, wire) /\
  handle_packet DLT_RAW ([] ++ demo_ip ++ replicate 8 x00 ++ wire) =
    Ok (Dumped "1.2.3.4" "1.2.3.4" (Some (NoError, seg')) wire).
Proof.
  destruct (adapter_traffic_is_dumped demo_a 0x0a000001 80 0x0a000002 90 demo_seg DLT_RAW [] demo_ip (replicate 8 x00))
    as (wire & seg' & E1 & _ & E2); [apply demo_between|apply demo_sendable|done..|].
  by exists wire, seg'.
Defined.

Example hexdump_abc : hexdump [x61; x62; x63] 2 =
  ("  00000000:    6162 63" ++ spaces 36 ++ "abc" ++ LF ++ LF)%string.
Proof. by vm_compute. Qed.

Lemma hexdump_injective_witness :
  hexdump [x61] 8 = hexdump [z2b 0x61] 8 /\ [x61] = [z2b 0x61].
Proof.
  assert (E : hexdump [x61] 8 = hexdump [z2b 0x61] 8) by by vm_compute.
  split; [exact E|]. by apply (hexdump_injective 8).
Defined.
