(* ===== verification/Kernel.v ===== *)
(** * Kernel: the system calls (util/util.cc)

    The operating system is outside the program: a class of functions that answer each
    call from the history of the calls made so far and their answers.  [SystemCall] is the program's
    check of an answer. *)

From S2P Require Import Prelude.

(** A call's answer: its result, or [errno]. *)
Inductive sys (A : Type) : Type :=
| Sys (a : A)
| Errno (e : Z).
Arguments Sys {A} a.
Arguments Errno {A} e.

(** The calls that return only a number; a [sockaddr] is its bytes.  Linux moves at most
    0x7ffff000 bytes in a call, so that the program's conversion of counts to [int] keeps them. *)
Inductive syscall : Type :=
| SysSocket (domain type protocol : Z)
| SysBind (fd : Z) (addr : bytes)
| SysConnect (fd : Z) (addr : bytes)
| SysListen (fd backlog : Z)
| SysAccept (fd : Z)
| SysSetsockopt (fd level option value : Z)
| SysShutdown (fd how : Z)
| SysOpen (path : bytes) (flags : Z)
| SysTunSetIff (fd : Z) (ifr_name : bytes) (ifr_flags : Z)
| SysGetFlags (fd : Z)
| SysSetFlags (fd flags : Z)
| SysClose (fd : Z).

(** [getsockname] or [getpeername]. *)
Inductive which_name : Set := SockName | PeerName.

(** A datagram and the address it came from. *)
Record datagram := mk_datagram { from : bytes; contents : bytes }.

(** A call and its answer. *)
Inductive io : Type :=
| Call (c : syscall) (r : sys Z)
| Read (fd n : Z) (r : sys bytes)
| Wrote (fd : Z) (iov : list (bytes * Z)) (r : sys Z)
| Recvfrom (fd n : Z) (r : sys datagram)
| Sendmsg (fd : Z) (dest : option bytes) (iov : list (bytes * Z)) (r : sys Z)
| GetOption (fd level option : Z) (r : sys (Z * Z))
| GetName (w : which_name) (fd : Z) (r : sys (bytes * Z))
| SocketPair (domain type : Z) (r : sys (Z * Z)).

Abbreviation history := (list io).

Class Kernel := {
  k_call : syscall -> history -> sys Z;
  k_read : Z -> Z -> history -> sys bytes;
  k_writev : Z -> list (bytes * Z) -> history -> sys Z;
  k_recvfrom : Z -> Z -> history -> sys datagram;
  k_sendmsg : Z -> option bytes -> list (bytes * Z) -> history -> sys Z;
  k_getsockopt : Z -> Z -> Z -> history -> sys (Z * Z);
  k_getname : which_name -> Z -> history -> sys (bytes * Z);
  k_socketpair : Z -> Z -> history -> sys (Z * Z) }.

(** [SystemCall(attempt, return_value, errno_mask)]; [errno] is that of the last call. *)
Definition SystemCall (return_value errno errno_mask : Z) : outcome Z :=
  if (0 <=? return_value) || (errno =? errno_mask) then Ok return_value
  else Fault RuntimeError.

(** The same for a call that answers [r]; a call that fails returns -1 and sets [errno],
    which is never the mask 0. *)
Definition system_call {A} (r : sys A) : outcome A :=
  match r with
  | Sys a => Ok a
  | Errno e => _ ← SystemCall (-1) e 0; Fault RuntimeError
  end.

(** Numbers are checked whatever the kernel says. *)
Definition int_call (r : sys Z) : outcome Z :=
  n ← system_call r; if n <? 0 then Fault RuntimeError else Ok n.

Definition sys_call `{Kernel} (c : syscall) (h : history) : outcome (Z * history) :=
  let r := k_call c h in
  n ← int_call r; Ok (n, h ++ [Call c r]).

Lemma system_call_Ok {A} (r : sys A) a : system_call r = Ok a <-> r = Sys a.
Proof.
  destruct r as [b|e]; cbn.
  - split; [by intros [= ->]|by intros [= ->]].
  - unfold SystemCall. cbn. by destruct (e =? 0).
Qed.

Lemma system_call_throws {A} (e : Z) : @system_call A (Errno e) = Fault RuntimeError.
Proof. cbn. unfold SystemCall. cbn. by destruct (e =? 0). Qed.

Lemma int_call_Ok r n : int_call r = Ok n <-> r = Sys n /\ 0 <= n.
Proof.
  unfold int_call. destruct r as [m|e]; [|rewrite system_call_throws; by split; [|intros [? _]]].
  cbn [system_call mbind outcome_bind]. destruct (Z.ltb_spec m 0).
  - split; [done|]. intros [[= ->] ?]. lia.
  - split; [by intros [= ->]|by intros [[= ->] _]].
Qed.

Lemma int_call_Sys n : 0 <= n -> int_call (Sys n) = Ok n.
Proof. intros. by apply int_call_Ok. Qed.

(** ** What went through a descriptor *)

Definition iov_bytes (iov : list (bytes * Z)) : bytes := concat (fst <$> iov).

Definition io_read (fd : Z) (e : io) : bytes :=
  match e with Read fd' _ (Sys data) => if fd =? fd' then data else [] | _ => [] end.
Definition io_written (fd : Z) (e : io) : bytes :=
  match e with
  | Wrote fd' iov (Sys n) => if fd =? fd' then ztake n (iov_bytes iov) else []
  | _ => [] end.

(** All bytes read from, and all bytes taken by, descriptor [fd]. *)
Definition read_from (fd : Z) (h : history) : bytes := concat (io_read fd <$> h).
Definition written_to (fd : Z) (h : history) : bytes := concat (io_written fd <$> h).

Lemma read_from_app fd h h' : read_from fd (h ++ h') = read_from fd h ++ read_from fd h'.
Proof. unfold read_from. by rewrite fmap_app, concat_app. Qed.
Lemma written_to_app fd h h' : written_to fd (h ++ h') = written_to fd h ++ written_to fd h'.
Proof. unfold written_to. by rewrite fmap_app, concat_app. Qed.

(** The calls [h'] adds to [h] are not reads or writes. *)
Definition no_transfer (h h' : history) : Prop :=
  forall fd, read_from fd h' = read_from fd h /\ written_to fd h' = written_to fd h.

Lemma no_transfer_snoc h e :
  (forall fd, io_read fd e = [] /\ io_written fd e = []) -> no_transfer h (h ++ [e]).
Proof.
  intros He fd. destruct (He fd) as [H1 H2]. rewrite read_from_app, written_to_app.
  unfold read_from, written_to. cbn. by rewrite H1, H2, !app_nil_r.
Qed.

#[export] Instance no_transfer_preorder : PreOrder no_transfer.
Proof.
  split; [by intros h fd|]. intros h1 h2 h3 H1 H2 fd.
  destruct (H1 fd) as [<- <-], (H2 fd) as [<- <-]. done.
Qed.

Lemma sys_call_no_transfer `{Kernel} c h n h' : sys_call c h = Ok (n, h') -> no_transfer h h'.
Proof.
  unfold sys_call. intros (m & _ & E)%bind_Ok. apply Ok_inj in E. injection E as <- <-.
  by apply no_transfer_snoc.
Qed.

(** For kernels that give all their data at once. *)
Definition has_read (fd : Z) (h : history) : bool :=
  existsb (fun e => match e with Read fd' _ _ => fd =? fd' | _ => false end) h.
