(* ===== verification/FileDescriptor.v ===== *)
(** * FileDescriptor (util/file_descriptor.hh, util/file_descriptor.cc, util/util.cc)

    The bookkeeping around the system calls on one descriptor: end of file, closing, and the
    counts of reads and writes [EventLoop] watches.  What the kernel answers is an
    argument of each operation.  A [FileDescriptor] shares its [FDWrapper] with its
    duplicates; the owner of the descriptors keeps each wrapper once. *)

From S2P Require Import Prelude Buffer Kernel.

(** ** FDWrapper *)

Record FDWrapper := mkFDWrapper {
  _fd : Z;
  _eof : bool;
  _closed : bool;
  _read_count : Z;
  _write_count : Z }.

#[export] Instance eta_FDWrapper : Eta FDWrapper := fun f =>
  mkFDWrapper (_fd f) (_eof f) (_closed f) (_read_count f) (_write_count f).

Definition new (fd : Z) : outcome FDWrapper :=
  if fd <? 0 then Fault RuntimeError else Ok (mkFDWrapper fd false false 0 0).

Section kernel.
Context `{Kernel}.

Definition close (f : FDWrapper) (h : history) : outcome (FDWrapper * history) :=
  '(_, h) ← sys_call (SysClose (_fd f)) h;
  Ok (f <| _eof := true |> <| _closed := true |>, h).

(** The destructor of the last handle: an exception is only reported. *)
Definition destroy (f : FDWrapper) (h : history) : FDWrapper * history :=
  if _closed f then (f, h)
  else match close f h with
       | Ok fh => fh
       | Fault _ => (f, h ++ [Call (SysClose (_fd f)) (k_call (SysClose (_fd f)) h)])
       end.
End kernel.

Definition register_read (f : FDWrapper) : FDWrapper :=
  f <| _read_count := u32 (_read_count f + 1) |>.
Definition register_write (f : FDWrapper) : FDWrapper :=
  f <| _write_count := u32 (_write_count f + 1) |>.

Definition fd_num (f : FDWrapper) : Z := _fd f.
Definition eof (f : FDWrapper) : bool := _eof f.
Definition closed (f : FDWrapper) : bool := _closed f.
Definition read_count (f : FDWrapper) : Z := _read_count f.
Definition write_count (f : FDWrapper) : Z := _write_count f.

Definition BUFFER_SIZE : Z := 1024 * 1024.

Section operations.
Context `{Kernel}.

Definition read (limit : Z) (f : FDWrapper) (h : history) : outcome (bytes * FDWrapper * history) :=
  let size_to_read := Z.min BUFFER_SIZE limit in
  let r := k_read (fd_num f) size_to_read h in
  let h := h ++ [Read (fd_num f) size_to_read r] in
  data ← system_call r;
  let f := if (0 <? limit) && (zlen data =? 0) then f <| _eof := true |> else f in
  if size_to_read <? zlen data then Fault RuntimeError
  else Ok (data, register_read f, h).

(** One round of the loop of [write]. *)
Definition write_round (buffer : BufferViewList) (total : Z) (f : FDWrapper) (h : history)
  : outcome (BufferViewList * Z * FDWrapper * history) :=
  let iovecs := BufferViewList.as_iovecs buffer in
  let r := k_writev (fd_num f) iovecs h in
  n ← int_call r;
  if (n =? 0) && negb (BufferViewList.size buffer =? 0) then Fault RuntimeError
  else if BufferViewList.size buffer <? n then Fault RuntimeError
  else
    let f := register_write f in
    buffer ← BufferViewList.remove_prefix n buffer;
    Ok (buffer, u64 (total + n), f, h ++ [Wrote (fd_num f) iovecs r]).

(** The loop: every round but the last takes a byte at least, so that a round for each
    byte and one more are enough ([write_loop_ends]). *)
Fixpoint write_loop (fuel : nat) (write_all : bool) (buffer : BufferViewList) (total : Z)
    (f : FDWrapper) (h : history) : outcome (Z * FDWrapper * history) :=
  match fuel with
  | O => Fault OutOfFuel
  | S fuel' =>
    '(buffer, total, f, h) ← write_round buffer total f h;
    if write_all && negb (BufferViewList.size buffer =? 0)
    then write_loop fuel' write_all buffer total f h
    else Ok (total, f, h)
  end.

Definition write_fuel (buffer : BufferViewList) : nat := Z.to_nat (BufferViewList.size buffer) + 1.

Definition write (buffer : BufferViewList) (write_all : bool) (f : FDWrapper) (h : history)
  : outcome (Z * FDWrapper * history) :=
  write_loop (write_fuel buffer) write_all buffer 0 f h.

(** [write(str, write_all)]. *)
Definition write_string (s : bytes) (write_all : bool) (f : FDWrapper) (h : history)
  : outcome (Z * FDWrapper * history) :=
  write (BufferViewList.of_string s) write_all f h.

(** [set_blocking]: the flag O_NONBLOCK of the open file. *)
Definition O_NONBLOCK : Z := 0x800.
Definition set_blocking (blocking_state : bool) (f : FDWrapper) (h : history) : outcome history :=
  '(flags, h) ← sys_call (SysGetFlags (fd_num f)) h;
  let flags := if blocking_state then Z.lxor flags (Z.land flags O_NONBLOCK)
               else Z.lor flags O_NONBLOCK in
  '(_, h) ← sys_call (SysSetFlags (fd_num f) flags) h;
  Ok h.
End operations.

(** ** Lemmas *)

Lemma view_size vl :
  zlen (concat (_views vl)) < 0x10000000000000000 ->
  BufferViewList.size vl = zlen (concat (_views vl)).
Proof.
  intros H. unfold BufferViewList.size.
  pose proof (foldl_size (fun v => v) (_views vl) 0 ltac:(lia)) as E. rewrite list_fmap_id in E.
  rewrite E by lia. lia.
Qed.

Lemma iov_bytes_views vl : iov_bytes (BufferViewList.as_iovecs vl) = concat (_views vl).
Proof.
  unfold iov_bytes, BufferViewList.as_iovecs. rewrite <- list_fmap_compose.
  by rewrite <- (list_fmap_id (_views vl)) at 2.
Qed.

(** A kernel takes [n] of the bytes [s]: some, if there are any. *)
Definition takes (s : bytes) (n : Z) : Prop := 0 <= n <= zlen s /\ (n = 0 -> s = []).

(** What a write leaves as it was. *)
Definition only_writes (f f' : FDWrapper) : Prop :=
  _fd f' = _fd f /\ _eof f' = _eof f /\ _closed f' = _closed f /\ _read_count f' = _read_count f.

#[export] Instance only_writes_preorder : PreOrder only_writes.
Proof. split; [done|]. intros f g k (? & ? & ? & ?) (? & ? & ? & ?). split_and!; congruence. Qed.

Lemma only_writes_register f : only_writes f (register_write f).
Proof. done. Qed.

(** [h'] follows [h]: descriptor [fd] took [s], and nothing else went anywhere. *)
Definition transferred (fd : Z) (s : bytes) (h h' : history) : Prop :=
  written_to fd h' = written_to fd h ++ s /\
  (forall fd', fd' <> fd -> written_to fd' h' = written_to fd' h) /\
  (forall fd', read_from fd' h' = read_from fd' h).

Lemma transferred_trans fd s1 s2 h1 h2 h3 :
  transferred fd s1 h1 h2 -> transferred fd s2 h2 h3 -> transferred fd (s1 ++ s2) h1 h3.
Proof.
  intros (W1 & O1 & R1) (W2 & O2 & R2). split_and!.
  - by rewrite W2, W1, app_assoc.
  - intros fd' Hf. by rewrite O2, O1.
  - intros fd'. by rewrite R2, R1.
Qed.

Lemma no_transfer_transferred fd s h1 h2 h3 h4 :
  no_transfer h1 h2 -> transferred fd s h2 h3 -> no_transfer h3 h4 -> transferred fd s h1 h4.
Proof.
  intros N1 (W & O & R) N2. split_and!; intros.
  - by rewrite (proj2 (N2 fd)), W, (proj2 (N1 fd)).
  - by rewrite (proj2 (N2 fd')), O, (proj2 (N1 fd')).
  - by rewrite (proj1 (N2 fd')), R, (proj1 (N1 fd')).
Qed.

Lemma transferred_write fd iov n h :
  transferred fd (ztake n (iov_bytes iov)) h (h ++ [Wrote fd iov (Sys n)]).
Proof.
  split_and!; intros; unfold written_to, read_from; rewrite ?fmap_app, ?concat_app; cbn;
    rewrite ?Z.eqb_refl, ?app_nil_r; [done| |done].
  by rewrite (proj2 (Z.eqb_neq _ _)), app_nil_r.
Qed.

(** [h'] follows [h]: descriptor [fd] gave [s], and nothing else went anywhere. *)
Definition received (fd : Z) (s : bytes) (h h' : history) : Prop :=
  read_from fd h' = read_from fd h ++ s /\
  (forall fd', fd' <> fd -> read_from fd' h' = read_from fd' h) /\
  (forall fd', written_to fd' h' = written_to fd' h).

Lemma received_nil fd h : received fd [] h h.
Proof. split_and!; [by rewrite app_nil_r|done|done]. Qed.

Lemma received_trans fd s1 s2 h1 h2 h3 :
  received fd s1 h1 h2 -> received fd s2 h2 h3 -> received fd (s1 ++ s2) h1 h3.
Proof.
  intros (R1 & O1 & W1) (R2 & O2 & W2). split_and!.
  - by rewrite R2, R1, app_assoc.
  - intros fd' Hf. by rewrite O2, O1.
  - intros fd'. by rewrite W2, W1.
Qed.

Lemma received_read fd n data h : received fd data h (h ++ [Read fd n (Sys data)]).
Proof.
  split_and!; intros; unfold written_to, read_from; rewrite ?fmap_app, ?concat_app; cbn;
    rewrite ?Z.eqb_refl, ?app_nil_r; [done| |done].
  by rewrite (proj2 (Z.eqb_neq _ _)), app_nil_r.
Qed.

Lemma read_inv `{Kernel} limit f h data f' h' :
  read limit f h = Ok (data, f', h') ->
  zlen data <= Z.min BUFFER_SIZE limit /\ received (fd_num f) data h h' /\
  fd_num f' = fd_num f /\ closed f' = closed f /\
  eof f' = eof f || (0 <? limit) && (zlen data =? 0).
Proof.
  unfold read. intros (d & ->%system_call_Ok & E)%bind_Ok.
  destruct (Z.ltb_spec (Z.min BUFFER_SIZE limit) (zlen d)) as [|Hle]; [done|].
  apply Ok_inj in E. injection E as <- <- <-. split; [done|]. split; [apply received_read|].
  destruct (_ && _); [rewrite orb_true_r|rewrite orb_false_r]; done.
Qed.

Section lemmas.
Context `{Kernel}.

Lemma write_round_ok buffer total f h n :
  zlen (concat (_views buffer)) < 0x10000000000000000 ->
  0 <= total -> total + zlen (concat (_views buffer)) < 0x10000000000000000 ->
  k_writev (fd_num f) (BufferViewList.as_iovecs buffer) h = Sys n -> takes (concat (_views buffer)) n ->
  exists buffer' h', write_round buffer total f h = Ok (buffer', total + n, register_write f, h') /\
    concat (_views buffer') = zdrop n (concat (_views buffer)) /\
    transferred (fd_num f) (ztake n (concat (_views buffer))) h h'.
Proof.
  intros Hl Ht Htl Hk [Hn H0]. unfold write_round. rewrite Hk, int_call_Sys by lia.
  cbn [mbind outcome_bind]. rewrite view_size by done.
  assert ((n =? 0) && negb (zlen (concat (_views buffer)) =? 0) = false) as ->.
  { destruct (Z.eqb_spec n 0) as [E|]; [|done]. by rewrite (H0 E). }
  rewrite (proj2 (Z.ltb_ge _ _)) by lia.
  pose proof (view_remove_spec n (_views buffer) ltac:(lia) Hl) as HV.
  rewrite decide_True in HV by lia. destruct HV as (vs' & HV & Hc).
  unfold BufferViewList.remove_prefix. rewrite HV. cbn [fmap outcome_fmap mbind outcome_bind].
  eexists (mkBufferViewList vs'), _. rewrite u64_id by lia. split_and!; [done|done|].
  rewrite <- iov_bytes_views. apply transferred_write.
Qed.

(** The converse: what a round that returns has done. *)
Lemma write_round_inv buffer total f h buffer' total' f' h' :
  zlen (concat (_views buffer)) < 0x10000000000000000 ->
  write_round buffer total f h = Ok (buffer', total', f', h') ->
  exists n, takes (concat (_views buffer)) n /\ total' = u64 (total + n) /\ f' = register_write f /\
    concat (_views buffer') = zdrop n (concat (_views buffer)) /\
    transferred (fd_num f) (ztake n (concat (_views buffer))) h h'.
Proof.
  intros Hl E. unfold write_round in E. apply bind_Ok in E as (n & [Hk Hn]%int_call_Ok & E).
  rewrite view_size in E by done.
  destruct ((n =? 0) && _) eqn:E0; [done|]. destruct (Z.ltb_spec (zlen (concat (_views buffer))) n); [done|].
  apply bind_Ok in E as (b & HV & E). apply Ok_inj in E. injection E as <- <- <- <-.
  exists n. pose proof (view_remove_spec n (_views buffer) ltac:(lia) Hl) as HS.
  rewrite decide_True in HS by lia. destruct HS as (vs' & HS & Hc).
  unfold BufferViewList.remove_prefix in HV. rewrite HS in HV. apply Ok_inj in HV as <-.
  split_and!; [|done|done|done|].
  - split; [lia|]. intros ->. apply zlen_nil_inv. cbn in E0. apply negb_false_iff in E0. lia.
  - rewrite Hk, <- iov_bytes_views. apply transferred_write.
Qed.

Lemma write_loop_inv fuel : forall all views total f h n f' h',
  0 <= total -> total + zlen (concat views) < 0x10000000000000000 ->
  write_loop fuel all (mkBufferViewList views) total f h = Ok (n, f', h') ->
  exists m, n = total + m /\ takes (concat views) m /\ (all = true -> m = zlen (concat views)) /\
    transferred (fd_num f) (ztake m (concat views)) h h' /\ only_writes f f' /\
    (all = false -> f' = register_write f).
Proof.
  induction fuel as [|fuel IH]; intros all views total f h n f' h' Ht Hl E; [done|].
  cbn [write_loop] in E. apply bind_Ok in E as ([[[[views1] total1] f1] h1] & E1 & E).
  apply write_round_inv in E1 as (m & [Hm Hm0] & -> & -> & Hv & T); cbn [_views] in *; [|lia].
  assert (Hlen : zlen (concat views1) = zlen (concat views) - m) by (rewrite Hv, zlen_zdrop; lia).
  rewrite u64_id in E by lia. rewrite view_size in E by (cbn [_views]; lia). cbn [_views] in E.
  destruct (all && _) eqn:Ea.
  - apply andb_true_iff in Ea as [-> _].
    apply IH in E as (m' & -> & [Hm' Hm0'] & Hall & T' & O & _); [|lia|lia].
    rewrite (Hall eq_refl) in *. exists (zlen (concat views)).
    split_and!; [lia|split; [lia|by apply zlen_nil_inv]|done| |by etrans; [apply only_writes_register|]|done].
    rewrite (ztake_ge (zlen (concat views1))) in T' by lia. rewrite ztake_ge by lia.
    rewrite <- (ztake_zdrop m (concat views)), <- Hv. by eapply transferred_trans.
  - apply Ok_inj in E. injection E as <- <- <-. exists m. split_and!; try done.
    intros ->. cbn in Ea. apply negb_false_iff in Ea. lia.
Qed.

Lemma write_round_fuel buffer total f h :
  zlen (concat (_views buffer)) < 0x10000000000000000 ->
  write_round buffer total f h <> Fault OutOfFuel.
Proof.
  intros Hl. unfold write_round. destruct (k_writev _ _ _) as [k|e].
  2: { unfold int_call. by rewrite system_call_throws. }
  unfold int_call. cbn [system_call mbind outcome_bind].
  destruct (Z.ltb_spec k 0); [done|]. cbn [mbind outcome_bind]. rewrite view_size by done.
  destruct (_ && _); [done|]. destruct (Z.ltb_spec (zlen (concat (_views buffer))) k); [done|].
  pose proof (view_remove_spec k (_views buffer) ltac:(lia) Hl) as HV.
  rewrite decide_True in HV by lia. destruct HV as (vs' & HV & _).
  unfold BufferViewList.remove_prefix. by rewrite HV.
Qed.

(** The loop does not run out of fuel. *)
Lemma write_loop_ends fuel : forall all views total f h,
  zlen (concat views) < 0x10000000000000000 -> zlen (concat views) < Z.of_nat fuel ->
  write_loop fuel all (mkBufferViewList views) total f h <> Fault OutOfFuel.
Proof.
  induction fuel as [|fuel IH]; intros all views total f h Hl Hf; [lia|].
  cbn [write_loop]. destruct (write_round _ _ _ _) as [[[[[views1] total1] f1] h1]|e] eqn:E1.
  - apply write_round_inv in E1 as (m & [Hm Hm0] & -> & -> & Hv & _); cbn [_views] in *; [|lia].
    cbn [mbind outcome_bind].
    assert (Hlen : zlen (concat views1) = zlen (concat views) - m) by (rewrite Hv, zlen_zdrop; lia).
    rewrite view_size by (cbn [_views]; lia). cbn [_views].
    destruct (all && _) eqn:Ea; [|done]. apply andb_true_iff in Ea as [_ Ea].
    apply IH; [lia|]. destruct (Z.eq_dec m 0) as [->|]; [|lia].
    rewrite (Hm0 eq_refl) in Hlen. cbn in Hlen. by rewrite Hlen in Ea.
  - cbn [mbind outcome_bind]. intros [= ->]. by eapply write_round_fuel; [|exact E1].
Qed.
Lemma set_blocking_no_transfer b f h h' : set_blocking b f h = Ok h' -> no_transfer h h'.
Proof.
  unfold set_blocking. intros ([n h1] & E1%sys_call_no_transfer & E)%bind_Ok.
  apply bind_Ok in E as ([m h2] & E2%sys_call_no_transfer & E). apply Ok_inj in E as <-. by etrans.
Qed.

(** Other descriptors do not notice a write. *)
Lemma write_loop_frame fuel : forall all buffer total f h n f' h',
  write_loop fuel all buffer total f h = Ok (n, f', h') ->
  only_writes f f' /\
  forall fd, fd <> fd_num f -> read_from fd h' = read_from fd h /\ written_to fd h' = written_to fd h.
Proof.
  induction fuel as [|fuel IH]; intros all buffer total f h n f' h' E; [done|].
  cbn [write_loop] in E. apply bind_Ok in E as ([[[b1 t1] f1] h1] & E1 & E).
  assert (f1 = register_write f /\ exists iov r, h1 = h ++ [Wrote (fd_num f) iov r]) as (-> & iov & r & ->).
  { unfold write_round in E1. apply bind_Ok in E1 as (m & _ & E1).
    destruct (_ && _); [done|]. destruct (_ <? _); [done|]. apply bind_Ok in E1 as (b & _ & E1).
    apply Ok_inj in E1. injection E1 as _ _ <- <-. split; [done|]. by eauto. }
  assert (Hone : forall fd, fd <> fd_num f ->
    read_from fd (h ++ [Wrote (fd_num f) iov r]) = read_from fd h /\
    written_to fd (h ++ [Wrote (fd_num f) iov r]) = written_to fd h).
  { intros fd Hf. rewrite read_from_app, written_to_app. unfold read_from, written_to. cbn.
    rewrite (proj2 (Z.eqb_neq fd (fd_num f))) by done. destruct r; by rewrite !app_nil_r. }
  destruct (all && _).
  - apply IH in E as [O Hr]. split; [by etrans; [apply only_writes_register|]|].
    intros fd Hf. destruct (Hr fd Hf) as [-> ->]. by apply Hone.
  - apply Ok_inj in E. by injection E as _ <- <-.
Qed.

(** A write without [write_all] of at most what a [size_t] counts. *)
Lemma write_string_inv s f h n f' h' :
  zlen s < 0x10000000000000000 -> write_string s false f h = Ok (n, f', h') ->
  takes s n /\ transferred (fd_num f) (ztake n s) h h' /\ f' = register_write f.
Proof.
  intros Hl E. unfold write_string, write in E.
  assert (Hc : concat [s] = s) by apply app_nil_r.
  apply (write_loop_inv _ false [s]) in E as (m & -> & Hm & _ & T & _ & Hf);
    [|lia|by rewrite Hc; lia]. rewrite Hc in Hm, T.
  rewrite Z.add_0_l. split_and!; [done|done|by apply Hf].
Qed.
End lemmas.

(** ** Properties *)

(** A kernel that always takes some of what it is given, if there is anything. *)
Definition kernel_takes `{Kernel} (fd : Z) : Prop :=
  forall iov h, exists n, k_writev fd iov h = Sys n /\ takes (iov_bytes iov) n.

(** A kernel that allows every call and gives no more than is asked for. *)
Record obliging `{Kernel} : Prop := {
  ob_call c h : exists n, k_call c h = Sys n /\ 0 <= n;
  ob_read fd n h : 0 <= n -> exists data, k_read fd n h = Sys data /\ zlen data <= n;
  ob_write fd : kernel_takes fd }.

Section properties.
Context `{Kernel}.

Lemma write_loop_all fuel : forall all views total f h,
  kernel_takes (_fd f) -> 0 <= total -> total + zlen (concat views) < 0x10000000000000000 ->
  zlen (concat views) < Z.of_nat fuel ->
  exists n f' h', write_loop fuel all (mkBufferViewList views) total f h = Ok (n, f', h').
Proof.
  induction fuel as [|fuel IH]; intros all views total f h Hk Ht Hl Hf; [lia|].
  destruct (Hk (BufferViewList.as_iovecs (mkBufferViewList views)) h) as (n & En & Hn).
  rewrite iov_bytes_views in Hn. cbn [_views] in Hn.
  destruct (write_round_ok (mkBufferViewList views) total f h n) as ([views'] & h' & E & Hc & _);
    cbn [_views] in *; try done; try lia.
  cbn [write_loop]. rewrite E. cbn [mbind outcome_bind]. destruct Hn as [Hn H0].
  assert (Hlen : zlen (concat views') = zlen (concat views) - n) by (rewrite Hc, zlen_zdrop; lia).
  rewrite view_size by (cbn [_views]; lia). cbn [_views]. destruct (all && _) eqn:Ea; [|by eauto].
  apply andb_true_iff in Ea as [_ Ea]. apply IH; [exact Hk|lia|lia|].
  destruct (Z.eq_dec n 0) as [->|]; [|lia]. rewrite (H0 eq_refl) in Hlen. cbn in Hlen.
  by rewrite Hlen in Ea.
Qed.

Lemma sys_call_runs c h : obliging -> exists n h', sys_call c h = Ok (n, h').
Proof.
  intros O. destruct (ob_call O c h) as (n & E & Hn). unfold sys_call. rewrite E, int_call_Sys by done.
  cbn. by eauto.
Qed.

Lemma read_runs limit f h : obliging -> 0 <= limit ->
  exists data f' h', read limit f h = Ok (data, f', h') /\ read_count f' = u32 (read_count f + 1).
Proof.
  intros O Hl. unfold read.
  destruct (ob_read O (fd_num f) (Z.min BUFFER_SIZE limit) h) as (data & E & Hn); [unfold BUFFER_SIZE; lia|].
  rewrite E. cbn [system_call mbind outcome_bind]. rewrite (proj2 (Z.ltb_ge _ _)) by done.
  eexists _, _, _. split; [done|]. by destruct (_ && _).
Qed.

Lemma write_string_runs s all f h : obliging -> zlen s < 0x10000000000000000 ->
  exists n f' h', write_string s all f h = Ok (n, f', h').
Proof.
  intros O Hl. assert (Hc : concat [s] = s) by apply app_nil_r.
  unfold write_string, write, write_fuel. rewrite view_size by (cbn [_views BufferViewList.of_string]; by rewrite Hc).
  apply write_loop_all; [apply (ob_write O)|lia| |]; cbn [_views BufferViewList.of_string]; rewrite Hc; lia.
Qed.

Lemma write_string_all s f h : obliging -> zlen s < 0x10000000000000000 ->
  exists n f' h', write_string s true f h = Ok (n, f', h') /\
    transferred (fd_num f) s h h' /\ only_writes f f'.
Proof.
  intros O Hl. destruct (write_string_runs s true f h O Hl) as (n & f' & h' & E).
  exists n, f', h'. split; [exact E|]. assert (Hc : concat [s] = s) by apply app_nil_r.
  apply (write_loop_inv _ true [s]) in E as (m & _ & _ & Hm & T & W & _); [|lia|by rewrite Hc; lia].
  rewrite Hc, (Hm eq_refl), Hc, ztake_ge in T by lia. by split.
Qed.

Lemma set_blocking_runs b f h : obliging -> exists h', set_blocking b f h = Ok h'.
Proof.
  intros O. unfold set_blocking. destruct (sys_call_runs (SysGetFlags (fd_num f)) h O) as (n & h1 & ->).
  cbn [mbind outcome_bind].
  match goal with |- context [sys_call ?c h1] => destruct (sys_call_runs c h1 O) as (m & h2 & ->) end.
  cbn. by eauto.
Qed.

(** C30. [write]: whatever the kernel answers, a call that returns has passed a prefix of the
    bytes to the kernel, in order and nothing else, and returns its length; with
    [write_all] it is all of them; it never runs out of fuel, and it does return when the kernel
    always takes something. Only writes are counted. *)
Theorem write_sends buffer write_all f h :
  let s := concat (_views buffer) in
  zlen s < 0x10000000000000000 ->
  (forall n f' h', write buffer write_all f h = Ok (n, f', h') ->
     takes s n /\ (write_all = true -> n = zlen s) /\
     transferred (fd_num f) (ztake n s) h h' /\ only_writes f f') /\
  write buffer write_all f h <> Fault OutOfFuel /\
  (kernel_takes (_fd f) -> exists n f' h', write buffer write_all f h = Ok (n, f', h')).
Proof.
  destruct buffer as [views]. intros s Hl. change (concat _) with (concat views) in s.
  unfold write, write_fuel. rewrite view_size by done. change (concat _) with s. split_and!.
  - intros n f' h' (m & -> & Hm & Ha & T & O & _)%write_loop_inv; [|lia|fold s; lia].
    rewrite Z.add_0_l. by split_and!.
  - apply write_loop_ends; fold s; lia.
  - intros Hk. apply write_loop_all; [exact Hk|lia|fold s; lia..].
Qed.

(** [read]: for an answer of at most the bytes asked for, the data is returned, one read is
    counted, and the end of file is marked exactly when bytes were wanted and none
    came; a longer answer or a failed call throws. *)
Theorem read_marks_eof limit f h :
  0 <= limit ->
  let n := Z.min BUFFER_SIZE limit in
  match k_read (fd_num f) n h with
  | Sys data =>
    if n <? zlen data then read limit f h = Fault RuntimeError
    else exists f', read limit f h = Ok (data, f', h ++ [Read (fd_num f) n (Sys data)]) /\
      (eof f' = true <-> eof f = true \/ 0 < limit /\ data = []) /\
      read_count f' = u32 (read_count f + 1) /\ write_count f' = write_count f /\
      closed f' = closed f
  | Errno _ => read limit f h = Fault RuntimeError
  end.
Proof.
  intros Hl n. unfold read. fold n. destruct (k_read _ _ _) as [data|e] eqn:E.
  - cbn [system_call mbind outcome_bind]. destruct (n <? zlen data); [done|].
    eexists. split; [done|]. destruct (Z.ltb_spec 0 limit), (Z.eqb_spec (zlen data) 0) as [E0|E0];
      cbn [andb]; split_and!; try done; cbn; (split; [intros Hx|intros [Hx|[Hx Hy]]]); try done;
      try (by left); try lia; try (right; split; [done|by apply zlen_nil_inv]); by subst.
  - by rewrite system_call_throws.
Qed.
End properties.

(** A kernel that gives end of file, takes two bytes at a time and allows every call. *)
#[export] Instance demo_kernel : Kernel := {|
  k_call _ _ := Sys 0;
  k_read _ _ _ := Sys [];
  k_writev _ iov _ := Sys (Z.min 2 (zlen (iov_bytes iov)));
  k_recvfrom _ _ _ := Sys (mk_datagram [] []);
  k_sendmsg _ _ iov _ := Sys (zlen (iov_bytes iov));
  k_getsockopt _ _ _ _ := Sys (0, 4);
  k_getname _ _ _ := Sys ([], 0);
  k_socketpair _ _ _ := Sys (3, 4) |}.
Definition demo_fd : FDWrapper := mkFDWrapper 3 false false 0 0.

Lemma write_sends_witness :
  let s := [x61; x62; x63; x64; x65] in
  exists f' h', write (BufferViewList.of_string s) true demo_fd [] = Ok (5, f', h') /\
    written_to 3 h' = s.
Proof.
  intros s. destruct (write_sends (BufferViewList.of_string s) true demo_fd [])
    as (Hi & _ & He); [by vm_compute|].
  destruct He as (n & f' & h' & E).
  - intros iov h. eexists. split; [done|]. split; [lia|]. intros E. apply zlen_nil_inv. lia.
  - destruct (Hi _ _ _ E) as (Ht & Hn & (T & _) & _). rewrite (Hn eq_refl) in *. exists f', h'.
    split; [exact E|]. exact T.
Defined.

Lemma read_marks_eof_witness :
  exists f' h', read 10 demo_fd [] = Ok ([], f', h') /\ eof f' = true.
Proof.
  destruct (read_marks_eof 10 demo_fd [] ltac:(lia)) as (f' & E & He & _).
  exists f'. eexists. split; [exact E|]. apply He. by right.
Defined.
