(* ===== verification/Socket.v ===== *)
(** * Socket (util/socket.hh, util/socket.cc)

    Sockets are file descriptors with more system calls; UDP sockets send and receive whole
    datagrams.  [devices] are what the adapters read from and write to. *)

From S2P Require Import Prelude Buffer Address Kernel FileDescriptor.
From S2P Require Import TCPHeader TCPSegment Adapters.

(** Constants of the socket interface on Linux. *)
Definition SOCK_STREAM : Z := 1.
Definition SOCK_DGRAM : Z := 2.
Definition AF_UNIX : Z := 1.
Definition SOL_SOCKET : Z := 1.
Definition SO_REUSEADDR : Z := 2.
Definition SO_TYPE : Z := 3.
Definition SO_DOMAIN : Z := 39.
Definition SHUT_RD : Z := 0.
Definition SHUT_WR : Z := 1.
Definition SHUT_RDWR : Z := 2.
Definition SIZE_OF_INT : Z := 4.

(** The [sockaddr] a call is given: the bytes in use. *)
Definition raw (a : Address) : bytes := ztake (_size a) (storage a).

Section sockets.
Context `{Kernel}.
Implicit Types (f : FDWrapper) (h : history).

(** ** Socket *)

(** [Socket(domain, type)]. *)
Definition new_socket (domain type : Z) h : outcome (FDWrapper * history) :=
  '(fd, h) ← sys_call (SysSocket domain type 0) h;
  f ← FileDescriptor.new fd;
  Ok (f, h).

(** One of the two checks of [Socket(fd, domain, type)]. *)
Definition check_option (option expected : Z) f h : outcome history :=
  let r := k_getsockopt (fd_num f) SOL_SOCKET option h in
  '(actual_value, len) ← system_call r;
  if negb (len =? SIZE_OF_INT) || negb (actual_value =? expected) then Fault RuntimeError
  else Ok (h ++ [GetOption (fd_num f) SOL_SOCKET option r]).

Definition socket_of_fd (domain type : Z) f h : outcome (FDWrapper * history) :=
  h ← check_option SO_DOMAIN domain f h;
  h ← check_option SO_TYPE type f h;
  Ok (f, h).

Definition get_address (name : which_name) f h : outcome (Address * history) :=
  let r := k_getname name (fd_num f) h in
  '(address, size) ← system_call r;
  a ← of_sockaddr address size;
  Ok (a, h ++ [GetName name (fd_num f) r]).
Definition local_address f h : outcome (Address * history) := get_address SockName f h.
Definition peer_address f h : outcome (Address * history) := get_address PeerName f h.

Definition bind (address : Address) f h : outcome history :=
  '(_, h) ← sys_call (SysBind (fd_num f) (raw address)) h; Ok h.
Definition connect (address : Address) f h : outcome history :=
  '(_, h) ← sys_call (SysConnect (fd_num f) (raw address)) h; Ok h.

Definition shutdown (how : Z) f h : outcome (FDWrapper * history) :=
  '(_, h) ← sys_call (SysShutdown (fd_num f) how) h;
  if how =? SHUT_RD then Ok (register_read f, h)
  else if how =? SHUT_WR then Ok (register_write f, h)
  else if how =? SHUT_RDWR then Ok (register_write (register_read f), h)
  else Fault RuntimeError.

Definition setsockopt (level option option_value : Z) f h : outcome history :=
  '(_, h) ← sys_call (SysSetsockopt (fd_num f) level option option_value) h; Ok h.
Definition set_reuseaddr f h : outcome history := setsockopt SOL_SOCKET SO_REUSEADDR 1 f h.

(** ** UDPSocket *)

Definition MTU : Z := 65536.

(** [recv(mtu)]; with MSG_TRUNC the kernel answers the length of the whole datagram,
    of which it stores the first [mtu] bytes. *)
Definition recv (mtu : Z) f h : outcome (received_datagram * FDWrapper * history) :=
  let r := k_recvfrom (fd_num f) mtu h in
  d ← system_call r;
  let h := h ++ [Recvfrom (fd_num f) mtu r] in
  let recv_len := zlen (contents d) in
  if mtu <? recv_len then Fault RuntimeError
  else
    let f := register_read f in
    source_address ← of_sockaddr (from d) (zlen (from d));
    Ok (mk_received_datagram source_address (resize recv_len (ztake mtu (contents d))), f, h).

Definition sendmsg_helper (destination : option bytes) (payload : BufferViewList) f h
  : outcome history :=
  let iovecs := BufferViewList.as_iovecs payload in
  let r := k_sendmsg (fd_num f) destination iovecs h in
  bytes_sent ← int_call r;
  if negb (bytes_sent =? BufferViewList.size payload) then Fault RuntimeError
  else Ok (h ++ [Sendmsg (fd_num f) destination iovecs r]).

Definition sendto (destination : Address) (payload : BufferViewList) f h
  : outcome (FDWrapper * history) :=
  h ← sendmsg_helper (Some (raw destination)) payload f h; Ok (register_write f, h).
Definition send (payload : BufferViewList) f h : outcome (FDWrapper * history) :=
  h ← sendmsg_helper None payload f h; Ok (register_write f, h).

(** ** TCPSocket *)

Definition listen (backlog : Z) f h : outcome history :=
  '(_, h) ← sys_call (SysListen (fd_num f) backlog) h; Ok h.

Definition accept f h : outcome (FDWrapper * FDWrapper * history) :=
  let f := register_read f in
  '(fd, h) ← sys_call (SysAccept (fd_num f)) h;
  g ← FileDescriptor.new fd;
  '(g, h) ← socket_of_fd AF_INET SOCK_STREAM g h;
  Ok (g, f, h).
End sockets.

(** ** Devices

    What an adapter's [read] gets its datagram from and its [write] gives it to. *)

Class Device (In Out : Type) := {
  device_read : FDWrapper -> history -> outcome (In * FDWrapper * history);
  device_write : Out -> FDWrapper -> history -> outcome (FDWrapper * history) }.

Section devices.
Context `{Kernel}.

(** [_sock.recv()] and [_sock.sendto(...)] of [TCPOverUDPSocketAdapter]. *)
Definition udp_device_write (d : Address * bytes) (f : FDWrapper) (h : history)
  : outcome (FDWrapper * history) :=
  sendto (fst d) (BufferViewList.of_string (snd d)) f h.
#[export] Instance udp_device : Device received_datagram (Address * bytes) := {|
  device_read := recv MTU; device_write := udp_device_write |}.

(** [_tun.read()] and [_tun.write(...)] of [TCPOverIPv4OverTunFdAdapter]. *)
Definition SIZE_MAX : Z := 0xffffffffffffffff.
Definition tun_device_write (d : bytes) (f : FDWrapper) (h : history)
  : outcome (FDWrapper * history) :=
  '(_, f, h) ← write_string d true f h; Ok (f, h).
#[export] Instance tun_device : Device bytes bytes := {|
  device_read := read SIZE_MAX; device_write := tun_device_write |}.
End devices.

(** What the client of a device relies on: it uses its own descriptor only, and sending does not
    end the reading. *)
Class DeviceLaws `{Kernel} {In Out : Type} (D : Device In Out) : Prop := {
  device_read_frame f h d f' h' : device_read f h = Ok (d, f', h') ->
    fd_num f' = fd_num f /\ closed f' = closed f /\
    forall fd, fd <> fd_num f -> read_from fd h' = read_from fd h /\ written_to fd h' = written_to fd h;
  device_write_frame d f h f' h' : device_write d f h = Ok (f', h') ->
    fd_num f' = fd_num f /\ closed f' = closed f /\ FileDescriptor.eof f' = FileDescriptor.eof f /\
    forall fd, fd <> fd_num f -> read_from fd h' = read_from fd h /\ written_to fd h' = written_to fd h }.

#[export] Instance udp_device_laws `{Kernel} : DeviceLaws udp_device.
Proof.
  split.
  - cbn. intros f h d f' h' E. unfold recv in E. apply bind_Ok in E as (g & _ & E).
    destruct (_ <? _); [done|]. apply bind_Ok in E as (a & _ & E). apply Ok_inj in E.
    injection E as _ <- <-. split_and!; [done|done|]. intros fd _. by apply no_transfer_snoc.
  - cbn. intros d f h f' h' E. unfold udp_device_write, sendto in E.
    apply bind_Ok in E as (h1 & E & Er). apply Ok_inj in Er. injection Er as <- <-.
    unfold sendmsg_helper in E. apply bind_Ok in E as (n & _ & E). destruct (negb _); [done|].
    apply Ok_inj in E as <-. split_and!; [done|done|done|]. intros fd _. by apply no_transfer_snoc.
Qed.

#[export] Instance tun_device_laws `{Kernel} : DeviceLaws tun_device.
Proof.
  split.
  - cbn. intros f h d f' h' (_ & (_ & Hr & Hw) & Hfd & Hc & _)%read_inv.
    split_and!; [done|done|]. intros fd Hf. by rewrite Hr, Hw.
  - cbn. intros d f h f' h' E. unfold tun_device_write in E.
    apply bind_Ok in E as ([[n f1] h1] & [(? & ? & ? & ?) Hf]%write_loop_frame & E). apply Ok_inj in E.
    injection E as <- <-. by split_and!.
Qed.

(** ** Properties *)

Section properties.
Context `{Kernel}.

(** Datagrams are received and sent whole: [recv] returns all the bytes of the datagram
    the kernel has and its sender's address, counting one read, or throws when it exceeds
    [mtu]; and [sendto] only returns if the kernel took all bytes of the payload. *)
Theorem datagrams_whole mtu f h d payload destination :
  0 <= mtu -> k_recvfrom (fd_num f) mtu h = Sys d -> zlen (from d) <= SIZE_OF_STORAGE ->
  zlen (concat (_views payload)) < 0x10000000000000000 ->
  (if mtu <? zlen (contents d) then recv mtu f h = Fault RuntimeError
   else exists a h', recv mtu f h = Ok (mk_received_datagram a (contents d), register_read f, h') /\
     raw a = from d) /\
  (forall f' h', sendto destination payload f h = Ok (f', h') ->
     k_sendmsg (fd_num f) (Some (raw destination)) (BufferViewList.as_iovecs payload) h =
       Sys (zlen (concat (_views payload))) /\ f' = register_write f).
Proof.
  intros Hm Hk Hf Hl. split.
  - unfold recv. rewrite Hk. cbn [system_call mbind outcome_bind].
    destruct (Z.ltb_spec mtu (zlen (contents d))) as [|Hle]; [done|].
    unfold of_sockaddr. rewrite (proj2 (Z.ltb_ge _ _)) by done. cbn [mbind outcome_bind].
    rewrite (ztake_ge mtu), (resize_id (contents d)) by lia.
    eexists _, _. split; [done|]. unfold raw. cbn [_size storage].
    rewrite (ztake_ge (zlen (from d)) (from d)), resize_grow by lia. apply ztake_app_len.
  - intros f' h' E. unfold sendto in E. apply bind_Ok in E as (h1 & E & Er).
    apply Ok_inj in Er. injection Er as <- <-. unfold sendmsg_helper in E.
    apply bind_Ok in E as (n & [Ek _]%int_call_Ok & E). rewrite view_size in E by done.
    destruct (Z.eqb_spec n (zlen (concat (_views payload)))) as [->|]; done.
Qed.
End properties.

(** A kernel with one datagram from a socket address of 16 zero bytes. *)
Definition demo_udp : Kernel := {|
  k_call _ _ := Sys 0;
  k_read _ _ _ := Sys [];
  k_writev _ iov _ := Sys (zlen (iov_bytes iov));
  k_recvfrom _ _ _ := Sys (mk_datagram (replicate 16 x00) [x61; x62]);
  k_sendmsg _ _ iov _ := Sys (zlen (iov_bytes iov));
  k_getsockopt _ _ _ _ := Sys (0, 4);
  k_getname _ _ _ := Sys ([], 0);
  k_socketpair _ _ _ := Sys (3, 4) |}.

Lemma datagrams_whole_witness :
  exists a h', recv (H := demo_udp) 2 demo_fd [] =
    Ok (mk_received_datagram a [x61; x62], register_read demo_fd, h').
Proof.
  destruct (datagrams_whole (H := demo_udp) 2 demo_fd [] (mk_datagram (replicate 16 x00) [x61; x62])
    (mkBufferViewList []) (inet 0 0)) as [(a & h' & E & _) _]; [lia|done|by vm_compute|done|].
  by exists a, h'.
Defined.
