(* ===== verification/Tun.v ===== *)
(** * Tun (util/tun.hh, util/tun.cc)

    A descriptor of a TUN or TAP device, and the name it is asked for by. *)

From stdpp Require Import strings.
From S2P Require Import Prelude Kernel FileDescriptor.

Definition CLONEDEV : bytes := String.list_byte_of_string "/dev/net/tun".
Definition O_RDWR : Z := 0x2.
Definition IFF_TUN : Z := 0x1.
Definition IFF_TAP : Z := 0x2.
Definition IFF_NO_PI : Z := 0x1000.
Definition IFNAMSIZ : Z := 16.

(** What a C string in an array of bytes says: everything before the first NUL. *)
Fixpoint c_string (s : bytes) : bytes :=
  match s with
  | [] => []
  | c :: s' => if b2z c =? 0 then [] else c :: c_string s'
  end.

(** [strncpy(to, from, n)] for an array [to] of at least [n] bytes. *)
Definition strncpy (to from : bytes) (n : Z) : bytes :=
  resize n (ztake n (c_string from)) ++ zdrop n to.

(** [ifr_name] after the copy, for a [tun_req] of zeros. *)
Definition ifr_name (devname : bytes) : bytes :=
  let name := strncpy (resize IFNAMSIZ []) devname (IFNAMSIZ - 1) in
  ztake (IFNAMSIZ - 1) name ++ [x00].

Definition ifr_flags (is_tun : bool) : Z := Z.lor (if is_tun then IFF_TUN else IFF_TAP) IFF_NO_PI.

(** [TunTapFD(devname, is_tun)]. *)
Definition new_tuntap `{Kernel} (devname : bytes) (is_tun : bool) (h : history)
  : outcome (FDWrapper * history) :=
  '(fd, h) ← sys_call (SysOpen CLONEDEV O_RDWR) h;
  f ← FileDescriptor.new fd;
  '(_, h) ← sys_call (SysTunSetIff (fd_num f) (ifr_name devname) (ifr_flags is_tun)) h;
  Ok (f, h).
Definition TunFD `{Kernel} (devname : bytes) (h : history) : outcome (FDWrapper * history) :=
  new_tuntap devname true h.
Definition TapFD `{Kernel} (devname : bytes) (h : history) : outcome (FDWrapper * history) :=
  new_tuntap devname false h.

(** ** The name *)

Lemma c_string_no_nul s : Forall (fun c => b2z c <> 0) (c_string s).
Proof.
  induction s as [|c s IH]; cbn; [constructor|]. destruct (Z.eqb_spec (b2z c) 0); [constructor|].
  by constructor.
Qed.

Lemma c_string_app s t : Forall (fun c => b2z c <> 0) s -> c_string (s ++ x00 :: t) = s.
Proof.
  induction 1 as [|c s Hc _ IH]; cbn; [done|]. by rewrite (proj2 (Z.eqb_neq _ _) Hc), IH.
Qed.

(** The device is asked for by the first 15 bytes of its name, in a terminated array. *)
Theorem ifr_name_terminated devname :
  zlen (ifr_name devname) = IFNAMSIZ /\
  c_string (ifr_name devname) = ztake (IFNAMSIZ - 1) (c_string devname).
Proof.
  set (t := ztake (IFNAMSIZ - 1) (c_string devname)).
  assert (Ht : zlen t <= IFNAMSIZ - 1).
  { unfold t, ztake, IFNAMSIZ. rewrite length_take. lia. }
  assert (Hn : Forall (fun c => b2z c <> 0) t) by apply Forall_take, c_string_no_nul.
  assert (E : ifr_name devname = t ++ replicate (Z.to_nat (IFNAMSIZ - zlen t)) x00).
  { unfold ifr_name, strncpy. fold t. rewrite resize_grow by exact Ht.
    rewrite ztake_app_le by (rewrite length_app, length_replicate; unfold IFNAMSIZ in *; lia).
    rewrite ztake_ge by (rewrite length_app, length_replicate; unfold IFNAMSIZ in *; lia).
    rewrite <- app_assoc. f_equal.
    replace (Z.to_nat (IFNAMSIZ - zlen t)) with (Z.to_nat (IFNAMSIZ - 1 - zlen t) + 1)%nat by lia.
    by rewrite replicate_add. }
  rewrite E. split; [rewrite length_app, length_replicate; lia|].
  replace (Z.to_nat (IFNAMSIZ - zlen t)) with (S (Z.to_nat (IFNAMSIZ - 1 - zlen t))) by lia.
  by apply c_string_app.
Qed.
