(* ===== verification/EventLoop.v ===== *)
(** * EventLoop (util/eventloop.hh, util/eventloop.cc)

    Rules on descriptors, over any client state that holds the descriptors.  The
    answer of [poll] is an argument.  Callbacks of the program do not add rules while the
    loop runs, so the rules are not part of what a callback can change. *)

From S2P Require Import Prelude FileDescriptor.

Definition POLLIN : Z := 1.
Definition POLLOUT : Z := 4.
Definition POLLERR : Z := 8.
Definition POLLHUP : Z := 16.
Definition POLLNVAL : Z := 32.
Definition EINTR : Z := 4.

Inductive Direction : Set := In | Out.
#[export] Instance direction_eq_dec : EqDecision Direction.
Proof. solve_decision. Defined.
Definition direction_events (d : Direction) : Z := match d with In => POLLIN | Out => POLLOUT end.

Inductive Result : Set := Success | Timeout | Exit.

Record pollfd := mk_pollfd { pfd_fd : Z; events : Z; revents : Z }.

(** What [poll] did: it reported [revents] for each descriptor, none before the
    timeout, or failed with an [errno] and changed nothing. *)
Inductive poll_answer : Type :=
| PollReady (revents : list Z)
| PollTimeout
| PollError (errno : Z).

(** The client: where its descriptors are. *)
Class HasFds (S : Type) := fdw : nat -> S -> FDWrapper.

Section loop.
Context {S : Type} `{HasFds S}.

Record Rule := mkRule {
  fd : nat;
  direction : Direction;
  callback : S -> outcome S;
  interest : S -> bool;
  cancel : S -> outcome S }.

Definition service_count (r : Rule) (s : S) : Z :=
  match direction r with In => read_count (fdw (fd r) s) | Out => write_count (fdw (fd r) s) end.

Definition add_rule (fd : nat) (direction : Direction) (callback : S -> outcome S)
    (interest : S -> bool) (cancel : S -> outcome S) (rules : list Rule) : list Rule :=
  rules ++ [mkRule fd direction callback interest cancel].

(** Nothing more can come of the rule: it reads at the end of file, or its descriptor is closed. *)
Definition finished (r : Rule) (s : S) : bool :=
  (match direction r with In => eof (fdw (fd r) s) | Out => false end) || closed (fdw (fd r) s).

Definition has (mask v : Z) : bool := negb (Z.land v mask =? 0).

(** The first loop: finished rules are cancelled, the others get a [pollfd]. *)
Fixpoint setup_polls (rules : list Rule) (s : S)
  : outcome (list (Rule * pollfd) * bool * S) :=
  match rules with
  | [] => Ok ([], false, s)
  | r :: rules' =>
    if finished r s then s ← cancel r s; setup_polls rules' s
    else
      let wanted := interest r s in
      let p := mk_pollfd (fd_num (fdw (fd r) s)) (if wanted then direction_events (direction r) else 0) 0 in
      '(ps, something_to_poll, s) ← setup_polls rules' s;
      Ok ((r, p) :: ps, wanted || something_to_poll, s)
  end.

(** [pollfds] after [poll]; a missing report is 0. *)
Fixpoint set_revents (ps : list (Rule * pollfd)) (revs : list Z) : list (Rule * pollfd) :=
  match ps, revs with
  | (r, p) :: ps', v :: revs' => (r, mk_pollfd (pfd_fd p) (events p) v) :: set_revents ps' revs'
  | _, _ => ps
  end.

(** One rule of the second loop; the flag tells whether it stays. *)
Definition dispatch_one (r : Rule) (p : pollfd) (s : S) : outcome (bool * S) :=
  if has (Z.lor POLLERR POLLNVAL) (revents p) then Fault RuntimeError
  else
    let poll_ready := has (events p) (revents p) in
    let poll_hup := has POLLHUP (revents p) in
    if poll_hup && negb (events p =? 0) && negb poll_ready then s ← cancel r s; Ok (false, s)
    else if poll_ready then
      let count_before := service_count r s in
      s ← callback r s;
      if (count_before =? service_count r s) && interest r s then Fault RuntimeError
      else Ok (true, s)
    else Ok (true, s).

Fixpoint dispatch (ps : list (Rule * pollfd)) (s : S) : outcome (list Rule * S) :=
  match ps with
  | [] => Ok ([], s)
  | (r, p) :: ps' =>
    '(keep, s) ← dispatch_one r p s;
    '(rules, s) ← dispatch ps' s;
    Ok (if (keep : bool) then r :: rules else rules, s)
  end.

(** [wait_next_event]; [poll] gets the descriptors and the timeout. *)
Definition wait_next_event (poll : list pollfd -> Z -> poll_answer) (timeout_ms : Z)
    (rules : list Rule) (s : S) : outcome (Result * list Rule * S) :=
  '(ps, something_to_poll, s) ← setup_polls rules s;
  if negb something_to_poll then Ok (Exit, fst <$> ps, s)
  else
    let go ps := '(rules, s) ← dispatch ps s; Ok (Success, rules, s) in
    match poll (snd <$> ps) timeout_ms with
    | PollTimeout => Ok (Timeout, fst <$> ps, s)
    | PollError e => if e =? EINTR then Ok (Exit, fst <$> ps, s) else go ps
    | PollReady revs => go (set_revents ps revs)
    end.

(** ** What a round is to do

    The specification of a round. Before [poll], rule by rule: a finished rule is cancelled and leaves the list; any other
    stays, and [poll] is asked for its direction if it is interested at that point. *)

Definition asked (r : Rule) (s : S) : pollfd :=
  mk_pollfd (fd_num (fdw (fd r) s)) (if interest r s then direction_events (direction r) else 0) 0.

Inductive sweeps : list Rule -> S -> list (Rule * pollfd) -> S -> Prop :=
| sweeps_nil s : sweeps [] s [] s
| sweeps_out r rs s s1 ps s2 :
    finished r s = true -> cancel r s = Ok s1 -> sweeps rs s1 ps s2 -> sweeps (r :: rs) s ps s2
| sweeps_in r rs s ps s2 :
    finished r s = false -> sweeps rs s ps s2 -> sweeps (r :: rs) s ((r, asked r s) :: ps) s2.

(** After it, rule by rule with the report [v] for each (0 where [poll] gave none), none of which is an error: a rule whose
    descriptor is ready for what was asked is called, and must have used the descriptor or lost interest; one that asked and was
    told of a hangup alone is cancelled and leaves; the others are left alone. *)
Inductive serves : list (Rule * pollfd) -> list Z -> S -> list Rule -> S -> Prop :=
| serves_nil revs s : serves [] revs s [] s
| serves_ready r p ps v revs s s1 rs s2 :
    has (Z.lor POLLERR POLLNVAL) v = false -> has (events p) v = true -> callback r s = Ok s1 ->
    service_count r s <> service_count r s1 \/ interest r s1 = false ->
    serves ps revs s1 rs s2 -> serves ((r, p) :: ps) (v :: revs) s (r :: rs) s2
| serves_hangup r p ps v revs s s1 rs s2 :
    has (Z.lor POLLERR POLLNVAL) v = false -> has (events p) v = false -> events p <> 0 -> has POLLHUP v = true ->
    cancel r s = Ok s1 -> serves ps revs s1 rs s2 -> serves ((r, p) :: ps) (v :: revs) s rs s2
| serves_idle r p ps v revs s rs s2 :
    has (Z.lor POLLERR POLLNVAL) v = false -> has (events p) v = false -> events p = 0 \/ has POLLHUP v = false ->
    serves ps revs s rs s2 -> serves ((r, p) :: ps) (v :: revs) s (r :: rs) s2
| serves_unreported ps s : serves ps [] s (fst <$> ps) s.

(** The round: it exits when nothing is asked for, or a signal interrupted [poll]; and it serves the rules when [poll] reports or
    fails. *)
Definition round_spec (poll : list pollfd -> Z -> poll_answer) (timeout_ms : Z) (rules : list Rule) (s : S)
    (res : Result) (rules' : list Rule) (s' : S) : Prop :=
  exists ps s1, sweeps rules s ps s1 /\
    let asks := Exists (fun '(_, p) => events p <> 0) ps in
    let answer := poll (snd <$> ps) timeout_ms in
    match res with
    | Exit => (~ asks \/ answer = PollError EINTR) /\ rules' = fst <$> ps /\ s' = s1
    | Timeout => asks /\ answer = PollTimeout /\ rules' = fst <$> ps /\ s' = s1
    | Success => asks /\ exists revs, serves ps revs s1 rules' s' /\
        (answer = PollReady revs \/ revs = [] /\ exists e, answer = PollError e /\ e <> EINTR)
    end.

(** Nothing is dispatched when nothing was reported. *)
Lemma dispatch_idle ps s :
  Forall (fun '(_, p) => revents p = 0) ps -> dispatch ps s = Ok (fst <$> ps, s).
Proof.
  induction 1 as [|[r p] ps Hp _ IH]; [done|]. cbn [dispatch]. unfold dispatch_one, has.
  rewrite Hp, !Z.land_0_l. cbn [negb Z.eqb andb mbind outcome_bind]. by rewrite IH.
Qed.

Lemma setup_sweeps rules : forall s ps b s',
  setup_polls rules s = Ok (ps, b, s') <->
  sweeps rules s ps s' /\ b = existsb (fun '(_, p) => negb (events p =? 0)) ps.
Proof.
  induction rules as [|r rules IH]; intros s ps b s'; cbn [setup_polls].
  { split.
    - intros [= <- <- <-]. by split; [constructor|].
    - intros [Sw ->]. by inversion Sw; subst. }
  destruct (finished r s) eqn:Ef; split.
  - intros (s1 & E1 & [Sw ->]%IH)%bind_Ok. split; [by econstructor|done].
  - intros [Sw ->]. inversion Sw as [|? ? ? s1 ? ? _ E1 Sw1|]; subst; [|congruence].
    rewrite E1. cbn [mbind outcome_bind]. by apply IH.
  - intros ([[ps1 b1] s1] & [Sw ->]%IH & E)%bind_Ok. injection E as <- <- <-.
    split; [by constructor|]. cbn. by destruct (interest r s), (direction r).
  - intros [Sw ->]. inversion Sw as [|? ? ? s1 ? ? Hf|? ? ? ps1 ? _ Sw1]; subst; [congruence|].
    rewrite (proj2 (IH s ps1 _ s') (conj Sw1 eq_refl)). unfold asked. cbn. by destruct (interest r s), (direction r).
Qed.

Lemma sweeps_unreported rules s ps s' : sweeps rules s ps s' -> Forall (fun '(_, p) => revents p = 0) ps.
Proof. induction 1; [constructor|done|by constructor]. Qed.

Lemma dispatch_serves ps : forall revs s rules s', Forall (fun '(_, p) => revents p = 0) ps ->
  dispatch (set_revents ps revs) s = Ok (rules, s') <-> serves ps revs s rules s'.
Proof.
  induction ps as [|[r p] ps IH]; intros [|v revs] s rules s' Hz.
  - cbn. split; [intros [= <- <-]; constructor|]. by inversion 1; subst.
  - cbn. split; [intros [= <- <-]; constructor|]. by inversion 1; subst.
  - cbn [set_revents]. rewrite dispatch_idle by done. split; [intros [= <- <-]; constructor|]. by inversion 1; subst.
  - apply Forall_cons in Hz as [_ Hz]. cbn [set_revents dispatch]. unfold dispatch_one. cbn [revents events]. split.
    + intros ([keep s1] & E1 & E)%bind_Ok. apply bind_Ok in E as ([rs s2] & E2 & E). apply IH in E2; [|done].
      injection E as <- <-.
      destruct (has (Z.lor POLLERR POLLNVAL) v) eqn:He; [done|]. destruct (_ && _ && _) eqn:Eh.
      * apply bind_Ok in E1 as (s0 & Ec & [= <- <-]). rewrite !andb_true_iff, !negb_true_iff, Z.eqb_neq in Eh.
        destruct Eh as [[Hh Hp] Hr]. by eapply serves_hangup.
      * destruct (has (events p) v) eqn:Er.
        -- apply bind_Ok in E1 as (s0 & Ec & E1). destruct (_ && _) eqn:Eb in E1; [done|]. injection E1 as <- <-.
           eapply serves_ready; try done. by apply andb_false_iff in Eb as [Eb%Z.eqb_neq|Eb]; [left|right].
        -- injection E1 as <- <-. apply serves_idle; try done.
           rewrite andb_true_r in Eh. by apply andb_false_iff in Eh as [?|?%negb_false_iff%Z.eqb_eq]; [right|left].
    + inversion 1 as [|? ? ? ? ? ? s1 rs ? He Hr Ec Hu Sv|? ? ? ? ? ? s1 rs ? He Hr Hp Hh Ec Sv|? ? ? ? ? ? rs ? He Hr Hn Sv|]; subst;
        rewrite He; apply (IH revs) in Sv; [|done| |done| |done].
      * rewrite Hr. rewrite !andb_false_r. cbn. rewrite Ec. cbn.
        assert ((service_count r s =? service_count r s1) && interest r s1 = false) as ->.
        { apply andb_false_iff. by destruct Hu as [?%Z.eqb_neq|?]; [left|right]. }
        cbn. by rewrite Sv.
      * rewrite Hr, Hh, (proj2 (Z.eqb_neq _ _) Hp). cbn. rewrite Ec. cbn. by rewrite Sv.
      * rewrite Hr. assert (has POLLHUP v && negb (events p =? 0) && negb false = false) as ->.
        { destruct Hn as [->| ->]; [by rewrite andb_false_r|done]. }
        cbn. by rewrite Sv.
Qed.

Lemma asks_exists (ps : list (Rule * pollfd)) :
  Exists (fun '(_, p) => events p <> 0) ps <-> existsb (fun '(_, p) => negb (events p =? 0)) ps = true.
Proof.
  induction ps as [|[r p] ps IH]; cbn [existsb]; [by rewrite Exists_nil|].
  by rewrite Exists_cons, IH, orb_true_iff, negb_true_iff, Z.eqb_neq.
Qed.

(** [wait_next_event] does what a round is to do, and returns only then. *)
Lemma wait_specified poll timeout_ms rules s res rules' s' :
  wait_next_event poll timeout_ms rules s = Ok (res, rules', s') <-> round_spec poll timeout_ms rules s res rules' s'.
Proof.
  unfold wait_next_event, round_spec. split.
  - intros ([[ps b] s1] & [Sw Eb]%setup_sweeps & E)%bind_Ok. exists ps, s1. split; [done|].
    pose proof (asks_exists ps) as Ha. rewrite <- Eb in Ha. pose proof (sweeps_unreported _ _ _ _ Sw) as Hz.
    cbv zeta. destruct b; cbn [negb] in E.
    2: { injection E as <- <- <-. split_and!; [|done..]. left. intros H1%Ha. done. }
    destruct (poll _ _) as [revs| |e].
    + apply bind_Ok in E as ([rs s2] & Sv%dispatch_serves & E); [|done]. injection E as <- <- <-.
      split; [by apply Ha|]. exists revs. split; [done|by left].
    + injection E as <- <- <-. split_and!; try done. by apply Ha.
    + destruct (Z.eqb_spec e EINTR) as [He|He].
      * injection E as <- <- <-. split_and!; [right; by f_equal|done..].
      * apply bind_Ok in E as ([rs s2] & Ed & E). injection E as <- <- <-. split; [by apply Ha|]. exists [].
        rewrite (dispatch_idle ps) in Ed by done. injection Ed as <- <-. split; [constructor|right; by eauto].
  - intros (ps & s1 & Sw & Hr). pose proof (asks_exists ps) as Ha. pose proof (sweeps_unreported _ _ _ _ Sw) as Hz.
    rewrite (proj2 (setup_sweeps rules s ps _ s1) (conj Sw eq_refl)). cbn [mbind outcome_bind]. cbv zeta in Hr.
    destruct res; cycle 2.
    { destruct Hr as ([Hn|Hn] & -> & ->).
      - destruct (existsb _ _); [by destruct Hn; apply Ha|done].
      - destruct (existsb _ _); [|done]. cbn [negb]. rewrite Hn. done. }
    { destruct Hr as (->%Ha & revs & Sv & Hans). cbn [negb]. destruct Hans as [->|(-> & e & -> & He)].
      - apply (dispatch_serves ps revs) in Sv; [|done]. by rewrite Sv.
      - rewrite (proj2 (Z.eqb_neq e EINTR)) by done. inversion Sv; subst; [done|]. by rewrite dispatch_idle. }
    destruct Hr as (->%Ha & -> & -> & ->). done.
Qed.

(** ** What a round does, as a sequence of steps

    A callback that returns has used its descriptor or lost interest. *)

Inductive event : Type := Called (r : Rule) | Cancelled (r : Rule).

Inductive steps : list event -> S -> S -> Prop :=
| steps_nil s : steps [] s s
| steps_call r es s s1 s2 :
    callback r s = Ok s1 -> service_count r s <> service_count r s1 \/ interest r s1 = false ->
    steps es s1 s2 -> steps (Called r :: es) s s2
| steps_cancel r es s s1 s2 : cancel r s = Ok s1 -> steps es s1 s2 -> steps (Cancelled r :: es) s s2.

Lemma steps_app es1 es2 s1 s2 s3 : steps es1 s1 s2 -> steps es2 s2 s3 -> steps (es1 ++ es2) s1 s3.
Proof. induction 1; [done|econstructor; eauto..]. Qed.

Definition event_rule (e : event) : Rule := match e with Called r | Cancelled r => r end.
Definition cancelled (es : list event) : list Rule :=
  omap (fun e => match e with Cancelled r => Some r | Called _ => None end) es.

(** [merged kept gone rules]: [rules] consists of the rules that stayed and those that went, in order. *)
Inductive merged : list Rule -> list Rule -> list Rule -> Prop :=
| merged_nil : merged [] [] []
| merged_kept r ks gs rs : merged ks gs rs -> merged (r :: ks) gs (r :: rs)
| merged_gone r ks gs rs : merged ks gs rs -> merged ks (r :: gs) (r :: rs).

Lemma setup_polls_steps rules : forall s ps b s',
  setup_polls rules s = Ok (ps, b, s') ->
  exists gone, steps (Cancelled <$> gone) s s' /\ merged (fst <$> ps) gone rules /\
    Forall (fun '(r, p) => revents p = 0 /\
      exists es s0, steps es s s0 /\ finished r s0 = false /\
        events p = (if interest r s0 then direction_events (direction r) else 0)) ps.
Proof.
  induction rules as [|r rules IH]; intros s ps b s' E; cbn [setup_polls] in E.
  - apply Ok_inj in E. injection E as <- <- <-. exists []. split_and!; constructor.
  - destruct (finished r s) eqn:Ef.
    + apply bind_Ok in E as (s1 & E1 & E). destruct (IH _ _ _ _ E) as (gone & St & M & F).
      exists (r :: gone). split_and!; [by econstructor|by constructor|].
      eapply Forall_impl; [exact F|]. intros [r0 p0] (H0 & es & s0 & St0 & H1).
      split; [done|]. exists (Cancelled r :: es), s0. split; [by econstructor|done].
    + apply bind_Ok in E as ([[ps1 b1] s1] & E1 & E). apply Ok_inj in E. injection E as <- <- <-.
      destruct (IH _ _ _ _ E1) as (gone & St & M & F). exists gone. split_and!; [done|by constructor|].
      constructor; [|done]. split; [done|]. exists [], s. split; [constructor|done].
Qed.

Lemma dispatch_steps ps : forall s rules s',
  dispatch ps s = Ok (rules, s') ->
  exists es, steps es s s' /\ merged rules (cancelled es) (fst <$> ps) /\
    (event_rule <$> es) `sublist_of` (fst <$> ps) /\
    Forall (fun e => exists p, (event_rule e, p) ∈ ps /\ events p <> 0 /\
      match e with
      | Called _ => has (events p) (revents p) = true
      | Cancelled _ => has POLLHUP (revents p) = true /\ has (events p) (revents p) = false
      end) es.
Proof.
  induction ps as [|[r p] ps IH]; intros s rules s' E; cbn [dispatch] in E.
  { apply Ok_inj in E. injection E as <- <-. exists []. split_and!; constructor. }
  apply bind_Ok in E as ([keep s1] & E1 & E). apply bind_Ok in E as ([rules2 s2] & E2 & E).
  apply Ok_inj in E. injection E as <- <-.
  destruct (IH _ _ _ E2) as (es & St & M & Sub & F).
  assert (F' : forall e, e ∈ es -> exists p', (event_rule e, p') ∈ (r, p) :: ps /\ events p' <> 0 /\
      match e with
      | Called _ => has (events p') (revents p') = true
      | Cancelled _ => has POLLHUP (revents p') = true /\ has (events p') (revents p') = false
      end).
  { intros e He. destruct (proj1 (Forall_forall _ _) F e He) as (p' & Hp & ?).
    exists p'. split; [by right|done]. }
  unfold dispatch_one in E1. destruct (has (Z.lor _ _) _); [done|].
  destruct (has POLLHUP (revents p) && negb (events p =? 0) && negb (has (events p) (revents p)))
    eqn:Eh.
  - apply bind_Ok in E1 as (s0 & Ec & E1). apply Ok_inj in E1. injection E1 as <- <-.
    apply andb_true_iff in Eh as [[Eh1 Eh2]%andb_true_iff Eh3].
    exists (Cancelled r :: es). split_and!; [by econstructor|by constructor|by apply sublist_skip|].
    constructor; [|by apply Forall_forall]. exists p. split; [by left|].
    split; [by intros E0; rewrite E0 in Eh2|]. split; [done|]. by apply negb_true_iff.
  - destruct (has (events p) (revents p)) eqn:Er.
    + apply bind_Ok in E1 as (s0 & Ec & E1). destruct ((service_count r s =? service_count r s0) && interest r s0) eqn:Eb; [done|].
      apply Ok_inj in E1. injection E1 as <- <-.
      assert (service_count r s <> service_count r s0 \/ interest r s0 = false).
      { apply andb_false_iff in Eb as [Eb%Z.eqb_neq|Eb]; [by left|by right]. }
      exists (Called r :: es). split_and!; [by econstructor|by constructor|by apply sublist_skip|].
      constructor; [|by apply Forall_forall]. exists p. split; [by left|]. split; [|done].
      intros E0. unfold has in Er. rewrite E0, Z.land_0_r in Er. done.
    + apply Ok_inj in E1. injection E1 as <- <-.
      exists es. split_and!; [done|by constructor|by apply sublist_cons|by apply Forall_forall].
Qed.

Lemma set_revents_rules ps revs : fst <$> set_revents ps revs = fst <$> ps.
Proof.
  revert revs. induction ps as [|[r p] ps IH]; intros [|v revs]; cbn; [done..|].
  f_equal. apply IH.
Qed.

Lemma set_revents_events ps : forall revs r p,
  (r, p) ∈ set_revents ps revs -> exists p', (r, p') ∈ ps /\ events p' = events p.
Proof.
  induction ps as [|[r0 p0] ps IH]; intros revs r p Hin; [by destruct revs; exists p|].
  destruct revs as [|v revs]; [by exists p|]. cbn in Hin. apply elem_of_cons in Hin as [E|Hin].
  - injection E as -> ->. exists p0. split; [by left|done].
  - destruct (IH _ _ _ Hin) as (p' & ? & ?). exists p'. split; [by right|done].
Qed.

(** A property of the client's states that every rule keeps. *)
Definition keeps (I : S -> Prop) (rules : list Rule) : Prop :=
  Forall (fun r => forall s s', I s -> callback r s = Ok s' \/ cancel r s = Ok s' -> I s') rules.

Lemma steps_keep I rules es s s' :
  keeps I rules -> steps es s s' -> Forall (fun e => event_rule e ∈ rules) es -> I s -> I s'.
Proof.
  intros K St. induction St as [s|r es s s1 s2 E _ _ IH|r es s s1 s2 E _ IH]; intros F HI; [done|..];
    apply Forall_cons in F as [Hr F]; apply IH; [done| |done|];
    eapply (proj1 (Forall_forall _ _) K r Hr); eauto.
Qed.
(** What [wait_next_event] ran: only the first loop, or both. *)
Lemma wait_cases poll timeout_ms rules s res rules' s' :
  wait_next_event poll timeout_ms rules s = Ok (res, rules', s') ->
  exists ps b s1, setup_polls rules s = Ok (ps, b, s1) /\
    (res <> Success /\ rules' = fst <$> ps /\ s' = s1 \/
     res = Success /\ exists ps', dispatch ps' s1 = Ok (rules', s') /\ fst <$> ps' = fst <$> ps /\
       forall r p, (r, p) ∈ ps' -> exists p', (r, p') ∈ ps /\ events p' = events p).
Proof.
  unfold wait_next_event. intros E. apply bind_Ok in E as ([[ps b] s1] & E1 & E).
  exists ps, b, s1. split; [done|].
  assert (Stop : forall r, r <> Success -> Ok (r, fst <$> ps, s1) = Ok (res, rules', s') ->
    res <> Success /\ rules' = fst <$> ps /\ s' = s1).
  { intros r Hr Er. apply Ok_inj in Er. by injection Er as -> <- <-. }
  assert (Go : forall ps', ('(rules, s) ← dispatch ps' s1; Ok (Success, rules, s)) = Ok (res, rules', s') ->
    res = Success /\ dispatch ps' s1 = Ok (rules', s')).
  { intros ps' Ed. apply bind_Ok in Ed as ([rs s2] & Ed & Er). apply Ok_inj in Er.
    by injection Er as <- <- <-. }
  destruct b; cbn [negb] in E; [|left; by apply (Stop Exit)].
  destruct (poll _ _) as [revs| |e]; [|left; by apply (Stop Timeout)|].
  - apply Go in E as [-> E]. right. split; [done|]. exists (set_revents ps revs).
    split_and!; [done|apply set_revents_rules|apply set_revents_events].
  - destruct (e =? EINTR); [left; by apply (Stop Exit)|]. apply Go in E as [-> E].
    right. split; [done|]. exists ps. split_and!; [done..|]. intros r p Hp. by exists p.
Qed.

(** The rules that stayed and those that went are the rules there were. *)
Lemma merged_in ks gs rs : merged ks gs rs -> forall r, r ∈ rs <-> r ∈ ks \/ r ∈ gs.
Proof. induction 1 as [|r ks gs rs _ IH|r ks gs rs _ IH]; intros r'; rewrite ?elem_of_cons, ?IH; tauto. Qed.

Lemma merged_none rs : merged rs [] rs.
Proof. induction rs; by constructor. Qed.

(** A round as two sequences of steps. *)
Definition round_does rules rules' s s' res : Prop :=
  exists gone kept es s1,
    steps (Cancelled <$> gone) s s1 /\ merged kept gone rules /\
    steps es s1 s' /\ merged rules' (cancelled es) kept /\
    (event_rule <$> es) `sublist_of` kept /\ (res <> Success -> es = []) /\
    Forall (fun e => exists es0 s0, steps es0 s s0 /\ finished (event_rule e) s0 = false /\
      interest (event_rule e) s0 = true) es.

Lemma wait_does poll timeout_ms rules s res rules' s' :
  wait_next_event poll timeout_ms rules s = Ok (res, rules', s') ->
  round_does rules rules' s s' res.
Proof.
  intros (ps & b & s1 & E1 & Hc)%wait_cases.
  destruct (setup_polls_steps _ _ _ _ _ E1) as (gone & St & M & F).
  destruct Hc as [(Hres & -> & ->)|(Hres & ps' & Ed & Hfst & Hev)].
  - exists gone, (fst <$> ps), [], s1.
    split_and!; [done|done|constructor|apply merged_none|apply sublist_nil_l|done|constructor].
  - destruct (dispatch_steps _ _ _ _ Ed) as (es & St2 & M2 & Sub & F2). rewrite Hfst in *.
    exists gone, (fst <$> ps), es, s1. split_and!; try done.
    eapply Forall_impl; [exact F2|]. intros e (p & Hp & Hne & _).
    destruct (Hev _ _ Hp) as (p' & Hp' & Ee).
    destruct (proj1 (Forall_forall _ _) F _ Hp') as (_ & es0 & s0 & St0 & Hf & Hi).
    exists es0, s0. split_and!; try done. destruct (interest _ s0); [done|congruence].
Qed.

Lemma wait_keeps I poll timeout_ms rules s res rules' s' :
  keeps I rules -> I s -> wait_next_event poll timeout_ms rules s = Ok (res, rules', s') ->
  I s' /\ keeps I rules'.
Proof.
  intros K HI (gone & kept & es & s1 & St & M & St2 & M2 & Sub & _ & _)%wait_does.
  assert (Hk : forall r, r ∈ kept -> r ∈ rules) by (intros r Hr; apply (merged_in _ _ _ M); by left).
  split.
  - eapply (steps_keep I); [exact K|exact St2| |].
    + apply Forall_forall. intros e He. apply Hk.
      eapply elem_of_submseteq; [|by apply sublist_submseteq]. by apply list_elem_of_fmap_2.
    + eapply (steps_keep I); [exact K|exact St| |done].
      apply Forall_forall. intros e (r & -> & Hr)%list_elem_of_fmap. apply (merged_in _ _ _ M). by right.
  - apply Forall_forall. intros r Hr. apply (proj1 (Forall_forall _ _) K), Hk.
    apply (merged_in _ _ _ M2). by left.
Qed.
(** ** Invariants that mention the rules still in the list

    A rule is called only while it is not finished, and it leaves the list when it is
    cancelled, because it is finished or because [poll] reported a hangup of its
    descriptor; [hangup] are the rules to which that may happen. *)

Section live.
Context (I : list Rule -> S -> Prop) (hangup : Rule -> Prop).

Definition unfinished (s : S) (r : Rule) : Prop := finished r s = false.
Definition uninterested (s : S) (r : Rule) : Prop := interest r s = false.

Class LiveInvariant : Prop := {
  li_nodup l s : I l s -> NoDup l;
  li_call r l s s' : I l s -> r ∈ l -> unfinished s r -> callback r s = Ok s' ->
    I l s' /\ forall r', r' ∈ l -> r' <> r -> unfinished s r' -> unfinished s' r';
  li_cancel l1 r l2 s s' : I (l1 ++ r :: l2) s -> finished r s = true \/ hangup r ->
    cancel r s = Ok s' ->
    I (l1 ++ l2) s' /\ forall r', r' ∈ l1 ++ l2 -> unfinished s r' -> unfinished s' r' }.

(** No handler wakes a rule that was asked for its interest earlier in the round. *)
Definition cancels_keep_idle : Prop := forall l1 r l2 s s',
  I (l1 ++ r :: l2) s -> cancel r s = Ok s' -> forall r', r' ∈ l1 -> uninterested s r' -> uninterested s' r'.

(** [poll] reports a hangup, and nothing else of what was asked, only for those rules. *)
Definition hangs_up (poll : list pollfd -> Z -> poll_answer) : Prop :=
  forall ps timeout_ms revs, poll (snd <$> ps) timeout_ms = PollReady revs ->
    forall r p, (r, p) ∈ set_revents ps revs ->
      has POLLHUP (revents p) = true -> events p <> 0 -> has (events p) (revents p) = false -> hangup r.

Context `{!LiveInvariant}.

Lemma setup_live rules : forall l s ps b s',
  I (l ++ rules) s -> Forall (unfinished s) l -> setup_polls rules s = Ok (ps, b, s') ->
  I (l ++ (fst <$> ps)) s' /\ Forall (unfinished s') (l ++ (fst <$> ps)) /\
  Forall (fun '(_, p) => revents p = 0) ps /\
  (cancels_keep_idle -> b = false -> Forall (uninterested s) l ->
   Forall (uninterested s') (l ++ (fst <$> ps))).
Proof.
  induction rules as [|r rules IH]; intros l s ps b s' HI Hu E; cbn [setup_polls] in E.
  - apply Ok_inj in E. injection E as <- <- <-. cbn. rewrite app_nil_r in *.
    split_and!; [done|done|constructor|done].
  - destruct (finished r s) eqn:Ef.
    + apply bind_Ok in E as (s1 & E1 & E).
      destruct (li_cancel _ _ _ _ _ HI (or_introl Ef) E1) as (HI1 & Hu1).
      destruct (IH l s1 ps b s' HI1) as (HI2 & Hu2 & Hr & Hi2); [|exact E|].
      { apply Forall_forall. intros r' Hr'. apply Hu1; [apply elem_of_app; by left|].
        by apply (proj1 (Forall_forall _ _) Hu). }
      split_and!; [done..|]. intros Hk Hb Hl. apply Hi2; [done|done|]. apply Forall_forall.
      intros r' Hr'. apply (Hk _ _ _ _ _ HI E1); [done|]. by apply (proj1 (Forall_forall _ _) Hl).
    + apply bind_Ok in E as ([[ps1 b1] s1] & E1 & E). apply Ok_inj in E. injection E as <- <- <-.
      destruct (IH (l ++ [r]) s ps1 b1 s1) as (HI2 & Hu2 & Hr & Hi2); [|by apply Forall_app; split; [|repeat constructor]|exact E1|].
      { by rewrite <- app_assoc. }
      cbn [fmap list_fmap fst]. rewrite <- app_assoc in *. split_and!; [done|done|by constructor|].
      intros Hk [Hw Hb]%orb_false_iff Hl. apply Hi2; [done|done|]. by apply Forall_app; split; [|repeat constructor].
Qed.

Lemma dispatch_live ps : forall l s rules' s',
  I (l ++ (fst <$> ps)) s -> Forall (unfinished s) (fst <$> ps) ->
  (forall r p, (r, p) ∈ ps -> has POLLHUP (revents p) = true -> events p <> 0 ->
     has (events p) (revents p) = false -> hangup r) ->
  dispatch ps s = Ok (rules', s') -> I (l ++ rules') s'.
Proof.
  induction ps as [|[r p] ps IH]; intros l s rules' s' HI Hu Hh E; cbn [dispatch] in E.
  { apply Ok_inj in E. by injection E as <- <-. }
  apply bind_Ok in E as ([keep s1] & E1 & E). apply bind_Ok in E as ([rules2 s2] & E2 & E).
  apply Ok_inj in E. injection E as <- <-. cbn [fmap list_fmap fst] in HI, Hu.
  apply Forall_cons in Hu as [Hur Hu].
  assert (Hh' : forall r p, (r, p) ∈ ps -> has POLLHUP (revents p) = true -> events p <> 0 ->
     has (events p) (revents p) = false -> hangup r).
  { intros r' p' Hin. apply (Hh r' p'). by right. }
  unfold dispatch_one in E1. destruct (has (Z.lor _ _) _); [done|].
  destruct (has POLLHUP (revents p) && negb (events p =? 0) && negb (has (events p) (revents p))) eqn:Eh.
  - apply bind_Ok in E1 as (s0 & Ec & E1). apply Ok_inj in E1. injection E1 as <- <-.
    apply andb_true_iff in Eh as [[Eh1 Eh2]%andb_true_iff Eh3%negb_true_iff].
    destruct (li_cancel l r (fst <$> ps) s s0 HI) as (HI1 & Hu1); [|exact Ec|].
    { right. apply (Hh r p); [by left|done| |done]. intros E0. by rewrite E0 in Eh2. }
    eapply IH; [exact HI1| |exact Hh'|exact E2]. apply Forall_forall. intros r' Hr'.
    apply Hu1; [apply elem_of_app; by right|]. by apply (proj1 (Forall_forall _ _) Hu).
  - assert (Hcases : callback r s = Ok s1 /\ keep = true \/ s1 = s /\ keep = true).
    { destruct (has (events p) (revents p)).
      - apply bind_Ok in E1 as (s0 & Ec & E1). destruct (_ && interest _ _); [done|].
        apply Ok_inj in E1. injection E1 as <- <-. by left.
      - apply Ok_inj in E1. injection E1 as <- <-. by right. }
    replace (l ++ r :: (fst <$> ps)) with ((l ++ [r]) ++ (fst <$> ps)) in HI by by rewrite <- app_assoc.
    destruct Hcases as [[Ec ->]|[-> ->]]; change (r :: rules2) with ([r] ++ rules2); rewrite app_assoc.
    + destruct (li_call r _ s s1 HI) as [HI1 Hu1]; [|done|exact Ec|].
      { apply elem_of_app. left. apply elem_of_app. right. by left. }
      eapply IH; [exact HI1| |exact Hh'|exact E2]. apply Forall_forall. intros r' Hr'.
      apply Hu1; [apply elem_of_app; by right| |by apply (proj1 (Forall_forall _ _) Hu)].
      intros ->. pose proof (li_nodup _ _ HI) as N. rewrite <- app_assoc in N.
      apply NoDup_app in N as (_ & _ & N). by apply NoDup_cons in N as [N _].
    + eapply IH; [exact HI|exact Hu|exact Hh'|exact E2].
Qed.

Lemma wait_live poll timeout_ms rules s res rules' s' :
  hangs_up poll -> I rules s -> wait_next_event poll timeout_ms rules s = Ok (res, rules', s') ->
  I rules' s' /\
  (cancels_keep_idle -> res = Exit ->
   Forall (uninterested s') rules' \/ exists ps, poll ps timeout_ms = PollError EINTR).
Proof.
  intros Hh HI E. unfold wait_next_event in E. apply bind_Ok in E as ([[ps b] s1] & E1 & E).
  destruct (setup_live rules [] s ps b s1 HI) as (HI1 & Hu1 & Hr & Hi); [constructor|done|].
  cbn [app] in *.
  destruct b; cbn [negb] in E.
  2: { apply Ok_inj in E. injection E as <- <- <-. split; [done|]. intros Hk _. left. by apply Hi. }
  assert (Go : forall ps', fst <$> ps' = fst <$> ps ->
    (forall r p, (r, p) ∈ ps' -> has POLLHUP (revents p) = true -> events p <> 0 ->
     has (events p) (revents p) = false -> hangup r) ->
    ('(rules, s) ← dispatch ps' s1; Ok (Success, rules, s)) = Ok (res, rules', s') ->
    I rules' s' /\ res = Success).
  { intros ps' Hfst Hp Ed. apply bind_Ok in Ed as ([rs s2] & Ed & Er). apply Ok_inj in Er.
    injection Er as <- <- <-. split; [|done].
    apply (dispatch_live ps' [] s1); [|by rewrite Hfst|exact Hp|exact Ed]. by rewrite Hfst. }
  destruct (poll (snd <$> ps) timeout_ms) as [revs| |e] eqn:Ep.
  - destruct (Go (set_revents ps revs)) as [? ->]; [apply set_revents_rules| |exact E|done].
    exact (Hh ps timeout_ms revs Ep).
  - apply Ok_inj in E. by injection E as <- <- <-.
  - destruct (Z.eqb_spec e EINTR) as [->|].
    + apply Ok_inj in E. injection E as <- <- <-. split; [done|]. intros _ _. right. by eexists.
    + destruct (Go ps) as [? ->]; [done| |exact E|done]. intros r p Hin Hhup. exfalso.
      pose proof (proj1 (Forall_forall _ _) Hr _ Hin) as Hz. cbn in Hz. rewrite Hz in Hhup. done.
Qed.
(** A round returns when the handlers do, each call uses the descriptor, and [poll] reports
    no error. *)
Definition handlers_run : Prop :=
  (forall r l s, I l s -> r ∈ l -> unfinished s r -> exists s', callback r s = Ok s' /\
     (service_count r s <> service_count r s' \/ interest r s' = false)) /\
  (forall r l s, I l s -> r ∈ l -> exists s', cancel r s = Ok s').

Definition reports_no_error (poll : list pollfd -> Z -> poll_answer) : Prop :=
  forall ps timeout_ms revs, poll ps timeout_ms = PollReady revs ->
    Forall (fun v => has (Z.lor POLLERR POLLNVAL) v = false) revs.

Lemma setup_runs rules : handlers_run -> forall l s,
  I (l ++ rules) s -> exists ps b s', setup_polls rules s = Ok (ps, b, s').
Proof.
  intros [_ Hc]. induction rules as [|r rules IH]; intros l s HI; cbn [setup_polls]; [by eauto|].
  destruct (finished r s) eqn:Ef.
  - destruct (Hc r _ s HI) as [s1 E1]; [apply elem_of_app; right; by left|].
    destruct (li_cancel _ _ _ _ _ HI (or_introl Ef) E1) as (HI1 & _).
    rewrite E1. exact (IH _ _ HI1).
  - destruct (IH (l ++ [r]) s) as (ps & b & s' & ->); [by rewrite <- app_assoc|].
    cbn [mbind outcome_bind]. by eauto.
Qed.

Lemma dispatch_runs ps : handlers_run -> forall l s,
  I (l ++ (fst <$> ps)) s -> Forall (unfinished s) (fst <$> ps) ->
  (forall r p, (r, p) ∈ ps -> has POLLHUP (revents p) = true -> events p <> 0 ->
     has (events p) (revents p) = false -> hangup r) ->
  Forall (fun '(_, p) => has (Z.lor POLLERR POLLNVAL) (revents p) = false) ps ->
  exists rules' s', dispatch ps s = Ok (rules', s').
Proof.
  intros [Hb Hc]. induction ps as [|[r p] ps IH]; intros l s HI Hu Hh He; cbn [dispatch]; [by eauto|].
  apply Forall_cons in He as [He1 He]. cbn [fmap list_fmap fst] in HI, Hu.
  apply Forall_cons in Hu as [Hur Hu].
  assert (Hr : r ∈ l ++ r :: (fst <$> ps)) by (apply elem_of_app; right; by left).
  assert (Hh' : forall r p, (r, p) ∈ ps -> has POLLHUP (revents p) = true -> events p <> 0 ->
     has (events p) (revents p) = false -> hangup r).
  { intros r' p' Hin. apply (Hh r' p'). by right. }
  unfold dispatch_one. rewrite He1.
  destruct (has POLLHUP (revents p) && negb (events p =? 0) && negb (has (events p) (revents p))) eqn:Eh.
  - apply andb_true_iff in Eh as [[Eh1 Eh2]%andb_true_iff Eh3%negb_true_iff].
    destruct (Hc r _ s HI Hr) as [s0 Ec].
    destruct (li_cancel l r (fst <$> ps) s s0 HI) as (HI1 & Hu1); [|exact Ec|].
    { right. apply (Hh r p); [by left|done| |done]. intros E0. by rewrite E0 in Eh2. }
    rewrite Ec. cbn [mbind outcome_bind].
    destruct (IH l s0) as (rules' & s' & ->); [exact HI1| |exact Hh'|exact He|cbn; by eauto].
    apply Forall_forall. intros r' Hr'.
    apply Hu1; [apply elem_of_app; by right|]. by apply (proj1 (Forall_forall _ _) Hu).
  - assert (Hrest : forall s1, I (l ++ r :: (fst <$> ps)) s1 -> Forall (unfinished s1) (fst <$> ps) ->
      exists rules' s', dispatch ps s1 = Ok (rules', s')).
    { intros s1 HI1 Hu1. apply (IH (l ++ [r])); try done. by rewrite <- app_assoc. }
    destruct (has (events p) (revents p)).
    + destruct (Hb r _ s HI Hr Hur) as (s1 & Ec & Hbusy). rewrite Ec. cbn [mbind outcome_bind].
      assert ((service_count r s =? service_count r s1) && interest r s1 = false) as ->.
      { destruct Hbusy as [Hx|Hx]; [by rewrite (proj2 (Z.eqb_neq _ _) Hx)|by rewrite Hx, andb_false_r]. }
      cbn [mbind outcome_bind].
      destruct (li_call r _ s s1 HI Hr Hur Ec) as [HI1 Hu1].
      destruct (Hrest s1 HI1) as (rules' & s' & ->); [|cbn; by eauto].
      apply Forall_forall. intros r' Hr'.
      apply Hu1; [apply elem_of_app; right; by right| |by apply (proj1 (Forall_forall _ _) Hu)].
      intros ->. pose proof (li_nodup _ _ HI) as N.
      apply NoDup_app in N as (_ & _ & N). by apply NoDup_cons in N as [N _].
    + cbn [mbind outcome_bind]. destruct (Hrest s HI Hu) as (rules' & s' & ->). cbn. by eauto.
Qed.

Lemma set_revents_fine ps : forall revs,
  Forall (fun '(_, p) => revents p = 0) ps ->
  Forall (fun v => has (Z.lor POLLERR POLLNVAL) v = false) revs ->
  Forall (fun '(_, p) => has (Z.lor POLLERR POLLNVAL) (revents p) = false) (set_revents ps revs).
Proof.
  induction ps as [|[r p] ps IH]; intros revs Hz Hv; [by destruct revs|].
  apply Forall_cons in Hz as [Hz1 Hz]. destruct revs as [|v revs]; cbn [set_revents].
  - constructor; [by rewrite Hz1|]. eapply Forall_impl; [exact Hz|]. by intros [r0 p0] ->.
  - apply Forall_cons in Hv as [Hv1 Hv]. constructor; [done|]. by apply IH.
Qed.

Lemma wait_runs poll timeout_ms rules s :
  handlers_run -> hangs_up poll -> reports_no_error poll -> I rules s ->
  exists res rules' s', wait_next_event poll timeout_ms rules s = Ok (res, rules', s').
Proof.
  intros Hr Hh He HI. unfold wait_next_event.
  destruct (setup_runs rules Hr [] s HI) as (ps & b & s1 & E1). rewrite E1. cbn [mbind outcome_bind].
  destruct (setup_live rules [] s ps b s1 HI) as (HI1 & Hu1 & Hz & _); [constructor|done|]. cbn [app] in *.
  destruct b; cbn [negb]; [|by eauto].
  assert (Go : forall ps', fst <$> ps' = fst <$> ps ->
    (forall r p, (r, p) ∈ ps' -> has POLLHUP (revents p) = true -> events p <> 0 ->
     has (events p) (revents p) = false -> hangup r) ->
    Forall (fun '(_, p) => has (Z.lor POLLERR POLLNVAL) (revents p) = false) ps' ->
    exists res rules' s', ('(rules, s) ← dispatch ps' s1; Ok (Success, rules, s)) = Ok (res, rules', s')).
  { intros ps' Hfst Hp Hfine. destruct (dispatch_runs ps' Hr [] s1) as (rules' & s' & ->);
      [by rewrite Hfst|by rewrite Hfst|done|done|]. cbn. by eauto. }
  destruct (poll (snd <$> ps) timeout_ms) as [revs| |e] eqn:Ep; [|by eauto|].
  - apply Go; [apply set_revents_rules|exact (Hh ps timeout_ms revs Ep)|].
    apply set_revents_fine; [exact Hz|exact (He _ _ _ Ep)].
  - destruct (e =? EINTR); [by eauto|]. apply Go; [done| |].
    + intros r p Hin Hhup. exfalso.
      pose proof (proj1 (Forall_forall _ _) Hz _ Hin) as Hx. cbn in Hx. rewrite Hx in Hhup. done.
    + eapply Forall_impl; [exact Hz|]. by intros [r p] ->.
Qed.
End live.
End loop.
Arguments Rule S : clear implicits.

(** ** Properties *)

Section properties.
Context {S : Type} `{HasFds S}.

(** C29. A round of the loop does exactly what [round_spec] says and returns in no other case. First, in the order of
    the list, the finished rules and no others are cancelled and dropped. Then the result is Exit if no rule that is
    left was interested, or a signal interrupted [poll]; it is Timeout if [poll] timed out; and otherwise it is Success, and in the
    order of the list each rule whose descriptor is ready for what it asked is called, each rule that asked and is
    told of a hangup alone is cancelled and dropped, and no other rule is touched; a callback that neither uses its descriptor
    nor loses interest, and an error on a descriptor, do not let the round return. *)
Theorem round_steps (poll : list pollfd -> Z -> poll_answer) timeout_ms rules (s : S) res rules' s' :
  wait_next_event poll timeout_ms rules s = Ok (res, rules', s') <-> round_spec poll timeout_ms rules s res rules' s'.
Proof. apply wait_specified. Qed.

(** Invariants of a client: a property of its states that every callback and every cancel
    handler of the rules keeps is kept by every round. *)
Theorem round_keeps_invariant (I : S -> Prop) (poll : list pollfd -> Z -> poll_answer)
    timeout_ms rules (s : S) res rules' s' :
  keeps I rules -> I s -> wait_next_event poll timeout_ms rules s = Ok (res, rules', s') ->
  I s' /\ keeps I rules'.
Proof. apply wait_keeps. Qed.

(** A failed poll is not reported: when [poll] fails with any error but EINTR, the round
    returns Success having called no rule, although the comment promises an exception; a
    client that loops on Success spins. *)
Theorem poll_error_is_success (poll : list pollfd -> Z -> poll_answer) timeout_ms rules (s : S) ps s1 e :
  setup_polls rules s = Ok (ps, true, s1) -> poll (snd <$> ps) timeout_ms = PollError e -> e <> EINTR ->
  wait_next_event poll timeout_ms rules s = Ok (Success, fst <$> ps, s1).
Proof.
  intros E Hp He. unfold wait_next_event. rewrite E. cbn [mbind outcome_bind negb].
  rewrite Hp, (proj2 (Z.eqb_neq e EINTR)) by done.
  destruct (setup_polls_steps _ _ _ _ _ E) as (gone & _ & _ & F).
  rewrite dispatch_idle; [done|]. eapply Forall_impl; [exact F|]. by intros [r p] [? _].
Qed.
End properties.

(** ** A client with one descriptor, whose callback counts as a read *)

Definition demo_fd : FDWrapper := mkFDWrapper 3 false false 0 0.
Instance demo_fds : HasFds FDWrapper := fun _ w => w.
Definition demo_rules : list (Rule FDWrapper) :=
  add_rule 0 In (fun w => Ok (register_read w)) (fun _ => true) Ok [].

(** Of two rules one is called, and one has seen the end of its file. *)
Definition demo_pair : Type := FDWrapper * FDWrapper.
Instance demo_pair_fds : HasFds demo_pair := fun i w => match i with O => fst w | _ => snd w end.
Definition demo_pair_rules : list (Rule demo_pair) :=
  add_rule 0 In (fun w => Ok (register_read (fst w), snd w)) (fun _ => true) Ok
    (add_rule 1 In Ok (fun _ => true) (fun w => Ok (fst w, register_write (snd w))) []).
Definition demo_ended : FDWrapper := mkFDWrapper 4 true false 0 0.

Lemma round_steps_witness :
  round_spec (fun _ _ => PollReady [POLLIN]) (-1) demo_pair_rules (demo_fd, demo_ended) Success
    (drop 1 demo_pair_rules) (register_read demo_fd, register_write demo_ended).
Proof. apply round_steps. reflexivity. Defined.

Lemma round_keeps_invariant_witness :
  fd_num (register_read demo_fd) = 3 /\ keeps (fun w => fd_num w = 3) demo_rules.
Proof.
  apply (round_keeps_invariant (fun w => fd_num w = 3) (fun _ _ => PollReady [POLLIN]) (-1) demo_rules
    demo_fd Success demo_rules); [|reflexivity..].
  constructor; [|constructor]. intros s s' Hs [E|E]; apply Ok_inj in E; by subst s'.
Defined.

Lemma poll_error_is_success_witness :
  wait_next_event (fun _ _ => PollError 22) (-1) demo_rules demo_fd = Ok (Success, demo_rules, demo_fd).
Proof.
  apply (poll_error_is_success (fun _ _ => PollError 22) (-1) demo_rules demo_fd
    [(mkRule 0 In (fun w => Ok (register_read w)) (fun _ => true) Ok, mk_pollfd 3 1 0)] demo_fd 22);
    [reflexivity|reflexivity|done].
Defined.

(** [poll] finds everything ready that is asked for. *)
Definition demo_poll (ps : list pollfd) (_ : Z) : poll_answer := 
  PollReady ((fun p => Z.land (events p) (Z.lor POLLIN POLLOUT)) <$> ps).

Lemma demo_masked mask p :
  Z.land (Z.lor POLLIN POLLOUT) mask = 0 -> has mask (Z.land (events p) (Z.lor POLLIN POLLOUT)) = false.
Proof. intros E. unfold has. by rewrite <- Z.land_assoc, E, Z.land_0_r. Qed.

Lemma demo_no_hangup {S} `{HasFds S} : hangs_up (S := S) (fun _ => False) demo_poll.
Proof.
  intros ps t revs [= <-] r p Hin Hhup Hev Hno. clear Hev Hno. revert Hin.
  induction ps as [|[r0 p0] ps IH]; intros Hin; [by apply not_elem_of_nil in Hin|].
  cbn in Hin. apply elem_of_cons in Hin as [E|Hin]; [|by apply IH].
  injection E as -> ->. cbn [revents] in Hhup. by rewrite demo_masked in Hhup.
Qed.

Lemma demo_no_error : reports_no_error demo_poll.
Proof.
  intros ps t revs [= <-]. apply Forall_forall. intros v (p & -> & _)%list_elem_of_fmap.
  by apply demo_masked.
Qed.
