(* ===== verification/StreamCopy.v ===== *)
(** * StreamCopy (apps/bidirectional_stream_copy.cc)

    Standard input goes to a socket and the socket to standard output, through two byte
    streams and four rules of an event loop.  The clients are the theorems of [ByteStream],
    [FileDescriptor], [Socket] and [EventLoop]. *)

From S2P Require Import Prelude ByteStream Buffer Kernel FileDescriptor Socket EventLoop.

Definition max_copy_length : Z := 65536.
Definition buffer_size : Z := 1048576.
Definition STDIN_FILENO : Z := 0.
Definition STDOUT_FILENO : Z := 1.

(** The local variables of [bidirectional_stream_copy], and the system calls so far. *)
Record copy_state := mk_copy {
  _input : FDWrapper;
  socket : FDWrapper;
  _output : FDWrapper;
  _outbound : ByteStream;
  _inbound : ByteStream;
  _outbound_shutdown : bool;
  _inbound_shutdown : bool;
  calls : history }.

#[export] Instance eta_copy_state : Eta copy_state := fun s =>
  mk_copy (_input s) (socket s) (_output s) (_outbound s) (_inbound s)
    (_outbound_shutdown s) (_inbound_shutdown s) (calls s).

(** The descriptors of the rules: 0 is [_input], 1 is [socket], 2 is [_output]. *)
#[export] Instance copy_fds : HasFds copy_state := fun i s =>
  match i with O => _input s | S O => socket s | _ => _output s end.

(** What rules 1 and 3 do: read what fits into the stream, and note the end. *)
Definition fill_from `{Kernel} (src : FDWrapper) (st : ByteStream) (h : history)
  : outcome (FDWrapper * ByteStream * history) :=
  '(data, src, h) ← FileDescriptor.read (remaining_capacity st) src h;
  let st := snd (ByteStream.write data st) in
  Ok (src, if FileDescriptor.eof src then end_input st else st, h).

(** What rules 2 and 4 do before they test for the end: write what the descriptor takes. *)
Definition drain_to `{Kernel} (dst : FDWrapper) (st : ByteStream) (h : history)
  : outcome (FDWrapper * ByteStream * history) :=
  let bytes_to_write := Z.min max_copy_length (ByteStream.buffer_size st) in
  '(bytes_written, dst, h) ← write_string (peek_output bytes_to_write st) false dst h;
  Ok (dst, pop_output bytes_written st, h).

Section rules.
Context `{Kernel}.
Implicit Types (s : copy_state).

Definition callback1 s : outcome copy_state :=
  '(f, st, h) ← fill_from (_input s) (_outbound s) (calls s);
  Ok (s <| _input := f |> <| _outbound := st |> <| calls := h |>).
Definition interest1 s : bool :=
  negb (error (_outbound s)) && (0 <? remaining_capacity (_outbound s)) && negb (error (_inbound s)).
Definition cancel_outbound s : outcome copy_state :=
  Ok (s <| _outbound := end_input (_outbound s) |>).

Definition callback2 s : outcome copy_state :=
  '(f, st, h) ← drain_to (socket s) (_outbound s) (calls s);
  let s := s <| socket := f |> <| _outbound := st |> <| calls := h |> in
  if ByteStream.eof (_outbound s) then
    '(f, h) ← shutdown SHUT_WR (socket s) (calls s);
    Ok (s <| socket := f |> <| calls := h |> <| _outbound_shutdown := true |>)
  else Ok s.
Definition interest2 s : bool :=
  negb (buffer_empty (_outbound s)) || ByteStream.eof (_outbound s) && negb (_outbound_shutdown s).

Definition callback3 s : outcome copy_state :=
  '(f, st, h) ← fill_from (socket s) (_inbound s) (calls s);
  Ok (s <| socket := f |> <| _inbound := st |> <| calls := h |>).
Definition interest3 s : bool :=
  negb (error (_inbound s)) && (0 <? remaining_capacity (_inbound s)) && negb (error (_outbound s)).
Definition cancel_inbound s : outcome copy_state :=
  Ok (s <| _inbound := end_input (_inbound s) |>).

Definition callback4 s : outcome copy_state :=
  '(f, st, h) ← drain_to (_output s) (_inbound s) (calls s);
  let s := s <| _output := f |> <| _inbound := st |> <| calls := h |> in
  if ByteStream.eof (_inbound s) then
    '(f, h) ← close (_output s) (calls s);
    Ok (s <| _output := f |> <| calls := h |> <| _inbound_shutdown := true |>)
  else Ok s.
Definition interest4 s : bool :=
  negb (buffer_empty (_inbound s)) || ByteStream.eof (_inbound s) && negb (_inbound_shutdown s).

Definition rule1 : Rule copy_state := mkRule 0 In callback1 interest1 cancel_outbound.
Definition rule2 : Rule copy_state := mkRule 1 Out callback2 interest2 cancel_outbound.
Definition rule3 : Rule copy_state := mkRule 1 In callback3 interest3 cancel_inbound.
Definition rule4 : Rule copy_state := mkRule 2 Out callback4 interest4 cancel_inbound.

Definition copy_rules : list (Rule copy_state) :=
  add_rule 2 Out callback4 interest4 cancel_inbound
    (add_rule 1 In callback3 interest3 cancel_inbound
      (add_rule 1 Out callback2 interest2 cancel_outbound
        (add_rule 0 In callback1 interest1 cancel_outbound []))).

(** Everything up to the loop, for a connected socket. *)
Definition copy_start (sock : FDWrapper) (h : history) : outcome copy_state :=
  input ← FileDescriptor.new STDIN_FILENO;
  output ← FileDescriptor.new STDOUT_FILENO;
  h ← set_blocking false sock h;
  h ← set_blocking false input h;
  h ← set_blocking false output h;
  Ok (mk_copy input sock output (ByteStream.new buffer_size) (ByteStream.new buffer_size)
        false false h).

(** The loop, for the answers [polls] gives to the calls of [poll]; the flag tells whether
    it has returned. *)
Fixpoint copy_loop (polls : list (list pollfd -> Z -> poll_answer)) (rules : list (Rule copy_state))
    (s : copy_state) : outcome (bool * list (Rule copy_state) * copy_state) :=
  match polls with
  | [] => Ok (false, rules, s)
  | poll :: polls =>
    '(res, rules, s) ← wait_next_event poll (-1) rules s;
    match res with Exit => Ok (true, rules, s) | _ => copy_loop polls rules s end
  end.

Definition bidirectional_stream_copy (polls : list (list pollfd -> Z -> poll_answer))
    (sock : FDWrapper) (h : history) : outcome (bool * list (Rule copy_state) * copy_state) :=
  s ← copy_start sock h; copy_loop polls copy_rules s.
End rules.

(** ** One direction

    [rin] and [rout] say that the rule that fills the stream and the one that drains it are
    still in the list, and [hup] that the destination may hang up.  Unless it did,
    the stream has accepted all that was read. *)

Record dir_inv (rin rout hup : Prop) (src dst : FDWrapper) (st : ByteStream) (shut : bool)
    (h : history) (f : fifo) : Prop := mk_dir_inv {
  di_ref : refines st f;
  di_bound : bound f = buffer_size;
  di_fail : failed f = false;
  di_out : written_to (fd_num dst) h = ztake (popped f) (hist f);
  di_prefix : hist f `prefix_of` read_from (fd_num src) h;
  di_all : hist f = read_from (fd_num src) h \/ ended f = true /\ ~ rout /\ shut = false;
  di_ended : ended f = true ->
    FileDescriptor.eof src = true \/ ~ rin \/ (~ rout /\ shut = false);
  di_gone : ~ rin -> ended f = true;
  di_shut : shut = true -> ended f = true /\ popped f = zlen (hist f);
  di_closed : closed dst = true -> shut = true;
  di_aborted : ~ rout -> shut = true \/ hup }.

Definition dir_ok (rin rout hup : Prop) src dst st shut h : Prop :=
  exists f, dir_inv rin rout hup src dst st shut h f.

Section direction.
Implicit Types (rin rout hup : Prop) (st : ByteStream) (src dst : FDWrapper) (h : history).

(** What the other direction may change. *)
Lemma dir_frame rin rout rin' rout' hup src dst src' dst' st shut h h' :
  (rin' <-> rin) -> (rout' <-> rout) ->
  fd_num src' = fd_num src -> FileDescriptor.eof src' = FileDescriptor.eof src ->
  fd_num dst' = fd_num dst -> closed dst' = closed dst ->
  read_from (fd_num src) h' = read_from (fd_num src) h ->
  written_to (fd_num dst) h' = written_to (fd_num dst) h ->
  dir_ok rin rout hup src dst st shut h -> dir_ok rin' rout' hup src' dst' st shut h'.
Proof.
  intros Hi Ho E1 E2 E3 E4 E5 E6 (f & []). exists f.
  split; rewrite ?E1, ?E2, ?E3, ?E4, ?E5, ?E6, ?Hi, ?Ho; try done; by rewrite <- E4.
Qed.

Lemma dir_new rin rout hup src dst h :
  rin -> rout -> read_from (fd_num src) h = [] -> written_to (fd_num dst) h = [] -> closed dst = false ->
  dir_ok rin rout hup src dst (ByteStream.new buffer_size) false h.
Proof.
  intros Hi Ho Hr Hw Hc. exists (fifo_new buffer_size).
  split; rewrite ?Hr, ?Hw, ?Hc; try done; by left.
Qed.

Lemma fill_step `{Kernel} rin rout hup src dst st shut h src' st' h' :
  rin -> FileDescriptor.eof src = false -> dir_ok rin rout hup src dst st shut h ->
  fill_from src st h = Ok (src', st', h') ->
  dir_ok rin rout hup src' dst st' shut h' /\
  fd_num src' = fd_num src /\ closed src' = closed src /\
  (forall fd, fd <> fd_num src -> read_from fd h' = read_from fd h) /\
  (forall fd, written_to fd h' = written_to fd h).
Proof.
  intros Hin He (f & [R Hb Hfl Hout Hpre Hall Hend Hgone Hshut Hcl Hab]) E.
  unfold fill_from in E. apply bind_Ok in E as ([[data src1] h1] & E1 & E).
  apply Ok_inj in E. injection E as <- <- <-.
  apply read_inv in E1 as (Hlen & (Hr & Hro & Hw) & Hfd & Hc & Heof).
  split; [|by split_and!].
  destruct (bs_refines_write data st f R) as [Hn R'].
  set (n := fst (ByteStream.write data st)) in *. set (st1 := snd (ByteStream.write data st)) in *.
  set (f1 := mk_fifo (hist f ++ ztake n data) (popped f) (bound f) (ended f) (failed f)) in R'.
  pose proof (ref_popped _ _ R) as Hp.
  assert (Hacc : ended f = false -> hist f ++ ztake n data = read_from (fd_num src) h1).
  { intros He0. destruct Hall as [->|[? _]]; [|congruence]. rewrite Hr. f_equal.
    apply ztake_ge. rewrite Hn, He0.
    pose proof (bs_remaining_capacity_spec st (ref_wf _ _ R)) as Hrem.
    rewrite Hrem, (ref_cap _ _ R), (wf_size _ (ref_wf _ _ R)), (ref_buf _ _ R) in Hlen. lia. }
  assert (Hcase : ended f = true -> n = 0 /\ ~ rout /\ shut = false).
  { intros He1. split; [by rewrite Hn, He1|]. destruct (Hend He1) as [?|[?|?]]; [congruence|done|done]. }
  assert (R2 : refines (if FileDescriptor.eof src1 then end_input st1 else st1)
     (mk_fifo (hist f1) (popped f) (bound f) (ended f || FileDescriptor.eof src1) (failed f))).
  { destruct (FileDescriptor.eof src1); [rewrite orb_true_r; by apply (bs_refines_end _ f1)|].
    by rewrite orb_false_r. }
  eexists. split; [exact R2|..]; cbn [hist popped bound ended failed f1]; rewrite ?Hfd, ?Hw; try done.
  - rewrite ztake_app_le by lia. done.
  - destruct (ended f) eqn:He1.
    + destruct (Hcase eq_refl) as [-> _]. rewrite ztake_0, app_nil_r, Hr. by apply prefix_app_r.
    + by rewrite Hacc.
  - destruct (ended f) eqn:He1; [|left; by apply Hacc]. right. by destruct (Hcase eq_refl).
  - intros [He1|He1]%orb_true_iff; [|by left]. right; right. by apply Hcase.
  - intros Hs. destruct (Hshut Hs) as [He1 Hp1]. destruct (Hcase He1) as (_ & _ & ?). congruence.
Qed.

Lemma drain_step `{Kernel} rin rout hup src dst st shut h dst' st' h' :
  dir_ok rin rout hup src dst st shut h -> drain_to dst st h = Ok (dst', st', h') ->
  dir_ok rin rout hup src dst' st' shut h' /\ only_writes dst dst' /\
  (forall fd, fd <> fd_num dst -> written_to fd h' = written_to fd h) /\
  (forall fd, read_from fd h' = read_from fd h).
Proof.
  intros (f & [R Hb Hfl Hout Hpre Hall Hend Hgone Hshut Hcl Hab]) E.
  unfold drain_to in E. apply bind_Ok in E as ([[n dst1] h1] & E1 & E).
  apply Ok_inj in E. injection E as <- <- <-.
  pose proof (ref_popped _ _ R) as Hp.
  set (m := Z.min max_copy_length (ByteStream.buffer_size st)) in *.
  assert (Hm : 0 <= m <= 65536).
  { unfold m, ByteStream.buffer_size, max_copy_length. rewrite (wf_size _ (ref_wf _ _ R)). lia. }
  rewrite (bs_refines_peek _ _ _ R) in E1 by lia.
  apply write_string_inv in E1 as ([Hn _] & (W & Wo & Rd) & ->); [|rewrite zlen_ztake by lia; lia].
  split; [|by split_and!].
  pose proof (bs_refines_pop n st f R ltac:(lia)) as R'.
  eexists. split; [exact R'|..]; cbn [hist popped bound ended failed]; rewrite ?Rd; try done.
  - change (fd_num (register_write dst)) with (fd_num dst). rewrite W, Hout.
    rewrite zlen_ztake in Hn by lia.
    unfold ztake at 2 3. rewrite take_take, Nat.min_l by lia. fold (ztake n (pending f)).
    unfold pending. by rewrite ztake_app_zdrop by lia.
  - intros Hs. destruct (Hshut Hs) as [He1 Hp1]. split; [done|]. lia.
Qed.

(** The stream is at its end after a drain: the destination is shut down. *)
Lemma shut_step rin rout hup src dst st shut h dst' h' :
  rout -> ByteStream.eof st = true -> fd_num dst' = fd_num dst -> no_transfer h h' ->
  dir_ok rin rout hup src dst st shut h -> dir_ok rin rout hup src dst' st true h'.
Proof.
  intros Ho He Hfd Hnt (f & [R Hb Hfl Hout Hpre Hall Hend Hgone Hshut Hcl Hab]).
  destruct (Hnt (fd_num src)) as [Hr _], (Hnt (fd_num dst)) as [_ Hw].
  apply andb_true_iff in He as [H0%Z.eqb_eq H1].
  rewrite (wf_size _ (ref_wf _ _ R)), (ref_buf _ _ R), bs_zlen_pending in H0 by apply R.
  rewrite (ref_end _ _ R) in H1.
  exists f. split; rewrite ?Hfd, ?Hr, ?Hw; try done.
  - destruct Hall as [?|(_ & ? & _)]; [by left|done].
  - intros He. destruct (Hend He) as [?|[?|[? _]]]; [by left|by right; left|done].
  - intros _. split; [done|lia].
Qed.

Lemma cancel_in_step (rin rin' rout : Prop) hup src dst st shut h :
  ~ rin' -> dir_ok rin rout hup src dst st shut h ->
  dir_ok rin' rout hup src dst (end_input st) shut h.
Proof.
  intros Hi (f & [R Hb Hfl Hout Hpre Hall Hend Hgone Hshut Hcl Hab]).
  eexists. split; [by apply bs_refines_end|..]; cbn [hist popped bound ended failed]; try done.
  - destruct Hall as [?|(_ & ?)]; [by left|by right].
  - intros _. by right; left.
  - intros Hs. by destruct (Hshut Hs).
Qed.

Lemma cancel_out_step (rin rout rout' hup : Prop) src dst st shut h :
  rout -> ~ rout' -> (closed dst = true \/ hup) -> dir_ok rin rout hup src dst st shut h ->
  dir_ok rin rout' hup src dst (end_input st) shut h.
Proof.
  intros Ho Ho' Hc (f & [R Hb Hfl Hout Hpre Hall Hend Hgone Hshut Hcl Hab]).
  eexists. split; [by apply bs_refines_end|..]; cbn [hist popped bound ended failed]; try done.
  - destruct Hall as [?|(_ & ? & _)]; [by left|done].
  - intros _. destruct shut; [|by right; right]. destruct (Hshut eq_refl) as [He _].
    destruct (Hend He) as [?|[?|[? _]]]; [by left|by right; left|done].
  - intros Hs. by destruct (Hshut Hs).
  - intros _. destruct Hc as [?|?]; [left; by apply Hcl|by right].
Qed.
End direction.

(** ** Both directions *)

Section copy.
Context `{Kernel} (hangup : Rule copy_state -> Prop) (sock_fd : Z).
Implicit Types (live : list (Rule copy_state)) (s : copy_state).
Hypothesis fd_in : sock_fd <> STDIN_FILENO.
Hypothesis fd_out : sock_fd <> STDOUT_FILENO.

Record copy_inv live s : Prop := mk_copy_inv {
  cp_live : live `sublist_of` copy_rules;
  cp_input : fd_num (_input s) = STDIN_FILENO;
  cp_socket : fd_num (socket s) = sock_fd;
  cp_output : fd_num (_output s) = STDOUT_FILENO;
  cp_open : closed (socket s) = false;
  cp_outbound : dir_ok (rule1 ∈ live) (rule2 ∈ live) (hangup rule2)
    (_input s) (socket s) (_outbound s) (_outbound_shutdown s) (calls s);
  cp_inbound : dir_ok (rule3 ∈ live) (rule4 ∈ live) (hangup rule4)
    (socket s) (_output s) (_inbound s) (_inbound_shutdown s) (calls s) }.

Definition key (r : Rule copy_state) : nat * Direction := (fd r, direction r).

Lemma copy_rules_nodup : NoDup copy_rules.
Proof.
  apply (NoDup_fmap_1 key). by apply (bool_decide_unpack _).
Qed.

Lemma live_rule live r : live `sublist_of` copy_rules -> r ∈ live ->
  r = rule1 \/ r = rule2 \/ r = rule3 \/ r = rule4.
Proof.
  intros Hs Hin. assert (Hr : r ∈ copy_rules).
  { eapply elem_of_submseteq; [exact Hin|by apply sublist_submseteq]. }
  unfold copy_rules, add_rule in Hr. cbn [app] in Hr. rewrite !elem_of_cons in Hr.
  destruct Hr as [-> | [-> | [-> | [-> | Hr]]]]; auto. by apply not_elem_of_nil in Hr.
Qed.

Ltac differ := intros Heq; first [discriminate (f_equal fd Heq)|discriminate (f_equal direction Heq)].

(** The rules other than the one that is called stay unfinished. *)
Lemma unfinished_others live r s s' :
  live `sublist_of` copy_rules ->
  (r <> rule1 -> finished rule1 s' = finished rule1 s) ->
  (r <> rule2 -> finished rule2 s' = finished rule2 s) ->
  (r <> rule3 -> finished rule3 s' = finished rule3 s) ->
  (r <> rule4 -> finished rule4 s' = finished rule4 s) ->
  forall r', r' ∈ live -> r' <> r -> unfinished s r' -> unfinished s' r'.
Proof.
  intros Hs H1 H2 H3 H4 r' Hin Hne. unfold unfinished.
  destruct (live_rule live r' Hs Hin) as [-> | [-> | [-> | ->]]]; [rewrite H1|rewrite H2|rewrite H3|rewrite H4];
    auto.
Qed.

Lemma call1 live s s' :
  copy_inv live s -> rule1 ∈ live -> unfinished s rule1 -> callback1 s = Ok s' ->
  copy_inv live s' /\ forall r', r' ∈ live -> r' <> rule1 -> unfinished s r' -> unfinished s' r'.
Proof.
  intros [Hl Hi Hs Ho Hop Hout Hin] Hr Hu E. unfold callback1 in E.
  apply bind_Ok in E as ([[f st] h] & E & Es). apply Ok_inj in Es.
  assert (s' = mk_copy f (socket s) (_output s) st (_inbound s) (_outbound_shutdown s)
    (_inbound_shutdown s) h) as -> by by rewrite <- Es.
  clear Es.
  apply orb_false_iff in Hu as [He _].
  destruct (fill_step _ _ _ _ _ _ _ _ _ _ _ Hr He Hout E) as (Hout' & Hfd & Hc & Hrd & Hw).
  split.
  - split; try done; [exact (eq_trans Hfd Hi)|]. eapply dir_frame, Hin; try done.
    apply Hrd. change (fd_num (socket s) <> fd_num (_input s)). by rewrite Hs, Hi.
  - apply unfinished_others; [done|done|done|done|done].
Qed.

Lemma call3 live s s' :
  copy_inv live s -> rule3 ∈ live -> unfinished s rule3 -> callback3 s = Ok s' ->
  copy_inv live s' /\ forall r', r' ∈ live -> r' <> rule3 -> unfinished s r' -> unfinished s' r'.
Proof.
  intros [Hl Hi Hs Ho Hop Hout Hin] Hr Hu E. unfold callback3 in E.
  apply bind_Ok in E as ([[f st] h] & E & Es). apply Ok_inj in Es.
  assert (s' = mk_copy (_input s) f (_output s) (_outbound s) st (_outbound_shutdown s)
    (_inbound_shutdown s) h) as -> by by rewrite <- Es.
  clear Es.
  apply orb_false_iff in Hu as [He _].
  destruct (fill_step _ _ _ _ _ _ _ _ _ _ _ Hr He Hin E) as (Hin' & Hfd & Hc & Hrd & Hw).
  split.
  - split; try done; [exact (eq_trans Hfd Hs)|exact (eq_trans Hc Hop)|].
    eapply dir_frame, Hout; try done.
    apply Hrd. change (fd_num (_input s) <> fd_num (socket s)). rewrite Hs, Hi. by apply not_eq_sym.
  - apply unfinished_others; [done|done| |done|done]. intros _. exact Hc.
Qed.

Lemma shutdown_wr f h f' h' :
  shutdown SHUT_WR f h = Ok (f', h') -> f' = register_write f /\ no_transfer h h'.
Proof.
  unfold shutdown. intros ([n h1] & E%sys_call_no_transfer & Er)%bind_Ok.
  apply Ok_inj in Er. by injection Er as <- <-.
Qed.

Lemma close_eq f h f' h' :
  close f h = Ok (f', h') -> fd_num f' = fd_num f /\ no_transfer h h'.
Proof.
  unfold close. intros ([n h1] & E%sys_call_no_transfer & Er)%bind_Ok.
  apply Ok_inj in Er. by injection Er as <- <-.
Qed.

Lemma call2 live s s' :
  copy_inv live s -> rule2 ∈ live -> callback2 s = Ok s' ->
  copy_inv live s' /\ forall r', r' ∈ live -> r' <> rule2 -> unfinished s r' -> unfinished s' r'.
Proof.
  intros [Hl Hi Hs Ho Hop Hout Hin] Hr E. unfold callback2 in E.
  apply bind_Ok in E as ([[f st] h] & E & Es).
  destruct (drain_step _ _ _ _ _ _ _ _ _ _ _ Hout E) as (Hout' & (Hfd & He & Hc & _) & Hw & Hrd).
  assert (Hin1 : dir_ok (rule3 ∈ live) (rule4 ∈ live) (hangup rule4) f (_output s) (_inbound s)
      (_inbound_shutdown s) h).
  { eapply dir_frame, Hin; try done. apply Hw. change (fd_num (_output s) <> fd_num (socket s)). rewrite Ho, Hs. by apply not_eq_sym. }
  cbn [_outbound socket calls upd] in Es. destruct (ByteStream.eof st) eqn:Heof.
  - apply bind_Ok in Es as ([f2 h2] & [-> Hnt]%shutdown_wr & Es). apply Ok_inj in Es.
    assert (s' = mk_copy (_input s) (register_write f) (_output s) st (_inbound s) true
      (_inbound_shutdown s) h2) as -> by by rewrite <- Es.
    clear Es.
    split.
    + split; try done; [exact (eq_trans Hfd Hs)|exact (eq_trans Hc Hop)|by eapply (shut_step _ _ _ _ f _ _ h)|].
      eapply dir_frame, Hin1; try done; apply Hnt.
    + apply unfinished_others; [done|done| | |done]; intros _; [done|].
      change (_eof f || _closed f = _eof (socket s) || _closed (socket s)). by rewrite He, Hc.
  - apply Ok_inj in Es.
    assert (s' = mk_copy (_input s) f (_output s) st (_inbound s) (_outbound_shutdown s)
      (_inbound_shutdown s) h) as -> by by rewrite <- Es.
    clear Es. split.
    + split; try done; [exact (eq_trans Hfd Hs)|exact (eq_trans Hc Hop)].
    + apply unfinished_others; [done|done| | |done]; intros _; [done|].
      change (_eof f || _closed f = _eof (socket s) || _closed (socket s)). by rewrite He, Hc.
Qed.

Lemma call4 live s s' :
  copy_inv live s -> rule4 ∈ live -> callback4 s = Ok s' ->
  copy_inv live s' /\ forall r', r' ∈ live -> r' <> rule4 -> unfinished s r' -> unfinished s' r'.
Proof.
  intros [Hl Hi Hs Ho Hop Hout Hin] Hr E. unfold callback4 in E.
  apply bind_Ok in E as ([[f st] h] & E & Es).
  destruct (drain_step _ _ _ _ _ _ _ _ _ _ _ Hin E) as (Hin' & (Hfd & He & Hc & _) & Hw & Hrd).
  assert (Hout1 : dir_ok (rule1 ∈ live) (rule2 ∈ live) (hangup rule2) (_input s) (socket s) (_outbound s)
      (_outbound_shutdown s) h).
  { eapply dir_frame, Hout; try done. apply Hw. change (fd_num (socket s) <> fd_num (_output s)). by rewrite Ho, Hs. }
  cbn [_inbound _output calls upd] in Es. destruct (ByteStream.eof st) eqn:Heof.
  - apply bind_Ok in Es as ([f2 h2] & [Hf2 Hnt]%close_eq & Es). apply Ok_inj in Es.
    assert (s' = mk_copy (_input s) (socket s) f2 (_outbound s) st (_outbound_shutdown s) true h2)
      as -> by by rewrite <- Es.
    clear Es.
    split; [|by apply unfinished_others].
    split; try done; [exact (eq_trans Hf2 (eq_trans Hfd Ho))| |by eapply (shut_step _ _ _ _ f _ _ h)].
    eapply dir_frame, Hout1; try done; apply Hnt.
  - apply Ok_inj in Es.
    assert (s' = mk_copy (_input s) (socket s) f (_outbound s) st (_outbound_shutdown s)
      (_inbound_shutdown s) h) as -> by by rewrite <- Es.
    clear Es. split; [|by apply unfinished_others].
    split; try done. exact (eq_trans Hfd Ho).
Qed.

(** Rules 2 and 4 come after the rules that end their streams. *)
Lemma order live1 r live2 r' :
  (live1 ++ r :: live2) `sublist_of` copy_rules -> r' ∈ live1 ->
  r' <> r /\ (r = rule1 -> r' <> rule2) /\ (r = rule3 -> r' <> rule4).
Proof.
  intros Hs Hin. apply sublist_app_l in Hs as (k1 & k2 & Hk & Hs1 & Hs2).
  assert (H1 : r' ∈ k1) by (eapply elem_of_submseteq; [exact Hin|by apply sublist_submseteq]).
  assert (H2 : r ∈ k2) by (eapply elem_of_submseteq; [by left|by apply sublist_submseteq]).
  clear Hs1 Hs2 Hin. pose proof copy_rules_nodup as N. rewrite Hk in N.
  apply NoDup_app in N as (_ & N & _).
  split; [by intros ->; eapply N|].
  apply (f_equal (fmap key)) in Hk. rewrite fmap_app in Hk.
  apply (list_elem_of_fmap_2 key) in H1, H2. clear N.
  set (q1 := key <$> k1) in *. set (q2 := key <$> k2) in *. clearbody q1 q2.
  split; intros -> ->; cbn in H1, H2, Hk;
    destruct q1 as [|a [|b [|c [|d q1]]]]; simplify_eq/=;
    try match goal with E : [] = _ ++ _ |- _ => symmetry in E; apply app_nil in E as [-> ->] end;
    rewrite ?elem_of_cons in H1, H2; unfold key in *; cbn in *;
    destruct_or?; simplify_eq; by apply not_elem_of_nil in H1 || by apply not_elem_of_nil in H2.
Qed.

Lemma cancel_outbound_inv l1 r l2 s :
  copy_inv (l1 ++ r :: l2) s -> finished r s = true \/ hangup r -> r = rule1 \/ r = rule2 ->
  copy_inv (l1 ++ l2) (s <| _outbound := end_input (_outbound s) |>).
Proof.
  intros [Hl Hi Hs Ho Hop Hout Hin] Hf Hr.
  pose proof (sublist_nodup _ _ Hl copy_rules_nodup) as N.
  assert (Hself : r ∉ l1 ++ l2) by (intros Hx; by apply (nodup_removed _ _ _ _ N) in Hx as [_ ?]).
  assert (Hother : forall r', r' <> r -> (r' ∈ l1 ++ l2 <-> r' ∈ l1 ++ r :: l2)).
  { intros r' Hne. rewrite (nodup_removed _ _ _ r' N). tauto. }
  assert (Hmem : r ∈ l1 ++ r :: l2) by (apply elem_of_app; right; by left).
  split; try done.
  - by eapply sublist_removed.
  - cbn. destruct Hr as [-> | ->].
    + eapply (dir_frame (rule1 ∈ l1 ++ l2)); [done|by apply Hother; differ|done..|].
      by eapply cancel_in_step.
    + eapply (dir_frame _ (rule2 ∈ l1 ++ l2)); [by apply Hother; differ|done..|].
      eapply cancel_out_step; [exact Hmem|done| |exact Hout].
      destruct Hf as [Hf|Hf]; [left; exact Hf|by right].
  - eapply dir_frame, Hin; try done; apply Hother; destruct Hr as [-> | ->]; differ.
Qed.

Lemma cancel_inbound_inv l1 r l2 s :
  copy_inv (l1 ++ r :: l2) s -> finished r s = true \/ hangup r -> r = rule3 \/ r = rule4 ->
  copy_inv (l1 ++ l2) (s <| _inbound := end_input (_inbound s) |>).
Proof.
  intros [Hl Hi Hs Ho Hop Hout Hin] Hf Hr.
  pose proof (sublist_nodup _ _ Hl copy_rules_nodup) as N.
  assert (Hself : r ∉ l1 ++ l2) by (intros Hx; by apply (nodup_removed _ _ _ _ N) in Hx as [_ ?]).
  assert (Hother : forall r', r' <> r -> (r' ∈ l1 ++ l2 <-> r' ∈ l1 ++ r :: l2)).
  { intros r' Hne. rewrite (nodup_removed _ _ _ r' N). tauto. }
  assert (Hmem : r ∈ l1 ++ r :: l2) by (apply elem_of_app; right; by left).
  split; try done.
  - by eapply sublist_removed.
  - eapply dir_frame, Hout; try done; apply Hother; destruct Hr as [-> | ->]; differ.
  - cbn. destruct Hr as [-> | ->].
    + eapply (dir_frame (rule3 ∈ l1 ++ l2)); [done|by apply Hother; differ|done..|].
      by eapply cancel_in_step.
    + eapply (dir_frame _ (rule4 ∈ l1 ++ l2)); [by apply Hother; differ|done..|].
      eapply cancel_out_step; [exact Hmem|done| |exact Hin].
      destruct Hf as [Hf|Hf]; [left; exact Hf|by right].
Qed.

#[export] Instance copy_live : LiveInvariant copy_inv hangup.
Proof.
  split.
  - intros l s HI. exact (sublist_nodup _ _ (cp_live _ _ HI) copy_rules_nodup).
  - intros r l s s' HI Hr Hu E.
    destruct (live_rule l r (cp_live _ _ HI) Hr) as [-> | [-> | [-> | ->]]];
      [by eapply call1|by eapply call2|by eapply call3|by eapply call4].
  - intros l1 r l2 s s' HI Hf E.
    assert (Hr : r ∈ l1 ++ r :: l2) by (apply elem_of_app; right; by left).
    assert (Hrest : forall r', r' ∈ l1 ++ l2 -> r' = rule1 \/ r' = rule2 \/ r' = rule3 \/ r' = rule4).
    { intros r' Hin. apply (live_rule _ _ (cp_live _ _ HI)). rewrite elem_of_app, elem_of_cons in *. tauto. }
    destruct (live_rule _ r (cp_live _ _ HI) Hr) as [-> | [-> | [-> | ->]]];
      apply Ok_inj in E; subst s'.
    all: split; [first [apply (cancel_outbound_inv _ _ _ _ HI Hf)|apply (cancel_inbound_inv _ _ _ _ HI Hf)]; by auto|].
    all: intros r' Hin; destruct (Hrest r' Hin) as [-> | [-> | [-> | ->]]]; exact id.
Qed.

Lemma copy_keeps_idle : cancels_keep_idle copy_inv.
Proof.
  intros l1 r l2 s s' HI E r' Hin.
  destruct (order l1 r l2 r' (cp_live _ _ HI) Hin) as (N1 & N2 & N3).
  assert (Hall : forall q, q ∈ l1 ++ r :: l2 -> q = rule1 \/ q = rule2 \/ q = rule3 \/ q = rule4)
    by (intros q; apply (live_rule _ q (cp_live _ _ HI))).
  assert (H1 : r ∈ l1 ++ r :: l2) by (apply elem_of_app; right; by left).
  assert (H2 : r' ∈ l1 ++ r :: l2) by (apply elem_of_app; by left).
  destruct (Hall r H1) as [-> | [-> | [-> | ->]]]; apply Ok_inj in E; subst s';
    destruct (Hall r' H2) as [-> | [-> | [-> | ->]]];
    solve [exact id|by destruct (N1 eq_refl)|by destruct (N2 eq_refl eq_refl)|by destruct (N3 eq_refl eq_refl)].
Qed.
End copy.

(** ** The loop *)

(** Nothing is left to do in one direction: its rules that are still there are not interested. *)
Lemma dir_idle (rin rout hup : Prop) src dst st shut h :
  dir_ok rin rout hup src dst st shut h -> ~ hup ->
  (rin -> remaining_capacity st = 0) ->
  (rout -> buffer_empty st = true /\ (ByteStream.eof st = true -> shut = true)) ->
  shut = true /\ written_to (fd_num dst) h = read_from (fd_num src) h.
Proof.
  intros (f & [R Hb Hfl Hout Hpre Hall Hend Hgone Hshut Hcl Hab]) Hh Hi Ho.
  assert (Hs : shut = true).
  { destruct shut; [done|exfalso].
    assert (Hrout : ~ ~ rout) by (intros Hn; by destruct (Hab Hn)). apply Hrout. intros Hr.
    destruct (Ho Hr) as [He He2]. unfold buffer_empty in He. apply Z.eqb_eq in He.
    assert (Hrin : ~ rin).
    { intros Hrin. specialize (Hi Hrin).
      rewrite bs_remaining_capacity_spec, (ref_cap _ _ R), Hb, He in Hi by apply R. done. }
    assert (false = true); [|done]. apply He2. unfold ByteStream.eof.
    by rewrite He, (ref_end _ _ R), (Hgone Hrin). }
  destruct (Hshut Hs) as [_ Hp]. split; [done|].
  destruct Hall as [<-|(_ & _ & ?)]; [|congruence]. rewrite Hout, Hp. by apply ztake_ge.
Qed.

Lemma dir_prefix (rin rout hup : Prop) src dst st shut h :
  dir_ok rin rout hup src dst st shut h ->
  written_to (fd_num dst) h `prefix_of` read_from (fd_num src) h.
Proof.
  intros (f & D). rewrite (di_out _ _ _ _ _ _ _ _ _ D).
  etrans; [|exact (di_prefix _ _ _ _ _ _ _ _ _ D)]. apply prefix_take.
Qed.

Section loop.
Context `{Kernel} (hangup : Rule copy_state -> Prop) (sock_fd : Z).
Hypothesis fd_in : sock_fd <> STDIN_FILENO.
Hypothesis fd_out : sock_fd <> STDOUT_FILENO.
Abbreviation inv := (copy_inv hangup sock_fd).

Lemma copy_start_inv sock h s :
  fd_num sock = sock_fd -> closed sock = false -> no_transfer [] h -> copy_start sock h = Ok s ->
  inv copy_rules s.
Proof.
  intros Hfd Hc Hh E. unfold copy_start in E.
  apply bind_Ok in E as (input & Ei & E). apply bind_Ok in E as (output & Eo & E).
  apply Ok_inj in Ei. apply Ok_inj in Eo. subst input output.
  apply bind_Ok in E as (h1 & E1%set_blocking_no_transfer & E).
  apply bind_Ok in E as (h2 & E2%set_blocking_no_transfer & E).
  apply bind_Ok in E as (h3 & E3%set_blocking_no_transfer & E). apply Ok_inj in E. subst s.
  assert (Hn : no_transfer [] h3) by (by etrans; [|etrans; [|etrans; [|exact E3]]]).
  assert (Hr : forall r, r ∈ [rule1; rule2; rule3; rule4] -> r ∈ copy_rules) by done.
  split; try done; apply dir_new; try done; try apply Hn; apply Hr; rewrite !elem_of_cons; by auto.
Qed.

(** A signal interrupts one of the calls of [poll]. *)
Definition interrupted (polls : list (list pollfd -> Z -> poll_answer)) : Prop :=
  Exists (fun poll => exists ps, poll ps (-1) = PollError EINTR) polls.

Lemma copy_loop_inv polls : forall rules s ret rules' s',
  Forall (hangs_up hangup) polls -> inv rules s -> copy_loop polls rules s = Ok (ret, rules', s') ->
  inv rules' s' /\
  (ret = true -> Forall (uninterested s') rules' \/ interrupted polls).
Proof.
  induction polls as [|poll polls IH]; intros rules s ret rules' s' Hh HI E; cbn [copy_loop] in E.
  - apply Ok_inj in E. by injection E as <- <- <-.
  - apply Forall_cons in Hh as [Hp Hh].
    apply bind_Ok in E as ([[res rules1] s1] & E1 & E).
    pose proof (copy_live hangup sock_fd fd_in fd_out) as L.
    destruct (wait_live _ hangup _ _ _ _ _ _ _ Hp HI E1) as [HI1 Hu].
    assert (Hloop : copy_loop polls rules1 s1 = Ok (ret, rules', s') ->
      inv rules' s' /\
      (ret = true -> Forall (uninterested s') rules' \/ interrupted (poll :: polls))).
    { intros El. destruct (IH _ _ _ _ _ Hh HI1 El) as [HI2 Hu2]. split; [done|].
      intros Hr. destruct (Hu2 Hr) as [?|?]; [by left|right]. by apply Exists_cons_tl. }
    destruct res; [by apply Hloop|by apply Hloop|].
    apply Ok_inj in E. injection E as <- <- <-. split; [done|].
    intros _. destruct Hu as [?|?]; [by apply copy_keeps_idle|done|by left|right]. by apply Exists_cons_hd.
Qed.

Lemma copy_idle rules s :
  inv rules s -> Forall (uninterested s) rules ->
  (~ hangup rule2 -> _outbound_shutdown s = true /\
     written_to sock_fd (calls s) = read_from STDIN_FILENO (calls s)) /\
  (~ hangup rule4 -> _inbound_shutdown s = true /\
     written_to STDOUT_FILENO (calls s) = read_from sock_fd (calls s)).
Proof.
  intros [Hl Hi Hs Ho Hop Hout Hin] Hu.
  assert (Hun : forall r, r ∈ rules -> interest r s = false) by by apply Forall_forall.
  assert (Herr : error (_outbound s) = false /\ error (_inbound s) = false).
  { destruct Hout as (f & D), Hin as (g & G). unfold error.
    by rewrite (ref_err _ _ (di_ref _ _ _ _ _ _ _ _ _ D)), (ref_err _ _ (di_ref _ _ _ _ _ _ _ _ _ G)),
      (di_fail _ _ _ _ _ _ _ _ _ D), (di_fail _ _ _ _ _ _ _ _ _ G). }
  destruct Herr as [He1 He2].
  assert (Hcap : forall b : ByteStream, (0 <? remaining_capacity b) = false -> remaining_capacity b = 0).
  { intros b Hb%Z.ltb_ge. pose proof (u64_range (_capacity b - _size b)). unfold remaining_capacity in *. lia. }
  assert (Hdone : forall b shut, negb (buffer_empty b) || ByteStream.eof b && negb shut = false ->
    buffer_empty b = true /\ (ByteStream.eof b = true -> shut = true)).
  { intros b shut [H1%negb_false_iff H2]%orb_false_iff. split; [done|]. intros E. rewrite E in H2. by destruct shut. }
  split; intros Hh.
  - rewrite <- Hs, <- Hi. eapply dir_idle; [exact Hout|exact Hh| |].
    + intros Hr%Hun. cbn in Hr. unfold interest1 in Hr. rewrite He1, He2, andb_true_r in Hr. by apply Hcap.
    + intros Hr%Hun. by apply Hdone.
  - rewrite <- Hs, <- Ho. eapply dir_idle; [exact Hin|exact Hh| |].
    + intros Hr%Hun. cbn in Hr. unfold interest3 in Hr. rewrite He1, He2, andb_true_r in Hr. by apply Hcap.
    + intros Hr%Hun. by apply Hdone.
Qed.
End loop.

(** ** With a kernel that allows everything *)

Section runs.
Context `{Kernel} (hangup : Rule copy_state -> Prop) (sock_fd : Z).
Hypothesis fd_in : sock_fd <> STDIN_FILENO.
Hypothesis fd_out : sock_fd <> STDOUT_FILENO.
Hypothesis kernel_obliging : obliging.
Abbreviation inv := (copy_inv hangup sock_fd).

Lemma count_changes c : u32 (c + 1) <> c.
Proof. ulia. Qed.

Lemma fill_runs src st h : exists src' st' h', fill_from src st h = Ok (src', st', h') /\
  read_count src <> read_count src'.
Proof.
  destruct (read_runs (remaining_capacity st) src h kernel_obliging) as (data & src' & h' & E & Hc).
  { apply (u64_range (_capacity st - _size st)). }
  unfold fill_from. rewrite E. cbn [mbind outcome_bind]. eexists _, _, _. split; [done|].
  rewrite Hc. apply not_eq_sym, count_changes.
Qed.

Lemma drain_runs rin rout hup src dst st shut h : dir_ok rin rout hup src dst st shut h ->
  exists st' h', drain_to dst st h = Ok (register_write dst, st', h').
Proof.
  intros (f & D). pose proof (di_ref _ _ _ _ _ _ _ _ _ D) as R.
  unfold drain_to. set (m := Z.min _ _).
  assert (Hm : 0 <= m <= 65536).
  { unfold m, ByteStream.buffer_size, max_copy_length. rewrite (wf_size _ (ref_wf _ _ R)). lia. }
  assert (Hl : zlen (peek_output m st) < 0x10000000000000000).
  { rewrite (bs_refines_peek _ _ _ R), zlen_ztake by lia. lia. }
  destruct (write_string_runs _ false dst h kernel_obliging Hl) as (n & dst' & h' & E).
  rewrite E. apply write_string_inv in E as (_ & _ & ->); [|exact Hl]. cbn. by eauto.
Qed.

Lemma copy_handlers_run : handlers_run inv.
Proof.
  split.
  - intros r l s HI Hr Hu. pose proof HI as [Hl Hi Hs Ho Hop Hout Hin].
    destruct (live_rule l r Hl Hr) as [-> | [-> | [-> | ->]]]; cbn [callback rule1 rule2 rule3 rule4].
    + unfold callback1. destruct (fill_runs (_input s) (_outbound s) (calls s)) as (f & st & h & -> & Hc).
      cbn [mbind outcome_bind]. eexists. split; [done|]. by left.
    + unfold callback2. destruct (drain_runs _ _ _ _ _ _ _ _ Hout) as (st & h & ->).
      cbn [mbind outcome_bind]. destruct (ByteStream.eof _).
      * unfold shutdown. match goal with |- context [sys_call ?c ?h1] =>
          destruct (sys_call_runs c h1 kernel_obliging) as (n & h2 & ->) end.
        cbn [mbind outcome_bind]. eexists. split; [done|]. left.
        change (write_count (socket s) <> u32 (u32 (write_count (socket s) + 1) + 1)). ulia.
      * eexists. split; [done|]. left. apply not_eq_sym, count_changes.
    + unfold callback3. destruct (fill_runs (socket s) (_inbound s) (calls s)) as (f & st & h & -> & Hc).
      cbn [mbind outcome_bind]. eexists. split; [done|]. by left.
    + unfold callback4. destruct (drain_runs _ _ _ _ _ _ _ _ Hin) as (st & h & ->).
      cbn [mbind outcome_bind]. destruct (ByteStream.eof _).
      * unfold close. match goal with |- context [sys_call ?c ?h1] =>
          destruct (sys_call_runs c h1 kernel_obliging) as (n & h2 & ->) end.
        cbn [mbind outcome_bind]. eexists. split; [done|]. left. apply not_eq_sym, count_changes.
      * eexists. split; [done|]. left. apply not_eq_sym, count_changes.
  - intros r l s HI Hr. destruct (live_rule l r (cp_live _ _ _ _ HI) Hr) as [-> | [-> | [-> | ->]]]; by eexists.
Qed.

Lemma copy_loop_runs polls : forall rules s,
  Forall (hangs_up hangup) polls -> Forall reports_no_error polls -> inv rules s ->
  exists ret rules' s', copy_loop polls rules s = Ok (ret, rules', s').
Proof.
  induction polls as [|poll polls IH]; intros rules s Hh He HI; cbn [copy_loop]; [by eauto|].
  apply Forall_cons in Hh as [Hh1 Hh]. apply Forall_cons in He as [He1 He].
  pose proof (copy_live hangup sock_fd fd_in fd_out) as L.
  destruct (wait_runs _ hangup poll (-1) rules s copy_handlers_run Hh1 He1 HI) as (res & rules1 & s1 & E).
  rewrite E. cbn [mbind outcome_bind].
  destruct (wait_live _ hangup _ _ _ _ _ _ _ Hh1 HI E) as [HI1 _].
  destruct res; [by apply IH|by apply IH|by eauto].
Qed.
End runs.

(** Any run of the function leaves its invariant, whatever may have hung up. *)
Lemma copy_run_inv `{Kernel} hangup polls sock h ret rules s :
  fd_num sock <> STDIN_FILENO -> fd_num sock <> STDOUT_FILENO ->
  closed sock = false -> no_transfer [] h -> Forall (hangs_up hangup) polls ->
  bidirectional_stream_copy polls sock h = Ok (ret, rules, s) ->
  copy_inv hangup (fd_num sock) rules s /\
  (ret = true -> Forall (uninterested s) rules \/ interrupted polls).
Proof.
  intros H1 H2 Hc Hh Hup E. unfold bidirectional_stream_copy in E. apply bind_Ok in E as (s0 & Es & E).
  pose proof (copy_start_inv hangup (fd_num sock) sock h s0 eq_refl Hc Hh Es) as HI.
  exact (copy_loop_inv hangup (fd_num sock) H1 H2 polls _ _ _ _ _ Hup HI E).
Qed.

Lemma copy_inv_prefixes `{Kernel} hangup sock_fd live s : copy_inv hangup sock_fd live s ->
  written_to sock_fd (calls s) `prefix_of` read_from STDIN_FILENO (calls s) /\
  written_to STDOUT_FILENO (calls s) `prefix_of` read_from sock_fd (calls s).
Proof.
  intros [Hl Hi Hs Ho Hop Hout Hin].
  split; [rewrite <- Hs, <- Hi|rewrite <- Hs, <- Ho]; by eapply dir_prefix.
Qed.

(** ** Properties *)

(** C15. The copy is sound: at any time, whatever the kernel and [poll] answer, the bytes the
    socket has taken are a prefix of those read from standard input, and the bytes
    standard output has taken are a prefix of those read from the socket. *)
Theorem copy_sound `{Kernel} polls sock h ret rules s :
  fd_num sock <> STDIN_FILENO -> fd_num sock <> STDOUT_FILENO ->
  closed sock = false -> no_transfer [] h ->
  bidirectional_stream_copy polls sock h = Ok (ret, rules, s) ->
  written_to (fd_num sock) (calls s) `prefix_of` read_from STDIN_FILENO (calls s) /\
  written_to STDOUT_FILENO (calls s) `prefix_of` read_from (fd_num sock) (calls s).
Proof.
  intros H1 H2 Hc Hh E.
  destruct (copy_run_inv (fun _ => True) polls sock h ret rules s H1 H2 Hc Hh ltac:(by apply Forall_forall) E) as [HI _].
  by eapply copy_inv_prefixes.
Qed.

(** The copy is complete: if no signal interrupts [poll], and it reports a hangup and nothing
    else only for the rules in [hangup], then when the function returns, everything read from standard input
    has gone to the socket and been followed by a shutdown, unless the socket's writing side
    hung up, and everything read from the socket has gone to standard output, since
    closed, unless standard output hung up. *)
Theorem copy_completes `{Kernel} hangup polls sock h rules s :
  fd_num sock <> STDIN_FILENO -> fd_num sock <> STDOUT_FILENO ->
  closed sock = false -> no_transfer [] h ->
  Forall (hangs_up hangup) polls ->
  Forall (fun poll => forall ps, poll ps (-1) <> PollError EINTR) polls ->
  bidirectional_stream_copy polls sock h = Ok (true, rules, s) ->
  (~ hangup rule2 -> _outbound_shutdown s = true /\
     written_to (fd_num sock) (calls s) = read_from STDIN_FILENO (calls s)) /\
  (~ hangup rule4 -> _inbound_shutdown s = true /\
     written_to STDOUT_FILENO (calls s) = read_from (fd_num sock) (calls s)).
Proof.
  intros H1 H2 Hc Hh Hup Hint E.
  destruct (copy_run_inv hangup polls sock h true rules s H1 H2 Hc Hh Hup E) as [HI' Hu].
  eapply copy_idle; [exact HI'|]. destruct (Hu eq_refl) as [?|Hi]; [done|].
  apply Exists_exists in Hi as (poll & Hin & ps & Hp). by destruct (proj1 (Forall_forall _ _) Hint poll Hin ps).
Qed.

(** The copy does not fail: with a kernel that allows every call, gives no more bytes than
    it is asked for and takes some of those it is given, and with a [poll] that
    reports no error, no exception is thrown, however long it runs. In particular the event loop
    never finds a busy wait. *)
Theorem copy_runs `{Kernel} polls sock h :
  fd_num sock <> STDIN_FILENO -> fd_num sock <> STDOUT_FILENO ->
  closed sock = false -> no_transfer [] h ->
  obliging -> Forall reports_no_error polls ->
  exists ret rules s, bidirectional_stream_copy polls sock h = Ok (ret, rules, s).
Proof.
  intros H1 H2 Hc Hh O He. unfold bidirectional_stream_copy.
  assert (exists s0, copy_start sock h = Ok s0) as [s0 E0].
  { unfold copy_start. cbn [FileDescriptor.new STDIN_FILENO STDOUT_FILENO Z.ltb Z.compare mbind outcome_bind].
    destruct (set_blocking_runs false sock h O) as [h1 ->]. cbn [mbind outcome_bind].
    match goal with |- context [set_blocking false ?f h1] =>
      destruct (set_blocking_runs false f h1 O) as [h2 ->] end. cbn [mbind outcome_bind].
    match goal with |- context [set_blocking false ?f h2] =>
      destruct (set_blocking_runs false f h2 O) as [h3 ->] end. cbn. by eauto. }
  rewrite E0. cbn [mbind outcome_bind].
  pose proof (copy_start_inv (fun _ => True) (fd_num sock) sock h s0 eq_refl Hc Hh E0) as HI.
  eapply (copy_loop_runs (fun _ => True)); [exact H1|exact H2|exact O| |exact He|exact HI].
  by apply Forall_forall.
Qed.

(** ** An example: [abc] on standard input, [xy] from the socket, both at their ends, and a
    kernel that takes two bytes at a time *)

Definition demo_data (fd : Z) : bytes := if fd =? 0 then [x61; x62; x63] else [x78; x79].
Definition demo_copy : Kernel := {|
  k_call _ _ := Sys 0;
  k_read fd n h := Sys (if has_read fd h then [] else ztake n (demo_data fd));
  k_writev _ iov _ := Sys (Z.min 2 (zlen (iov_bytes iov)));
  k_recvfrom _ _ _ := Sys (mk_datagram [] []);
  k_sendmsg _ _ iov _ := Sys (zlen (iov_bytes iov));
  k_getsockopt _ _ _ _ := Sys (0, 4);
  k_getname _ _ _ := Sys ([], 0);
  k_socketpair _ _ _ := Sys (3, 4) |}.
Definition demo_sock : FDWrapper := mkFDWrapper 5 false false 0 0.

Definition demo_polls : list (list pollfd -> Z -> poll_answer) := replicate 6 demo_poll.
Definition demo_result := bidirectional_stream_copy (H := demo_copy) demo_polls demo_sock [].
Definition demo_final : copy_state :=
  match demo_result with
  | Ok (_, _, s) => s
  | Fault _ => mk_copy demo_sock demo_sock demo_sock (ByteStream.new 0) (ByteStream.new 0) false false []
  end.
Definition demo_left : list (Rule copy_state) :=
  match demo_result with Ok (_, rs, _) => rs | Fault _ => [] end.

Lemma demo_returns :
  bidirectional_stream_copy (H := demo_copy) demo_polls demo_sock [] = Ok (true, demo_left, demo_final).
Proof.
  assert (E : match demo_result with Ok (b, _, _) => b | Fault _ => false end = true) by by vm_compute.
  unfold demo_left, demo_final, demo_result in *.
  destruct (bidirectional_stream_copy _ _ _) as [[[b rs] s]|e]; [|done]. by rewrite E.
Qed.

Lemma copy_completes_witness :
  written_to 5 (calls demo_final) = [x61; x62; x63] /\ written_to 1 (calls demo_final) = [x78; x79] /\
  _outbound_shutdown demo_final = true.
Proof.
  destruct (copy_completes (H := demo_copy) (fun _ => False) demo_polls demo_sock [] demo_left demo_final)
    as [[Ho Hw] [_ Hw']]; [done|done|done|done| | |exact demo_returns|tauto|tauto|].
  - apply Forall_forall. intros p ->%elem_of_replicate_inv. exact demo_no_hangup.
  - apply Forall_forall. by intros p ->%elem_of_replicate_inv.
  - split_and!; [etrans; [exact Hw|]|etrans; [exact Hw'|]|exact Ho]; by vm_compute.
Defined.

Lemma copy_sound_witness :
  written_to 5 (calls demo_final) `prefix_of` read_from 0 (calls demo_final).
Proof.
  apply (copy_sound (H := demo_copy) demo_polls demo_sock [] true demo_left demo_final);
    [done|done|done|done|exact demo_returns].
Defined.

Lemma copy_runs_witness :
  exists ret rules s, bidirectional_stream_copy (H := demo_copy) demo_polls demo_sock [] = Ok (ret, rules, s).
Proof.
  apply copy_runs; [done|done|done|done| |].
  - split.
    + intros c h. by exists 0.
    + intros fd n h Hn. eexists. split; [done|]. cbn. destruct (has_read fd h); [done|].
      rewrite zlen_ztake by done. lia.
    + intros fd iov h. eexists. split; [done|]. split; [lia|]. intros E. apply zlen_nil_inv. lia.
  - apply Forall_forall. intros p ->%elem_of_replicate_inv. exact demo_no_error.
Defined.
