(* ===== verification/WebGet.v ===== *)
(** * WebGet (apps/webget.cc)

    [get_URL] sends a request to the http service of a host and prints whatever comes back, a
    byte at a time.  What it prints is the result. *)

From Stdlib Require Import Strings.String.
From S2P Require Import Prelude Buffer Address Kernel FileDescriptor Socket.

Definition to_bytes (s : string) : bytes := list_byte_of_string s.
Definition CRLF : bytes := [x0d; x0a].

Definition request_line (path : string) : bytes := to_bytes ("GET " ++ path ++ " HTTP/1.1") ++ CRLF.
Definition host_line (host : string) : bytes := to_bytes ("HOST: " ++ host) ++ CRLF ++ CRLF.

Section webget.
Context `{Kernel} `{Resolver}.

(** The loop that prints, as many rounds as given; the flag tells whether it has reached the end. *)
Fixpoint print_all (rounds : nat) (socket : FDWrapper) (h : history)
  : outcome (bool * bytes * FDWrapper * history) :=
  if FileDescriptor.eof socket then Ok (true, [], socket, h)
  else
    match rounds with
    | O => Ok (false, [], socket, h)
    | S rounds =>
      '(data, socket, h) ← FileDescriptor.read 1 socket h;
      '(ended, printed, socket, h) ← print_all rounds socket h;
      Ok (ended, data ++ printed, socket, h)
    end.

(** [get_URL] up to the loop. *)
Definition request (host path : string) (h : history) : outcome (FDWrapper * history) :=
  address ← of_host host "http";
  '(socket, h) ← new_socket AF_INET SOCK_STREAM h;
  h ← Socket.connect address socket h;
  '(_, socket, h) ← write_string (request_line path) true socket h;
  '(_, socket, h) ← write_string (host_line host) true socket h;
  shutdown SHUT_WR socket h.

Definition get_URL (host path : string) (rounds : nat) (h : history)
  : outcome (bool * bytes * FDWrapper * history) :=
  '(socket, h) ← request host path h;
  '(ended, printed, socket, h) ← print_all rounds socket h;
  if (ended : bool) then
    '(socket, h) ← FileDescriptor.close socket h;
    Ok (true, printed, socket, h)
  else Ok (false, printed, socket, h).

(** ** Lemmas *)

Lemma print_all_inv rounds : forall f h ended printed f' h',
  print_all rounds f h = Ok (ended, printed, f', h') ->
  received (fd_num f) printed h h' /\ fd_num f' = fd_num f /\ FileDescriptor.eof f' = ended.
Proof.
  induction rounds as [|n IH]; intros f h ended printed f' h' E; cbn [print_all] in E;
    (destruct (FileDescriptor.eof f) eqn:He;
      [apply Ok_inj in E; injection E as <- <- <- <-; split; [apply received_nil|by split]|]).
  { apply Ok_inj in E. injection E as <- <- <- <-. split; [apply received_nil|by split]. }
  apply bind_Ok in E as ([[data f1] h1] & (_ & R & Hf & _)%read_inv & E).
  apply bind_Ok in E as ([[[e p] f2] h2] & E1 & E). apply Ok_inj in E. injection E as <- <- <- <-.
  apply IH in E1 as (R' & Hf' & He'). rewrite Hf in *. split; [by eapply received_trans|by split].
Qed.

(** The server's reply: a read gives the next bytes of it, and none at its end. *)
Definition serves (fd : Z) (reply : bytes) : Prop := forall n h, 0 <= n ->
  k_read fd n h = Sys (ztake n (zdrop (zlen (read_from fd h)) reply)).

Lemma read_serves fd reply f h : serves fd reply -> fd_num f = fd ->
  let data := ztake 1 (zdrop (zlen (read_from fd h)) reply) in
  exists f' h', FileDescriptor.read 1 f h = Ok (data, f', h') /\ received fd data h h' /\
    fd_num f' = fd /\ FileDescriptor.eof f' = FileDescriptor.eof f || (zlen data =? 0).
Proof.
  intros Hs Hf data. assert (E : exists f' h', FileDescriptor.read 1 f h = Ok (data, f', h')).
  { unfold FileDescriptor.read. rewrite Hf, Hs by (unfold BUFFER_SIZE; lia).
    replace (Z.min BUFFER_SIZE 1) with 1 by (by vm_compute). fold data. cbn [system_call mbind outcome_bind].
    rewrite (proj2 (Z.ltb_ge _ _)); [by eauto|]. unfold data, ztake. rewrite length_take. lia. }
  destruct E as (f' & h' & E). exists f', h'. split; [exact E|].
  apply read_inv in E as (_ & R & Hf' & _ & He). rewrite Hf in R, Hf'. by split_and!.
Qed.

(** A round for each byte of the reply and one for its end are enough. *)
Lemma print_all_reply rounds fd reply : serves fd reply -> forall f h,
  fd_num f = fd -> FileDescriptor.eof f = false ->
  zlen (zdrop (zlen (read_from fd h)) reply) < Z.of_nat rounds ->
  exists f' h', print_all rounds f h = Ok (true, zdrop (zlen (read_from fd h)) reply, f', h').
Proof.
  intros Hs. induction rounds as [|n IH]; intros f h Hf He Hn; [lia|]. cbn [print_all]. rewrite He.
  destruct (read_serves fd reply f h Hs Hf) as (f1 & h1 & E & (R & _) & Hf1 & He1). rewrite E.
  cbn [mbind outcome_bind]. rewrite He in He1. set (k := zlen (read_from fd h)) in *.
  destruct (zdrop k reply) as [|c rest] eqn:Er.
  - destruct n; cbn [print_all]; rewrite He1; cbn [ztake mbind outcome_bind]; by eauto.
  - assert (Hrest : zdrop (zlen (read_from fd h1)) reply = rest).
    { rewrite R, zlen_app. fold k. change (ztake 1 (c :: rest)) with [c]. rewrite <- zdrop_zdrop by (cbn; lia).
      by rewrite Er. }
    destruct (IH f1 h1 Hf1 He1) as (f' & h' & ->); rewrite Hrest in *; [cbn in Hn |- *; lia|].
    cbn [mbind outcome_bind]. by eauto.
Qed.

Lemma request_runs host path h fd : is_Ok (of_host host "http") -> obliging ->
  k_call (SysSocket AF_INET SOCK_STREAM 0) h = Sys fd -> 0 <= fd ->
  zlen (request_line path) < 0x10000000000000000 -> zlen (host_line host) < 0x10000000000000000 ->
  exists f h', request host path h = Ok (f, h') /\ fd_num f = fd /\ FileDescriptor.eof f = false /\
    transferred fd (request_line path ++ host_line host) h h'.
Proof.
  intros [a Ha] O Hk Hfd H1 H2. unfold request, new_socket, Socket.connect. rewrite Ha.
  cbn [mbind outcome_bind].
  assert (Es : exists h1, sys_call (SysSocket AF_INET SOCK_STREAM 0) h = Ok (fd, h1)).
  { unfold sys_call. rewrite Hk, int_call_Sys by done. cbn. by eauto. }
  destruct Es as [h1 Es]. rewrite Es. apply sys_call_no_transfer in Es. cbn [mbind outcome_bind].
  unfold FileDescriptor.new. rewrite (proj2 (Z.ltb_ge _ _)) by done. cbn [mbind outcome_bind].
  set (f := mkFDWrapper _ _ _ _ _).
  destruct (sys_call_runs (SysConnect (fd_num f) (raw a)) h1 O) as (n & h2 & E2). rewrite E2.
  apply sys_call_no_transfer in E2. cbn [mbind outcome_bind].
  destruct (write_string_all (request_line path) f h2 O H1) as (n3 & f3 & h3 & -> & T3 & (W3 & Ee3 & _)).
  cbn [mbind outcome_bind].
  destruct (write_string_all (host_line host) f3 h3 O H2) as (n4 & f4 & h4 & -> & T4 & (W4 & Ee4 & _)).
  cbn [mbind outcome_bind]. unfold shutdown.
  destruct (sys_call_runs (SysShutdown (fd_num f4) SHUT_WR) h4 O) as (n5 & h5 & E5). rewrite E5.
  apply sys_call_no_transfer in E5. cbn [mbind outcome_bind]. change (SHUT_WR =? SHUT_RD) with false.
  change (SHUT_WR =? SHUT_WR) with true. cbn match. eexists _, _. split; [done|]. unfold fd_num in *.
  split; [exact (eq_trans W4 W3)|]. split; [exact (eq_trans Ee4 Ee3)|].
  rewrite W3 in T4. change (_fd f) with fd in T3, T4.
  eapply no_transfer_transferred; [by etrans|exact (transferred_trans _ _ _ _ _ _ T3 T4)|exact E5].
Qed.

(** ** Properties *)

(** C38. [get_URL] fetches: when the host's name resolves, the kernel allows the calls and the server
    gives its reply and then the end of its stream, then [get_URL] sends exactly the two lines of the
    request and an empty one, prints exactly the reply, and closes the
    socket; a round for each byte and one for the end are enough. *)
Theorem get_URL_fetches host path rounds h fd reply :
  is_Ok (of_host host "http") -> obliging ->
  k_call (SysSocket AF_INET SOCK_STREAM 0) h = Sys fd -> 0 <= fd ->
  zlen (request_line path) < 0x10000000000000000 -> zlen (host_line host) < 0x10000000000000000 ->
  read_from fd h = [] -> serves fd reply -> zlen reply < Z.of_nat rounds ->
  exists f h', get_URL host path rounds h = Ok (true, reply, f, h') /\
    written_to fd h' = written_to fd h ++ request_line path ++ host_line host /\
    read_from fd h' = reply /\ closed f = true.
Proof.
  intros Ha O Hk Hfd H1 H2 Hr Hs Hn.
  destruct (request_runs host path h fd Ha O Hk Hfd H1 H2) as (f1 & h1 & E1 & Hf1 & He1 & (W1 & _ & R1)).
  unfold get_URL. rewrite E1. cbn [mbind outcome_bind].
  destruct (print_all_reply rounds fd reply Hs f1 h1 Hf1 He1) as (f2 & h2 & E2).
  { by rewrite R1, Hr. }
  rewrite R1, Hr in E2. change (zdrop (zlen []) reply) with reply in E2. rewrite E2. cbn [mbind outcome_bind].
  apply print_all_inv in E2 as ((R2 & _ & W2) & Hf2 & _). rewrite Hf1 in R2.
  unfold FileDescriptor.close. destruct (sys_call_runs (SysClose (_fd f2)) h2 O) as (n & h3 & E3).
  rewrite E3. apply sys_call_no_transfer in E3. destruct (E3 fd) as [R3 W3]. cbn [mbind outcome_bind].
  eexists _, _. split; [done|]. rewrite W3, W2, W1, R3, R2, R1, Hr. by split_and!.
Qed.
End webget.

(** A server that replies [xyz]. *)
Definition demo_reply : bytes := [x78; x79; x7a].
Definition demo_server : Kernel := {|
  k_call _ _ := Sys 3;
  k_read fd n h := Sys (ztake n (zdrop (zlen (read_from fd h)) demo_reply));
  k_writev _ iov _ := Sys (zlen (iov_bytes iov));
  k_recvfrom _ _ _ := Sys (mk_datagram [] []);
  k_sendmsg _ _ iov _ := Sys (zlen (iov_bytes iov));
  k_getsockopt _ _ _ _ := Sys (0, 4);
  k_getname _ _ _ := Sys ([], 0);
  k_socketpair _ _ _ := Sys (3, 4) |}.
Definition demo_host : Resolver := {|
  getaddrinfo _ _ _ := Some (sockaddr_in 0x01020304 80);
  getnameinfo _ := None;
  inet_ntoa _ := "1.2.3.4"%string |}.

Lemma demo_server_obliging : obliging (H := demo_server).
Proof.
  split; cbn.
  - by exists 3.
  - intros fd n h Hn. eexists. split; [done|]. unfold ztake. rewrite length_take. lia.
  - intros fd iov h. eexists. split; [done|]. split; [lia|]. apply zlen_nil_inv.
Qed.

Lemma get_URL_fetches_witness : exists f h',
  get_URL (H := demo_server) (H0 := demo_host) "example.org" "/" 4 [] = Ok (true, demo_reply, f, h') /\
  written_to 3 h' = to_bytes "GET / HTTP/1.1" ++ CRLF ++ to_bytes "HOST: example.org" ++ CRLF ++ CRLF.
Proof.
  destruct (get_URL_fetches (H := demo_server) (H0 := demo_host) "example.org" "/" 4 [] 3 demo_reply)
    as (f & h' & E & W & _); try done.
  - by eexists.
  - exact demo_server_obliging.
  - exists f, h'. split; [exact E|exact W].
Defined.
