(* ===== verification/TCPReceiver.v ===== *)
(** * TCPReceiver (tcp_receiver.hh, tcp_receiver.cc)

    The receiving half of a connection: it translates sequence numbers into stream
    indices, feeds the reassembler, and computes the acknowledgment number and the
    window to advertise. *)

From S2P Require Import Prelude WrappingIntegers ByteStream Buffer TCPHeader TCPSegment.
From S2P Require Import StreamReassembler.

(** ** The class *)

Record TCPReceiver := mkTCPReceiver {
  _reassembler : StreamReassembler;
  _synRecv : bool;
  _isn : WrappingInt32;
  _ackno : WrappingInt32;
  _capacity : Z }.

#[export] Instance eta_TCPReceiver : Eta TCPReceiver := fun r =>
  mkTCPReceiver (_reassembler r) (_synRecv r) (_isn r) (_ackno r) (_capacity r).

Definition new (capacity : Z) : TCPReceiver :=
  mkTCPReceiver (StreamReassembler.new capacity) false (mkWrappingInt32 0) (mkWrappingInt32 0)
    capacity.

Definition stream_out (r : TCPReceiver) : ByteStream :=
  StreamReassembler.stream_out (_reassembler r).
Definition unassembled_bytes (r : TCPReceiver) : Z :=
  StreamReassembler.unassembled_bytes (_reassembler r).

(** The end of [segment_received]: the new acknowledgment number. *)
Definition update_ackno (r : TCPReceiver) : TCPReceiver :=
  let output := stream_out r in
  let ex_sqn := u64 (bytes_written output + 1) in
  let r := r <| _ackno := wrap ex_sqn (_isn r) |> in
  if input_ended output then r <| _ackno := add (_ackno r) 1 |> else r.

Definition segment_received (seg : TCPSegment) (r : TCPReceiver) : outcome TCPReceiver :=
  let h := _header seg in
  let push absIndex r :=
    re ← push_substring (copy (_payload seg)) absIndex (fin h) (_reassembler r);
    Ok (update_ackno (r <| _reassembler := re |>)) in
  if syn h then
    if _synRecv r then Ok r
    else push 0 (r <| _synRecv := true |> <| _isn := seqno h |>)
  else if negb (_synRecv r) then Ok r
  else
    let checkpoint := bytes_written (stream_out r) in
    push (u64 (unwrap (seqno h) (_isn r) checkpoint - 1)) r.

Definition ackno (r : TCPReceiver) : option WrappingInt32 :=
  if _synRecv r then Some (_ackno r) else None.

Definition window_size (r : TCPReceiver) : Z :=
  u64 (_capacity r - buffer_size (stream_out r)).

(** ** Sessions: a peer sends the stream [S] from the sequence number [isn] *)

(** The segment carries [S] from index [i] on, within the window, with a sequence
    number no further than 2^31 from the checkpoint; FIN marks the end of [S]. *)
Record valid_segment (S : bytes) (isn : WrappingInt32) (r : TCPReceiver) (seg : TCPSegment)
    (i : Z) : Prop := mk_valid_segment {
  vs_push : valid_push S (_reassembler r) (str (_payload seg)) i (fin (_header seg));
  vs_syn : syn (_header seg) = true -> i = 0 /\ seqno (_header seg) = isn;
  vs_seqno : syn (_header seg) = false -> seqno (_header seg) = wrap (i + 1) isn;
  vs_near : -0x80000000 <= bytes_written (stream_out r) - (i + 1) < 0x80000000 }.

(** The same of a segment that begins beyond the window. *)
Record outside_segment (S : bytes) (isn : WrappingInt32) (r : TCPReceiver) (seg : TCPSegment)
    (i : Z) : Prop := mk_outside_segment {
  os_push : outside_push S (_reassembler r) (str (_payload seg)) i (fin (_header seg));
  os_syn : syn (_header seg) = true -> i = 0 /\ seqno (_header seg) = isn;
  os_seqno : syn (_header seg) = false -> seqno (_header seg) = wrap (i + 1) isn;
  os_near : -0x80000000 <= bytes_written (stream_out r) - (i + 1) < 0x80000000 }.

(** Whether [segment_received] looks at the payload: the first SYN, and anything
    but a SYN after it. *)
Definition accepts (r : TCPReceiver) (seg : TCPSegment) : bool :=
  xorb (syn (_header seg)) (_synRecv r).

(** [session S cap isn r out ps e], as for the reassembler: the accepted segments
    carried the ranges [ps], and [e] tells whether one of them carried FIN. *)
Inductive receiver_session (S : bytes) (cap : Z) (isn : WrappingInt32) :
  TCPReceiver -> bytes -> list (Z * Z) -> bool -> Prop :=
| receiver_new : receiver_session S cap isn (new cap) [] [] false
| receiver_segment r out ps e seg i r' :
    receiver_session S cap isn r out ps e -> valid_segment S isn r seg i ->
    segment_received seg r = Ok r' ->
    receiver_session S cap isn r' out
      (if accepts r seg then (i, zlen (str (_payload seg))) :: ps else ps)
      (e || (accepts r seg && fin (_header seg)))
| receiver_outside r out ps e seg i r' :
    receiver_session S cap isn r out ps e -> outside_segment S isn r seg i ->
    segment_received seg r = Ok r' ->
    receiver_session S cap isn r' out ps (e || (accepts r seg && fin (_header seg)))
| receiver_read r out ps e n :
    receiver_session S cap isn r out ps e -> 0 <= n ->
    receiver_session S cap isn
      (r <| _reassembler := (_reassembler r) <| _output := snd (read n (stream_out r)) |> |>)
      (out ++ fst (read n (stream_out r))) ps e.

(** The acknowledgment number once [k] bytes are assembled. *)
Definition ack_at (k : Z) (ended : bool) (isn : WrappingInt32) : WrappingInt32 :=
  wrap (k + 1 + (if ended then 1 else 0)) isn.

Record receiver_inv (S : bytes) (cap : Z) (isn : WrappingInt32) (out : bytes)
    (ps : list (Z * Z)) (e : bool) (r : TCPReceiver) : Prop := mk_receiver_inv {
  ri_session : session S cap (_reassembler r) out ps e;
  ri_cap : _capacity r = cap;
  ri_isn : _synRecv r = true -> _isn r = isn;
  ri_ackno : _synRecv r = true ->
    _ackno r = ack_at (_exIdx (_reassembler r)) (input_ended (stream_out r)) isn }.

Section receiver.
Context (S : bytes) (cap : Z) (isn : WrappingInt32).
Hypothesis cap_nonneg : 0 <= cap.
Hypothesis stream_bound : zlen S + cap < 0x7fffffff00000000.

Lemma session_fifo s out ps e :
  session S cap s out ps e -> exists f, session_inv S cap out ps e s f.
Proof. apply session_invariant; lia. Qed.

Lemma session_written s out ps e :
  session S cap s out ps e -> bytes_written (_output s) = _exIdx s /\ 0 <= _exIdx s <= zlen S.
Proof.
  intros [f [[C _] _ _ _ _ _ _]]%session_fifo. pose proof (core_range _ _ _ _ C).
  pose proof (core_idx _ _ _ _ C). unfold bytes_written.
  rewrite (ref_in _ _ (core_out _ _ _ _ C)), u64_id by lia. lia.
Qed.

Lemma update_ackno_eq r out ps e :
  session S cap (_reassembler r) out ps e -> _isn r = isn ->
  update_ackno r =
    r <| _ackno := ack_at (_exIdx (_reassembler r)) (input_ended (stream_out r)) isn |>.
Proof.
  intros Hs Hi. destruct (session_written _ _ _ _ Hs) as [Hw Hr].
  unfold update_ackno, stream_out, StreamReassembler.stream_out in *. rewrite Hw, Hi.
  unfold ack_at. rewrite u64_id by lia.
  destruct (input_ended _); cbn; [|by rewrite Z.add_0_r].
  by rewrite (wrap_add (_ + 1) 1).
Qed.

(** What happens to one segment: nothing, or one accurate push. *)
Lemma segment_pushed r out ps e seg i ps' :
  receiver_inv S cap isn out ps e r ->
  some_push S (_reassembler r) (str (_payload seg)) i (fin (_header seg)) ps ps' ->
  (syn (_header seg) = true -> i = 0 /\ seqno (_header seg) = isn) ->
  (syn (_header seg) = false -> seqno (_header seg) = wrap (i + 1) isn) ->
  -0x80000000 <= bytes_written (stream_out r) - (i + 1) < 0x80000000 ->
  exists r', segment_received seg r = Ok r' /\
    receiver_inv S cap isn out (if accepts r seg then ps' else ps) (e || (accepts r seg && fin (_header seg))) r' /\
    grown (_reassembler r) (_reassembler r').
Proof.
  intros [Hs Hc Hi Ha] Vp Vs Vq Vn.
  destruct (session_push_ok S cap _ _ _ _ _ _ _ _ cap_nonneg ltac:(lia) Hs Vp) as (re & E & Hs' & Hg).
  destruct (session_written _ _ _ _ Hs) as [Hw Hr].
  assert (H0 : 0 <= i /\ i + zlen (str (_payload seg)) <= zlen S)
    by (destruct Vp as [[[(? & ? & _) _] _]|[[(? & ? & _) _] _]]; done).
  assert (Idx : syn (_header seg) = false -> _synRecv r = true ->
    u64 (unwrap (seqno (_header seg)) (_isn r) (bytes_written (stream_out r)) - 1) = i).
  { intros Hn Hy.
    rewrite (Vq Hn), (Hi Hy), unwrap_eq; [|unfold stream_out, StreamReassembler.stream_out; lia|lia].
    rewrite (proj2 (Z.ltb_ge _ _)), u64_id; lia. }
  unfold segment_received, accepts.
  destruct (syn (_header seg)) eqn:Esyn, (_synRecv r) eqn:Er; cbn [xorb negb andb].
  - exists r. rewrite orb_false_r. split; [done|]. split; [split; (eauto || congruence)|done].
  - destruct (Vs eq_refl) as [-> Hq]. cbn [_reassembler upd]. unfold copy. rewrite E.
    cbn [mbind outcome_bind]. eexists. split; [done|].
    rewrite (update_ackno_eq _ out ps' (e || fin (_header seg))); [|done|done].
    split; [|exact Hg]. split; cbn; try done.
  - rewrite Idx by done. unfold copy. rewrite E. cbn [mbind outcome_bind]. eexists. split; [done|].
    rewrite (update_ackno_eq _ out ps' (e || fin (_header seg))); [|done|by apply Hi].
    split; [|exact Hg]. split; cbn; try done. intros _. by apply Hi.
  - exists r. rewrite orb_false_r. split; [done|]. split; [split; (eauto || congruence)|done].
Qed.

Lemma segment_received_step r out ps e seg i :
  receiver_inv S cap isn out ps e r -> valid_segment S isn r seg i ->
  exists r', segment_received seg r = Ok r' /\
    receiver_inv S cap isn out
      (if accepts r seg then (i, zlen (str (_payload seg))) :: ps else ps)
      (e || (accepts r seg && fin (_header seg))) r' /\
    grown (_reassembler r) (_reassembler r').
Proof. intros I [Vp Vs Vq Vn]. eapply segment_pushed; try done. by left. Qed.

Lemma segment_outside_step r out ps e seg i :
  receiver_inv S cap isn out ps e r -> outside_segment S isn r seg i ->
  exists r', segment_received seg r = Ok r' /\
    receiver_inv S cap isn out ps (e || (accepts r seg && fin (_header seg))) r' /\
    grown (_reassembler r) (_reassembler r').
Proof.
  intros I [Vp Vs Vq Vn]. destruct (segment_pushed r out ps e seg i ps I) as (r' & E & I' & Hg); try done; [by right|].
  exists r'. by destruct (accepts r seg).
Qed.

(** A segment without payload, SYN or FIN: nothing to receive. *)
Definition bare (seg : TCPSegment) : Prop :=
  str (_payload seg) = [] /\ syn (_header seg) = false /\ fin (_header seg) = false.

Lemma push_nothing idx s : push_substring [] idx false s = Ok s.
Proof. unfold push_substring, push_substring_reading. by destruct (input_ended _). Qed.

(** Any segment the receiver can be sure of: accurate and in the window or wholly beyond it, bare, or
    one it does not look at. *)
Definition receivable (r : TCPReceiver) (seg : TCPSegment) : Prop :=
  (exists i, valid_segment S isn r seg i \/ outside_segment S isn r seg i) \/ bare seg \/ accepts r seg = false.

Lemma segment_ignored r out ps e seg :
  receiver_inv S cap isn out ps e r -> accepts r seg = false \/ bare seg -> segment_received seg r = Ok r.
Proof.
  intros [Hs Hc Hisn Hack]. unfold segment_received, accepts. intros [Ha|(Hp & Hsy & Hfi)].
  { destruct (syn (_header seg)) eqn:E1, (_synRecv r) eqn:E2; cbn in Ha |- *; congruence. }
  rewrite Hsy. destruct (_synRecv r) eqn:Er; [|done]. cbn [negb].
  unfold copy. rewrite Hp, Hfi, push_nothing. cbn [mbind outcome_bind]. f_equal.
  rewrite (update_ackno_eq _ out ps e); [|done|by apply Hisn].
  specialize (Hack eq_refl). clear -Hack. destruct r; cbn in *. by rewrite Hack.
Qed.

Lemma receivable_step r out ps e seg :
  receiver_inv S cap isn out ps e r -> receivable r seg ->
  exists r' ps' e', segment_received seg r = Ok r' /\ receiver_inv S cap isn out ps' e' r' /\
    (e' = true -> e = true \/ accepts r seg = true /\ fin (_header seg) = true).
Proof.
  intros I [[i V]|HR].
  - assert (exists r' ps', segment_received seg r = Ok r' /\
      receiver_inv S cap isn out ps' (e || (accepts r seg && fin (_header seg))) r') as (r' & ps' & E & I').
    { destruct V as [V|V]; [apply (segment_received_step _ _ _ _ _ _ I) in V|apply (segment_outside_step _ _ _ _ _ _ I) in V];
        destruct V as (r' & ? & ? & _); by eexists _, _. }
    eexists r', _, _. split; [done|]. split; [exact I'|].
    intros H. apply orb_true_iff in H as [H|H]; [by left|right]. by apply andb_true_iff in H.
  - exists r, ps, e. split; [|split; [done|by left]]. eapply segment_ignored; [exact I|tauto].
Qed.

Lemma receiver_inv_read r out ps e n :
  receiver_inv S cap isn out ps e r -> 0 <= n ->
  receiver_inv S cap isn (out ++ fst (read n (stream_out r))) ps e
    (r <| _reassembler := (_reassembler r) <| _output := snd (read n (stream_out r)) |> |>).
Proof.
  intros [Hs Hc Hi Ha] Hn. split; cbn; try done. by apply (session_read _ _ (_reassembler r)).
Qed.

Lemma receiver_inv_new : receiver_inv S cap isn [] [] false (new cap).
Proof. split; cbn; [constructor|done|done|done]. Qed.

Lemma receiver_session_inv r out ps e :
  receiver_session S cap isn r out ps e -> receiver_inv S cap isn out ps e r.
Proof.
  induction 1 as [|r out ps e seg i r' _ IH V E|r out ps e seg i r' _ IH V E|r out ps e n _ IH Hn].
  - apply receiver_inv_new.
  - destruct (segment_received_step _ _ _ _ _ _ IH V) as (r'' & E' & IH' & _).
    rewrite E in E'. by apply Ok_inj in E' as ->.
  - destruct (segment_outside_step _ _ _ _ _ _ IH V) as (r'' & E' & IH' & _).
    rewrite E in E'. by apply Ok_inj in E' as ->.
  - by apply receiver_inv_read.
Qed.

(** ** Properties *)

(** A receiver never fails on valid segments: in every session, each further
    segment that carries the stream accurately and stays inside the window is
    handled without a fault, SYN retransmissions and segments before the SYN
    included. *)
Theorem receiver_progress r out ps e seg i :
  receiver_session S cap isn r out ps e -> valid_segment S isn r seg i ->
  exists r', segment_received seg r = Ok r'.
Proof.
  intros Hs V. apply receiver_session_inv in Hs.
  destruct (segment_received_step _ _ _ _ _ _ Hs V) as (r' & E & _). by exists r'.
Qed.

(** C17. Feedback to the peer: whatever segments arrived and were read, in any order,
    there is one index [k], the first byte not received, such that what was read and
    what is readable are the first [k] bytes of the stream, the acknowledgment number is that
    of byte [k] (counting SYN, and FIN once everything arrived), absent before the SYN,
    and the window is the capacity minus the unread bytes. *)
Theorem receiver_feedback r out ps e :
  receiver_session S cap isn r out ps e ->
  exists k, 0 <= k <= zlen S /\
    (forall j, 0 <= j < k -> covered ps j = true) /\ covered ps k = false /\
    out ++ _buf (stream_out r) = ztake k S /\
    ackno r = (if _synRecv r
               then Some (wrap (k + 1 + (if e && (k =? zlen S) then 1 else 0)) isn) else None) /\
    window_size r = cap - zlen (_buf (stream_out r)) /\
    0 <= window_size r <= cap.
Proof.
  intros Hs%receiver_session_inv. destruct Hs as [Hs Hc Hi Ha].
  destruct (session_fifo _ _ _ _ Hs) as [f SI]. exists (_exIdx (_reassembler r)).
  pose proof (session_out _ _ _ _ _ _ _ SI) as Hout.
  pose proof (session_gap _ _ _ _ _ _ _ SI) as Hgap. destruct SI as [[C _] _ _ Hcov He Hb].
  pose proof (core_range _ _ _ _ C) as Hr. pose proof (core_out _ _ _ _ C) as R.
  pose proof (core_idx _ _ _ _ C) as Hx.
  assert (Hlen : zlen (_buf (stream_out r)) <= cap).
  { unfold stream_out, StreamReassembler.stream_out.
    rewrite <- (wf_size _ (ref_wf _ _ R)), <- Hb, <- (ref_cap _ _ R). apply R. }
  split_and!; try done; try lia.
  - intros j Hj. apply Hcov. unfold view. rewrite decide_True by lia. apply zget_is_Some. lia.
  - unfold ackno. destruct (_synRecv r); [|done]. rewrite Ha by done. unfold ack_at.
    unfold stream_out, StreamReassembler.stream_out, input_ended.
    by rewrite (ref_end _ _ R), (core_ended _ _ _ _ C), He.
  - unfold window_size, buffer_size. rewrite Hc.
    unfold stream_out, StreamReassembler.stream_out in *. rewrite (wf_size _ (ref_wf _ _ R)).
    apply u64_id. lia.
  - unfold window_size. apply u64_range.
  - unfold window_size, buffer_size. rewrite Hc.
    unfold stream_out, StreamReassembler.stream_out in *. rewrite (wf_size _ (ref_wf _ _ R)).
    rewrite u64_id; lia.
Qed.
End receiver.

(** A peer with ISN 2^32 - 2 sends "abcd": SYN, then "cd" with FIN, then "ab". *)
Definition demo_isn : WrappingInt32 := mkWrappingInt32 0xfffffffe.
Definition demo_syn : TCPSegment :=
  mkTCPSegment (TCPHeader.default <| seqno := demo_isn |> <| syn := true |>) Buffer.empty.
Definition demo_seg (data : bytes) (i : Z) (f : bool) : TCPSegment :=
  mkTCPSegment (TCPHeader.default <| seqno := wrap (i + 1) demo_isn |> <| fin := f |>)
    (of_string data).
Definition demo_receive (seg : TCPSegment) (r : TCPReceiver) : TCPReceiver :=
  match segment_received seg r with Ok r' => r' | Fault _ => r end.

Definition demo_r1 : TCPReceiver := demo_receive demo_syn (new 5).
Definition demo_r2 : TCPReceiver := demo_receive (demo_seg [x63; x64] 2 true) demo_r1.
Definition demo_r3 : TCPReceiver := demo_receive (demo_seg [x61; x62] 0 false) demo_r2.

Lemma demo_receiver2 :
  receiver_session demo_stream 5 demo_isn demo_r2 [] [(2, 2); (0, 0)] true.
Proof.
  apply (receiver_segment _ _ _ demo_r1 [] [(0, 0)] false (demo_seg [x63; x64] 2 true) 2);
    [|split; [split_and!|..]; by vm_compute|by vm_compute].
  apply (receiver_segment _ _ _ (new 5) [] [] false demo_syn 0);
    [constructor|split; [split_and!|..]; by vm_compute|by vm_compute].
Qed.

Lemma receiver_progress_witness :
  exists r', segment_received (demo_seg [x61; x62] 0 false) demo_r2 = Ok r'.
Proof.
  apply (receiver_progress demo_stream 5 demo_isn ltac:(lia) ltac:(by vm_compute)
    demo_r2 [] [(2, 2); (0, 0)] true _ 0 demo_receiver2).
  split; [split_and!|..]; by vm_compute.
Defined.

Lemma receiver_feedback_witness :
  ackno demo_r2 = Some (mkWrappingInt32 0xffffffff) /\
  exists k, 0 <= k <= 4 /\
    (forall j, 0 <= j < k -> covered [(2, 2); (0, 0)] j = true) /\
    covered [(2, 2); (0, 0)] k = false /\
    [] ++ _buf (stream_out demo_r2) = ztake k demo_stream /\
    ackno demo_r2 = Some (wrap (k + 1 + (if true && (k =? 4) then 1 else 0)) demo_isn) /\
    window_size demo_r2 = 5 - zlen (_buf (stream_out demo_r2)) /\
    0 <= window_size demo_r2 <= 5.
Proof.
  split; [by vm_compute|].
  apply (receiver_feedback demo_stream 5 demo_isn ltac:(lia) ltac:(by vm_compute)
    demo_r2 [] [(2, 2); (0, 0)] true demo_receiver2).
Defined.
