(* ===== verification/TCPConfig.v ===== *)
(** * TCPConfig (tcp_helpers/tcp_config.hh) *)

From S2P Require Import Prelude WrappingIntegers.

Definition DEFAULT_CAPACITY : Z := 64000.
Definition MAX_PAYLOAD_SIZE : Z := 1000.
Definition TIMEOUT_DFLT : Z := 1000.
Definition MAX_RETX_ATTEMPTS : Z := 8.

Record TCPConfig := mkTCPConfig {
  rt_timeout : Z;
  recv_capacity : Z;
  send_capacity : Z;
  fixed_isn : option WrappingInt32 }.

#[export] Instance eta_TCPConfig : Eta TCPConfig := fun c =>
  mkTCPConfig (rt_timeout c) (recv_capacity c) (send_capacity c) (fixed_isn c).

Definition default : TCPConfig := mkTCPConfig TIMEOUT_DFLT DEFAULT_CAPACITY DEFAULT_CAPACITY None.

Record wf (c : TCPConfig) : Prop := mk_wf {
  wf_rt_timeout : is_u16 (rt_timeout c);
  wf_recv_capacity : is_u64 (recv_capacity c);
  wf_send_capacity : is_u64 (send_capacity c);
  wf_fixed_isn : forall isn, fixed_isn c = Some isn -> valid isn }.
