(* ===== verification/TCPSender.v ===== *)
(** * TCPSender (tcp_sender.hh, tcp_sender.cc)

    The sending half of a connection: the queue of unacknowledged bytes, the
    retransmission timer, and the operations that cut the outgoing stream into segments. *)

From S2P Require Import Prelude WrappingIntegers ByteStream Buffer TCPHeader TCPSegment TCPConfig.

(** ** UnAckQueue *)

Record UnAckQueue := mkUnAckQueue {
  _unAcked : bytes;
  _unAckedPayloadSize : list Z;
  _synSent : bool;
  _synAcked : bool;
  _finSent : bool;
  _finAcked : bool;
  _baseSqn : Z;
  _next_seqno : Z;
  _win_size : Z }.

#[export] Instance eta_UnAckQueue : Eta UnAckQueue := fun q =>
  mkUnAckQueue (_unAcked q) (_unAckedPayloadSize q) (_synSent q) (_synAcked q) (_finSent q)
    (_finAcked q) (_baseSqn q) (_next_seqno q) (_win_size q).

Module UnAckQueue.

Definition new : UnAckQueue := mkUnAckQueue [] [] false false false false 0 0 1.

Definition ackForFinSqn (q : UnAckQueue) : Z := _next_seqno q.
Definition ackSqnForFin (q : UnAckQueue) : Z := _next_seqno q.
Definition bytesInFlight (q : UnAckQueue) : Z := u64 (_next_seqno q - _baseSqn q).
Definition empty (q : UnAckQueue) : bool := bool_decide (_unAcked q = []).
Definition size (q : UnAckQueue) : Z := zlen (_unAckedPayloadSize q).

Definition push (seg : TCPSegment) (q : UnAckQueue) : UnAckQueue :=
  let payload := str (_payload seg) in
  q <| _unAcked := _unAcked q ++ payload |>
    <| _unAckedPayloadSize := _unAckedPayloadSize q ++ [zlen payload] |>.

(** [front()] of an empty deque, and a range that passes the end of [_unAcked],
    are undefined in the source. *)
Definition frontSeg (isn : WrappingInt32) (q : UnAckQueue) : outcome TCPSegment :=
  match _unAckedPayloadSize q with
  | [] => Fault PastTheEnd
  | toSend :: _ =>
    if zlen (_unAcked q) <? toSend then Fault PastTheEnd
    else
      let h := TCPHeader.default <| seqno := wrap (_baseSqn q) isn |> in
      let h :=
        if _finSent q && (u64 (ackSqnForFin q - 1) =? u64 (_baseSqn q + toSend))
        then h <| fin := true |> else h in
      Ok (mkTCPSegment h (of_string (ztake toSend (_unAcked q))))
  end.

(** The loop of [erase]: [pre] are the sizes already passed, still in the deque;
    the result is the deque, [_baseSqn] and [bytesToErase]. *)
Fixpoint erase_loop (ackno : Z) (pre rest : list Z) (baseSqn bytesToErase : Z)
  : list Z * Z * Z :=
  match rest with
  | [] => (pre, baseSqn, bytesToErase)
  | size :: rest' =>
    let nextSqn := u64 (baseSqn + size) in
    if nextSqn =? ackno then (rest', ackno, u64 (bytesToErase + size))
    else if nextSqn <? ackno then
      erase_loop ackno (pre ++ [size]) rest' nextSqn (u64 (bytesToErase + size))
    else
      let bytesAcked := u64 (ackno - baseSqn) in
      (pre ++ u64 (size - bytesAcked) :: rest', ackno, u64 (bytesToErase + bytesAcked))
  end.

Definition erase (ackno : Z) (q : UnAckQueue) : outcome UnAckQueue :=
  if _finSent q && (ackno =? ackSqnForFin q) then
    Ok (q <| _baseSqn := ackno |> <| _unAcked := [] |> <| _unAckedPayloadSize := [] |>)
  else
    let '(sizes, baseSqn, bytesToErase) :=
      erase_loop ackno [] (_unAckedPayloadSize q) (_baseSqn q) 0 in
    if zlen (_unAcked q) <? bytesToErase then Fault PastTheEnd
    else
      Ok (q <| _unAckedPayloadSize := sizes |> <| _baseSqn := baseSqn |>
            <| _unAcked := zdrop bytesToErase (_unAcked q) |>).

Definition updateBase (ackno : Z) (q : UnAckQueue) : outcome UnAckQueue :=
  if ackno <=? _baseSqn q then Ok q
  else if ackno =? 1 then
    Ok (q <| _synAcked := true |> <| _baseSqn := u64 (_baseSqn q + 1) |>)
  else if _finSent q && (ackno =? ackSqnForFin q) then
    let q := q <| _finAcked := true |> in
    if negb (empty q) then erase ackno q
    else Ok (q <| _baseSqn := u64 (_baseSqn q + 1) |>)
  else if negb (empty q) then erase ackno q
  else Ok q.

End UnAckQueue.

(** ** Timer *)

Record Timer := mkTimer {
  _initial_retransmission_timeout : Z;
  _timeout : Z;
  _isTimerRunning : bool;
  _msSinceBaseSegSent : Z;
  _consecutive_retransmissions : Z;
  _doubleTimeout : bool }.

#[export] Instance eta_Timer : Eta Timer := fun t =>
  mkTimer (_initial_retransmission_timeout t) (_timeout t) (_isTimerRunning t)
    (_msSinceBaseSegSent t) (_consecutive_retransmissions t) (_doubleTimeout t).

Module Timer.

Definition new (initial_timeout : Z) : Timer :=
  mkTimer initial_timeout initial_timeout false 0 0 true.

Definition startTimer (t : Timer) : Timer :=
  t <| _isTimerRunning := true |> <| _msSinceBaseSegSent := 0 |>
    <| _consecutive_retransmissions := 0 |>
    <| _timeout := _initial_retransmission_timeout t |>.

Definition stopTimer (t : Timer) : Timer := (startTimer t) <| _isTimerRunning := false |>.

End Timer.

(** ** TCPSender *)

Record TCPSender := mkTCPSender {
  timer : Timer;
  _isn : WrappingInt32;
  _stream : ByteStream;
  _segments_out : list TCPSegment;
  unAckQueue : UnAckQueue }.

#[export] Instance eta_TCPSender : Eta TCPSender := fun s =>
  mkTCPSender (timer s) (_isn s) (_stream s) (_segments_out s) (unAckQueue s).

(** [random_isn] is the value [random_device()()] returns. *)
Definition new (random_isn : Z) (capacity retx_timeout : Z) (fixed_isn : option WrappingInt32)
  : TCPSender :=
  mkTCPSender (Timer.new retx_timeout)
    (match fixed_isn with Some isn => isn | None => mkWrappingInt32 (u32 random_isn) end)
    (ByteStream.new capacity) [] UnAckQueue.new.

Definition stream_in (s : TCPSender) : ByteStream := _stream s.
Definition segments_out (s : TCPSender) : list TCPSegment := _segments_out s.
Definition finAcked (s : TCPSender) : bool := _finAcked (unAckQueue s).
Definition bytes_in_flight (s : TCPSender) : Z := UnAckQueue.bytesInFlight (unAckQueue s).
Definition remainSpace (s : TCPSender) : Z :=
  u64 (_win_size (unAckQueue s) - UnAckQueue.bytesInFlight (unAckQueue s)).
Definition consecutive_retransmissions (s : TCPSender) : Z :=
  _consecutive_retransmissions (timer s).
Definition next_seqno_absolute (s : TCPSender) : Z := _next_seqno (unAckQueue s).
Definition next_seqno (s : TCPSender) : WrappingInt32 := wrap (_next_seqno (unAckQueue s)) (_isn s).

Definition firstPush (seg : TCPSegment) (s : TCPSender) : TCPSender :=
  let s := s <| _segments_out := _segments_out s ++ [seg] |> in
  if negb (_isTimerRunning (timer s)) then s <| timer := Timer.startTimer (timer s) |> else s.

(** [++unAckQueue._next_seqno]. *)
Definition bump (n : Z) (q : UnAckQueue) : UnAckQueue :=
  q <| _next_seqno := u64 (_next_seqno q + n) |>.

(** A segment with an empty payload and this header. *)
Definition headerSeg (h : TCPHeader) : TCPSegment := mkTCPSegment h Buffer.empty.

Definition makeSynSeg (s : TCPSender) : TCPSegment * TCPSender :=
  let h := TCPHeader.default <| seqno := wrap 0 (_isn s) |> <| syn := true |> in
  let s :=
    if negb (_synSent (unAckQueue s)) then
      s <| unAckQueue := bump 1 ((unAckQueue s) <| _synSent := true |>) |>
    else s in
  if eof (_stream s) && (2 <=? remainSpace s) then
    (headerSeg (h <| fin := true |>),
     s <| unAckQueue := bump 1 ((unAckQueue s) <| _finSent := true |>) |>)
  else (headerSeg h, s).

Definition makeFirstFinSeg (s : TCPSender) : TCPSegment * TCPSender :=
  (headerSeg (TCPHeader.default <| seqno := wrap (_next_seqno (unAckQueue s)) (_isn s) |>
                                <| fin := true |>),
   s <| unAckQueue := (bump 1 (unAckQueue s)) <| _finSent := true |> |>).

Definition makeNotFirstFinSeg (s : TCPSender) : TCPSegment :=
  headerSeg (TCPHeader.default <| fin := true |>
    <| seqno := wrap (u64 (UnAckQueue.ackSqnForFin (unAckQueue s) - 1)) (_isn s) |>).

Definition hasContentToPush (s : TCPSender) : bool :=
  (0 <? buffer_size (_stream s)) || (eof (_stream s) && negb (_finSent (unAckQueue s))).

Definition makePayLoadSeg (s : TCPSender) : TCPSegment * TCPSender :=
  let h := TCPHeader.default <| seqno := wrap (_next_seqno (unAckQueue s)) (_isn s) |> in
  let toSend := Z.min (remainSpace s) MAX_PAYLOAD_SIZE in
  let '(payload, stream) := read toSend (_stream s) in
  let s := s <| _stream := stream |> in
  let '(h, s) :=
    if eof (_stream s) && (0 <? u64 (remainSpace s - zlen payload)) then
      (h <| fin := true |>,
       s <| unAckQueue := bump 1 ((unAckQueue s) <| _finSent := true |>) |>)
    else (h, s) in
  (mkTCPSegment h (of_string payload), s <| unAckQueue := bump (zlen payload) (unAckQueue s) |>).

Definition setWindowSize (size : Z) (s : TCPSender) : TCPSender :=
  s <| timer := (timer s) <| _doubleTimeout := negb (size =? 0) |> |>
    <| unAckQueue := (unAckQueue s) <| _win_size := if 0 <? size then size else 1 |> |>.

(** The [while] loop of [fill_window].  Every round takes a byte from the stream or
    sends FIN, so that [fill_fuel] rounds reach its exit ([fill_loop_exits]). *)
Fixpoint fill_loop (fuel : nat) (s : TCPSender) : TCPSender :=
  match fuel with
  | O => s
  | S fuel' =>
    if (0 <? remainSpace s) && hasContentToPush s then
      let '(seg, s) := makePayLoadSeg s in
      let s := s <| unAckQueue := UnAckQueue.push seg (unAckQueue s) |> in
      fill_loop fuel' (firstPush seg s)
    else s
  end.

Definition fill_fuel (s : TCPSender) : nat := Z.to_nat (buffer_size (_stream s)) + 2.

Definition fill_window (s : TCPSender) : TCPSender :=
  if _finAcked (unAckQueue s) || (_finSent (unAckQueue s) && negb (_finAcked (unAckQueue s)))
  then s
  else if negb (_synSent (unAckQueue s)) then
    let '(seg, s) := makeSynSeg s in firstPush seg s
  else
    let s :=
      if negb (_finSent (unAckQueue s)) && eof (_stream s) && (1 <? remainSpace s) then
        let '(seg, s) := makeFirstFinSeg s in firstPush seg s
      else s in
    if _synSent (unAckQueue s) && negb (_synAcked (unAckQueue s)) then s
    else fill_loop (fill_fuel s) s.

Definition ack_received (ackno : WrappingInt32) (window_size : Z) (s : TCPSender)
  : outcome TCPSender :=
  let s := setWindowSize window_size s in
  let q := unAckQueue s in
  let absAckno := unwrap ackno (_isn s) (_baseSqn q) in
  if (_finSent q && (UnAckQueue.ackForFinSqn q <? absAckno)) || (absAckno <=? 0)
     || (absAckno <? _baseSqn q)
  then Ok s
  else if _baseSqn q <? absAckno then
    q ← UnAckQueue.updateBase absAckno q;
    let s := s <| unAckQueue := q |> in
    if negb (UnAckQueue.empty q) || (_finSent q && negb (_finAcked q))
    then Ok (s <| timer := Timer.startTimer (timer s) |>)
    else Ok (s <| timer := Timer.stopTimer (timer s) |>)
  else Ok s.

(** The segment [timeoutRetransmit] sends again, [TCPSegment{}] when no case applies. *)
Definition retransmitSeg (s : TCPSender) : outcome (TCPSegment * TCPSender) :=
  let q := unAckQueue s in
  if _finSent q && negb (_finAcked q) then
    if UnAckQueue.empty q then Ok (makeNotFirstFinSeg s, s)
    else seg ← UnAckQueue.frontSeg (_isn s) q; Ok (seg, s)
  else if _synSent q && negb (_synAcked q) then Ok (makeSynSeg s)
  else if negb (UnAckQueue.empty q) then
    seg ← UnAckQueue.frontSeg (_isn s) q; Ok (seg, s)
  else Ok (TCPSegment.default, s).

Definition timeoutRetransmit (s : TCPSender) : outcome TCPSender :=
  if _finAcked (unAckQueue s) then Ok s
  else
    '(seg, s) ← retransmitSeg s;
    let s := s <| _segments_out := _segments_out s ++ [seg] |> in
    let t := timer s in
    let t := if _doubleTimeout t then t <| _timeout := u32 (_timeout t * 2) |> else t in
    let t := t <| _msSinceBaseSegSent := 0 |>
               <| _consecutive_retransmissions := u32 (_consecutive_retransmissions t + 1) |> in
    Ok (s <| timer := t |>).

Definition tick (ms_since_last_tick : Z) (s : TCPSender) : outcome TCPSender :=
  if _isTimerRunning (timer s) then
    let s := s <| timer := (timer s) <| _msSinceBaseSegSent :=
      u64 (_msSinceBaseSegSent (timer s) + ms_since_last_tick) |> |> in
    if _timeout (timer s) <=? _msSinceBaseSegSent (timer s) then timeoutRetransmit s
    else Ok s
  else Ok s.

Definition send_empty_segment (s : TCPSender) : TCPSender :=
  s <| _segments_out := _segments_out s ++
    [headerSeg (TCPHeader.default <| seqno := wrap (_next_seqno (unAckQueue s)) (_isn s) |>)] |>.

(** ** Invariant

    [f] is the abstract outgoing stream: its [popped] bytes have been put into
    segments. *)

Definition zsum (l : list Z) : Z := foldr Z.add 0 l.

(** The bytes segments have been made of. *)
Definition taken (f : fifo) : bytes := ztake (popped f) (hist f).

(** Positive sizes, but for an empty FIN segment at the end. *)
Definition sizes_ok (fin_sent : bool) (sizes : list Z) : Prop :=
  exists ps zs, sizes = ps ++ zs /\ Forall (fun n => 0 < n <= MAX_PAYLOAD_SIZE) ps /\
    (zs = [] \/ zs = [0] /\ fin_sent = true).

Definition b2n (b : bool) : Z := if b then 1 else 0.
Lemma b2n_range b : 0 <= b2n b <= 1.
Proof. destruct b; cbn; lia. Qed.

(** Streams this long keep every absolute sequence number below 2^63. *)
Definition LIMIT : Z := 0x7fffffff00000000.

Record queue_inv (f : fifo) (q : UnAckQueue) : Prop := mk_queue_inv {
  qi_win : 1 <= _win_size q < 65536;
  qi_unsent : _synSent q = false -> q = UnAckQueue.new <| _win_size := _win_size q |> /\ popped f = 0;
  qi_next : _next_seqno q = b2n (_synSent q) + popped f + b2n (_finSent q);
  qi_base : 0 <= _baseSqn q <= _next_seqno q;
  qi_fin : _finSent q = true -> ended f = true /\ popped f = zlen (hist f);
  qi_sizes : sizes_ok (_finSent q) (_unAckedPayloadSize q);
  qi_sum : zsum (_unAckedPayloadSize q) = zlen (_unAcked q);
  qi_finAcked : _finAcked q = true -> _finSent q = true /\ _unAcked q = [] /\ 1 <= _baseSqn q;
  qi_handshake : _synAcked q = false ->
    popped f = 0 /\ _unAcked q = [] /\ (_finAcked q = false -> _baseSqn q = 0);
  qi_data : _synAcked q = true ->
    1 <= _baseSqn q /\
    (_finAcked q = false ->
     _baseSqn q - 1 <= popped f /\ _unAcked q = zdrop (_baseSqn q - 1) (taken f)) }.

Record sender_inv (s : TCPSender) (f : fifo) : Prop := mk_sender_inv {
  se_stream : refines (_stream s) f;
  se_bound : zlen (hist f) < LIMIT;
  se_queue : queue_inv f (unAckQueue s) }.

(** What a segment tells the receiver is true of the stream: it carries the bytes
    at its sequence number, SYN at the start and FIN at the end only; or it is a
    bare acknowledgment. *)
Definition accurate (isn : WrappingInt32) (w : bytes) (e : bool) (seg : TCPSegment) : Prop :=
  let h := _header seg in
  let payload := str (_payload seg) in
  (payload = [] /\ syn h = false /\ fin h = false) \/
  exists i, 0 <= i /\ i + zlen payload <= zlen w /\ payload = ztake (zlen payload) (zdrop i w) /\
    zlen payload <= MAX_PAYLOAD_SIZE /\
    seqno h = wrap (if syn h then 0 else i + 1) isn /\
    (syn h = true -> i = 0) /\ (fin h = true -> e = true /\ i + zlen payload = zlen w).

(** The stream may grow until it has ended. *)
Definition grows (w : bytes) (e : bool) (w' : bytes) (e' : bool) : Prop :=
  exists x, w' = w ++ x /\ (e = true -> e' = true /\ x = []).

Lemma accurate_grows isn w e w' e' seg :
  grows w e w' e' -> accurate isn w e seg -> accurate isn w' e' seg.
Proof.
  intros (x & -> & Hx) [A|(i & H0 & H1 & H2 & H3 & H4 & H5 & H6)]; [by left|right].
  exists i. rewrite zlen_app. split_and!; try done; try lia.
  - rewrite zdrop_app_le, ztake_app_le by (rewrite ?zlen_zdrop; lia). done.
  - intros Hf. destruct (H6 Hf) as [He Hl]. destruct (Hx He) as [He' ->]. cbn. split; [done|lia].
Qed.

Lemma zsum_app l k : zsum (l ++ k) = zsum l + zsum k.
Proof. unfold zsum. rewrite foldr_app. induction l as [|x l IH]; cbn; [done|lia]. Qed.

Lemma sizes_ok_nonneg b l : sizes_ok b l -> Forall (fun n => 0 <= n <= MAX_PAYLOAD_SIZE) l.
Proof.
  intros (ps & zs & -> & Hp & Hz). apply Forall_app. split.
  - eapply Forall_impl; [exact Hp|]. cbn. lia.
  - destruct Hz as [->|[-> _]]; repeat constructor; unfold MAX_PAYLOAD_SIZE; lia.
Qed.

Lemma zsum_nonneg l : Forall (fun n => 0 <= n <= MAX_PAYLOAD_SIZE) l -> 0 <= zsum l.
Proof. induction 1; cbn; [done|fold (zsum l); lia]. Qed.

(** ** The stream *)

Lemma stream_facts s f :
  refines s f ->
  buffer_size s = zlen (hist f) - popped f /\ 0 <= popped f <= zlen (hist f) /\
  eof s = bool_decide (popped f = zlen (hist f)) && ended f.
Proof.
  intros R. pose proof (ref_popped _ _ R) as Hp. pose proof (bs_zlen_pending f Hp) as Hl.
  unfold buffer_size, eof. rewrite (wf_size _ (ref_wf _ _ R)), (ref_buf _ _ R), Hl, (ref_end _ _ R).
  split_and!; try lia. f_equal. case_bool_decide; lia.
Qed.

(** The abstract stream after [n] bytes have been taken. *)
Definition take_bytes (n : Z) (f : fifo) : fifo :=
  mk_fifo (hist f) (Z.min (popped f + n) (zlen (hist f))) (bound f) (ended f) (failed f).

Lemma read_facts n s f :
  refines s f -> 0 <= n ->
  read n s = (ztake (Z.min n (zlen (hist f) - popped f)) (pending f), pop_output n s) /\
  refines (pop_output n s) (take_bytes n f).
Proof.
  intros R Hn. split; [|by apply bs_refines_pop].
  unfold read. f_equal. rewrite (bs_refines_peek n _ f) by done.
  pose proof (bs_zlen_pending f (ref_popped _ _ R)) as Hl.
  destruct (decide (n <= zlen (pending f))) as [H|H].
  - rewrite Z.min_l by lia. done.
  - rewrite !ztake_ge by lia. done.
Qed.

Lemma in_flight_eq s f :
  sender_inv s f -> bytes_in_flight s = _next_seqno (unAckQueue s) - _baseSqn (unAckQueue s) /\
    0 <= _next_seqno (unAckQueue s) < LIMIT + 2.
Proof.
  intros [R Hb Q]. destruct (stream_facts _ _ R) as (_ & Hp & _).
  pose proof (qi_next _ _ Q) as Hn. pose proof (qi_base _ _ Q) as Hbase.
  unfold bytes_in_flight, UnAckQueue.bytesInFlight, LIMIT, b2n in *.
  split; [|destruct (_synSent _), (_finSent _); lia].
  apply u64_id. destruct (_synSent _), (_finSent _); lia.
Qed.

(** One round of the loop of [fill_window]. *)
Definition fill_round (s : TCPSender) : TCPSender :=
  let '(seg, s) := makePayLoadSeg s in
  firstPush seg (s <| unAckQueue := UnAckQueue.push seg (unAckQueue s) |>).

Lemma fill_loop_S fuel s :
  fill_loop (S fuel) s =
    if (0 <? remainSpace s) && hasContentToPush s then fill_loop fuel (fill_round s) else s.
Proof.
  cbn [fill_loop]. destruct (_ && _); [|done]. unfold fill_round.
  by destruct (makePayLoadSeg s).
Qed.

(** What [makePayLoadSeg] makes, with [n] bytes and perhaps FIN. *)
Definition payload_n (s : TCPSender) (f : fifo) : Z :=
  Z.min (Z.min (remainSpace s) MAX_PAYLOAD_SIZE) (zlen (hist f) - popped f).
Definition payload_fin (s : TCPSender) (f : fifo) : bool :=
  bool_decide (popped f + payload_n s f = zlen (hist f)) && ended f &&
  (payload_n s f <? remainSpace s).

Lemma remainSpace_range s : is_u64 (remainSpace s).
Proof. apply u64_range. Qed.

Lemma zlen_payload s f :
  refines (_stream s) f -> zlen (ztake (payload_n s f) (pending f)) = payload_n s f.
Proof.
  intros R. pose proof (ref_popped _ _ R) as Hp. pose proof (remainSpace_range s).
  unfold payload_n, MAX_PAYLOAD_SIZE in *. rewrite zlen_ztake, bs_zlen_pending by lia. lia.
Qed.

Lemma makePayLoadSeg_eq s f :
  sender_inv s f -> _finSent (unAckQueue s) = false ->
  makePayLoadSeg s =
    (mkTCPSegment
       (TCPHeader.default <| seqno := wrap (_next_seqno (unAckQueue s)) (_isn s) |>
                          <| fin := payload_fin s f |>)
       (of_string (ztake (payload_n s f) (pending f))),
     s <| _stream := pop_output (Z.min (remainSpace s) MAX_PAYLOAD_SIZE) (_stream s) |>
       <| unAckQueue := (unAckQueue s) <| _finSent := payload_fin s f |>
            <| _next_seqno := _next_seqno (unAckQueue s) + b2n (payload_fin s f) + payload_n s f |>
       |>).
Proof.
  intros I Hfin. destruct (in_flight_eq _ _ I) as [_ Hnext]. destruct I as [R Hb Q].
  pose proof (remainSpace_range s) as Hr. pose proof (ref_popped _ _ R) as Hp.
  pose proof (zlen_payload s f R) as Hlen.
  destruct (read_facts (Z.min (remainSpace s) MAX_PAYLOAD_SIZE) (_stream s) f R) as [Hread R'];
    [unfold MAX_PAYLOAD_SIZE; lia|].
  assert (Hn : 0 <= payload_n s f <= remainSpace s)
    by (unfold payload_n, MAX_PAYLOAD_SIZE; lia).
  assert (Hn' : payload_n s f <= zlen (hist f) - popped f) by (unfold payload_n; lia).
  unfold makePayLoadSeg. rewrite Hread. fold (payload_n s f). cbn [_stream upd unAckQueue eta eta_TCPSender].
  destruct (stream_facts _ _ R') as (_ & _ & ->). rewrite Hlen.
  change (remainSpace (mkTCPSender _ _ _ _ _)) with (remainSpace s). rewrite u64_id by lia.
  assert (E : bool_decide (popped (take_bytes (Z.min (remainSpace s) MAX_PAYLOAD_SIZE) f) =
                zlen (hist (take_bytes (Z.min (remainSpace s) MAX_PAYLOAD_SIZE) f))) &&
              ended (take_bytes (Z.min (remainSpace s) MAX_PAYLOAD_SIZE) f) &&
              (0 <? remainSpace s - payload_n s f) = payload_fin s f).
  { unfold payload_fin, payload_n, take_bytes; cbn [popped hist ended].
    f_equal; [f_equal; apply bool_decide_ext; lia|lia]. }
  rewrite E. clear E. revert Hlen. generalize (ztake (payload_n s f) (pending f)) as p.
  generalize dependent (payload_n s f). intros n Hn Hn' Hlen. unfold LIMIT in *.
  destruct (payload_fin s f); cbn [b2n]; unfold bump; cbn [unAckQueue upd eta eta_TCPSender
    eta_UnAckQueue _next_seqno _finSent]; rewrite ?Hlen.
  - rewrite (u64_id (_next_seqno _ + 1)), u64_id by lia. done.
  - rewrite u64_id, Z.add_0_r by lia.
    clear -Hfin. destruct s as [? ? ? ? []]; cbn in Hfin |- *. by subst.
Qed.

Lemma firstPush_out seg s : _segments_out (firstPush seg s) = _segments_out s ++ [seg].
Proof. unfold firstPush. cbn. by destruct (_isTimerRunning _). Qed.
Lemma firstPush_frame seg s :
  unAckQueue (firstPush seg s) = unAckQueue s /\ _stream (firstPush seg s) = _stream s /\
  _isn (firstPush seg s) = _isn s /\ _isTimerRunning (timer (firstPush seg s)) = true.
Proof. unfold firstPush. cbn. destruct (_isTimerRunning _) eqn:E; cbn; by rewrite ?E. Qed.

(** What every operation of the sender leaves alone. *)
Definition same_conn (s s' : TCPSender) : Prop :=
  _isn s' = _isn s /\ _baseSqn (unAckQueue s') = _baseSqn (unAckQueue s) /\
  _win_size (unAckQueue s') = _win_size (unAckQueue s) /\
  _synAcked (unAckQueue s') = _synAcked (unAckQueue s) /\
  _finAcked (unAckQueue s') = _finAcked (unAckQueue s).

Lemma same_conn_refl s : same_conn s s.
Proof. by split_and!. Qed.
Lemma same_conn_trans s t u : same_conn s t -> same_conn t u -> same_conn s u.
Proof. intros (? & ? & ? & ? & ?) (? & ? & ? & ? & ?). split_and!; congruence. Qed.

Definition same_stream (f f' : fifo) : Prop :=
  hist f' = hist f /\ ended f' = ended f /\ bound f' = bound f /\ popped f <= popped f'.

(** The queue after one more payload has been cut off the stream. *)
Lemma queue_inv_push f q n b h m :
  queue_inv f q -> _synSent q = true -> _synAcked q = true -> _finSent q = false ->
  0 <= n <= MAX_PAYLOAD_SIZE -> n <= zlen (hist f) - popped f <= Z.max n (zlen (hist f) - popped f) ->
  popped f <= zlen (hist f) -> 0 <= popped f ->
  (n = 0 -> b = true) -> (b = true -> ended f = true /\ popped f + n = zlen (hist f)) ->
  Z.min (popped f + m) (zlen (hist f)) = popped f + n ->
  queue_inv (take_bytes m f)
    (UnAckQueue.push (mkTCPSegment h (of_string (ztake n (pending f))))
      (q <| _finSent := b |> <| _next_seqno := _next_seqno q + b2n b + n |>)).
Proof.
  intros Q Hs Ha Hf Hn Hle Hp Hp0 Hz Hb Hm. pose proof Q as [Qw Qu Qn Qb Qf Qs Qm Qa Qh Qd].
  assert (Hlen : zlen (ztake n (pending f)) = n).
  { rewrite zlen_ztake, bs_zlen_pending; lia. }
  assert (Hna : _finAcked q = false).
  { destruct (_finAcked q); [|done]. destruct (Qa eq_refl) as [? _]. congruence. }
  destruct (Qd Ha) as [Hb1 Hd]. specialize (Hd Hna) as [Hb2 Hd]. rewrite Hs, Hf in Qn. cbn [b2n] in Qn.
  split; cbn [UnAckQueue.push upd eta eta_UnAckQueue _win_size _synSent _next_seqno _finSent
      _baseSqn _unAckedPayloadSize _unAcked _finAcked _synAcked take_bytes popped hist ended
      _payload]; rewrite ?str_of_string, ?Hm; try congruence.
  - rewrite Hs. change (b2n true) with 1. lia.
  - destruct b; cbn [b2n]; lia.
  - intros ->. destruct (Hb eq_refl). done.
  - destruct Qs as (ps & zs & E & HF & HZ). rewrite Hf in HZ.
    assert (zs = []) as -> by (destruct HZ as [|[_ ?]]; done). rewrite app_nil_r in E.
    rewrite E. destruct (decide (n = 0)) as [->|Hn0].
    + exists ps, [0]. rewrite Hlen. split_and!; [done|done|]. right. by rewrite (Hz eq_refl).
    + exists (ps ++ [n]), []. rewrite Hlen, app_nil_r. split_and!; [done| |by left].
      apply Forall_app. split; [done|]. constructor; [lia|done].
  - rewrite zsum_app, zlen_app, Qm, Hlen. cbn. lia.
  - intros _. split; [lia|]. intros _. split; [lia|]. rewrite Hd. unfold taken, take_bytes;
    cbn [popped hist]. rewrite Hm, <- zdrop_app_le by (rewrite zlen_ztake; lia). f_equal.
    unfold pending. rewrite ztake_app_zdrop by lia. f_equal. lia.
Qed.

Lemma payload_n_range s f :
  sender_inv s f ->
  0 <= payload_n s f <= MAX_PAYLOAD_SIZE /\ payload_n s f <= remainSpace s /\
  payload_n s f <= zlen (hist f) - popped f /\
  Z.min (popped f + Z.min (remainSpace s) MAX_PAYLOAD_SIZE) (zlen (hist f)) = popped f + payload_n s f.
Proof.
  intros [R _ _]. pose proof (ref_popped _ _ R). pose proof (remainSpace_range s).
  unfold payload_n, MAX_PAYLOAD_SIZE. lia.
Qed.

Lemma fill_round_spec s f :
  sender_inv s f -> _synSent (unAckQueue s) = true -> _synAcked (unAckQueue s) = true ->
  0 < remainSpace s -> hasContentToPush s = true ->
  exists seg,
    sender_inv (fill_round s) (take_bytes (Z.min (remainSpace s) MAX_PAYLOAD_SIZE) f) /\
    _segments_out (fill_round s) = _segments_out s ++ [seg] /\
    accurate (_isn s) (hist f) (ended f) seg /\
    same_conn s (fill_round s) /\ _synSent (unAckQueue (fill_round s)) = true /\
    _next_seqno (unAckQueue (fill_round s)) =
      _next_seqno (unAckQueue s) + b2n (payload_fin s f) + payload_n s f /\
    0 < b2n (payload_fin s f) + payload_n s f <= remainSpace s.
Proof.
  intros I Hs Ha Hr Hc. destruct (payload_n_range s f I) as (Hn & Hnr & Hnp & Hm).
  pose proof I as [R Hb Q]. destruct (stream_facts _ _ R) as (Hbs & Hp & He).
  assert (Hf : _finSent (unAckQueue s) = false).
  { destruct (_finSent _) eqn:E; [|done]. destruct (qi_fin _ _ Q E) as [_ Hpop].
    unfold hasContentToPush in Hc. rewrite Hbs, E, Hpop in Hc.
    rewrite Z.sub_diag, andb_false_r in Hc. done. }
  assert (Hfin : payload_fin s f = true ->
    ended f = true /\ popped f + payload_n s f = zlen (hist f) /\ payload_n s f < remainSpace s).
  { unfold payload_fin. rewrite !andb_true_iff, bool_decide_eq_true, Z.ltb_lt. tauto. }
  assert (Hpos : payload_n s f = 0 -> payload_fin s f = true).
  { intros H0. assert (popped f = zlen (hist f)) as Hpop
      by (unfold payload_n, MAX_PAYLOAD_SIZE in H0; lia).
    unfold hasContentToPush in Hc. rewrite Hbs, He, Hpop, Z.sub_diag, Hf, andb_true_r in Hc.
    rewrite bool_decide_eq_true_2 in Hc by done. cbn in Hc. unfold payload_fin.
    rewrite H0, Z.add_0_r, Hpop, bool_decide_eq_true_2, Hc by done. cbn. lia. }
  pose proof (zlen_payload s f R) as Hlen.
  unfold fill_round. rewrite (makePayLoadSeg_eq s f I Hf). cbv beta iota.
  set (h := TCPHeader.default <| seqno := wrap (_next_seqno (unAckQueue s)) (_isn s) |>
             <| fin := payload_fin s f |>).
  set (seg := mkTCPSegment h (of_string (ztake (payload_n s f) (pending f)))).
  exists seg. rewrite firstPush_out. unfold same_conn.
  match goal with |- context [firstPush _ ?t] =>
    destruct (firstPush_frame seg t) as (Fq & Fs & Fi & _); rewrite Fi, Fq end.
  split_and!; try done.
  - split; [|done|].
    + rewrite Fs. apply read_facts; [done|unfold MAX_PAYLOAD_SIZE; lia].
    + rewrite Fq. apply queue_inv_push; try done; try lia.
      intros H. destruct (Hfin H) as (? & ? & _). done.
  - right. exists (popped f). unfold seg; cbn [_header _payload h]. rewrite str_of_string, Hlen.
    split_and!; try lia; try done.
    + unfold h; cbn. rewrite (qi_next _ _ Q), Hs, Hf. cbn [b2n]. f_equal. lia.
    + intros H. destruct (Hfin H) as (? & ? & _). done.
  - destruct (payload_fin s f); cbn [b2n]; [lia|]. destruct (decide (payload_n s f = 0)) as [E|]; [|lia].
    specialize (Hpos E). done.
  - destruct (payload_fin s f); cbn [b2n]; [|lia]. destruct (Hfin eq_refl) as (_ & _ & ?). lia.
Qed.

Lemma same_stream_refl f : same_stream f f.
Proof. by split_and!. Qed.
Lemma same_stream_trans f g h : same_stream f g -> same_stream g h -> same_stream f h.
Proof. intros (? & ? & ? & ?) (? & ? & ? & ?). split_and!; try congruence. lia. Qed.

Lemma take_bytes_stream n f : 0 <= n -> popped f <= zlen (hist f) -> same_stream f (take_bytes n f).
Proof. intros. split_and!; try done. cbn. lia. Qed.

(** [s'] follows [s] by sending [segs], all of them accurate. *)
Definition sends (s : TCPSender) (f : fifo) (s' : TCPSender) (f' : fifo) (segs : list TCPSegment)
  : Prop :=
  sender_inv s' f' /\ same_stream f f' /\ _segments_out s' = _segments_out s ++ segs /\
  Forall (accurate (_isn s) (hist f) (ended f)) segs /\ same_conn s s' /\
  (_synSent (unAckQueue s) = true -> _synSent (unAckQueue s') = true) /\
  (bytes_in_flight s <= _win_size (unAckQueue s) ->
   bytes_in_flight s' <= _win_size (unAckQueue s)).

Lemma sends_none s f : sender_inv s f -> sends s f s f [].
Proof.
  intros I. split; [done|]. split; [apply same_stream_refl|]. rewrite app_nil_r.
  split; [done|]. split; [constructor|]. split; [apply same_conn_refl|done].
Qed.

Lemma sends_trans s f s1 f1 segs1 s2 f2 segs2 :
  sends s f s1 f1 segs1 -> sends s1 f1 s2 f2 segs2 -> sends s f s2 f2 (segs1 ++ segs2).
Proof.
  intros (I1 & S1 & O1 & A1 & C1 & Y1 & W1) (I2 & S2 & O2 & A2 & C2 & Y2 & W2).
  assert (Hh : hist f1 = hist f /\ ended f1 = ended f) by (split; apply S1).
  destruct Hh as [Hh He]. rewrite Hh, He in A2.
  assert (Hi : _isn s1 = _isn s) by apply C1. rewrite Hi in A2.
  assert (Hw : _win_size (unAckQueue s1) = _win_size (unAckQueue s)) by apply C1. rewrite Hw in W2.
  split; [done|]. split; [by eapply same_stream_trans|].
  split; [by rewrite O2, O1, app_assoc|]. split; [by apply Forall_app|].
  split; [by eapply same_conn_trans|]. split; auto.
Qed.

Lemma fill_round_sends s f :
  sender_inv s f -> _synSent (unAckQueue s) = true -> _synAcked (unAckQueue s) = true ->
  0 < remainSpace s -> hasContentToPush s = true ->
  exists f' seg, sends s f (fill_round s) f' [seg] /\
    _next_seqno (unAckQueue s) < _next_seqno (unAckQueue (fill_round s)).
Proof.
  intros I Hs Ha Hr Hc. destruct (fill_round_spec s f I Hs Ha Hr Hc)
    as (seg & I' & Ho & Hacc & Hsc & Hs' & Hn & Hpos).
  pose proof (ref_popped _ _ (se_stream _ _ I)) as Hp. pose proof (remainSpace_range s) as Hrr.
  eexists _, seg. split; [|lia]. split; [exact I'|].
  split; [apply take_bytes_stream; unfold MAX_PAYLOAD_SIZE; lia|].
  split_and!; try done; [by apply Forall_singleton|].
  intros Hw. rewrite (proj1 (in_flight_eq _ _ I)) in *. rewrite (proj1 (in_flight_eq _ _ I')).
  assert (Hb : _baseSqn (unAckQueue (fill_round s)) = _baseSqn (unAckQueue s)) by apply Hsc.
  rewrite Hn, Hb. unfold remainSpace in Hpos. change (UnAckQueue.bytesInFlight (unAckQueue s))
    with (bytes_in_flight s) in Hpos. rewrite (proj1 (in_flight_eq _ _ I)) in Hpos.
  pose proof (qi_win _ _ (se_queue _ _ I)). pose proof (qi_base _ _ (se_queue _ _ I)).
  rewrite u64_id in Hpos; lia.
Qed.

(** [fuel] rounds are enough when one is left for each sequence number still to use. *)
Lemma fill_loop_exits fuel s f :
  sender_inv s f -> _synSent (unAckQueue s) = true -> _synAcked (unAckQueue s) = true ->
  zlen (hist f) + 2 - _next_seqno (unAckQueue s) < Z.of_nat fuel ->
  exists f' segs, sends s f (fill_loop fuel s) f' segs /\
    (remainSpace (fill_loop fuel s) = 0 \/ hasContentToPush (fill_loop fuel s) = false).
Proof.
  revert s f. induction fuel as [|fuel IH]; intros s f I Hs Ha Hm.
  { pose proof (qi_next _ _ (se_queue _ _ I)) as Hn. rewrite Hs in Hn.
    pose proof (ref_popped _ _ (se_stream _ _ I)). destruct (_finSent _); cbn [b2n] in Hn; lia. }
  rewrite fill_loop_S. pose proof (remainSpace_range s).
  destruct ((0 <? remainSpace s) && hasContentToPush s) eqn:E.
  - apply andb_true_iff in E as [Er%Z.ltb_lt Ec].
    destruct (fill_round_sends s f I Hs Ha Er Ec) as (f1 & seg & S1 & Hlt).
    pose proof S1 as (I1 & (Hh & _) & _ & _ & (_ & _ & _ & Ha1 & _) & Hs1 & _).
    destruct (IH _ _ I1 (Hs1 Hs) ltac:(congruence)) as (f2 & segs & S2 & X); [rewrite Hh; lia|].
    exists f2, ([seg] ++ segs). split; [|done]. by eapply sends_trans.
  - exists f, []. split; [by apply sends_none|].
    apply andb_false_iff in E as [E%Z.ltb_ge|E]; [left; lia|by right].
Qed.

Lemma fill_fuel_enough s f :
  sender_inv s f -> _synSent (unAckQueue s) = true ->
  zlen (hist f) + 2 - _next_seqno (unAckQueue s) < Z.of_nat (fill_fuel s).
Proof.
  intros I Hs. destruct (stream_facts _ _ (se_stream _ _ I)) as (Hb & Hp & _).
  pose proof (qi_next _ _ (se_queue _ _ I)) as Hn. rewrite Hs in Hn.
  unfold fill_fuel. rewrite Hb. destruct (_finSent _); cbn [b2n] in Hn; lia.
Qed.

(** A segment made without payload: the sender [s1] that made [seg] from [s]. *)
Definition makes (s : TCPSender) (f : fifo) (seg : TCPSegment) (s1 : TCPSender) : Prop :=
  sender_inv s1 f /\ accurate (_isn s) (hist f) (ended f) seg /\
  _segments_out s1 = _segments_out s /\ same_conn s s1 /\ timer s1 = timer s /\
  (_synSent (unAckQueue s) = true -> _synSent (unAckQueue s1) = true) /\
  (bytes_in_flight s <= _win_size (unAckQueue s) ->
   bytes_in_flight s1 <= _win_size (unAckQueue s)).

Lemma makes_sends s f seg s1 : makes s f seg s1 -> sends s f (firstPush seg s1) f [seg].
Proof.
  intros (I & A & O & C & _ & Y & W). destruct (firstPush_frame seg s1) as (Fq & Fs & Fi & _).
  unfold sends, same_conn, bytes_in_flight in *. rewrite Fq, Fi, firstPush_out, O.
  split; [destruct I; split; by rewrite ?Fs, ?Fq|]. split; [apply same_stream_refl|].
  split; [done|]. split; [by apply Forall_singleton|]. done.
Qed.

(** An empty segment at stream index [i]. *)
Lemma accurate_empty isn w e h i :
  0 <= i <= zlen w -> seqno h = wrap (if syn h then 0 else i + 1) isn ->
  (syn h = true -> i = 0) -> (fin h = true -> e = true /\ i = zlen w) ->
  accurate isn w e (headerSeg h).
Proof.
  intros Hi Hq Hs Hf. right. exists i. cbn. split_and!; try done; try lia.
  intros H. destruct (Hf H). split; [done|lia].
Qed.

Lemma queue_inv_syn f q :
  queue_inv f q -> _synSent q = false -> queue_inv f (bump 1 (q <| _synSent := true |>)).
Proof.
  intros Q Hs. pose proof (qi_win _ _ Q). destruct (qi_unsent _ _ Q Hs) as [-> Hp]. unfold bump.
  cbn. split; cbn; rewrite ?Hp; try done; try lia.
  - exists [], []. split_and!; [done|constructor|by left].
Qed.

Lemma queue_inv_fin f q :
  queue_inv f q -> _synSent q = true -> _finSent q = false -> ended f = true ->
  popped f = zlen (hist f) ->
  queue_inv f (q <| _finSent := true |> <| _next_seqno := _next_seqno q + 1 |>).
Proof.
  intros Q Hs Hf He Hp. pose proof Q as [Qw Qu Qn Qb Qf Qs Qm Qa Qh Qd].
  split; cbn [upd eta eta_UnAckQueue _win_size _synSent _next_seqno _finSent
      _baseSqn _unAckedPayloadSize _unAcked _finAcked _synAcked]; try done; try congruence.
  - rewrite Qn, Hf. change (b2n true) with 1. change (b2n false) with 0. lia.
  - lia.
  - destruct Qs as (ps & zs & E & HF & [->|[_ ?]]); [|congruence].
    exists ps, []. split_and!; try done. by left.
  - intros H. destruct (Qa H) as [? _]. congruence.
Qed.

(** The first half of [makeSynSeg]: the number of SYN is taken once. *)
Lemma syn_numbered s f :
  sender_inv s f -> _synAcked (unAckQueue s) = false -> _finSent (unAckQueue s) = false ->
  let s0 := if negb (_synSent (unAckQueue s)) then
    s <| unAckQueue := bump 1 ((unAckQueue s) <| _synSent := true |>) |> else s in
  sender_inv s0 f /\ _synSent (unAckQueue s0) = true /\
  _next_seqno (unAckQueue s0) = 1 /\ _finSent (unAckQueue s0) = false /\ same_conn s s0 /\
  _segments_out s0 = _segments_out s /\ timer s0 = timer s /\ _stream s0 = _stream s.
Proof.
  intros I Ha Hf s0. pose proof I as [R Hb Q].
  assert (Hna : _finAcked (unAckQueue s) = false).
  { destruct (_finAcked _) eqn:E; [|done]. destruct (qi_finAcked _ _ Q E) as [? _]. congruence. }
  destruct (qi_handshake _ _ Q Ha) as (Hp0 & Hu0 & Hb0). specialize (Hb0 Hna).
  pose proof (qi_next _ _ Q) as Hn. rewrite Hf, Hp0 in Hn.
  unfold s0. destruct (_synSent (unAckQueue s)) eqn:E; cbn [negb].
  - by split_and!.
  - split_and!; try done.
    + split; [done..|]. by apply queue_inv_syn.
    + cbn. by rewrite Hn.
Qed.

Lemma makes_syn s f :
  sender_inv s f -> _synAcked (unAckQueue s) = false -> _finSent (unAckQueue s) = false ->
  exists seg s1, makeSynSeg s = (seg, s1) /\ makes s f seg s1 /\ syn (_header seg) = true /\
    _synSent (unAckQueue s1) = true /\ seqno (_header seg) = wrap 0 (_isn s).
Proof.
  intros I Ha Hf. pose proof I as [R Hb Q]. destruct (stream_facts _ _ R) as (_ & Hp & He).
  assert (Hna : _finAcked (unAckQueue s) = false).
  { destruct (_finAcked _) eqn:E; [|done]. destruct (qi_finAcked _ _ Q E) as [? _]. congruence. }
  destruct (qi_handshake _ _ Q Ha) as (Hp0 & Hu0 & Hb0). specialize (Hb0 Hna).
  pose proof (qi_win _ _ Q) as Hw. pose proof (syn_numbered s f I Ha Hf) as I0. cbv zeta in I0.
  set (s0 := if negb (_synSent (unAckQueue s)) then
    s <| unAckQueue := bump 1 ((unAckQueue s) <| _synSent := true |>) |> else s) in *.
  destruct I0 as (I0 & Hs1 & Hn1 & Hf1 & C1 & O1 & T1 & St1).
  assert (Hbase : _baseSqn (unAckQueue s0) = 0) by (destruct C1 as (_ & -> & _); done).
  assert (Hwin : _win_size (unAckQueue s0) = _win_size (unAckQueue s)) by apply C1.
  assert (Hrem : remainSpace s0 = _win_size (unAckQueue s) - 1).
  { unfold remainSpace. change (UnAckQueue.bytesInFlight (unAckQueue s0)) with (bytes_in_flight s0).
    rewrite (proj1 (in_flight_eq _ _ I0)), Hn1, Hbase, Hwin. apply u64_id. lia. }
  unfold makeSynSeg. fold s0. rewrite St1, He.
  set (h := TCPHeader.default <| seqno := wrap 0 (_isn s) |> <| syn := true |>).
  assert (W0 : bytes_in_flight s0 <= _win_size (unAckQueue s)).
  { rewrite (proj1 (in_flight_eq _ _ I0)). lia. }
  destruct (bool_decide (popped f = zlen (hist f)) && ended f && (2 <=? remainSpace s0)) eqn:E.
  - rewrite !andb_true_iff, bool_decide_eq_true, Z.leb_le in E. destruct E as [[Hpop Hend] Hr].
    eexists _, _. split; [done|]. split; [|done].
    assert (Q1 : queue_inv f (bump 1 ((unAckQueue s0) <| _finSent := true |>))).
    { unfold bump. cbn [_next_seqno upd eta eta_UnAckQueue]. rewrite u64_id by lia.
      apply queue_inv_fin; try done. apply I0. }
    assert (I1 : sender_inv (s0 <| unAckQueue := bump 1 ((unAckQueue s0) <| _finSent := true |>) |>) f).
    { split; [apply I0|apply I0|exact Q1]. }
    split; [exact I1|]. split.
    { apply (accurate_empty _ _ _ _ 0); cbn; try done; try lia. intros _. split; [done|lia]. }
    split; [done|]. split; [exact C1|]. split; [done|]. split; [done|]. intros _.
    rewrite (proj1 (in_flight_eq _ _ I1)). cbn [unAckQueue upd eta eta_TCPSender bump eta_UnAckQueue _next_seqno _baseSqn].
    rewrite Hn1, Hbase, u64_id by lia. lia.
  - eexists _, _. split; [done|]. split; [|done]. split; [exact I0|]. split.
    { apply (accurate_empty _ _ _ _ 0); cbn; try done; lia. }
    split; [done|]. split; [exact C1|]. done.
Qed.

Lemma makes_first_fin s f :
  sender_inv s f -> _synSent (unAckQueue s) = true -> _finSent (unAckQueue s) = false ->
  eof (_stream s) = true -> 1 < remainSpace s ->
  exists seg s1, makeFirstFinSeg s = (seg, s1) /\ makes s f seg s1.
Proof.
  intros I Hs Hf He Hr. pose proof I as [R Hb Q]. destruct (in_flight_eq _ _ I) as [Hfl Hnx].
  destruct (stream_facts _ _ R) as (_ & Hp & He'). rewrite He' in He.
  apply andb_true_iff in He as [Hpop%bool_decide_eq_true Hend].
  eexists _, _. split; [done|].
  assert (Q1 : queue_inv f ((bump 1 (unAckQueue s)) <| _finSent := true |>)).
  { unfold bump, LIMIT in *. rewrite u64_id by lia. by apply queue_inv_fin. }
  assert (I1 : sender_inv (s <| unAckQueue := (bump 1 (unAckQueue s)) <| _finSent := true |> |>) f)
    by (by split).
  split; [exact I1|]. split.
  { apply (accurate_empty _ _ _ _ (popped f)); cbn; try done; try lia.
    rewrite (qi_next _ _ Q), Hs, Hf. f_equal. change (b2n true) with 1. change (b2n false) with 0. lia. }
  split_and!; try done. intros Hw. rewrite (proj1 (in_flight_eq _ _ I1)).
  unfold bump, LIMIT in *. cbn [unAckQueue upd eta eta_TCPSender eta_UnAckQueue _next_seqno _baseSqn].
  unfold remainSpace in Hr. change (UnAckQueue.bytesInFlight (unAckQueue s)) with (bytes_in_flight s) in Hr.
  pose proof (qi_win _ _ Q). pose proof (qi_base _ _ Q).
  rewrite Hfl, u64_id in Hr by lia. rewrite u64_id by lia. lia.
Qed.

(** Everything [fill_window] does. *)
Lemma fill_window_sends s f :
  sender_inv s f ->
  exists f' segs, sends s f (fill_window s) f' segs /\
    (_synSent (unAckQueue s) = true -> _synAcked (unAckQueue s) = true ->
     remainSpace (fill_window s) = 0 \/ hasContentToPush (fill_window s) = false).
Proof.
  intros I. unfold fill_window. pose proof (se_queue _ _ I) as Q.
  destruct (_finSent (unAckQueue s)) eqn:Hf.
  - assert ((_finAcked (unAckQueue s) || (true && negb (_finAcked (unAckQueue s)))) = true) as ->
      by (by destruct (_finAcked _)).
    exists f, []. split; [by apply sends_none|]. intros _ _. right.
    destruct (qi_fin _ _ Q Hf) as [_ Hp].
    destruct (stream_facts _ _ (se_stream _ _ I)) as (Hbs & _ & _).
    unfold hasContentToPush. rewrite Hbs, Hp, Z.sub_diag, Hf, andb_false_r. done.
  - destruct (_finAcked (unAckQueue s)) eqn:Hfa.
    { destruct (qi_finAcked _ _ Q Hfa) as [? _]. congruence. }
    cbn [orb andb negb]. destruct (_synSent (unAckQueue s)) eqn:Hs; cbn [negb andb].
    2: { assert (Ha : _synAcked (unAckQueue s) = false).
         { destruct (qi_unsent _ _ Q Hs) as [-> _]. done. }
         destruct (makes_syn s f I Ha Hf) as (seg & s1 & -> & M & _).
         exists f, [seg]. split; [by apply makes_sends|done]. }
    set (s1 := if eof (_stream s) && (1 <? remainSpace s)
               then let '(seg, s) := makeFirstFinSeg s in firstPush seg s else s).
    assert (H1 : exists segs, sends s f s1 f segs).
    { unfold s1. destruct (eof (_stream s)) eqn:He, (1 <? remainSpace s) eqn:Hr; cbn [andb];
        try (exists []; by apply sends_none).
      destruct (makes_first_fin s f I Hs Hf He) as (seg & s2 & -> & M); [lia|].
      exists [seg]. by apply makes_sends. }
    destruct H1 as [segs1 S1]. pose proof S1 as (I1 & _ & _ & _ & C1 & Y1 & _).
    specialize (Y1 Hs). rewrite Y1.
    assert (Ha1 : _synAcked (unAckQueue s1) = _synAcked (unAckQueue s)) by apply C1.
    rewrite Ha1. cbn [andb]. destruct (_synAcked (unAckQueue s)) eqn:Ha; cbn [negb].
    + destruct (fill_loop_exits (fill_fuel s1) s1 f I1 Y1 Ha1 (fill_fuel_enough _ _ I1 Y1))
        as (f2 & segs2 & S2 & X).
      exists f2, (segs1 ++ segs2). split; [by eapply sends_trans|done].
    + exists f, segs1. by split.
Qed.

(** ** Acknowledgments *)

Lemma zsum_take_drop k l : zsum (take k l) + zsum (drop k l) = zsum l.
Proof. rewrite <- (take_drop k l) at 3. by rewrite zsum_app. Qed.

Lemma zsum_take_nonneg k l : Forall (fun n => 0 <= n <= MAX_PAYLOAD_SIZE) l -> 0 <= zsum (take k l).
Proof. intros H. apply zsum_nonneg. by apply Forall_take. Qed.

(** [erase]'s loop on an acknowledgment at a segment boundary. *)
Lemma erase_loop_boundary a rest : forall pre base n,
  Forall (fun n => 0 <= n <= MAX_PAYLOAD_SIZE) rest -> 0 <= base < a -> 0 <= n ->
  base + zsum rest < 0x8000000000000000 -> n + zsum rest < 0x8000000000000000 ->
  (exists k, a = base + zsum (take k rest)) ->
  exists k, UnAckQueue.erase_loop a pre rest base n = (drop k rest, a, n + (a - base)) /\
    zsum (take k rest) = a - base.
Proof.
  induction rest as [|x rest IH]; intros pre base n HF Hb Hn Hl1 Hl2 [k Hk].
  { destruct k; cbn in Hk; lia. }
  inversion_clear HF as [|? ? Hx HF']. cbn [zsum foldr] in Hl1, Hl2. fold (zsum rest) in Hl1, Hl2.
  pose proof (zsum_nonneg _ HF') as Hz.
  destruct k as [|k]; [cbn in Hk; lia|]. cbn [take zsum foldr] in Hk. fold (zsum (take k rest)) in Hk.
  pose proof (zsum_take_nonneg k _ HF') as Hz'.
  cbn [UnAckQueue.erase_loop]. rewrite !u64_id by lia.
  destruct (Z.eqb_spec (base + x) a) as [<-|Hne].
  - exists 1%nat. cbn [drop take zsum foldr]. rewrite take_0, drop_0. cbn [foldr].
    split; [f_equal; lia|lia].
  - rewrite (proj2 (Z.ltb_lt _ _)) by lia.
    destruct (IH (pre ++ [x]) (base + x) (n + x)) as (k' & -> & Hk'); try done; try lia.
    { exists k. lia. }
    exists (S k'). cbn [drop take zsum foldr]. fold (zsum (take k' rest)). split; [|lia].
    f_equal. lia.
Qed.

Lemma sizes_ok_drop b l k : sizes_ok b l -> sizes_ok b (drop k l).
Proof.
  intros (ps & zs & -> & Hp & Hz). destruct (decide (k <= length ps)%nat) as [H|H].
  - exists (drop k ps), zs. rewrite drop_app_le by done. split_and!; [done| |done].
    by apply Forall_drop.
  - rewrite drop_app_ge by lia. exists [], (drop (k - length ps) zs). split_and!; [done|constructor|].
    destruct Hz as [->|[-> ?]]; [left; by rewrite drop_nil|].
    destruct (k - length ps)%nat eqn:E; [lia|]. left. cbn. by rewrite drop_nil.
Qed.

Lemma sizes_ok_head b x l m :
  0 <= m < x -> sizes_ok b (x :: l) -> sizes_ok b (x - m :: l).
Proof.
  intros Hm ([|y ps] & zs & E & Hp & Hz).
  - destruct Hz as [->|[-> _]]; [done|]. injection E as -> ->. lia.
  - injection E as -> ->. exists (y - m :: ps), zs. split_and!; [done| |done].
    inversion_clear Hp. constructor; [lia|done].
Qed.

(** The head of the sizes while bytes are in flight. *)
Lemma sizes_ok_pos b l :
  sizes_ok b l -> 0 < zsum l -> exists x l', l = x :: l' /\ 0 < x <= MAX_PAYLOAD_SIZE /\ x <= zsum l.
Proof.
  intros H Hz. pose proof (sizes_ok_nonneg _ _ H) as HF.
  destruct H as ([|x ps] & zs & -> & Hp & Hzs).
  - destruct Hzs as [->|[-> _]]; cbn in Hz; lia.
  - inversion_clear Hp. inversion_clear HF as [|? ? _ HF'].
    exists x, (ps ++ zs). split_and!; try done; try lia. cbn [app zsum foldr].
    pose proof (zsum_nonneg _ HF') as Hn. unfold zsum in Hn. lia.
Qed.

(** Where an acknowledgment may fall: after SYN, after FIN, between two segments, or
    inside the oldest one. *)
Definition boundary (q : UnAckQueue) (a : Z) : Prop :=
  a = 1 \/ (_finSent q = true /\ a = _next_seqno q) \/
  (exists k, a = _baseSqn q + zsum (take k (_unAckedPayloadSize q))) \/
  (exists n rest, _unAckedPayloadSize q = n :: rest /\ a < _baseSqn q + n).

(** Moving the base to [a] over the bytes it acknowledges. *)
Lemma queue_inv_erase f q a sizes :
  queue_inv f q -> zlen (hist f) < LIMIT -> _unAcked q <> [] -> _baseSqn q < a ->
  a - _baseSqn q <= zlen (_unAcked q) ->
  sizes_ok (_finSent q) sizes -> zsum sizes = zlen (_unAcked q) - (a - _baseSqn q) ->
  queue_inv f (q <| _unAckedPayloadSize := sizes |> <| _baseSqn := a |>
                 <| _unAcked := zdrop (a - _baseSqn q) (_unAcked q) |>).
Proof.
  intros Q Hl Hu Ha Hle Hs Hz. pose proof Q as [Qw Qu Qn Qb Qf Qs Qm Qa Qh Qd].
  assert (Hna : _finAcked q = false).
  { destruct (_finAcked q); [|done]. by destruct (Qa eq_refl) as (_ & ? & _). }
  assert (Hsa : _synAcked q = true).
  { destruct (_synAcked q); [done|]. by destruct (Qh eq_refl) as (_ & ? & _). }
  destruct (Qd Hsa) as [Hb1 Hd]. destruct (Hd Hna) as [Hb2 Hdata].
  assert (Hss : _synSent q = true).
  { destruct (_synSent q) eqn:E; [done|]. destruct (Qu eq_refl) as [Eq _].
    rewrite Eq in Hu. done. }
  assert (Hlen : 0 < zlen (_unAcked q)) by (destruct (_unAcked q); [done|cbn; lia]).
  assert (Htl : zlen (_unAcked q) = Z.max 0 (Z.min (popped f) (zlen (hist f)) - (_baseSqn q - 1))).
  { rewrite Hdata. unfold taken. rewrite zlen_zdrop, zlen_ztake by lia. lia. }
  rewrite Hss in Qn. change (b2n true) with 1 in Qn.
  assert (0 <= b2n (_finSent q)) by (destruct (_finSent q); cbn; lia).
  split; cbn [upd eta eta_UnAckQueue _win_size _synSent _next_seqno _finSent
      _baseSqn _unAckedPayloadSize _unAcked _finAcked _synAcked]; try done; try congruence.
  - rewrite Hss. exact Qn.
  - lia.
  - rewrite zlen_zdrop by lia. lia.
  - intros _. split; [lia|]. intros _. split; [lia|].
    rewrite Hdata, zdrop_zdrop by lia. f_equal. lia.
Qed.

Lemma in_flight_data f q :
  queue_inv f q -> _unAcked q <> [] ->
  _synSent q = true /\ _synAcked q = true /\ _finAcked q = false /\
  _next_seqno q = 1 + popped f + b2n (_finSent q) /\ 1 <= _baseSqn q /\
  _unAcked q = zdrop (_baseSqn q - 1) (taken f) /\
  zlen (_unAcked q) <= popped f - (_baseSqn q - 1).
Proof.
  intros Q Hu. pose proof Q as [Qw Qu Qn Qb Qf Qs Qm Qa Qh Qd].
  assert (Hna : _finAcked q = false).
  { destruct (_finAcked q); [|done]. by destruct (Qa eq_refl) as (_ & ? & _). }
  assert (Hsa : _synAcked q = true).
  { destruct (_synAcked q); [done|]. by destruct (Qh eq_refl) as (_ & ? & _). }
  assert (Hss : _synSent q = true).
  { destruct (_synSent q) eqn:E; [done|]. destruct (Qu eq_refl) as [Eq _].
    rewrite Eq in Hu. done. }
  destruct (Qd Hsa) as [Hb1 Hd]. destruct (Hd Hna) as [Hb2 Hdata]. rewrite Hss in Qn.
  split_and!; try done. rewrite Hdata. unfold taken.
  rewrite zlen_zdrop, zlen_ztake; [lia| |lia].
  destruct (decide (0 <= popped f)); lia.
Qed.

Lemma queue_inv_finAck f q b sizes :
  queue_inv f q -> _finSent q = true -> _baseSqn q < b <= _next_seqno q ->
  sizes_ok true sizes -> zsum sizes = 0 ->
  queue_inv f (q <| _finAcked := true |> <| _baseSqn := b |> <| _unAcked := [] |>
                 <| _unAckedPayloadSize := sizes |>).
Proof.
  intros Q Hf Hb Hs Hz. pose proof Q as [Qw Qu Qn Qb Qf Qs Qm Qa Qh Qd].
  split; cbn [upd eta eta_UnAckQueue _win_size _synSent _next_seqno _finSent
      _baseSqn _unAckedPayloadSize _unAcked _finAcked _synAcked]; try done; try lia.
  - intros E. destruct (Qu E) as [Eq _]. rewrite Eq in Hf. done.
  - by rewrite Hf.
  - intros _. split_and!; [done|done|lia].
  - intros E. destruct (Qh E) as (? & _ & _). by split_and!.
Qed.

Lemma boundary_sum f q a :
  queue_inv f q -> boundary q a -> a <> 1 -> (_finSent q && (a =? _next_seqno q)) = false ->
  _baseSqn q < a -> a - _baseSqn q <= zsum (_unAckedPayloadSize q).
Proof.
  intros Q HB H1 Hf Ha. pose proof (sizes_ok_nonneg _ _ (qi_sizes _ _ Q)) as HF.
  destruct HB as [?|[[Hfs ->]|[[k ->]|(n & rest & E & Hn)]]]; [lia| | |].
  - rewrite Hfs, Z.eqb_refl in Hf. done.
  - pose proof (zsum_take_drop k (_unAckedPayloadSize q)).
    pose proof (zsum_nonneg _ (Forall_drop _ k _ HF)). lia.
  - rewrite E in *. inversion_clear HF as [|? ? _ HF']. pose proof (zsum_nonneg _ HF').
    cbn [zsum foldr]. fold (zsum rest). lia.
Qed.

(** [erase] between segments or inside the oldest one. *)
Lemma erase_spec f q a :
  queue_inv f q -> 0 <= popped f <= zlen (hist f) -> zlen (hist f) < LIMIT ->
  _baseSqn q < a <= _next_seqno q -> boundary q a -> a <> 1 ->
  (_finSent q && (a =? _next_seqno q)) = false -> _unAcked q <> [] ->
  exists q', UnAckQueue.erase a q = Ok q' /\ queue_inv f q' /\ _baseSqn q' = a /\
    _next_seqno q' = _next_seqno q /\ _win_size q' = _win_size q /\ _synSent q' = _synSent q.
Proof.
  intros Q Hp Hl Ha HB H1 Hf Hu. unfold UnAckQueue.erase, UnAckQueue.ackSqnForFin. rewrite Hf.
  pose proof (boundary_sum f q a Q HB H1 Hf ltac:(lia)) as Hsum.
  destruct (in_flight_data f q Q Hu) as (_ & _ & _ & Hnx & Hb & _ & Hlen).
  pose proof (qi_sizes _ _ Q) as Hs. pose proof (sizes_ok_nonneg _ _ Hs) as HF.
  pose proof (qi_sum _ _ Q) as Hz. unfold LIMIT in *.
  assert (exists sizes, UnAckQueue.erase_loop a [] (_unAckedPayloadSize q) (_baseSqn q) 0 =
      (sizes, a, a - _baseSqn q) /\ sizes_ok (_finSent q) sizes /\
      zsum sizes = zlen (_unAcked q) - (a - _baseSqn q)) as (sizes & -> & Hs' & Hz').
  { destruct HB as [?|[[Hfs ->]|[Hk|(n & rest & E & Hn)]]]; [lia| | |].
    - rewrite Hfs, Z.eqb_refl in Hf. done.
    - destruct (erase_loop_boundary a _ [] (_baseSqn q) 0 HF ltac:(lia) ltac:(lia) ltac:(lia)
        ltac:(lia) Hk) as (k' & -> & Hk').
      exists (drop k' (_unAckedPayloadSize q)). split; [f_equal; lia|].
      split; [by apply sizes_ok_drop|]. pose proof (zsum_take_drop k' (_unAckedPayloadSize q)). lia.
    - rewrite E in *. inversion_clear HF as [|? ? Hn0 HF']. cbn [zsum foldr] in Hz, Hsum.
      fold (zsum rest) in Hz, Hsum. pose proof (zsum_nonneg _ HF'). unfold MAX_PAYLOAD_SIZE in *.
      cbn [UnAckQueue.erase_loop]. rewrite (u64_id (_ + n)) by lia.
      rewrite (proj2 (Z.eqb_neq _ _)), (proj2 (Z.ltb_ge _ _)) by lia.
      rewrite (u64_id (a - _)), (u64_id (n - _)), u64_id by lia.
      exists (n - (a - _baseSqn q) :: rest). split; [done|]. split; [apply sizes_ok_head; [lia|done]|].
      cbn [zsum foldr]. fold (zsum rest). lia. }
  rewrite (proj2 (Z.ltb_ge _ _)) by lia. eexists. split; [done|].
  split; [|done]. apply queue_inv_erase; try done; lia.
Qed.

Lemma erase_fin q :
  _finSent q = true ->
  UnAckQueue.erase (_next_seqno q) (q <| _finAcked := true |>) =
    Ok (q <| _finAcked := true |> <| _baseSqn := _next_seqno q |> <| _unAcked := [] |>
          <| _unAckedPayloadSize := [] |>).
Proof.
  intros Hf. unfold UnAckQueue.erase, UnAckQueue.ackSqnForFin.
  change (_finSent (q <| _finAcked := true |>)) with (_finSent q).
  change (_next_seqno (q <| _finAcked := true |>)) with (_next_seqno q).
  by rewrite Hf, Z.eqb_refl at 1.
Qed.

(** What an acknowledgment of [a] that moves the base makes of the queue. *)
Definition rebased (f : fifo) (q : UnAckQueue) (a : Z) (q' : UnAckQueue) : Prop :=
  queue_inv f q' /\ _baseSqn q < _baseSqn q' <= a /\
  _next_seqno q' = _next_seqno q /\ _win_size q' = _win_size q /\ _synSent q' = _synSent q /\
  (_synAcked q = true -> _finAcked q = false -> _baseSqn q' = a).

Lemma updateBase_syn f q :
  queue_inv f q -> _baseSqn q < 1 <= _next_seqno q ->
  exists q', UnAckQueue.updateBase 1 q = Ok q' /\ rebased f q 1 q'.
Proof.
  intros Q Ha. pose proof Q as [Qw Qu Qn Qb Qf Qs Qm Qa Qh Qd].
  unfold UnAckQueue.updateBase. rewrite (proj2 (Z.leb_gt _ _)), Z.eqb_refl by lia.
  assert (Hb : _baseSqn q = 0) by lia.
  assert (Hsa : _synAcked q = false).
  { destruct (_synAcked q); [|done]. destruct (Qd eq_refl). lia. }
  destruct (Qh Hsa) as (Hp0 & Hu & _).
  rewrite Hb. eexists. split; [done|]. split; [|rewrite Hb; split_and!; try done; congruence].
  split; cbn [upd eta eta_UnAckQueue _win_size _synSent _next_seqno _finSent
    _baseSqn _unAckedPayloadSize _unAcked _finAcked _synAcked]; try done.
  - intros E. destruct (Qu E) as [Eq _]. rewrite Eq in Ha. cbn in Ha. lia.
  - change (u64 (0 + 1)) with 1. lia.
  - intros E. destruct (Qa E) as (_ & _ & ?). lia.
  - intros _. split; [done|]. intros _. rewrite Hp0, Hu. split; [done|]. unfold taken.
    rewrite Hp0. done.
Qed.

(** The acknowledgment of FIN: with data in flight the numbers are all taken off, and otherwise one is. *)
Lemma updateBase_fin f q :
  queue_inv f q -> 0 <= popped f <= zlen (hist f) -> zlen (hist f) < LIMIT ->
  _baseSqn q < _next_seqno q -> _next_seqno q <> 1 -> _finSent q = true ->
  exists q', UnAckQueue.updateBase (_next_seqno q) q = Ok q' /\ rebased f q (_next_seqno q) q'.
Proof.
  intros Q Hp Hl Ha H1 Hf. pose proof Q as [Qw Qu Qn Qb Qf Qs Qm Qa Qh Qd].
  pose proof (b2n_range (_synSent q)). pose proof (b2n_range (_finSent q)).
  unfold UnAckQueue.updateBase, UnAckQueue.ackSqnForFin. rewrite (proj2 (Z.leb_gt _ _)) by lia.
  rewrite (proj2 (Z.eqb_neq _ _) H1), Hf, Z.eqb_refl. cbn [andb].
  change (UnAckQueue.empty (q <| _finAcked := true |>)) with (bool_decide (_unAcked q = [])).
  case_bool_decide as Hu; cbn [negb].
  - change (_baseSqn (q <| _finAcked := true |>)) with (_baseSqn q).
    rewrite (u64_id (_baseSqn q + 1)) by (unfold LIMIT in *; lia).
    eexists. split; [done|].
    pose proof (queue_inv_finAck f q (_baseSqn q + 1) (_unAckedPayloadSize q) Q Hf ltac:(lia)) as Q'.
    split.
    { destruct q; cbn in Hu, Hf, Qm, Qs, Q' |- *. subst. apply Q'; [done|].
      rewrite Qm. done. }
    split_and!; try done; cbn; try lia. intros Hsa Hfa.
    destruct (Qd Hsa) as [Hb1 Hd]. destruct (Hd Hfa) as [Hb2 Hdata].
    rewrite Hu in Hdata. apply (f_equal length) in Hdata. unfold taken in Hdata.
    assert (0 = zlen (zdrop (_baseSqn q - 1) (ztake (popped f) (hist f)))) as Hd0 by (rewrite <- Hdata; done).
    rewrite zlen_zdrop, zlen_ztake in Hd0 by lia. rewrite Hf in Qn.
    destruct (_synSent q) eqn:E; [cbn in Qn; lia|].
    destruct (Qu eq_refl) as [Eq _]. rewrite Eq in Hsa. done.
  - rewrite erase_fin by done. eexists. split; [done|].
    split; [apply queue_inv_finAck; try done|].
    { exists [], []. split_and!; [done|constructor|by left]. }
    split_and!; try done; cbn; lia.
Qed.

(** An acknowledgment that moves the base. *)
Lemma updateBase_spec f q a :
  queue_inv f q -> 0 <= popped f <= zlen (hist f) -> zlen (hist f) < LIMIT ->
  _baseSqn q < a <= _next_seqno q -> boundary q a ->
  exists q', UnAckQueue.updateBase a q = Ok q' /\ rebased f q a q'.
Proof.
  intros Q Hp Hl Ha HB. destruct (Z.eq_dec a 1) as [->|H1]; [by apply updateBase_syn|].
  destruct (_finSent q && (a =? _next_seqno q)) eqn:Ef.
  { apply andb_true_iff in Ef as [Hf ->%Z.eqb_eq]. apply updateBase_fin; try done; lia. }
  unfold UnAckQueue.updateBase, UnAckQueue.ackSqnForFin. rewrite (proj2 (Z.leb_gt _ _)) by (pose proof (qi_base _ _ Q); lia).
  rewrite (proj2 (Z.eqb_neq _ _) H1), Ef. unfold UnAckQueue.empty. case_bool_decide as Hu; cbn [negb].
  - pose proof (boundary_sum f q a Q HB H1 Ef ltac:(lia)). rewrite (qi_sum _ _ Q), Hu in *. cbn in *. lia.
  - destruct (erase_spec f q a) as (q' & -> & Q' & E1 & E2 & E3 & E4); try done.
    exists q'. split; [done|]. split_and!; try done; lia.
Qed.

(** The acknowledgments covered by the theorems: the absolute number [a] is within
    2^31 of the base, and if it is new then it lies on a boundary of what is in flight, or
    beyond everything once FIN is sent. *)
Definition ack_ok (s : TCPSender) (ackno : WrappingInt32) (a : Z) : Prop :=
  let q := unAckQueue s in
  0 <= a /\ ackno = wrap a (_isn s) /\ -0x80000000 <= _baseSqn q - a < 0x80000000 /\
  (_baseSqn q < a -> a <= _next_seqno q /\ boundary q a \/ _finSent q = true /\ _next_seqno q < a).

Lemma queue_inv_window f q w : queue_inv f q -> 1 <= w < 65536 -> queue_inv f (q <| _win_size := w |>).
Proof.
  intros Q Hw. pose proof Q as [Qw Qu Qn Qb Qf Qs Qm Qa Qh Qd].
  split; cbn [upd eta eta_UnAckQueue _win_size _synSent _next_seqno _finSent
      _baseSqn _unAckedPayloadSize _unAcked _finAcked _synAcked]; try done.
  intros E. destruct (Qu E) as [Eq Hp]. split; [|done]. destruct q. cbn in Eq |- *. congruence.
Qed.

Lemma setWindowSize_inv s f w :
  sender_inv s f -> is_u16 w -> sender_inv (setWindowSize w s) f.
Proof.
  intros [R Hb Q] Hw. split; [done..|]. unfold setWindowSize.
  apply (queue_inv_window f (unAckQueue s)); [done|]. destruct (0 <? w) eqn:E; lia.
Qed.

(** Every acceptable acknowledgment, old, new or beyond FIN, is handled. *)
Lemma ack_received_spec s f ackno a w :
  sender_inv s f -> ack_ok s ackno a -> is_u16 w ->
  exists s', ack_received ackno w s = Ok s' /\ sender_inv s' f /\
    _segments_out s' = _segments_out s /\ _isn s' = _isn s /\ _stream s' = _stream s /\
    _next_seqno (unAckQueue s') = _next_seqno (unAckQueue s) /\
    _win_size (unAckQueue s') = (if 0 <? w then w else 1) /\
    (_synAcked (unAckQueue s) = true -> _finAcked (unAckQueue s) = false ->
     a <= _next_seqno (unAckQueue s) ->
     _baseSqn (unAckQueue s') = Z.max a (_baseSqn (unAckQueue s))).
Proof.
  intros I (Ha0 & -> & Hnear & HB) Hw. pose proof (setWindowSize_inv s f w I Hw) as I0.
  pose proof I as [R Hl Q]. pose proof (ref_popped _ _ R) as Hp.
  destruct (in_flight_eq _ _ I) as [_ Hnx]. pose proof (qi_base _ _ Q) as Hbase.
  unfold ack_received. change (_isn (setWindowSize w s)) with (_isn s).
  change (_baseSqn (unAckQueue (setWindowSize w s))) with (_baseSqn (unAckQueue s)).
  change (_finSent (unAckQueue (setWindowSize w s))) with (_finSent (unAckQueue s)).
  unfold UnAckQueue.ackForFinSqn.
  change (_next_seqno (unAckQueue (setWindowSize w s))) with (_next_seqno (unAckQueue s)).
  rewrite unwrap_eq by (unfold LIMIT in *; lia).
  rewrite (proj2 (Z.ltb_ge a 0)) by lia.
  destruct (_ || _ || _) eqn:Eig.
  { exists (setWindowSize w s). split_and!; try done. intros Hsa Hna Hle.
    change (_baseSqn (unAckQueue (setWindowSize w s))) with (_baseSqn (unAckQueue s)).
    rewrite !orb_true_iff, andb_true_iff, Z.ltb_lt, Z.leb_le, Z.ltb_lt in Eig. lia. }
  rewrite !orb_false_iff, andb_false_iff, Z.ltb_ge, Z.leb_gt, Z.ltb_ge in Eig.
  destruct Eig as [[Hfin Hpos] Hge].
  destruct (_baseSqn (unAckQueue s) <? a) eqn:Enew.
  2: { exists (setWindowSize w s). split_and!; try done. intros _ _ _. cbn. lia. }
  apply Z.ltb_lt in Enew. destruct (HB Enew) as [[Hle Hbd]|[Hfs Hbey]]; [|destruct Hfin; [congruence|lia]].
  destruct (updateBase_spec f (unAckQueue (setWindowSize w s)) a (se_queue _ _ I0) Hp Hl
    (conj Enew Hle) Hbd) as (q' & -> & Q' & Hb' & Hn' & Hw' & Hs' & Hadv).
  cbn [mbind outcome_bind].
  destruct (negb (UnAckQueue.empty q') || _); eexists; (split; [done|]);
    (split; [split; [exact R|exact Hl|exact Q']|]); split_and!; try done;
    intros Hsa Hna _; cbn; rewrite Z.max_l by lia; by apply Hadv.
Qed.

(** ** Retransmission *)

Lemma frontSeg_spec s f :
  sender_inv s f -> _unAcked (unAckQueue s) <> [] ->
  exists seg n, UnAckQueue.frontSeg (_isn s) (unAckQueue s) = Ok seg /\
    accurate (_isn s) (hist f) (ended f) seg /\
    0 < n <= MAX_PAYLOAD_SIZE /\ n <= zlen (_unAcked (unAckQueue s)) /\
    str (_payload seg) = ztake n (_unAcked (unAckQueue s)) /\
    seqno (_header seg) = wrap (_baseSqn (unAckQueue s)) (_isn s).
Proof.
  intros I Hu. pose proof I as [R Hl Q]. pose proof (ref_popped _ _ R) as Hp.
  destruct (in_flight_data f _ Q Hu) as (Hss & Hsa & Hna & Hnx & Hb & Hdata & Hlen).
  pose proof (qi_sum _ _ Q) as Hz.
  assert (Hpos : 0 < zlen (_unAcked (unAckQueue s))) by (destruct (_unAcked _); [done|cbn; lia]).
  destruct (sizes_ok_pos _ _ (qi_sizes _ _ Q)) as (n & rest & En & Hn & Hle); [lia|].
  unfold UnAckQueue.frontSeg. rewrite En, (proj2 (Z.ltb_ge _ _)) by lia.
  eexists _, n. split; [done|]. cbn [_payload _header]. rewrite str_of_string.
  split; [|split_and!; try done; try lia; by destruct (_ && _)].
  right. exists (_baseSqn (unAckQueue s) - 1). cbn [_payload _header].
  rewrite str_of_string, zlen_ztake, Z.min_l by lia.
  assert (Hslice : ztake n (_unAcked (unAckQueue s)) =
    ztake n (zdrop (_baseSqn (unAckQueue s) - 1) (hist f))).
  { rewrite Hdata. unfold taken. apply zget_ext. intros j Hj.
    rewrite !zget_ztake. case_decide; [|done]. rewrite !zget_zdrop, zget_ztake by lia.
    rewrite decide_True by lia. done. }
  split_and!; try lia; try done.
  - destruct (_ && _); cbn; f_equal; lia.
  - by destruct (_ && _).
  - pose proof (qi_base _ _ Q). pose proof (b2n_range (_finSent (unAckQueue s))).
    unfold UnAckQueue.ackSqnForFin, LIMIT, MAX_PAYLOAD_SIZE in *. rewrite !u64_id by lia.
    destruct (_ && _) eqn:E; cbn; [|done]. intros _. apply andb_true_iff in E as [Ef Ee%Z.eqb_eq].
    destruct (qi_fin _ _ Q Ef) as [? ?]. rewrite Ef in Hnx. change (b2n true) with 1 in Hnx.
    split; [done|lia].
Qed.

Lemma makes_same s f seg :
  sender_inv s f -> accurate (_isn s) (hist f) (ended f) seg -> makes s f seg s.
Proof. intros. split_and!; try done; apply same_conn_refl. Qed.

Lemma retransmitSeg_spec s f :
  sender_inv s f -> _finAcked (unAckQueue s) = false ->
  exists seg s1, retransmitSeg s = Ok (seg, s1) /\ makes s f seg s1 /\
    (_unAcked (unAckQueue s) <> [] ->
     exists n, 0 < n <= MAX_PAYLOAD_SIZE /\ n <= zlen (_unAcked (unAckQueue s)) /\
       str (_payload seg) = ztake n (_unAcked (unAckQueue s)) /\
       seqno (_header seg) = wrap (_baseSqn (unAckQueue s)) (_isn s)).
Proof.
  intros I Hna. pose proof I as [R Hl Q]. pose proof (ref_popped _ _ R) as Hp.
  assert (Hfront : _unAcked (unAckQueue s) <> [] ->
    exists seg s1, (seg ← UnAckQueue.frontSeg (_isn s) (unAckQueue s); Ok (seg, s)) = Ok (seg, s1) /\
    makes s f seg s1 /\
    (_unAcked (unAckQueue s) <> [] ->
     exists n, 0 < n <= MAX_PAYLOAD_SIZE /\ n <= zlen (_unAcked (unAckQueue s)) /\
       str (_payload seg) = ztake n (_unAcked (unAckQueue s)) /\
       seqno (_header seg) = wrap (_baseSqn (unAckQueue s)) (_isn s))).
  { intros Hu. destruct (frontSeg_spec s f I Hu) as (seg & n & -> & A & ? & ? & ? & ?).
    exists seg, s. split; [done|]. split; [by apply makes_same|]. intros _. by exists n. }
  unfold retransmitSeg. rewrite Hna. cbn [negb]. unfold UnAckQueue.empty.
  destruct (_finSent (unAckQueue s)) eqn:Hf; cbn [andb].
  - case_bool_decide as Hu; [|by apply Hfront].
    eexists _, s. split; [done|]. split; [|done]. apply makes_same; [done|].
    destruct (qi_fin _ _ Q Hf) as [He Hpop]. pose proof (qi_next _ _ Q) as Hn. rewrite Hf in Hn.
    assert (Hss : _synSent (unAckQueue s) = true).
    { destruct (_synSent _) eqn:E; [done|]. destruct (qi_unsent _ _ Q E) as [Eq _].
      rewrite Eq in Hf. done. }
    rewrite Hss in Hn. change (b2n true) with 1 in Hn. unfold makeNotFirstFinSeg, UnAckQueue.ackSqnForFin, LIMIT in *.
    rewrite u64_id by lia.
    apply (accurate_empty _ _ _ _ (zlen (hist f))); cbn; try done; try lia. f_equal. lia.
  - case_bool_decide as Hu; [|destruct (_synSent _ && negb _) eqn:Es; [exfalso|by apply Hfront]].
    + destruct (_synSent _ && negb _) eqn:Es.
      * apply andb_true_iff in Es as [_ Es%negb_true_iff].
        destruct (makes_syn s f I Es Hf) as (seg & s1 & -> & M & _). eexists _, _. by split.
      * cbn [negb]. eexists _, _. split; [done|]. split; [|done]. apply makes_same; [done|]. by left.
    + apply andb_true_iff in Es as [_ Es%negb_true_iff].
      destruct (in_flight_data f _ Q Hu) as (_ & ? & _). congruence.
Qed.

(** The timer after a retransmission. *)
Definition backed_off (t : Timer) : Timer :=
  t <| _timeout := if _doubleTimeout t then u32 (_timeout t * 2) else _timeout t |>
    <| _msSinceBaseSegSent := 0 |>
    <| _consecutive_retransmissions := u32 (_consecutive_retransmissions t + 1) |>.

Definition elapsed (n : Z) (s : TCPSender) : Z := u64 (_msSinceBaseSegSent (timer s) + n).

(** Whether [tick n] makes the timer expire, and sends something again. *)
Definition expires (n : Z) (s : TCPSender) : bool :=
  _isTimerRunning (timer s) && (_timeout (timer s) <=? elapsed n s).

Lemma tick_spec n s f :
  sender_inv s f ->
  exists s' segs, tick n s = Ok s' /\ sends s f s' f segs /\
    length segs = (if expires n s && negb (_finAcked (unAckQueue s)) then 1 else 0)%nat /\
    timer s' =
      (if negb (_isTimerRunning (timer s)) then timer s
       else
         let t := (timer s) <| _msSinceBaseSegSent := elapsed n s |> in
         if expires n s && negb (_finAcked (unAckQueue s)) then backed_off t else t) /\
    (expires n s = true -> _unAcked (unAckQueue s) <> [] ->
     exists seg k, segs = [seg] /\ 0 < k <= MAX_PAYLOAD_SIZE /\
       k <= zlen (_unAcked (unAckQueue s)) /\
       str (_payload seg) = ztake k (_unAcked (unAckQueue s)) /\
       seqno (_header seg) = wrap (_baseSqn (unAckQueue s)) (_isn s)).
Proof.
  intros I. unfold tick, expires. destruct (_isTimerRunning (timer s)) eqn:Er; cbn [negb andb].
  2: { exists s, []. split; [done|]. split; [by apply sends_none|]. by split_and!. }
  fold (elapsed n s). set (t := (timer s) <| _msSinceBaseSegSent := elapsed n s |>).
  set (s0 := s <| timer := t |>).
  change (_timeout (timer s0)) with (_timeout (timer s)).
  change (_msSinceBaseSegSent (timer s0)) with (elapsed n s).
  assert (I0 : sender_inv s0 f) by (destruct I; by split).
  destruct (_timeout (timer s) <=? elapsed n s) eqn:Ee; cbn [andb].
  2: { exists s0, []. split; [done|]. split; [exact (sends_none s0 f I0)|]. by split_and!. }
  unfold timeoutRetransmit. change (_finAcked (unAckQueue s0)) with (_finAcked (unAckQueue s)).
  destruct (_finAcked (unAckQueue s)) eqn:Hna; cbn [negb].
  { exists s0, []. split; [done|]. split; [exact (sends_none s0 f I0)|]. split_and!; try done.
    intros _ Hu. destruct (in_flight_data f _ (se_queue _ _ I) Hu) as (_ & _ & ? & _). congruence. }
  destruct (retransmitSeg_spec s0 f I0 Hna) as (seg & s1 & -> & M & Hold).
  cbn [mbind outcome_bind]. destruct M as (I1 & A & O & C & T & Y & W).
  eexists _, [seg]. split; [done|]. split; [|split; [done|split]].
  - split; [destruct I1; by split|]. split; [apply same_stream_refl|]. split; [cbn; by rewrite O|].
    split; [by apply Forall_singleton|]. done.
  - clear -T. change (timer s0) with t in T. destruct s1 as [t1 ? ? ? ?]. cbn [timer] in T.
    subst t1. generalize t. intros []. unfold backed_off. cbn. by destruct _doubleTimeout0.
  - intros _ Hu. destruct (Hold Hu) as (k & ? & ? & ? & ?). by exists seg, k.
Qed.

Lemma send_empty_sends s f :
  sender_inv s f ->
  sends s f (send_empty_segment s) f
    [headerSeg (TCPHeader.default <| seqno := wrap (_next_seqno (unAckQueue s)) (_isn s) |>)].
Proof.
  intros I. split; [by destruct I|]. split; [apply same_stream_refl|]. split; [done|].
  split; [|done]. apply Forall_singleton. by left.
Qed.

(** ** Sessions

    [sender_session s w e out]: from a fresh sender whose stream accepted the bytes
    [w], and has been ended when [e], under writes, window filling, acknowledgments,
    ticks and empty segments in any order; [out] are the segments taken from the
    outbound queue so far. *)
Inductive sender_session (isn : WrappingInt32) (cap rto : Z) :
  TCPSender -> bytes -> bool -> list TCPSegment -> Prop :=
| sender_new rnd : sender_session isn cap rto (new rnd cap rto (Some isn)) [] false []
| sender_write s w e out data :
    sender_session isn cap rto s w e out ->
    sender_session isn cap rto (s <| _stream := snd (write data (_stream s)) |>)
      (w ++ ztake (fst (write data (_stream s))) data) e out
| sender_end s w e out :
    sender_session isn cap rto s w e out ->
    sender_session isn cap rto (s <| _stream := end_input (_stream s) |>) w true out
| sender_fill s w e out :
    sender_session isn cap rto s w e out ->
    sender_session isn cap rto (fill_window s) w e out
| sender_ack s w e out ackno a win s' :
    sender_session isn cap rto s w e out -> ack_ok s ackno a -> is_u16 win ->
    ack_received ackno win s = Ok s' ->
    sender_session isn cap rto s' w e out
| sender_tick s w e out n s' :
    sender_session isn cap rto s w e out -> tick n s = Ok s' ->
    sender_session isn cap rto s' w e out
| sender_empty s w e out :
    sender_session isn cap rto s w e out ->
    sender_session isn cap rto (send_empty_segment s) w e out
| sender_drain s w e out :
    sender_session isn cap rto s w e out ->
    sender_session isn cap rto (s <| _segments_out := [] |>) w e (out ++ _segments_out s).

Record session_ok (isn : WrappingInt32) (s : TCPSender) (w : bytes) (e : bool)
    (out : list TCPSegment) (f : fifo) : Prop := mk_session_ok {
  so_inv : sender_inv s f;
  so_isn : _isn s = isn;
  so_hist : hist f = w;
  so_ended : ended f = e;
  so_out : Forall (accurate isn w e) (out ++ _segments_out s) }.

Lemma sender_inv_new rnd cap rto isn : is_u64 cap -> sender_inv (new rnd cap rto (Some isn)) (fifo_new cap).
Proof.
  intros Hc. split; [by apply bs_refines_new|done|]. split; cbn; try done; try lia.
  exists [], []. split_and!; [done|constructor|by left].
Qed.

Lemma grows_refl w e : grows w e w e.
Proof. exists []. rewrite app_nil_r. done. Qed.

(** A change of the stream's input side. *)
Lemma sender_inv_stream s f st f' :
  sender_inv s f -> refines st f' -> popped f' = popped f ->
  grows (hist f) (ended f) (hist f') (ended f') -> zlen (hist f') < LIMIT ->
  sender_inv (s <| _stream := st |>) f'.
Proof.
  intros [R Hl Q] R' Hp (x & Hx & Hend) Hl'. pose proof (ref_popped _ _ R) as Hpr.
  split; [done..|]. destruct Q as [Qw Qu Qn Qb Qf Qs Qm Qa Qh Qd].
  split; try done; rewrite ?Hp; try done.
  - intros E. destruct (Qf E) as [E1 E2]. destruct (Hend E1) as [-> ->]. rewrite app_nil_r in Hx.
    split; [done|]. congruence.
  - intros E. destruct (Qd E) as [Hb Hd]. split; [done|]. intros E'. destruct (Hd E') as [Hb' Hd'].
    split; [done|]. etransitivity; [exact Hd'|]. unfold taken. rewrite Hp, Hx. by rewrite ztake_app_le by lia.
Qed.

Lemma session_ok_stream isn s w e out f st f' :
  session_ok isn s w e out f -> refines st f' -> popped f' = popped f ->
  grows w e (hist f') (ended f') -> zlen (hist f') < LIMIT ->
  session_ok isn (s <| _stream := st |>) (hist f') (ended f') out f'.
Proof.
  intros [I Hi Hh He Ho] R' Hp G Hl'. split; try done.
  - apply (sender_inv_stream s f); try done. by rewrite Hh, He.
  - eapply Forall_impl; [exact Ho|]. intros seg. by apply accurate_grows.
Qed.

Lemma session_ok_sends isn s w e out f s' f' segs :
  session_ok isn s w e out f -> sends s f s' f' segs -> session_ok isn s' w e out f'.
Proof.
  intros [I Hi Hh He Ho] (I' & (Hh' & He' & _) & O' & A' & (Hi' & _) & _).
  split; try congruence. rewrite O', app_assoc. apply Forall_app. split; [done|].
  rewrite <- Hi, <- Hh, <- He. done.
Qed.

Lemma sender_session_ok isn cap rto s w e out :
  is_u64 cap -> sender_session isn cap rto s w e out -> zlen w < LIMIT ->
  exists f, session_ok isn s w e out f.
Proof.
  intros Hc. induction 1 as [rnd|s w e out data Hs IH|s w e out Hs IH|s w e out Hs IH
    |s w e out ackno a win s' Hs IH Ha Hw E|s w e out n s' Hs IH E|s w e out Hs IH|s w e out Hs IH];
    intros Hl.
  - exists (fifo_new cap). split; try done; by apply sender_inv_new.
  - rewrite zlen_app in Hl. destruct IH as [f SO]; [lia|]. pose proof SO as [[R _ _] _ Hh He _].
    destruct (bs_refines_write data (_stream s) f R) as [Hn R'].
    set (f' := mk_fifo _ _ _ _ _) in R'.
    assert (Hf : hist f' = w ++ ztake (fst (write data (_stream s))) data /\ ended f' = e).
    { cbn. rewrite Hh. done. }
    destruct Hf as [Hf1 Hf2]. rewrite <- Hf1, <- Hf2. exists f'.
    eapply session_ok_stream; try done.
    + exists (ztake (fst (write data (_stream s))) data). split; [done|]. intros Het. split; [congruence|].
      rewrite Hn, He, Het. done.
    + rewrite Hf1, zlen_app. lia.
  - destruct (IH Hl) as [f SO]. pose proof SO as [[R _ _] _ Hh He _].
    pose proof (bs_refines_end _ _ R) as R'. set (f' := mk_fifo _ _ _ _ _) in R'.
    exists f'. rewrite <- Hh. change (hist f) with (hist f'). change true with (ended f').
    eapply session_ok_stream; try done.
    + exists []. rewrite app_nil_r. split; [done|]. intros _. done.
    + cbn. by rewrite Hh.
  - destruct (IH Hl) as [f SO]. destruct (fill_window_sends s f (so_inv _ _ _ _ _ _ SO)) as (f' & segs & S & _).
    exists f'. by eapply session_ok_sends.
  - destruct (IH Hl) as [f [I Hi Hh He Ho]].
    destruct (ack_received_spec s f ackno a win I Ha Hw) as (s'' & E' & I' & O' & Hi' & _).
    rewrite E in E'. apply Ok_inj in E' as <-. exists f. split; try done; [congruence|by rewrite O'].
  - destruct (IH Hl) as [f SO]. destruct (tick_spec n s f (so_inv _ _ _ _ _ _ SO)) as (s'' & segs & E' & S & _).
    rewrite E in E'. apply Ok_inj in E' as <-. exists f. by eapply session_ok_sends.
  - destruct (IH Hl) as [f SO]. exists f. eapply session_ok_sends; [exact SO|].
    apply send_empty_sends, SO.
  - destruct (IH Hl) as [f [I Hi Hh He Ho]]. exists f. split; try done; [by destruct I|].
    cbn. by rewrite app_nil_r.
Qed.

(** A tick does not touch the stream. *)
Lemma tick_stream n s s' : tick n s = Ok s' -> _stream s' = _stream s.
Proof.
  unfold tick. destruct (_isTimerRunning _); [|by intros [= <-]]. destruct (_ <=? _); [|by intros [= <-]].
  unfold timeoutRetransmit. destruct (_finAcked _); [by intros [= <-]|].
  intros ([seg s1] & E & [= <-])%bind_Ok. change (_stream s1 = _stream s).
  unfold retransmitSeg, makeSynSeg in E. repeat case_match; simplify_eq; try done;
    by apply bind_Ok in E as (sg & _ & [= <- <-]).
Qed.

(** ** Properties *)

(** C9. Everything the sender ever sends is true of its stream: in every session, each
    segment taken from the outbound queue or still in it, first transmissions and
    retransmissions alike, is a bare acknowledgment or carries exactly the bytes of the
    stream at its sequence number, at most MAX_PAYLOAD_SIZE of them, with SYN only at the ISN and
    FIN only behind the last byte of an ended stream. *)
Theorem sender_emits_stream isn cap rto s w e out :
  is_u64 cap -> zlen w < LIMIT -> sender_session isn cap rto s w e out ->
  Forall (accurate isn w e) (out ++ segments_out s).
Proof.
  intros Hc Hl Hs. destruct (sender_session_ok _ _ _ _ _ _ _ Hc Hs Hl) as [f SO].
  exact (so_out _ _ _ _ _ _ SO).
Qed.

(** The sender does not fault: in every session an acceptable acknowledgment is
    handled and so is every tick; in particular the queue of sizes and the queue of
    bytes stay in step, which [frontSeg] and [erase] rely on. *)
Theorem sender_progress isn cap rto s w e out :
  is_u64 cap -> zlen w < LIMIT -> sender_session isn cap rto s w e out ->
  (forall ackno a win, ack_ok s ackno a -> is_u16 win ->
     exists s', ack_received ackno win s = Ok s') /\
  (forall n, exists s', tick n s = Ok s') /\
  zsum (_unAckedPayloadSize (unAckQueue s)) = zlen (_unAcked (unAckQueue s)).
Proof.
  intros Hc Hl Hs. destruct (sender_session_ok _ _ _ _ _ _ _ Hc Hs Hl) as [f [I _ _ _ _]].
  split_and!.
  - intros ackno a win Ha Hw.
    destruct (ack_received_spec s f ackno a win I Ha Hw) as (s' & E & _). by exists s'.
  - intros n. destruct (tick_spec n s f I) as (s' & segs & E & _). by exists s'.
  - exact (qi_sum _ _ (se_queue _ _ I)).
Qed.

(** C20. [fill_window] fills the window and no more: once the handshake is done its loop
    terminates with the window full or with nothing left to send (the stream empty,
    and FIN sent if it has ended), and when what was in flight fitted the window, what is in
    flight afterwards does. *)
Theorem fill_window_fills isn cap rto s w e out :
  is_u64 cap -> zlen w < LIMIT -> sender_session isn cap rto s w e out ->
  _synSent (unAckQueue s) = true -> _synAcked (unAckQueue s) = true ->
  let s' := fill_window s in
  (remainSpace s' = 0 \/
   buffer_size (stream_in s') = 0 /\ (e = true -> _finSent (unAckQueue s') = true)) /\
  (bytes_in_flight s <= _win_size (unAckQueue s) ->
   bytes_in_flight s' <= _win_size (unAckQueue s)).
Proof.
  intros Hc Hl Hs Hy Ha. destruct (sender_session_ok _ _ _ _ _ _ _ Hc Hs Hl) as [f [I _ _ He _]].
  destruct (fill_window_sends s f I) as (f' & segs & S & X). cbv zeta.
  destruct S as (I' & (_ & He' & _) & _ & _ & _ & _ & W). split; [|exact W].
  destruct (X Hy Ha) as [?|Hn]; [by left|right].
  unfold hasContentToPush in Hn. apply orb_false_iff in Hn as [Hb%Z.ltb_ge Hf].
  destruct (stream_facts _ _ (se_stream _ _ I')) as (Hbs & Hp & Heof). unfold stream_in.
  split; [lia|]. intros ->. rewrite Heof, bool_decide_eq_true_2, He', He in Hf by lia.
  by apply negb_false_iff in Hf.
Qed.

(** C19. Timeouts: [tick] adds the elapsed time to a running timer; when the timeout is reached,
    and not before, it sends exactly one segment, the oldest unacknowledged bytes under their
    own sequence number when there are any, restarts the clock, counts the
    retransmission and doubles the timeout (modulo 2^32) unless the window was 0. *)
Theorem tick_retransmits isn cap rto s w e out n :
  is_u64 cap -> zlen w < LIMIT -> sender_session isn cap rto s w e out ->
  exists s' segs, tick n s = Ok s' /\ segments_out s' = segments_out s ++ segs /\
    let again := expires n s && negb (finAcked s) in
    length segs = (if again then 1 else 0)%nat /\
    timer s' =
      (if negb (_isTimerRunning (timer s)) then timer s
       else let t := (timer s) <| _msSinceBaseSegSent := elapsed n s |> in
            if again then backed_off t else t) /\
    (again = true -> _unAcked (unAckQueue s) <> [] ->
     exists seg k, segs = [seg] /\ 0 < k <= MAX_PAYLOAD_SIZE /\
       str (_payload seg) = ztake k (_unAcked (unAckQueue s)) /\
       k <= zlen (_unAcked (unAckQueue s)) /\
       seqno (_header seg) = wrap (_baseSqn (unAckQueue s)) isn).
Proof.
  intros Hc Hl Hs. destruct (sender_session_ok _ _ _ _ _ _ _ Hc Hs Hl) as [f [I Hi _ _ _]].
  destruct (tick_spec n s f I) as (s' & segs & E & S & Hlen & Ht & Hold).
  exists s', segs. split; [done|]. split; [apply S|]. cbv zeta. split; [done|]. split; [done|].
  intros Hag Hu. apply andb_true_iff in Hag as [He _].
  destruct (Hold He Hu) as (seg & k & ? & ? & ? & ? & Hq). rewrite Hi in Hq. by exists seg, k.
Qed.

(** C18. Acknowledgments free what they acknowledge: once the handshake is done and until FIN is
    acknowledged, an acceptable acknowledgment of absolute number [a] leaves the
    numbers from the larger of [a] and the old base on in flight, takes the new window (0
    counts as 1), and sends nothing. *)
Theorem ack_frees isn cap rto s w e out ackno a win s' :
  is_u64 cap -> zlen w < LIMIT -> sender_session isn cap rto s w e out ->
  _synAcked (unAckQueue s) = true -> finAcked s = false ->
  ack_ok s ackno a -> a <= next_seqno_absolute s -> is_u16 win ->
  ack_received ackno win s = Ok s' ->
  bytes_in_flight s' = next_seqno_absolute s - Z.max a (_baseSqn (unAckQueue s)) /\
  _win_size (unAckQueue s') = Z.max win 1 /\ segments_out s' = segments_out s.
Proof.
  intros Hc Hl Hs Ha Hna Hok Hle Hw E.
  destruct (sender_session_ok _ _ _ _ _ _ _ Hc Hs Hl) as [f [I Hi _ _ _]].
  destruct (ack_received_spec s f ackno a win I Hok Hw)
    as (s'' & E' & I' & Ho & _ & _ & Hn & Hwin & Hb).
  rewrite E in E'. apply Ok_inj in E' as <-. rewrite (proj1 (in_flight_eq _ _ I')), Hn.
  rewrite (Hb Ha Hna Hle), Hwin. split; [done|]. split; [|done].
  destruct (0 <? win) eqn:Ew; lia.
Qed.

(** A window smaller than what is in flight: [remainSpace] wraps around, and
    [fill_window] sends everything the stream holds, however far beyond the window. *)
Theorem fill_window_ignores_shrunk_window isn cap rto s w e out :
  is_u64 cap -> zlen w < LIMIT -> sender_session isn cap rto s w e out ->
  _synSent (unAckQueue s) = true -> _synAcked (unAckQueue s) = true ->
  _win_size (unAckQueue s) < bytes_in_flight s ->
  remainSpace s = 0x10000000000000000 + _win_size (unAckQueue s) - bytes_in_flight s /\
  buffer_size (stream_in (fill_window s)) = 0.
Proof.
  intros Hc Hl Hs Hy Ha Hw. destruct (sender_session_ok _ _ _ _ _ _ _ Hc Hs Hl) as [f [I _ _ _ _]].
  destruct (fill_window_sends s f I) as (f' & segs & S & X).
  destruct S as (I' & (Hh & _ & _ & Hpop) & _ & _ & (_ & Hb & Hwin & _ & _) & Hy' & _).
  pose proof (qi_win _ _ (se_queue _ _ I)) as Hwr. pose proof (se_bound _ _ I) as Hlim.
  assert (Hrem : forall t g, sender_inv t g -> _win_size (unAckQueue t) < bytes_in_flight t ->
    0 <= _win_size (unAckQueue t) ->
    remainSpace t = 0x10000000000000000 + _win_size (unAckQueue t) - bytes_in_flight t).
  { intros t g J Hlt H0. destruct (in_flight_eq _ _ J) as [Hfl Hnx].
    pose proof (qi_base _ _ (se_queue _ _ J)). unfold remainSpace, LIMIT in *.
    change (UnAckQueue.bytesInFlight (unAckQueue t)) with (bytes_in_flight t). ulia. }
  split; [apply (Hrem s f); [done|done|lia]|].
  assert (Hgrow : _win_size (unAckQueue (fill_window s)) < bytes_in_flight (fill_window s)).
  { rewrite Hwin, (proj1 (in_flight_eq _ _ I')), Hb. rewrite (proj1 (in_flight_eq _ _ I)) in Hw.
    pose proof (qi_next _ _ (se_queue _ _ I)) as Hn. pose proof (qi_next _ _ (se_queue _ _ I')) as Hn'.
    rewrite Hy in Hn. rewrite (Hy' Hy) in Hn'. pose proof (b2n_range (_finSent (unAckQueue (fill_window s)))).
    destruct (_finSent (unAckQueue s)) eqn:Ef.
    - assert (fill_window s = s) as Eq.
      { unfold fill_window. rewrite Ef. by destruct (_finAcked _). }
      rewrite Eq. lia.
    - change (b2n false) with 0 in Hn. lia. }
  destruct (X Hy Ha) as [Hz|Hn].
  - rewrite (Hrem _ f' I' Hgrow) in Hz by lia. destruct (in_flight_eq _ _ I') as [Hfl Hnx].
    pose proof (qi_base _ _ (se_queue _ _ I')). unfold LIMIT in *. lia.
  - unfold hasContentToPush in Hn. apply orb_false_iff in Hn as [Hb0%Z.ltb_ge _].
    destruct (stream_facts _ _ (se_stream _ _ I')) as (Hbs & Hp & _). unfold stream_in. lia.
Qed.

(** An acknowledgment inside the second segment in flight: [erase] leaves the size of
    the first segment at the head of the sizes although its bytes are gone; when fewer bytes
    than that are left, the next retransmission reads past the end of the queue. *)
Theorem partial_ack_breaks_retransmission isn q x y m :
  _unAckedPayloadSize q = [x; y] -> zlen (_unAcked q) = x + y -> _finSent q = false ->
  1 <= _baseSqn q < LIMIT -> 0 < m < y -> y - m < x -> x + y < 0x100000000 ->
  exists q', UnAckQueue.updateBase (_baseSqn q + x + m) q = Ok q' /\
    _unAckedPayloadSize q' = [x; y - m] /\ zlen (_unAcked q') = y - m /\
    UnAckQueue.frontSeg isn q' = Fault PastTheEnd.
Proof.
  intros Hs Hl Hf Hb Hm Hx Hsz. unfold LIMIT in *.
  assert (Hu : UnAckQueue.empty q = false).
  { unfold UnAckQueue.empty. apply bool_decide_eq_false_2. intros E. rewrite E in Hl. cbn in Hl. lia. }
  unfold UnAckQueue.updateBase. rewrite (proj2 (Z.leb_gt _ _)), (proj2 (Z.eqb_neq _ 1)) by lia.
  rewrite Hf, Hu. cbn [andb negb]. unfold UnAckQueue.erase. rewrite Hf, Hs. cbn [andb].
  cbn [UnAckQueue.erase_loop app]. rewrite (u64_id (_baseSqn q + x)), (u64_id (0 + x)) by lia.
  rewrite (proj2 (Z.eqb_neq _ _)), (proj2 (Z.ltb_lt _ _)) by lia.
  rewrite (u64_id (_baseSqn q + x + y)) by lia.
  rewrite (proj2 (Z.eqb_neq _ _)), (proj2 (Z.ltb_ge _ _)) by lia.
  replace (_baseSqn q + x + m - (_baseSqn q + x)) with m by lia.
  rewrite (u64_id m), (u64_id (y - m)), (u64_id (0 + x + m)) by lia.
  rewrite (proj2 (Z.ltb_ge _ _)) by lia. eexists. split; [done|].
  cbn [_unAckedPayloadSize _unAcked upd eta eta_UnAckQueue]. rewrite zlen_zdrop by lia.
  split; [done|]. split; [lia|]. unfold UnAckQueue.frontSeg.
  cbn [_unAckedPayloadSize _unAcked upd eta eta_UnAckQueue]. rewrite zlen_zdrop by lia.
  by rewrite (proj2 (Z.ltb_lt _ _)) by lia.
Qed.

(** ** A concrete session: "abcdef" with ISN 100 and a window of 4 *)

Definition demo_isn : WrappingInt32 := mkWrappingInt32 100.
Definition demo_data : bytes := [x61; x62; x63; x64; x65; x66].
Definition demo_ack (a win : Z) (s : TCPSender) : TCPSender :=
  match ack_received (wrap a demo_isn) win s with Ok s' => s' | Fault _ => s end.

Definition demo_s1 : TCPSender :=
  let s := new 0 10 1000 (Some demo_isn) in s <| _stream := snd (write demo_data (_stream s)) |>.
Definition demo_s2 : TCPSender := fill_window demo_s1.
Definition demo_s3 : TCPSender := demo_ack 1 4 demo_s2.
Definition demo_s4 : TCPSender := fill_window demo_s3.
Definition demo_s5 : TCPSender := demo_ack 1 2 demo_s4.

Lemma demo_ack_ok2 : ack_ok demo_s2 (wrap 1 demo_isn) 1.
Proof. split; [lia|]. split; [done|]. split; [by vm_compute|]. left. split; [by vm_compute|by left]. Qed.

Lemma demo_session_s2 : sender_session demo_isn 10 1000 demo_s2 demo_data false [].
Proof.
  apply sender_fill. apply (sender_write _ _ _ (new 0 10 1000 (Some demo_isn)) [] false [] demo_data).
  constructor.
Qed.

Lemma demo_session_s3 : sender_session demo_isn 10 1000 demo_s3 demo_data false [].
Proof.
  apply (sender_ack _ _ _ demo_s2 _ _ _ (wrap 1 demo_isn) 1 4);
    [apply demo_session_s2|apply demo_ack_ok2|lia|by vm_compute].
Qed.

Lemma demo_session_s4 : sender_session demo_isn 10 1000 demo_s4 demo_data false [].
Proof. apply sender_fill, demo_session_s3. Qed.

Lemma demo_session_s5 : sender_session demo_isn 10 1000 demo_s5 demo_data false [].
Proof.
  apply (sender_ack _ _ _ demo_s4 _ _ _ (wrap 1 demo_isn) 1 2);
    [apply demo_session_s4| |lia|by vm_compute].
  split; [lia|]. split; [done|]. split; [by vm_compute|]. intros H. exfalso. by vm_compute in H.
Qed.

(** [a] = 3 acknowledges two of the four bytes in flight. *)
Lemma demo_ack_ok4 : ack_ok demo_s4 (wrap 3 demo_isn) 3.
Proof.
  split; [lia|]. split; [done|]. split; [by vm_compute|]. intros _. left.
  split; [by vm_compute|]. right; right; right. exists 4, []. split; by vm_compute.
Qed.

Lemma sender_emits_stream_witness :
  length (segments_out demo_s4) = 2%nat /\
  Forall (accurate demo_isn demo_data false) ([] ++ segments_out demo_s4).
Proof.
  split; [by vm_compute|].
  apply (sender_emits_stream demo_isn 10 1000 demo_s4 demo_data false []);
    [lia|by vm_compute|apply demo_session_s4].
Defined.

Lemma sender_progress_witness :
  (exists s', ack_received (wrap 3 demo_isn) 4 demo_s4 = Ok s') /\
  (exists s', tick 5 demo_s4 = Ok s') /\
  zsum (_unAckedPayloadSize (unAckQueue demo_s4)) = 4.
Proof.
  destruct (sender_progress demo_isn 10 1000 demo_s4 demo_data false []) as (HA & HT & HZ);
    [lia|by vm_compute|apply demo_session_s4|].
  split; [apply (HA _ 3); [apply demo_ack_ok4|lia]|]. split; [apply HT|]. rewrite HZ. by vm_compute.
Defined.

Lemma fill_window_fills_witness :
  let s' := fill_window demo_s3 in
  (remainSpace s' = 0 \/
   buffer_size (stream_in s') = 0 /\ (false = true -> _finSent (unAckQueue s') = true)) /\
  (bytes_in_flight demo_s3 <= _win_size (unAckQueue demo_s3) ->
   bytes_in_flight s' <= _win_size (unAckQueue demo_s3)).
Proof.
  apply (fill_window_fills demo_isn 10 1000 demo_s3 demo_data false []);
    [lia|by vm_compute|apply demo_session_s3|by vm_compute|by vm_compute].
Defined.

Lemma tick_retransmits_witness :
  expires 1000 demo_s4 = true /\
  exists s' segs, tick 1000 demo_s4 = Ok s' /\ segments_out s' = segments_out demo_s4 ++ segs /\
    length segs = 1%nat.
Proof.
  split; [by vm_compute|].
  destruct (tick_retransmits demo_isn 10 1000 demo_s4 demo_data false [] 1000)
    as (s' & segs & E & Ho & Hlen & _); [lia|by vm_compute|apply demo_session_s4|].
  exists s', segs. split; [exact E|]. split; [exact Ho|]. exact Hlen.
Defined.

Lemma ack_frees_witness :
  bytes_in_flight (demo_ack 3 4 demo_s4) = 2 /\
  segments_out (demo_ack 3 4 demo_s4) = segments_out demo_s4.
Proof.
  destruct (ack_frees demo_isn 10 1000 demo_s4 demo_data false [] (wrap 3 demo_isn) 3 4
    (demo_ack 3 4 demo_s4)) as (Hb & _ & Ho);
    [lia|by vm_compute|apply demo_session_s4|by vm_compute|by vm_compute|apply demo_ack_ok4
    |by vm_compute|lia|by vm_compute|].
  split; [|exact Ho]. rewrite Hb. by vm_compute.
Defined.

Lemma fill_window_ignores_shrunk_window_witness :
  remainSpace demo_s5 = 0xfffffffffffffffe /\
  buffer_size (stream_in (fill_window demo_s5)) = 0.
Proof.
  destruct (fill_window_ignores_shrunk_window demo_isn 10 1000 demo_s5 demo_data false [])
    as [Hr Hb]; [lia|by vm_compute|apply demo_session_s5|by vm_compute|by vm_compute|by vm_compute|].
  split; [|exact Hb]. rewrite Hr. by vm_compute.
Defined.

Lemma partial_ack_breaks_retransmission_witness :
  let q := mkUnAckQueue [x61; x62; x63; x64; x65] [3; 2] true true false false 1 6 9 in
  exists q', UnAckQueue.updateBase 5 q = Ok q' /\
    _unAckedPayloadSize q' = [3; 1] /\ zlen (_unAcked q') = 1 /\
    UnAckQueue.frontSeg demo_isn q' = Fault PastTheEnd.
Proof.
  intros q. apply (partial_ack_breaks_retransmission demo_isn q 3 2 1);
    [done|done|done|by vm_compute|lia|lia|lia].
Defined.
