(* ===== verification/Transfer.v ===== *)
(** * Transfer: a sender and a receiver across an unreliable network

    The sender's theorem (everything it emits is true of its stream) and the receiver's
    (accurate segments are reassembled exactly) meet here: whatever the network
    loses, duplicates or reorders, the reader gets a prefix of what the writer wrote. *)

From S2P Require Import Prelude WrappingIntegers ByteStream StreamReassembler Buffer.
From S2P Require Import TCPHeader TCPSegment TCPReceiver TCPSender.

(** The stream index at which the receiver places a segment it accepts. *)
Definition stream_index (r : TCPReceiver) (seg : TCPSegment) : Z :=
  if syn (_header seg) then 0
  else unwrap (seqno (_header seg)) (TCPReceiver._isn r) (bytes_written (stream_out r)) - 1.

(** The edge of the window does not split the payload: it ends inside the window the receiver has advertised,
    or all that is new of it lies beyond, like the byte that probes a closed window. *)
Definition unsplit (r : TCPReceiver) (seg : TCPSegment) : Prop :=
  stream_index r seg + zlen (str (_payload seg)) <= first_unacceptable (_reassembler r) \/
  first_unacceptable (_reassembler r) <= Z.max (stream_index r seg) (_exIdx (_reassembler r)).

(** [transfer segs cap r out]: a fresh receiver got some of the segments [segs], each any
    number of times and in any order, those it accepts not split by its window, and its
    reader took the bytes [out]. *)
Inductive transfer (segs : list TCPSegment) (cap : Z) : TCPReceiver -> bytes -> Prop :=
| transfer_new : transfer segs cap (TCPReceiver.new cap) []
| transfer_deliver r out seg r' :
    transfer segs cap r out -> seg ∈ segs -> (accepts r seg = true -> unsplit r seg) ->
    segment_received seg r = Ok r' ->
    transfer segs cap r' out
| transfer_read r out n :
    transfer segs cap r out -> 0 <= n ->
    transfer segs cap
      (r <| _reassembler := (_reassembler r) <| _output := snd (read n (stream_out r)) |> |>)
      (out ++ fst (read n (stream_out r))).

Section transfer.
Context (w : bytes) (e : bool) (cap : Z) (isn : WrappingInt32).
Hypothesis cap_nonneg : 0 <= cap.
Hypothesis short_stream : zlen w < 0x7fffffff.
Hypothesis cap_bound : cap < 0x7ffffff000000000.
Hypothesis isn_valid : valid isn.

Lemma wrap_0 : wrap 0 isn = isn.
Proof. unfold wrap, add. destruct isn as [v]. unfold valid in isn_valid. cbn in *. f_equal. ulia. Qed.

Lemma receiver_written r out ps b :
  receiver_inv w cap isn out ps b r ->
  bytes_written (stream_out r) = _exIdx (_reassembler r) /\ 0 <= _exIdx (_reassembler r) <= zlen w.
Proof.
  intros [Hs _ _ _]. eapply session_written; [exact cap_nonneg| |exact Hs]. lia.
Qed.

(** An accurate segment that the window does not split is one the receiver can be sure of. *)
Lemma accurate_receivable r out ps b seg :
  receiver_inv w cap isn out ps b r -> accurate isn w e seg ->
  (accepts r seg = true -> unsplit r seg) -> receivable w isn r seg.
Proof.
  intros I A Hw. destruct (receiver_written _ _ _ _ I) as [Hwr Hr].
  destruct (accepts r seg) eqn:Eacc; [|by right; right]. specialize (Hw eq_refl).
  destruct A as [?|(i & Hi & Hle & Hdata & _ & Hq & Hsy & Hfi)]; [by right; left|].
  left. exists i.
  assert (Hix : stream_index r seg = i).
  { unfold stream_index. destruct (syn (_header seg)) eqn:Es; [by rewrite (Hsy eq_refl)|].
    unfold accepts in Eacc. rewrite Es in Eacc. cbn in Eacc.
    rewrite Hq, (ri_isn _ _ _ _ _ _ _ I Eacc), unwrap_eq by lia.
    rewrite (proj2 (Z.ltb_ge _ _)) by lia. lia. }
  unfold unsplit in Hw. rewrite Hix in Hw.
  assert (Hs : syn (_header seg) = true -> i = 0 /\ seqno (_header seg) = isn).
  { intros Es. rewrite Es in Hq. rewrite Hq, wrap_0. by split; [apply Hsy|]. }
  assert (Hn : syn (_header seg) = false -> seqno (_header seg) = wrap (i + 1) isn) by (intros Es; by rewrite Es in Hq).
  assert (Hf : fin (_header seg) = true -> i + zlen (str (_payload seg)) = zlen w) by (intros H; by destruct (Hfi H)).
  destruct Hw as [Hw|Hw]; [left|right]; (split; [|done|done|lia]); by split_and!.
Qed.

Context (segs : list TCPSegment).
Hypothesis segs_accurate : Forall (accurate isn w e) segs.

(** One segment of an accurate sender. *)
Lemma deliver_step r out ps b seg :
  receiver_inv w cap isn out ps b r -> (b = true -> e = true) -> seg ∈ segs ->
  (accepts r seg = true -> unsplit r seg) ->
  exists r' ps' b', segment_received seg r = Ok r' /\ receiver_inv w cap isn out ps' b' r' /\
    (b' = true -> e = true).
Proof.
  intros I Hb Hin Hw. pose proof (proj1 (Forall_forall _ _) segs_accurate _ Hin) as A.
  pose proof (accurate_receivable r out ps b seg I A Hw) as HR.
  destruct (receivable_step w cap isn cap_nonneg ltac:(lia) _ _ _ _ _ I HR)
    as (r' & ps' & b' & E & I' & Hb'). exists r', ps', b'. split; [done|]. split; [done|].
  intros H. destruct (Hb' H) as [?|[_ Hf]]; [auto|].
  destruct A as [(_ & _ & ?)|(i & _ & _ & _ & _ & _ & _ & Hfi)]; [congruence|by destruct (Hfi Hf)].
Qed.

Lemma transfer_inv r out :
  transfer segs cap r out -> exists ps b, receiver_inv w cap isn out ps b r /\ (b = true -> e = true).
Proof.
  induction 1 as [|r out seg r' _ (ps & b & I & Hb) Hin Hw E|r out n _ (ps & b & I & Hb) Hn].
  - exists [], false. split; [apply receiver_inv_new|done].
  - destruct (deliver_step r out ps b seg I Hb Hin Hw) as (r'' & ps' & b' & E' & I' & Hb').
    rewrite E in E'. apply Ok_inj in E' as <-. by exists ps', b'.
  - exists ps, b. split; [by apply receiver_inv_read|done].
Qed.
End transfer.

(** ** Properties *)

(** C8. Reliable delivery: let a sender with ISN [isn] write [w] (shorter than 2^31 - 1 bytes), in
    any session, and let a receiver get any of the segments the sender ever emitted,
    lost, duplicated and reordered at will, those it accepts inside its window or beyond it. Then what
    its reader has read and can read is a prefix of [w]; and when its stream has ended,
    the writer had ended [w] and the reader has, or can read, all of it. *)
Theorem reliable_delivery isn scap rto s w e sent cap r out :
  is_u64 scap -> valid isn -> zlen w < 0x7fffffff -> 0 <= cap < 0x7ffffff000000000 ->
  sender_session isn scap rto s w e sent ->
  transfer (sent ++ segments_out s) cap r out ->
  (exists k, 0 <= k <= zlen w /\ out ++ _buf (stream_out r) = ztake k w) /\
  (input_ended (stream_out r) = true -> e = true /\ out ++ _buf (stream_out r) = w).
Proof.
  intros Hsc Hv Hl Hcap Hs Ht.
  destruct (sender_session_ok _ _ _ _ _ _ _ Hsc Hs) as [f SO]; [unfold LIMIT; lia|].
  destruct (transfer_inv w e cap isn (proj1 Hcap) Hl (proj2 Hcap) Hv _ (so_out _ _ _ _ _ _ SO) r out Ht)
    as (ps & b & [Hse _ _ _] & Hb).
  destruct (session_fifo w cap (proj1 Hcap) ltac:(lia) _ _ _ _ Hse) as [g SI].
  pose proof (session_out _ _ _ _ _ _ _ SI) as Hout. destruct SI as [[C _] _ _ _ He _ _].
  pose proof (core_range _ _ _ _ C) as Hr. split; [exists (_exIdx (_reassembler r)); split; [lia|exact Hout]|].
  unfold stream_out, StreamReassembler.stream_out, input_ended in *.
  rewrite (ref_end _ _ (core_out _ _ _ _ C)), (core_ended _ _ _ _ C), He.
  intros [H1 H2%Z.eqb_eq]%andb_true_iff. split; [by apply Hb|].
  rewrite Hout, H2. by apply ztake_ge.
Qed.

(** No delivery makes the receiver fault: in the same setting, any further segment
    of the sender, not split by the window if it is accepted, is handled. *)
Theorem delivery_progress isn scap rto s w e sent cap r out seg :
  is_u64 scap -> valid isn -> zlen w < 0x7fffffff -> 0 <= cap < 0x7ffffff000000000 ->
  sender_session isn scap rto s w e sent ->
  transfer (sent ++ segments_out s) cap r out ->
  seg ∈ sent ++ segments_out s -> (accepts r seg = true -> unsplit r seg) ->
  exists r', segment_received seg r = Ok r'.
Proof.
  intros Hsc Hv Hl Hcap Hs Ht Hin Hw.
  destruct (sender_session_ok _ _ _ _ _ _ _ Hsc Hs) as [f SO]; [unfold LIMIT; lia|].
  destruct (transfer_inv w e cap isn (proj1 Hcap) Hl (proj2 Hcap) Hv _ (so_out _ _ _ _ _ _ SO) r out Ht)
    as (ps & b & I & Hb).
  destruct (deliver_step w e cap isn (proj1 Hcap) Hl (proj2 Hcap) Hv _ (so_out _ _ _ _ _ _ SO)
    r out ps b seg I Hb Hin Hw) as (r' & _ & _ & E & _). by exists r'.
Qed.

(** ** A concrete transfer: the sender's demo session, its SYN delivered twice *)

Definition demo_receive (seg : TCPSegment) (r : TCPReceiver) : TCPReceiver :=
  match segment_received seg r with Ok r' => r' | Fault _ => r end.
Definition demo_sent (i : nat) : TCPSegment := nth i ([] ++ segments_out demo_s4) TCPSegment.default.
Definition demo_t1 : TCPReceiver := demo_receive (demo_sent 0) (TCPReceiver.new 16).
Definition demo_t2 : TCPReceiver := demo_receive (demo_sent 1) demo_t1.

Lemma demo_sent_in i : (i < 2)%nat -> demo_sent i ∈ [] ++ segments_out demo_s4.
Proof.
  intros Hi. unfold demo_sent. apply list_elem_of_In, nth_In.
  assert (length ([] ++ segments_out demo_s4) = 2%nat) as -> by (by vm_compute). done.
Qed.

Lemma demo_transfer1 : transfer ([] ++ segments_out demo_s4) 16 demo_t1 [].
Proof.
  apply (transfer_deliver _ _ (TCPReceiver.new 16) [] (demo_sent 0));
    [constructor|apply demo_sent_in; lia|intros _; left; by vm_compute|by vm_compute].
Qed.

Lemma demo_transfer2 : transfer ([] ++ segments_out demo_s4) 16 demo_t2 [].
Proof.
  apply (transfer_deliver _ _ demo_t1 [] (demo_sent 1));
    [apply demo_transfer1|apply demo_sent_in; lia|intros _; left; by vm_compute|by vm_compute].
Qed.

Lemma reliable_delivery_witness :
  _buf (stream_out demo_t2) = [x61; x62; x63; x64] /\
  (exists k, 0 <= k <= zlen demo_data /\ [] ++ _buf (stream_out demo_t2) = ztake k demo_data) /\
  (input_ended (stream_out demo_t2) = true ->
   false = true /\ [] ++ _buf (stream_out demo_t2) = demo_data).
Proof.
  split; [by vm_compute|].
  apply (reliable_delivery TCPSender.demo_isn 10 1000 demo_s4 demo_data false [] 16 demo_t2 []);
    [lia|unfold valid; cbn; lia|by vm_compute|lia|apply demo_session_s4|apply demo_transfer2].
Defined.

Lemma delivery_progress_witness :
  exists r', segment_received (demo_sent 0) demo_t2 = Ok r'.
Proof.
  apply (delivery_progress TCPSender.demo_isn 10 1000 demo_s4 demo_data false [] 16 demo_t2 []);
    [lia|unfold valid; cbn; lia|by vm_compute|lia|apply demo_session_s4|apply demo_transfer2
    |apply demo_sent_in; lia|intros H; exfalso; vm_compute in H; discriminate H].
Defined.
