(* ===== verification/Pace.v ===== *)
(** * Pace: what keeps a sender and its receiver in step

    The ghost state of one direction of a connection: where the sender cut its
    stream into segments and where it put FIN.  A receiver whose segments all come from that
    sender only acknowledges cuts, and acknowledgments of cuts are the ones [ack_received]
    handles exactly. *)

From stdpp Require Import sets.
From S2P Require Import Prelude WrappingIntegers ByteStream Buffer.
From S2P Require Import TCPHeader TCPSegment TCPConfig TCPReceiver TCPSender.

(** The stream indices at which segments began or ended, and the index of FIN once sent. *)
Record progress := mk_progress { cuts : list Z; fin_at : option Z }.
Implicit Types (g : progress) (q : UnAckQueue) (s : TCPSender).

Definition later (g g' : progress) : Prop :=
  cuts g ⊆ cuts g' /\ (forall n, fin_at g = Some n -> fin_at g' = Some n).

#[export] Instance later_preorder : PreOrder later.
Proof.
  split; [by intros g|]. intros g1 g2 g3 [C1 F1] [C2 F2]. split; [set_solver|auto].
Qed.

(** A segment that ends at a cut, FIN included. *)
Definition marked (isn : WrappingInt32) (g : progress) (seg : TCPSegment) : Prop :=
  let h := _header seg in
  bare seg \/
  exists i, 0 <= i /\ seqno h = wrap (if syn h then 0 else i + 1) isn /\ (syn h = true -> i = 0) /\
    i + zlen (str (_payload seg)) ∈ cuts g /\
    (fin h = true -> fin_at g = Some (i + zlen (str (_payload seg)))).

Lemma marked_later isn g g' seg : later g g' -> marked isn g seg -> marked isn g' seg.
Proof.
  intros [C F] [?|(i & ? & ? & ? & ? & ?)]; [by left|right]. exists i. split_and!; auto.
Qed.

(** The absolute number that acknowledges a cut, FIN included. *)
Definition good (g : progress) (a : Z) : Prop :=
  exists k, k ∈ cuts g /\ (a = k + 1 \/ fin_at g = Some k /\ a = k + 2).

Lemma good_later g g' a : later g g' -> good g a -> good g' a.
Proof. intros [C F] (k & ? & [?|[? ?]]); exists k; split; auto. Qed.

(** ** The sender *)

(** The bytes segments have been made of; [popped] of the abstract stream. *)
Definition sent_bytes (q : UnAckQueue) : Z := _next_seqno q - 1 - b2n (_finSent q).

Record paced (g : progress) (q : UnAckQueue) : Prop := mk_paced {
  pc_syn : _synSent q = true;
  pc_range : forall k, k ∈ cuts g -> 0 <= k <= sent_bytes q;
  pc_sent : sent_bytes q ∈ cuts g;
  pc_fin : fin_at g = if _finSent q then Some (sent_bytes q) else None;
  pc_handshake : _synAcked q = false -> _win_size q = 1 /\ _finSent q = false;
  pc_done : _finAcked q = true -> _baseSqn q = _next_seqno q;
  pc_marks : _synAcked q = true -> _finAcked q = false -> forall l1 l2,
    _unAckedPayloadSize q = l1 ++ l2 -> _baseSqn q - 1 + zsum l1 ∈ cuts g;
  pc_bounds : _synAcked q = true -> _finAcked q = false -> forall k,
    k ∈ cuts g -> _baseSqn q - 1 <= k ->
    exists l1 l2, _unAckedPayloadSize q = l1 ++ l2 /\ k = _baseSqn q - 1 + zsum l1 }.

Definition pacing (g : progress) (s : TCPSender) : Prop :=
  paced g (unAckQueue s) /\ Forall (marked (_isn s) g) (_segments_out s).

Lemma sent_popped f q : queue_inv f q -> _synSent q = true -> sent_bytes q = popped f.
Proof. intros Q Hs. unfold sent_bytes. rewrite (qi_next _ _ Q), Hs. cbn [b2n]. lia. Qed.

(** The sizes in flight reach from the base to the last byte sent. *)
Lemma sizes_reach f q :
  queue_inv f q -> popped f <= zlen (hist f) -> _synSent q = true -> _synAcked q = true ->
  _finAcked q = false -> _baseSqn q - 1 + zsum (_unAckedPayloadSize q) = sent_bytes q.
Proof.
  intros Q Hp Hs Ha Hf. rewrite (sent_popped f q Q Hs), (qi_sum _ _ Q).
  destruct (qi_data _ _ Q Ha) as [Hb Hd]. destruct (Hd Hf) as [Hb' ->]. unfold taken.
  rewrite zlen_zdrop, zlen_ztake by lia. lia.
Qed.

Lemma paced_window g q w :
  paced g q -> _synAcked q = true -> paced g (q <| _win_size := w |>).
Proof. intros [] Ha. split; try done. cbn. congruence. Qed.

(** The queue after one more payload of [n] bytes, with FIN when [b]. *)
Lemma paced_push f g q n (b : bool) seg :
  queue_inv f q -> popped f <= zlen (hist f) -> paced g q -> _synAcked q = true -> _finSent q = false ->
  0 <= n -> zlen (str (_payload seg)) = n ->
  let k := sent_bytes q + n in
  let g' := mk_progress (k :: cuts g) (if b then Some k else None) in
  later g g' /\
  paced g' (UnAckQueue.push seg
    (q <| _finSent := b |> <| _next_seqno := _next_seqno q + b2n b + n |>)).
Proof.
  intros Q Hp P Ha Hf Hn Hlen k g'. pose proof P as [Ps Pr Pt Pf Ph Pd Pm Pb].
  assert (Hna : _finAcked q = false).
  { destruct (_finAcked q) eqn:E; [|done]. destruct (qi_finAcked _ _ Q E). congruence. }
  pose proof (sizes_reach f q Q ltac:(lia) Ps Ha Hna) as Hreach. rewrite Hf in Pf.
  assert (Hk : sent_bytes (UnAckQueue.push seg
    (q <| _finSent := b |> <| _next_seqno := _next_seqno q + b2n b + n |>)) = k).
  { unfold k, sent_bytes, UnAckQueue.push. cbn. rewrite Hf. cbn [b2n]. lia. }
  split.
  { split; [unfold g'; cbn [cuts]; set_solver|]. by rewrite Pf. }
  split; rewrite ?Hk; cbn [UnAckQueue.push upd eta eta_UnAckQueue _win_size _synSent _next_seqno _finSent
    _baseSqn _unAckedPayloadSize _unAcked _finAcked _synAcked g' cuts fin_at]; rewrite ?Hlen; try done;
    try congruence.
  - intros j [->|Hj]%elem_of_cons; [unfold k; specialize (Pr _ Pt); lia|].
    specialize (Pr _ Hj). unfold k. lia.
  - by left.
  - intros _ _ l1 l2 E. destruct (decide (l2 = [])) as [->|Hl2].
    + rewrite app_nil_r in E. rewrite <- E, zsum_app, elem_of_cons. cbn. left. unfold k. lia.
    + destruct (exists_last Hl2) as (l3 & m & ->). rewrite app_assoc in E.
      apply app_inj_tail in E as [E _]. right. by eapply Pm.
  - intros _ _ j [->|Hj]%elem_of_cons Hb.
    + exists (_unAckedPayloadSize q ++ [n]), []. rewrite app_nil_r, zsum_app. cbn. split; [done|].
      unfold k. lia.
    + destruct (Pb Ha Hna j Hj Hb) as (l1 & l2 & E & ->). exists l1, (l2 ++ [n]).
      by rewrite E, app_assoc.
Qed.

Lemma pacing_firstPush g s seg :
  paced g (unAckQueue s) -> Forall (marked (_isn s) g) (_segments_out s) -> marked (_isn s) g seg ->
  pacing g (firstPush seg s).
Proof.
  intros P F M. destruct (firstPush_frame seg s) as (Eq & _ & Ei & _). unfold pacing.
  rewrite Eq, Ei, firstPush_out. split; [done|]. apply Forall_app. by rewrite Forall_singleton.
Qed.

Lemma all_marked_later isn g g' segs :
  later g g' -> Forall (marked isn g) segs -> Forall (marked isn g') segs.
Proof. intros L F. eapply Forall_impl; [exact F|]. intros seg. by apply marked_later. Qed.

(** One round of the loop of [fill_window]. *)
Lemma fill_round_pacing g s f :
  sender_inv s f -> pacing g s -> _synAcked (unAckQueue s) = true -> hasContentToPush s = true ->
  exists g', later g g' /\ pacing g' (fill_round s).
Proof.
  intros I [P F] Ha Hc. pose proof I as [R Hb Q]. destruct (stream_facts _ _ R) as (Hbs & Hp & He).
  assert (Hf : _finSent (unAckQueue s) = false).
  { destruct (_finSent _) eqn:E; [|done]. destruct (qi_fin _ _ Q E) as [_ Hpop].
    unfold hasContentToPush in Hc. by rewrite Hbs, E, Hpop, Z.sub_diag, andb_false_r in Hc. }
  destruct (payload_n_range s f I) as (Hn & _).
  pose proof (zlen_payload s f R) as Hlen. unfold fill_round. rewrite (makePayLoadSeg_eq s f I Hf).
  set (seg := mkTCPSegment _ _). cbv beta iota.
  destruct (paced_push f g (unAckQueue s) (payload_n s f) (payload_fin s f) seg Q ltac:(lia) P Ha Hf
    ltac:(lia)) as [L P']; [unfold seg; cbn [_payload]; by rewrite str_of_string|].
  eexists. split; [exact L|]. apply pacing_firstPush; [exact P'| |].
  - by eapply all_marked_later.
  - right. exists (sent_bytes (unAckQueue s)). unfold seg. cbn [_header _payload].
    rewrite str_of_string, Hlen. split_and!; try done.
    + rewrite (sent_popped f _ Q) by apply P. lia.
    + cbn. unfold sent_bytes. rewrite Hf. cbn [b2n]. f_equal. lia.
    + by left.
    + cbn. by intros ->.
Qed.

Lemma fill_loop_pacing fuel : forall g s f,
  sender_inv s f -> pacing g s -> _synAcked (unAckQueue s) = true ->
  exists g', later g g' /\ pacing g' (fill_loop fuel s).
Proof.
  induction fuel as [|fuel IH]; intros g s f I P Ha; [by exists g|]. rewrite fill_loop_S.
  destruct ((0 <? remainSpace s) && hasContentToPush s) eqn:E; [|by exists g].
  apply andb_true_iff in E as [Er%Z.ltb_lt Ec].
  destruct (fill_round_sends s f I (pc_syn _ _ (proj1 P)) Ha Er Ec) as (f1 & seg & S1 & _).
  destruct S1 as (I1 & _ & _ & _ & (_ & _ & _ & Ha1 & _) & _).
  destruct (fill_round_pacing g s f I P Ha Ec) as (g1 & L1 & P1).
  destruct (IH g1 _ f1 I1 P1 ltac:(congruence)) as (g2 & L2 & P2). exists g2. split; [by etrans|done].
Qed.

(** Before SYN is acknowledged there is no room for anything else. *)
Lemma handshake_full g s f :
  sender_inv s f -> paced g (unAckQueue s) -> _synAcked (unAckQueue s) = false ->
  remainSpace s = 0 /\ _baseSqn (unAckQueue s) = 0 /\ sent_bytes (unAckQueue s) = 0 /\
  _next_seqno (unAckQueue s) = 1.
Proof.
  intros I P Ha. destruct (pc_handshake _ _ P Ha) as [Hw Hf]. pose proof (se_queue _ _ I) as Q.
  destruct (qi_handshake _ _ Q Ha) as (Hp & _ & Hb).
  assert (Hna : _finAcked (unAckQueue s) = false).
  { destruct (_finAcked _) eqn:E; [|done]. destruct (qi_finAcked _ _ Q E). congruence. }
  specialize (Hb Hna). pose proof (sent_popped _ _ Q (pc_syn _ _ P)) as Hs. rewrite Hp in Hs.
  unfold sent_bytes in Hs |- *. rewrite Hf in Hs |- *. cbn [b2n] in Hs |- *.
  destruct (in_flight_eq _ _ I) as [Hfl _]. unfold remainSpace.
  change (UnAckQueue.bytesInFlight (unAckQueue s)) with (bytes_in_flight s).
  rewrite Hfl, Hw, Hb. split_and!; try lia. replace (_next_seqno _) with 1 by lia. done.
Qed.

Lemma paced_fin g q :
  paced g q -> _synAcked q = true -> _finSent q = false -> _finAcked q = false ->
  paced (mk_progress (cuts g) (Some (sent_bytes q)))
    (q <| _next_seqno := _next_seqno q + 1 |> <| _finSent := true |>).
Proof.
  intros [Ps Pr Pt Pf Ph Pd Pm Pb] Ha Hf Hna.
  assert (Hk : sent_bytes (q <| _next_seqno := _next_seqno q + 1 |> <| _finSent := true |>) =
    sent_bytes q).
  { unfold sent_bytes. cbn. rewrite Hf. cbn [b2n]. lia. }
  split; rewrite ?Hk; cbn [upd eta eta_UnAckQueue _win_size _synSent _next_seqno _finSent
    _baseSqn _unAckedPayloadSize _unAcked _finAcked _synAcked cuts fin_at]; try done; congruence.
Qed.

Lemma first_fin_pacing g s f :
  sender_inv s f -> pacing g s -> _finSent (unAckQueue s) = false -> eof (_stream s) = true ->
  1 < remainSpace s ->
  let '(seg, s1) := makeFirstFinSeg s in
  exists g', later g g' /\ pacing g' (firstPush seg s1).
Proof.
  intros I [P F] Hf He Hr. unfold makeFirstFinSeg. pose proof P as [Ps Pr Pt Pf Ph Pd Pm Pb].
  destruct (in_flight_eq _ _ I) as [_ Hnx]. unfold LIMIT in Hnx. rewrite Hf in Pf.
  set (k := sent_bytes (unAckQueue s)) in *. exists (mk_progress (cuts g) (Some k)).
  assert (L : later g (mk_progress (cuts g) (Some k))) by (split; [done|by rewrite Pf]).
  split; [done|]. unfold bump. rewrite u64_id by lia.
  assert (Ha : _synAcked (unAckQueue s) = true).
  { destruct (_synAcked _) eqn:E; [done|]. destruct (handshake_full g s f I P E). lia. }
  assert (Hna : _finAcked (unAckQueue s) = false).
  { destruct (_finAcked _) eqn:E; [|done]. destruct (qi_finAcked _ _ (se_queue _ _ I) E). congruence. }
  apply pacing_firstPush.
  - by apply paced_fin.
  - by eapply all_marked_later.
  - right. exists k. cbn. rewrite Z.add_0_r. split_and!; try done; [apply (Pr _ Pt)|].
    unfold k, sent_bytes. rewrite Hf. cbn [b2n]. f_equal. lia.
Qed.

Lemma fill_window_pacing g s f :
  sender_inv s f -> pacing g s -> exists g', later g g' /\ pacing g' (fill_window s).
Proof.
  intros I P. pose proof (se_queue _ _ I) as Q. pose proof (pc_syn _ _ (proj1 P)) as Hs. unfold fill_window.
  destruct (_finSent (unAckQueue s)) eqn:Hf.
  { exists g. by destruct (_finAcked _). }
  destruct (_finAcked (unAckQueue s)) eqn:Hfa.
  { destruct (qi_finAcked _ _ Q Hfa) as [? _]. congruence. }
  rewrite Hs. cbn [orb andb negb].
  set (s1 := if eof (_stream s) && (1 <? remainSpace s)
             then let '(seg, s) := makeFirstFinSeg s in firstPush seg s else s).
  assert (H1 : exists f1 g1, sender_inv s1 f1 /\ later g g1 /\ pacing g1 s1 /\
    _synAcked (unAckQueue s1) = _synAcked (unAckQueue s)).
  { unfold s1. destruct (eof (_stream s)) eqn:He, (1 <? remainSpace s) eqn:Hr; cbn [andb];
      try by exists f, g.
    destruct (makes_first_fin s f I Hs Hf He ltac:(lia)) as (seg & s2 & E & M).
    pose proof (first_fin_pacing g s f I P Hf He ltac:(lia)) as H1. rewrite E in H1 |- *.
    destruct H1 as (g1 & L & P1). apply makes_sends in M. destruct M as (I1 & _ & _ & _ & (_ & _ & _ & Ha1 & _) & _).
    by exists f, g1. }
  destruct H1 as (f1 & g1 & I1 & L1 & P1 & Ha1). rewrite (pc_syn _ _ (proj1 P1)). cbn [andb].
  destruct (_synAcked (unAckQueue s1)) eqn:Ha; cbn [negb]; [|by exists g1].
  destruct (fill_loop_pacing (fill_fuel s1) g1 s1 f1 I1 P1 Ha) as (g2 & L2 & P2).
  exists g2. split; [by etrans|done].
Qed.

(** ** Retransmission *)

Lemma makeSynSeg_full g s f :
  sender_inv s f -> paced g (unAckQueue s) -> _synAcked (unAckQueue s) = false ->
  makeSynSeg s =
    (headerSeg (TCPHeader.default <| seqno := wrap 0 (_isn s) |> <| syn := true |>), s).
Proof.
  intros I P Ha. destruct (handshake_full g s f I P Ha) as (Hr & _). unfold makeSynSeg.
  rewrite (pc_syn _ _ P). cbn [negb]. by rewrite Hr, andb_false_r.
Qed.

Lemma frontSeg_marked g s f seg :
  sender_inv s f -> paced g (unAckQueue s) -> _unAcked (unAckQueue s) <> [] ->
  UnAckQueue.frontSeg (_isn s) (unAckQueue s) = Ok seg -> marked (_isn s) g seg.
Proof.
  intros I P Hu. pose proof I as [R Hl Q]. pose proof (ref_popped _ _ R) as Hp.
  destruct (in_flight_data f _ Q Hu) as (Hss & Hsa & Hna & Hnx & Hb & _ & Hlen).
  pose proof (sizes_ok_nonneg _ _ (qi_sizes _ _ Q)) as HF. pose proof (qi_sum _ _ Q) as Hz.
  pose proof P as [Ps Pr Pt Pf Ph Pd Pm Pb].
  unfold UnAckQueue.frontSeg. destruct (_unAckedPayloadSize (unAckQueue s)) as [|n rest] eqn:En; [done|].
  destruct (Z.ltb_spec (zlen (_unAcked (unAckQueue s))) n) as [|Hle]; [done|]. intros [= <-].
  apply Forall_cons in HF as [Hn _].
  specialize (Pm Hsa Hna [n] rest eq_refl). cbn [zsum foldr] in Pm. rewrite Z.add_0_r in Pm.
  pose proof (Pr _ Pm) as Hr. rewrite (sent_popped _ _ Q Hss) in Hr.
  right. exists (_baseSqn (unAckQueue s) - 1). cbn [_payload _header].
  rewrite str_of_string, zlen_ztake, Z.min_l by lia.
  split_and!; try lia; try done.
  - destruct (_ && _); cbn; f_equal; lia.
  - by destruct (_ && _).
  - unfold UnAckQueue.ackSqnForFin, LIMIT, MAX_PAYLOAD_SIZE in *.
    pose proof (b2n_range (_finSent (unAckQueue s))). rewrite !u64_id by lia.
    destruct (_ && _) eqn:E; cbn; [|done]. intros _. apply andb_true_iff in E as [Ef Ee%Z.eqb_eq].
    rewrite Pf, Ef. f_equal. unfold sent_bytes. rewrite Ef. cbn [b2n]. lia.
Qed.

Lemma retransmitSeg_pacing g s f seg s1 :
  sender_inv s f -> pacing g s -> retransmitSeg s = Ok (seg, s1) -> s1 = s /\ marked (_isn s) g seg.
Proof.
  intros I [P F]. pose proof I as [R Hl Q]. pose proof P as [Ps Pr Pt Pf Ph Pd Pm Pb].
  assert (Hfront : _unAcked (unAckQueue s) <> [] ->
    (seg ← UnAckQueue.frontSeg (_isn s) (unAckQueue s); Ok (seg, s)) = Ok (seg, s1) ->
    s1 = s /\ marked (_isn s) g seg).
  { intros Hu E. apply bind_Ok in E as (seg' & E & [= -> ->]). split; [done|].
    by eapply frontSeg_marked. }
  unfold retransmitSeg, UnAckQueue.empty. rewrite Ps.
  destruct (_finSent (unAckQueue s) && negb (_finAcked (unAckQueue s))) eqn:Ef.
  - case_bool_decide as Hu; [|by apply Hfront]. intros [= <- <-]. split; [done|].
    apply andb_true_iff in Ef as [Ef _]. rewrite Ef in Pf. right. exists (sent_bytes (unAckQueue s)).
    cbn. rewrite Z.add_0_r. specialize (Pr _ Pt). split_and!; try done; [lia|].
    destruct (in_flight_eq _ _ I) as [_ Hnx]. unfold sent_bytes, UnAckQueue.ackSqnForFin, LIMIT in *.
    rewrite Ef in *. cbn [b2n] in *. rewrite u64_id by lia. f_equal. lia.
  - destruct (_synAcked (unAckQueue s)) eqn:Ha; cbn [andb negb].
    + case_bool_decide as Hu; cbn [negb]; [|by apply Hfront]. intros [= <- <-]. split; [done|].
      by left.
    + rewrite (makeSynSeg_full g s f I P Ha). intros [= <- <-]. split; [done|].
      destruct (handshake_full g s f I P Ha) as (_ & _ & Hz & _). rewrite Hz in Pt.
      right. exists 0. cbn. by split_and!.
Qed.

Lemma tick_pacing g s f n s' :
  sender_inv s f -> pacing g s -> tick n s = Ok s' -> pacing g s'.
Proof.
  intros I P. unfold tick. destruct (_isTimerRunning _); [|by intros [= <-]].
  set (s0 := s <| timer := _ |>).
  assert (I0 : sender_inv s0 f) by (destruct I; by split). assert (P0 : pacing g s0) by exact P. clearbody s0.
  destruct (_ <=? _); [|by intros [= <-]]. unfold timeoutRetransmit.
  destruct (_finAcked _); [by intros [= <-]|]. intros E. apply bind_Ok in E as ([seg s1] & E & [= <-]).
  destruct (retransmitSeg_pacing g s0 f seg s1 I0 P0 E) as [-> M]. destruct P0 as [P0 F0].
  split; [exact P0|]. cbn. apply Forall_app. by rewrite Forall_singleton.
Qed.

Lemma send_empty_pacing g s : pacing g s -> pacing g (send_empty_segment s).
Proof. intros [P F]. split; [exact P|]. apply Forall_app. split; [exact F|]. apply Forall_singleton. by left. Qed.

(** ** Acknowledgments *)

Lemma zsum_nil_iff b l : sizes_ok b l -> b = false -> zsum l = 0 -> l = [].
Proof.
  intros H -> Hz. destruct H as ([|n ps] & zs & -> & Hp & [->|[_ ?]]); try done.
  rewrite app_nil_r in *. apply Forall_cons in Hp as [Hn Hp]. cbn in Hz.
  pose proof (zsum_nonneg ps). unfold zsum in *.
  assert (0 <= foldr Z.add 0 ps); [|lia]. apply H. eapply Forall_impl; [exact Hp|]. cbn. lia.
Qed.

(** [SYN] is acknowledged. *)
Lemma paced_synAck f g q :
  queue_inv f q -> paced g q -> _synAcked q = false -> sent_bytes q = 0 -> _baseSqn q = 0 ->
  paced g (q <| _synAcked := true |> <| _baseSqn := 1 |>).
Proof.
  intros Q P Ha Hz Hb. pose proof P as [Ps Pr Pt Pf Ph Pd Pm Pb]. destruct (Ph Ha) as [Hw Hf].
  destruct (qi_handshake _ _ Q Ha) as (_ & Hu & _). pose proof (qi_sum _ _ Q) as Hs. rewrite Hu in Hs.
  pose proof (zsum_nil_iff _ _ (qi_sizes _ _ Q) Hf Hs) as Hnil.
  assert (Hna : _finAcked q = false).
  { destruct (_finAcked q) eqn:E; [|done]. destruct (qi_finAcked _ _ Q E). congruence. }
  split; cbn [upd eta eta_UnAckQueue _win_size _synSent _next_seqno _finSent
    _baseSqn _unAckedPayloadSize _unAcked _finAcked _synAcked]; rewrite ?Hnil; try done; try congruence.
  - intros _ _ l1 l2 E. symmetry in E. apply app_eq_nil in E as [-> _]. cbn. by rewrite <- Hz.
  - intros _ _ k Hk Hk1. exists [], []. split; [done|]. cbn. specialize (Pr _ Hk).
    change (sent_bytes q) with (sent_bytes q) in Pr. lia.
Qed.

(** FIN is acknowledged, and with it everything. *)
Lemma paced_finAck g q q' :
  paced g q -> _synSent q' = true -> _synAcked q' = true -> _finSent q' = _finSent q ->
  _finAcked q' = true -> _next_seqno q' = _next_seqno q -> _baseSqn q' = _next_seqno q ->
  paced g q'.
Proof.
  intros [Ps Pr Pt Pf Ph Pd Pm Pb] H1 H2 H3 H4 H5 H6.
  assert (Hk : sent_bytes q' = sent_bytes q) by (unfold sent_bytes; by rewrite H3, H5).
  split; rewrite ?Hk, ?H3; try done; congruence.
Qed.

(** The base moves to a cut: the sizes passed are dropped. *)
Lemma paced_drop g q a n bs :
  paced g q -> Forall (fun n => 0 <= n <= MAX_PAYLOAD_SIZE) (_unAckedPayloadSize q) ->
  _synAcked q = true -> _finAcked q = false -> _baseSqn q < a ->
  zsum (take n (_unAckedPayloadSize q)) = a - _baseSqn q ->
  paced g (q <| _unAckedPayloadSize := drop n (_unAckedPayloadSize q) |> <| _baseSqn := a |>
             <| _unAcked := bs |>).
Proof.
  intros [Ps Pr Pt Pf Ph Pd Pm Pb] HF Ha Hna Hlt Hn. set (l := _unAckedPayloadSize q) in *.
  split; cbn [upd eta eta_UnAckQueue _win_size _synSent _next_seqno _finSent
    _baseSqn _unAckedPayloadSize _unAcked _finAcked _synAcked]; try done; try congruence.
  - intros _ _ m1 m2 E. specialize (Pm Ha Hna (take n l ++ m1) m2).
    rewrite zsum_app, Hn in Pm. replace (a - 1 + zsum m1) with (_baseSqn q - 1 + (a - _baseSqn q + zsum m1)) by lia.
    apply Pm. rewrite <- app_assoc, <- E. by rewrite take_drop.
  - intros _ _ k Hk Hge. destruct (Pb Ha Hna k Hk ltac:(lia)) as (l1 & l2 & E & ->).
    destruct (decide (n <= length l1)%nat) as [Hle|Hgt].
    + exists (drop n l1), l2. rewrite E, drop_app_le by done. split; [done|].
      rewrite <- (zsum_take_drop n l1). rewrite E, take_app_le in Hn by done. lia.
    + exists [], (drop n l). split; [done|]. cbn.
      assert (Hs : take n l = l1 ++ take (n - length l1) l2) by (rewrite E; by rewrite take_app_ge by lia).
      rewrite Hs, zsum_app in Hn. rewrite E in HF. apply Forall_app in HF as [_ HF].
      pose proof (zsum_take_nonneg (n - length l1) l2 HF). lia.
Qed.

Lemma good_new f g q a :
  queue_inv f q -> paced g q -> good g a -> _baseSqn q < a -> 0 <= popped f <= zlen (hist f) ->
  a <= _next_seqno q /\
  (a = 1 /\ _synAcked q = false \/
   _synAcked q = true /\ _finAcked q = false /\
   (_finSent q = true /\ a = _next_seqno q \/
    exists l1 l2, _unAckedPayloadSize q = l1 ++ l2 /\ a = _baseSqn q + zsum l1)).
Proof.
  intros Q P G Hlt Hp. pose proof P as [Ps Pr Pt Pf Ph Pd Pm Pb].
  assert (Hnx : _next_seqno q = 1 + sent_bytes q + b2n (_finSent q)) by (unfold sent_bytes; lia).
  pose proof (b2n_range (_finSent q)). destruct G as (k & Hk & Ha). pose proof (Pr _ Hk) as Hkr.
  assert (Hle : a <= _next_seqno q).
  { destruct Ha as [->|[Hf ->]]; [lia|]. rewrite Pf in Hf. destruct (_finSent q); [|done].
    injection Hf as <-. cbn [b2n] in *. lia. }
  split; [done|]. destruct (_synAcked q) eqn:Hsa.
  - right. split; [done|]. destruct (_finAcked q) eqn:Hfa; [specialize (Pd eq_refl); lia|]. split; [done|].
    destruct Ha as [->|[Hf ->]].
    + right. destruct (Pb eq_refl eq_refl k Hk ltac:(lia)) as (l1 & l2 & E & ->). exists l1, l2. split; [done|lia].
    + left. rewrite Pf in Hf. destruct (_finSent q); [|done]. injection Hf as <-. cbn [b2n] in *. split; [done|lia].
  - left. split; [|done]. destruct (Ph eq_refl) as [_ Hf]. rewrite Hf in *. cbn [b2n] in *.
    rewrite (sent_popped f q Q Ps) in *. destruct (qi_handshake _ _ Q Hsa) as (Hz & _). 
    destruct Ha as [->|[Hf' _]]; [lia|]. congruence.
Qed.

(** [updateBase] on a good acknowledgment. *)
Lemma updateBase_paced f g q a q' :
  queue_inv f q -> 0 <= popped f <= zlen (hist f) -> zlen (hist f) < LIMIT -> paced g q ->
  good g a -> _baseSqn q < a -> UnAckQueue.updateBase a q = Ok q' ->
  paced g q' /\ _baseSqn q' = a.
Proof.
  intros Q Hp Hl P G Hlt. destruct (good_new f g q a Q P G Hlt Hp) as [Hle Hnew].
  pose proof P as [Ps Pr Pt Pf Ph Pd Pm Pb]. pose proof (qi_base _ _ Q) as Hb.
  unfold UnAckQueue.updateBase. rewrite (proj2 (Z.leb_gt _ _)) by lia.
  destruct Hnew as [[-> Hsa]|(Hsa & Hna & Hnew)].
  - rewrite Z.eqb_refl. assert (Hb0 : _baseSqn q = 0) by lia. rewrite Hb0. intros [= <-].
    split; [|done]. apply (paced_synAck f); try done.
    rewrite (sent_popped f q Q Ps). by destruct (qi_handshake _ _ Q Hsa).
  - destruct (qi_data _ _ Q Hsa) as [Hb1 _]. rewrite (proj2 (Z.eqb_neq a 1)) by lia.
    unfold UnAckQueue.ackSqnForFin. destruct (_finSent q && (a =? _next_seqno q)) eqn:Ef.
    + apply andb_true_iff in Ef as [Hf He%Z.eqb_eq]. subst a.
      change (UnAckQueue.empty (q <| _finAcked := true |>)) with (bool_decide (_unAcked q = [])).
      destruct (updateBase_spec f q (_next_seqno q) Q Hp Hl ltac:(lia)) as (q2 & E2 & _ & _ & _ & _ & _ & Hb2);
        [right; by left|].
      unfold UnAckQueue.updateBase, UnAckQueue.ackSqnForFin in E2.
      rewrite (proj2 (Z.leb_gt _ _)), (proj2 (Z.eqb_neq _ 1)), Hf, Z.eqb_refl in E2 by lia. cbn [andb] in E2.
      change (UnAckQueue.empty (q <| _finAcked := true |>)) with (bool_decide (_unAcked q = [])) in E2.
      rewrite E2. intros [= <-]. specialize (Hb2 Hsa Hna). split; [|done].
      case_bool_decide as Hu; cbn [negb] in E2.
      * apply Ok_inj in E2 as <-. by apply (paced_finAck g q).
      * rewrite erase_fin in E2 by done. apply Ok_inj in E2 as <-. by apply (paced_finAck g q).
    + destruct Hnew as [[Hf ->]|(l1 & l2 & El & ->)]; [by rewrite Hf, Z.eqb_refl in Ef|].
      pose proof (sizes_ok_nonneg _ _ (qi_sizes _ _ Q)) as HF. pose proof HF as HF'.
      rewrite El in HF'. apply Forall_app in HF' as [HF1 HF2].
      pose proof (zsum_nonneg _ HF1) as Hz1. pose proof (zsum_nonneg _ HF2) as Hz2.
      pose proof (qi_sum _ _ Q) as Hz. rewrite El, zsum_app in Hz.
      assert (Hu : _unAcked q <> []) by (intros E; rewrite E in Hz; cbn in Hz; lia).
      unfold UnAckQueue.empty. rewrite bool_decide_eq_false_2 by done. cbn [negb].
      unfold UnAckQueue.erase, UnAckQueue.ackSqnForFin. rewrite Ef.
      destruct (in_flight_data f q Q Hu) as (_ & _ & _ & _ & _ & _ & Hlen). unfold LIMIT in *.
      destruct (erase_loop_boundary (_baseSqn q + zsum l1) (_unAckedPayloadSize q) [] (_baseSqn q) 0 HF)
        as (n & -> & Hn); try lia.
      { rewrite El, zsum_app. lia. }
      { rewrite El, zsum_app. lia. }
      { exists (length l1). by rewrite El, take_app_length. }
      destruct (_ <? _); [done|]. intros [= <-]. split; [|done].
      by apply paced_drop.
Qed.

Lemma good_pos f g q a :
  queue_inv f q -> paced g q -> good g a -> 1 <= a <= _next_seqno q.
Proof.
  intros Q [Ps Pr Pt Pf Ph Pd Pm Pb] (k & Hk & Ha). specialize (Pr _ Hk).
  unfold sent_bytes in *. pose proof (b2n_range (_finSent q)).
  destruct Ha as [->|[Hf ->]]; [lia|]. rewrite Pf in Hf. destruct (_finSent q); [|done].
  injection Hf as <-. cbn [b2n] in *. lia.
Qed.

Lemma good_ack_ok s f g a :
  sender_inv s f -> paced g (unAckQueue s) -> good g a -> zlen (hist f) < 0x7fffffff ->
  ack_ok s (wrap a (_isn s)) a.
Proof.
  intros I P G Hl. pose proof (se_queue _ _ I) as Q. pose proof (ref_popped _ _ (se_stream _ _ I)) as Hp.
  pose proof (good_pos f g _ a Q P G) as Ha. pose proof (qi_base _ _ Q) as Hb.
  pose proof (qi_next _ _ Q) as Hn. rewrite (pc_syn _ _ P) in Hn. pose proof (b2n_range (_finSent (unAckQueue s))).
  cbn [b2n] in Hn. split; [lia|]. split; [done|]. split; [lia|]. intros Hlt. left.
  destruct (good_new f g _ a Q P G Hlt Hp) as [Hle [[-> _]|(_ & _ & [[Hf ->]|(l1 & l2 & E & ->)])]];
    (split; [done|]); [by left|by right; left|right; right; left].
  exists (length l1). by rewrite E, take_app_length.
Qed.

(** Every good acknowledgment, old or new: the base moves up to it. *)
Lemma ack_received_paced s f g a w s' :
  sender_inv s f -> pacing g s -> good g a -> zlen (hist f) < 0x7fffffff -> is_u16 w ->
  ack_received (wrap a (_isn s)) w s = Ok s' ->
  pacing g s' /\ _baseSqn (unAckQueue s') = Z.max a (_baseSqn (unAckQueue s)).
Proof.
  intros I [P F] G Hl Hw E. pose proof (se_queue _ _ I) as Q.
  pose proof (ref_popped _ _ (se_stream _ _ I)) as Hp. pose proof (good_pos f g _ a Q P G) as Ha.
  pose proof (good_ack_ok s f g a I P G Hl) as Hok. destruct Hok as (_ & _ & Hnear & _).
  destruct (ack_received_spec s f _ a w I (good_ack_ok s f g a I P G Hl) Hw) as (s2 & E2 & _ & Ho & Hi & _).
  rewrite E in E2. apply Ok_inj in E2 as <-.
  assert (HF : Forall (marked (_isn s') g) (_segments_out s')) by by rewrite Hi, Ho.
  clear Ho Hi. destruct (in_flight_eq _ _ I) as [_ Hnx]. pose proof (qi_base _ _ Q) as Hb. unfold LIMIT in *.
  revert E. unfold ack_received. change (_isn (setWindowSize w s)) with (_isn s).
  set (q0 := unAckQueue (setWindowSize w s)). change (_baseSqn q0) with (_baseSqn (unAckQueue s)).
  change (_finSent q0) with (_finSent (unAckQueue s)).
  change (UnAckQueue.ackForFinSqn q0) with (_next_seqno (unAckQueue s)).
  rewrite unwrap_eq, (proj2 (Z.ltb_ge a 0)), (proj2 (Z.ltb_ge (_next_seqno _) a)), (proj2 (Z.leb_gt a 0)) by lia.
  rewrite andb_false_r. cbn [orb].
  assert (Hold : a <= _baseSqn (unAckQueue s) -> pacing g (setWindowSize w s)).
  { intros Hle. split; [|exact F]. apply paced_window; [done|].
    destruct (_synAcked _) eqn:Hsa; [done|]. destruct (handshake_full g s f I P Hsa). lia. }
  destruct (Z.ltb_spec a (_baseSqn (unAckQueue s))) as [Hlt|Hge].
  { intros [= <-]. split; [apply Hold; lia|]. cbn. lia. }
  destruct (Z.ltb_spec (_baseSqn (unAckQueue s)) a) as [Hlt|Hle].
  2: { intros [= <-]. split; [apply Hold; lia|]. cbn. lia. }
  intros E. apply bind_Ok in E as (q' & E & E').
  assert (Hq : unAckQueue s' = q') by (destruct (_ || _); injection E' as <-; done). clear E'.
  rewrite Z.max_l by lia. unfold pacing. rewrite Hq. clear Hq.
  destruct (_synAcked (unAckQueue s)) eqn:Hsa.
  - pose proof (setWindowSize_inv s f w I Hw) as I0.
    destruct (updateBase_paced f g q0 a q' (se_queue _ _ I0) Hp) as [P' Hb']; try done; [unfold LIMIT; lia|by apply paced_window].
  - destruct (good_new f g _ a Q P G Hlt Hp) as [_ [[-> _]|[? _]]]; [|congruence].
    destruct (handshake_full g s f I P Hsa) as (_ & Hb0 & Hz & _).
    unfold UnAckQueue.updateBase in E. change (_baseSqn q0) with (_baseSqn (unAckQueue s)) in E.
    rewrite Hb0 in E. injection E as <-. split; [|done]. split; [|done].
    exact (paced_window _ _ (if 0 <? w then w else 1) (paced_synAck f g _ Q P Hsa Hz Hb0) eq_refl).
Qed.
