(* ===== verification/Progress.v ===== *)
(** * Progress: what keeps a sender going

    A sender that is heard sends every byte of its stream; one that is not has a running
    timer.  Lemmas on what [fill_window], [ack_received] and [tick] do to the timer and which
    bytes the segments they make carry, for [Liveness]. *)

From S2P Require Import Prelude WrappingIntegers ByteStream Buffer.
From S2P Require Import TCPHeader TCPSegment TCPConfig TCPReceiver TCPSender Pace.
Implicit Types (g : progress) (q : UnAckQueue) (s : TCPSender) (seg : TCPSegment) (t : Timer).

(** ** Which bytes segments carry *)

(** Byte [j] of the stream. *)
Definition carries (isn : WrappingInt32) seg (j : Z) : Prop :=
  syn (_header seg) = false /\
  exists i, seqno (_header seg) = wrap (i + 1) isn /\ 0 <= i <= j /\ j < i + zlen (str (_payload seg)) < 0x80000000.

(** Every byte from [lo] up to [hi]. *)
Definition spans (isn : WrappingInt32) (segs : list TCPSegment) (lo hi : Z) : Prop :=
  forall j, lo <= j < hi -> exists seg, seg ∈ segs /\ carries isn seg j.

Definition ends (segs : list TCPSegment) : Prop :=
  exists seg, seg ∈ segs /\ fin (_header seg) = true /\ syn (_header seg) = false.

(** What [segs] add to the queue of a sender that was [s] and is [s']. *)
Definition delivers (isn : WrappingInt32) (q q' : UnAckQueue) (segs : list TCPSegment) : Prop :=
  sent_bytes q <= sent_bytes q' /\ spans isn segs (sent_bytes q) (sent_bytes q') /\
  (_finSent q = true -> _finSent q' = true) /\ (_finSent q' = true -> _finSent q = true \/ ends segs).

Lemma spans_app isn l1 l2 lo mid hi : spans isn l1 lo mid -> spans isn l2 mid hi -> spans isn (l1 ++ l2) lo hi.
Proof.
  intros H1 H2 j Hj. destruct (Z.ltb_spec j mid).
  - destruct (H1 j) as (seg & ? & ?); [lia|]. exists seg. rewrite elem_of_app. by split; [left|].
  - destruct (H2 j) as (seg & ? & ?); [lia|]. exists seg. rewrite elem_of_app. by split; [right|].
Qed.

Lemma ends_app l1 l2 : ends l1 \/ ends l2 -> ends (l1 ++ l2).
Proof. intros [(seg & ? & ?)|(seg & ? & ?)]; exists seg; rewrite elem_of_app; tauto. Qed.

(** Segments sent again. *)
Lemma delivers_again isn q segs : delivers isn q q segs.
Proof. split; [lia|]. split; [intros j; lia|]. split; [done|by left]. Qed.

Lemma delivers_none isn q : delivers isn q q [].
Proof. apply delivers_again. Qed.

Lemma delivers_same isn q q' : sent_bytes q' = sent_bytes q -> _finSent q' = _finSent q -> delivers isn q q' [].
Proof. intros E1 E2. unfold delivers. rewrite E1, E2. apply delivers_none. Qed.

Lemma delivers_trans isn q q1 q2 l1 l2 :
  delivers isn q q1 l1 -> delivers isn q1 q2 l2 -> delivers isn q q2 (l1 ++ l2).
Proof.
  intros (H1 & S1 & F1 & E1) (H2 & S2 & F2 & E2). split; [lia|]. split; [by eapply spans_app|].
  split; [auto|]. intros H. destruct (E2 H) as [H'|H']; [destruct (E1 H') as [?|?]; [by left|]|]; right; apply ends_app; tauto.
Qed.

(** One round of the loop of [fill_window]. *)
Lemma fill_round_delivers s f :
  sender_inv s f -> _synSent (unAckQueue s) = true -> zlen (hist f) < 0x7fffffff ->
  0 < remainSpace s -> hasContentToPush s = true ->
  exists seg, _segments_out (fill_round s) = _segments_out s ++ [seg] /\
    delivers (_isn s) (unAckQueue s) (unAckQueue (fill_round s)) [seg].
Proof.
  intros I Hs Hl Hr Hc. pose proof I as [R Hb Q]. destruct (stream_facts _ _ R) as (Hbs & Hp & He).
  assert (Hf : _finSent (unAckQueue s) = false).
  { destruct (_finSent _) eqn:E; [|done]. destruct (qi_fin _ _ Q E) as [_ Hpop].
    unfold hasContentToPush in Hc. by rewrite Hbs, E, Hpop, Z.sub_diag, andb_false_r in Hc. }
  destruct (payload_n_range s f I) as (Hn & _ & Hle & _).
  pose proof (zlen_payload s f R) as Hlen. pose proof (sent_popped f _ Q Hs) as Hsent.
  unfold fill_round. rewrite (makePayLoadSeg_eq s f I Hf). set (seg := mkTCPSegment _ _). cbv beta iota.
  exists seg. match goal with |- context [firstPush seg ?t] => destruct (firstPush_frame seg t) as (-> & _) end.
  rewrite firstPush_out. split; [done|].
  assert (Hseg : zlen (str (_payload seg)) = payload_n s f) by (unfold seg; cbn [_payload]; by rewrite str_of_string).
  unfold delivers. cbn [unAckQueue upd eta eta_TCPSender]. set (q' := UnAckQueue.push _ _).
  assert (Hs' : sent_bytes q' = sent_bytes (unAckQueue s) + payload_n s f).
  { unfold q', sent_bytes. cbn. rewrite Hf. cbn [b2n]. lia. }
  rewrite Hs'. split; [lia|]. split; [|split; [by rewrite Hf|]].
  - intros j Hj. exists seg. split; [by left|]. split; [done|]. exists (sent_bytes (unAckQueue s)).
    rewrite Hseg. split; [|lia]. unfold seg, sent_bytes. cbn. rewrite Hf. cbn [b2n]. f_equal. lia.
  - intros H. right. exists seg. split; [by left|]. split; [exact H|done].
Qed.

Lemma fill_loop_delivers fuel : forall s f,
  sender_inv s f -> _synSent (unAckQueue s) = true -> _synAcked (unAckQueue s) = true -> zlen (hist f) < 0x7fffffff ->
  exists segs, _segments_out (fill_loop fuel s) = _segments_out s ++ segs /\
    delivers (_isn s) (unAckQueue s) (unAckQueue (fill_loop fuel s)) segs.
Proof.
  induction fuel as [|fuel IH]; intros s f I Hs Ha Hl.
  { exists []. rewrite app_nil_r. split; [done|apply delivers_none]. }
  rewrite fill_loop_S. destruct ((0 <? remainSpace s) && hasContentToPush s) eqn:E.
  2: { exists []. rewrite app_nil_r. split; [done|apply delivers_none]. }
  apply andb_true_iff in E as [Er%Z.ltb_lt Ec].
  destruct (fill_round_sends s f I Hs Ha Er Ec) as (f1 & seg1 & S1 & _).
  destruct (fill_round_delivers s f I Hs Hl Er Ec) as (seg & O1 & D1).
  destruct S1 as (I1 & (Hh & _) & _ & _ & (Hi & _ & _ & Ha1 & _) & Hs1 & _).
  destruct (IH _ _ I1 (Hs1 Hs) ltac:(congruence) ltac:(by rewrite Hh)) as (segs & O2 & D2).
  exists ([seg] ++ segs). rewrite O2, O1, app_assoc. split; [done|]. rewrite Hi in D2. by eapply delivers_trans.
Qed.

Lemma first_fin_delivers s f :
  sender_inv s f -> _finSent (unAckQueue s) = false ->
  let '(seg, s1) := makeFirstFinSeg s in
  delivers (_isn s) (unAckQueue s) (unAckQueue (firstPush seg s1)) [seg].
Proof.
  intros I Hf. destruct (in_flight_eq _ _ I) as [_ Hnx]. unfold LIMIT in Hnx. unfold makeFirstFinSeg.
  match goal with |- context [firstPush ?seg ?t] => destruct (firstPush_frame seg t) as (-> & _) end.
  unfold delivers, sent_bytes, bump. cbn. rewrite u64_id, Hf by lia. cbn [b2n].
  split; [lia|]. split; [intros j; lia|]. split; [done|]. intros _. right. eexists. by split; [left|].
Qed.

Lemma fill_window_delivers s f :
  sender_inv s f -> _synSent (unAckQueue s) = true -> _synAcked (unAckQueue s) = true -> zlen (hist f) < 0x7fffffff ->
  exists segs, _segments_out (fill_window s) = _segments_out s ++ segs /\
    delivers (_isn s) (unAckQueue s) (unAckQueue (fill_window s)) segs.
Proof.
  intros I Hs Ha Hl. unfold fill_window.
  destruct (_ || _) eqn:E0.
  { exists []. rewrite app_nil_r. split; [done|apply delivers_none]. }
  assert (Hf : _finSent (unAckQueue s) = false).
  { destruct (_finSent _), (_finAcked _); cbn in E0; congruence. }
  rewrite Hs, Hf. cbn [negb andb].
  set (s1 := if eof (_stream s) && (1 <? remainSpace s)
             then let '(seg, s) := makeFirstFinSeg s in firstPush seg s else s).
  assert (H1 : exists segs, sends s f s1 f segs /\ delivers (_isn s) (unAckQueue s) (unAckQueue s1) segs).
  { unfold s1. destruct (eof (_stream s)) eqn:He, (1 <? remainSpace s) eqn:Hr; cbn [andb];
      try (exists []; split; [by apply sends_none|apply delivers_none]).
    destruct (makes_first_fin s f I Hs Hf He) as (seg & s2 & E & M); [lia|].
    pose proof (first_fin_delivers s f I Hf) as D. rewrite E in D |- *. exists [seg].
    split; [by apply makes_sends|exact D]. }
  destruct H1 as (segs1 & (I1 & _ & O1 & _ & (Hi & _ & _ & Ha1 & _) & Y1 & _) & D1).
  rewrite (Y1 Hs), Ha1, Ha. cbn [andb negb].
  destruct (fill_loop_delivers (fill_fuel s1) s1 f I1 (Y1 Hs) ltac:(congruence) Hl) as (segs2 & O2 & D2).
  exists (segs1 ++ segs2). rewrite O2, O1, app_assoc. split; [done|]. rewrite Hi in D2. by eapply delivers_trans.
Qed.

(** ** The timer *)

Definition same_clock t t' : Prop := t' = t <| _doubleTimeout := _doubleTimeout t' |>.
Definition fresh t : Prop :=
  _timeout t = _initial_retransmission_timeout t /\ _msSinceBaseSegSent t = 0 /\ _consecutive_retransmissions t = 0.

Record clock_ok t : Prop := mk_clock_ok {
  ck_initial : is_u32 (_initial_retransmission_timeout t);
  ck_timeout : is_u32 (_timeout t);
  ck_ms : 0 <= _msSinceBaseSegSent t <= _timeout t;
  ck_count : 0 <= _consecutive_retransmissions t }.

Lemma clock_ok_same t t' : same_clock t t' -> clock_ok t -> clock_ok t'.
Proof. intros -> []. by split. Qed.

Lemma clock_ok_fresh t : is_u32 (_initial_retransmission_timeout t) -> fresh t -> clock_ok t.
Proof. intros Hi (Ht & Hm & Hc). split; lia. Qed.

Lemma same_clock_refl t : same_clock t t.
Proof. by destruct t. Qed.
Lemma same_clock_trans t1 t2 t3 : same_clock t1 t2 -> same_clock t2 t3 -> same_clock t1 t3.
Proof. unfold same_clock. intros -> ->. done. Qed.

(** From [s] to [s'] without a timeout: the timer runs on, or starts anew when the base has moved. *)
Record moved s s' : Prop := mk_moved {
  mv_base : _baseSqn (unAckQueue s) <= _baseSqn (unAckQueue s');
  mv_initial : _initial_retransmission_timeout (timer s') = _initial_retransmission_timeout (timer s);
  mv_fresh : _baseSqn (unAckQueue s) < _baseSqn (unAckQueue s') -> fresh (timer s');
  mv_still : fresh (timer s) -> fresh (timer s');
  mv_same : _baseSqn (unAckQueue s') = _baseSqn (unAckQueue s) -> _isTimerRunning (timer s) = true ->
    same_clock (timer s) (timer s');
  mv_clock : clock_ok (timer s) -> clock_ok (timer s');
  mv_count : _consecutive_retransmissions (timer s') = _consecutive_retransmissions (timer s) \/
    _consecutive_retransmissions (timer s') = 0 }.

Lemma moved_refl s : moved s s.
Proof. split; try done; try lia. intros _ _. apply same_clock_refl. Qed.

Lemma moved_trans s1 s2 s3 : moved s1 s2 -> moved s2 s3 -> moved s1 s3.
Proof.
  intros [b1 i1 f1 n1 c1 k1 r1] [b2 i2 f2 n2 c2 k2 r2]. split; try lia; try congruence; try tauto.
  - intros H. destruct (Z.eq_dec (_baseSqn (unAckQueue s2)) (_baseSqn (unAckQueue s3))); [|apply f2; lia].
    apply n2, f1. lia.
  - intros Hb Hr. assert (E : _baseSqn (unAckQueue s2) = _baseSqn (unAckQueue s1)) by lia. specialize (c1 E Hr).
    eapply same_clock_trans; [exact c1|]. apply c2; [lia|]. rewrite c1. exact Hr.
Qed.

Lemma moved_few s s' k :
  moved s s' -> 0 <= k -> _consecutive_retransmissions (timer s) <= k -> _consecutive_retransmissions (timer s') <= k.
Proof. intros M ? ?. destruct (mv_count _ _ M); lia. Qed.

(** The timer is the same for both. *)
Lemma moved_core s s' : timer s' = timer s -> unAckQueue s' = unAckQueue s -> moved s s'.
Proof. intros E1 E2. destruct (moved_refl s). split; rewrite ?E1, ?E2; done. Qed.

(** The timer runs while bytes are in flight; FIN is not considered. *)
Definition guarded s : Prop :=
  _finSent (unAckQueue s) = false -> _baseSqn (unAckQueue s) < _next_seqno (unAckQueue s) ->
  _isTimerRunning (timer s) = true.

Definition started t : Timer := if _isTimerRunning t then t else Timer.startTimer t.

(** What pushes do. *)
Definition pushed s s' : Prop :=
  _baseSqn (unAckQueue s') = _baseSqn (unAckQueue s) /\ (_finSent (unAckQueue s) = true -> _finSent (unAckQueue s') = true) /\
  (timer s' = timer s /\ _next_seqno (unAckQueue s') = _next_seqno (unAckQueue s) \/ timer s' = started (timer s)).

Lemma started_running t : _isTimerRunning (started t) = true.
Proof. unfold started. destruct (_isTimerRunning t) eqn:E; [exact E|done]. Qed.
Lemma started_idem t : started (started t) = started t.
Proof. unfold started at 1. by rewrite started_running. Qed.

Lemma pushed_refl s : pushed s s.
Proof. split; [done|]. split; [done|]. by left. Qed.
Lemma pushed_trans s1 s2 s3 : pushed s1 s2 -> pushed s2 s3 -> pushed s1 s3.
Proof.
  intros (b1 & f1 & t1) (b2 & f2 & t2). split; [congruence|]. split; [auto|].
  destruct t1 as [[t1 n1]|t1], t2 as [[t2 n2]|t2]; rewrite t1 in t2; rewrite ?started_idem in t2; rewrite ?t2.
  - left. split; congruence.
  - by right.
  - by right.
  - by right.
Qed.

Lemma firstPush_pushed seg s s1 :
  timer s1 = timer s -> _baseSqn (unAckQueue s1) = _baseSqn (unAckQueue s) ->
  (_finSent (unAckQueue s) = true -> _finSent (unAckQueue s1) = true) -> pushed s (firstPush seg s1).
Proof.
  intros Et Eb Ef. destruct (firstPush_frame seg s1) as (Eq & _). split; [by rewrite Eq|]. split; [by rewrite Eq|]. right.
  unfold firstPush, started. rewrite <- Et. cbn. by destruct (_isTimerRunning (timer s1)).
Qed.

Lemma fill_loop_pushed fuel : forall s, pushed s (fill_loop fuel s).
Proof.
  induction fuel as [|fuel IH]; intros s; [apply pushed_refl|]. rewrite fill_loop_S.
  destruct (_ && _); [|apply pushed_refl]. eapply pushed_trans; [|apply IH].
  unfold fill_round, makePayLoadSeg. destruct (read _ _) as [p st].
  destruct (_ && _); by apply firstPush_pushed.
Qed.

Lemma fill_window_pushed s : pushed s (fill_window s).
Proof.
  unfold fill_window. destruct (_ || _); [apply pushed_refl|]. destruct (negb (_synSent _)) eqn:Es.
  - unfold makeSynSeg. rewrite Es. destruct (_ && _); by apply firstPush_pushed.
  - set (s1 := if _ && _ then _ else s).
    assert (H1 : pushed s s1).
    { unfold s1. destruct (_ && _); [|apply pushed_refl]. unfold makeFirstFinSeg. by apply firstPush_pushed. }
    clearbody s1. destruct (_ && _); [exact H1|]. eapply pushed_trans; [exact H1|apply fill_loop_pushed].
Qed.

Lemma pushed_moved s s' : pushed s s' -> moved s s' /\ (guarded s -> guarded s').
Proof.
  intros (b & f & t). split.
  - assert (E : _initial_retransmission_timeout (timer s') = _initial_retransmission_timeout (timer s) /\
      (_isTimerRunning (timer s) = true -> timer s' = timer s) /\ (timer s' = timer s \/ fresh (timer s'))).
    { destruct t as [[-> _]| ->]; [by split_and!; [..|left]|]. unfold started.
      destruct (_isTimerRunning (timer s)); [by split_and!; [..|left]|]. by split_and!; [..|right]. }
    destruct E as (Ei & Er & Ef). split; try done; try lia.
    + intros H. destruct Ef as [->|?]; done.
    + intros _ Hr. rewrite Er by done. apply same_clock_refl.
    + intros K. destruct Ef as [->|F]; [done|]. apply clock_ok_fresh; [rewrite Ei; apply K|done].
    + destruct Ef as [->|(_ & _ & F)]; [by left|by right].
  - intros G Hf Hb. destruct t as [[-> n]| ->]; [|apply started_running].
    apply G; [|congruence]. destruct (_finSent (unAckQueue s)); [by rewrite f in Hf|done].
Qed.

Lemma fill_window_moved s : moved s (fill_window s) /\ (guarded s -> guarded (fill_window s)).
Proof. apply pushed_moved, fill_window_pushed. Qed.

Lemma b2n_inj (b b' : bool) : b2n b = b2n b' -> b = b'.
Proof. by destruct b, b'. Qed.

(** The cases of [ack_received] on an acknowledgment of [a]. *)
Lemma ack_received_timer s a w s' :
  0 < a -> -0x80000000 <= _baseSqn (unAckQueue s) - a < 0x80000000 -> 0 <= _baseSqn (unAckQueue s) < LIMIT ->
  a <= _next_seqno (unAckQueue s) -> ack_received (wrap a (_isn s)) w s = Ok s' ->
  (a <= _baseSqn (unAckQueue s) -> s' = setWindowSize w s) /\
  (_baseSqn (unAckQueue s) < a -> fresh (timer s') /\
    _initial_retransmission_timeout (timer s') = _initial_retransmission_timeout (timer s) /\
    (_unAcked (unAckQueue s') <> [] \/ _finSent (unAckQueue s') = true /\ _finAcked (unAckQueue s') = false ->
     _isTimerRunning (timer s') = true)).
Proof.
  intros Ha Hnear Hb Hn. unfold ack_received, UnAckQueue.ackForFinSqn.
  change (_isn (setWindowSize w s)) with (_isn s).
  change (_baseSqn (unAckQueue (setWindowSize w s))) with (_baseSqn (unAckQueue s)).
  change (_finSent (unAckQueue (setWindowSize w s))) with (_finSent (unAckQueue s)).
  change (_next_seqno (unAckQueue (setWindowSize w s))) with (_next_seqno (unAckQueue s)).
  unfold LIMIT in *. rewrite unwrap_eq, (proj2 (Z.ltb_ge a 0)), (proj2 (Z.ltb_ge (_next_seqno _) a)), (proj2 (Z.leb_gt a 0)) by lia.
  rewrite andb_false_r. cbn [orb]. destruct (Z.ltb_spec a (_baseSqn (unAckQueue s))).
  { intros [= <-]. split; [done|lia]. }
  destruct (Z.ltb_spec (_baseSqn (unAckQueue s)) a).
  2: { intros [= <-]. split; [done|lia]. }
  intros E. split; [lia|]. intros _. apply bind_Ok in E as (q' & _ & E).
  destruct (negb (UnAckQueue.empty q')) eqn:Ee; cbn [orb] in E.
  - apply Ok_inj in E as <-. by split_and!.
  - assert (Hq : unAckQueue s' = q') by (destruct (_ && _); injection E as <-; done).
    assert (Hu : _unAcked q' = []).
    { unfold UnAckQueue.empty in Ee. apply negb_false_iff, bool_decide_eq_true in Ee. done. }
    rewrite Hq, Hu. destruct (_finSent q' && negb (_finAcked q')) eqn:Ef; apply Ok_inj in E as <-; split_and!; try done.
    intros [?|[Hf1 Hf2]]; [done|]. by rewrite Hf1, Hf2 in Ef.
Qed.

(** A good acknowledgment. *)
Lemma ack_received_moved s f g a w s' :
  sender_inv s f -> pacing g s -> good g a -> zlen (hist f) < 0x7fffffff -> is_u16 w ->
  ack_received (wrap a (_isn s)) w s = Ok s' ->
  moved s s' /\ (guarded s -> guarded s') /\ _finSent (unAckQueue s') = _finSent (unAckQueue s) /\
  sent_bytes (unAckQueue s') = sent_bytes (unAckQueue s) /\
  _synAcked (unAckQueue s') = true /\ _baseSqn (unAckQueue s') = Z.max a (_baseSqn (unAckQueue s)) /\
  sender_inv s' f /\ pacing g s'.
Proof.
  intros I P G Hl Hw E. pose proof (good_ack_ok s f g a I (proj1 P) G Hl) as Hok.
  destruct (ack_received_paced s f g a w s' I P G Hl Hw E) as [P' Hb'].
  destruct (ack_received_spec s f _ a w I Hok Hw) as (s2 & E2 & I' & _ & _ & _ & Hn & _).
  rewrite E in E2. apply Ok_inj in E2 as <-.
  pose proof (se_queue _ _ I) as Q. pose proof (se_queue _ _ I') as Q'.
  pose proof (good_pos f g _ a Q (proj1 P) G) as Ha. destruct Hok as (_ & _ & Hnear & _).
  destruct (in_flight_eq _ _ I) as [_ Hnx]. pose proof (qi_base _ _ Q) as Hbr.
  pose proof (qi_next _ _ Q) as Hq. pose proof (qi_next _ _ Q') as Hq'.
  pose proof (pc_syn _ _ (proj1 P)) as Hs. pose proof (pc_syn _ _ (proj1 P')) as Hs'. rewrite Hs in Hq. rewrite Hs' in Hq'.
  assert (Hf : _finSent (unAckQueue s') = _finSent (unAckQueue s)) by (apply b2n_inj; lia).
  assert (Hbl : _baseSqn (unAckQueue s) < LIMIT).
  { pose proof (ref_popped _ _ (se_stream _ _ I)). pose proof (b2n_range (_finSent (unAckQueue s))).
    unfold LIMIT in *. cbn [b2n] in *. lia. }
  destruct (ack_received_timer s a w s' ltac:(lia) Hnear ltac:(lia) ltac:(lia) E) as [Hold Hnew].
  assert (Hsa : _synAcked (unAckQueue s') = true).
  { destruct (_synAcked _) eqn:Esa; [done|]. destruct (handshake_full g s' f I' (proj1 P') Esa). lia. }
  destruct (Z.leb_spec a (_baseSqn (unAckQueue s))) as [Hle|Hlt].
  - assert (s' = setWindowSize w s) as -> by by apply Hold. split_and!; try done; try (by apply P').
    split; try done; try (cbn; lia). intros K. by eapply clock_ok_same; [|exact K].
  - destruct (Hnew Hlt) as (Hfr & Hi & Hrun). split_and!; try done; try (by apply P').
    + split; try done; try lia; [|right; apply Hfr]. intros K. apply clock_ok_fresh; [rewrite Hi; apply K|done].
    + intros _ Hf0 Hlt'. apply Hrun. left. intros Hu.
      destruct (qi_data _ _ Q' Hsa) as [_ Hd]. destruct Hd as [Hd1 Hd2].
      { destruct (_finAcked (unAckQueue s')) eqn:Efa; [|done]. destruct (qi_finAcked _ _ Q' Efa). congruence. }
      rewrite Hf0 in Hq'. cbn [b2n] in Hq'. rewrite Hu in Hd2. apply (f_equal (fun l => zlen l)) in Hd2.
      pose proof (ref_popped _ _ (se_stream _ _ I')). unfold taken in Hd2.
      rewrite zlen_zdrop, zlen_ztake in Hd2 by lia. cbn in Hd2. lia.
    + unfold sent_bytes. by rewrite Hn, Hf.
Qed.

(** The same for FIN: it stays acknowledged, and the timer runs until it is. *)
Lemma ack_received_guard s f g a w s' :
  sender_inv s f -> pacing g s -> good g a -> zlen (hist f) < 0x7fffffff -> is_u16 w ->
  ack_received (wrap a (_isn s)) w s = Ok s' ->
  (_finAcked (unAckQueue s) = true \/ a <= _baseSqn (unAckQueue s) ->
    _finAcked (unAckQueue s') = _finAcked (unAckQueue s)) /\
  ((_finAcked (unAckQueue s) = false -> _isTimerRunning (timer s) = true) ->
    _finSent (unAckQueue s') = true -> _finAcked (unAckQueue s') = false -> _isTimerRunning (timer s') = true).
Proof.
  intros I P G Hl Hw E. destruct (good_ack_ok s f g a I (proj1 P) G Hl) as (_ & _ & Hnear & _).
  pose proof (good_pos f g _ a (se_queue _ _ I) (proj1 P) G) as Ha.
  destruct (in_flight_eq _ _ I) as [_ Hnx]. pose proof (qi_base _ _ (se_queue _ _ I)) as Hbr.
  pose proof (qi_next _ _ (se_queue _ _ I)) as Hq. rewrite (pc_syn _ _ (proj1 P)) in Hq.
  pose proof (ref_popped _ _ (se_stream _ _ I)). pose proof (b2n_range (_finSent (unAckQueue s))).
  unfold LIMIT in *. cbn [b2n] in *.
  destruct (ack_received_timer s a w s' ltac:(lia) Hnear ltac:(unfold LIMIT; lia) ltac:(lia) E) as [Hold Hnew].
  assert (Hle : _finAcked (unAckQueue s) = true -> a <= _baseSqn (unAckQueue s)).
  { intros Hfa. pose proof (pc_done _ _ (proj1 P) Hfa). lia. }
  split; [intros H1; rewrite Hold by tauto; done|]. intros Hrun Hf Hfa.
  destruct (Z.leb_spec a (_baseSqn (unAckQueue s))) as [H1|H1].
  - specialize (Hold H1). subst s'. by apply Hrun.
  - apply (Hnew H1). by right.
Qed.

(** ** The clock *)

Lemma tick_queue s f g n s' :
  sender_inv s f -> pacing g s -> tick n s = Ok s' -> unAckQueue s' = unAckQueue s /\ _stream s' = _stream s.
Proof.
  intros I P. unfold tick. destruct (_isTimerRunning _); [|by intros [= <-]].
  set (s0 := s <| timer := _ |>).
  assert (I0 : sender_inv s0 f) by (destruct I; by split). assert (P0 : pacing g s0) by exact P.
  change (unAckQueue s) with (unAckQueue s0). change (_stream s) with (_stream s0). clearbody s0.
  destruct (_ <=? _); [|by intros [= <-]]. unfold timeoutRetransmit.
  destruct (_finAcked _); [by intros [= <-]|]. intros E. apply bind_Ok in E as ([seg s1] & E & [= <-]).
  by destruct (retransmitSeg_pacing g s0 f seg s1 I0 P0 E) as [-> _].
Qed.

(** An acknowledgment does not change what comes next. *)
Lemma ack_received_next a w s s' : ack_received a w s = Ok s' -> next_seqno s' = next_seqno s.
Proof.
  unfold ack_received. set (s0 := setWindowSize w s). assert (E0 : next_seqno s0 = next_seqno s) by done. rewrite <- E0.
  clearbody s0. destruct (_ || _); [by intros [= <-]|]. destruct (_ <? _); [|by intros [= <-]].
  intros E. apply bind_Ok in E as (q & Eq & E).
  assert (Hn : _next_seqno q = _next_seqno (unAckQueue s0)).
  { revert Eq. unfold UnAckQueue.updateBase, UnAckQueue.erase. set (a0 := unwrap _ _ _). clearbody a0.
    repeat match goal with
    | |- (if ?b then _ else _) = Ok _ -> _ => destruct b
    | |- context [UnAckQueue.erase_loop ?x ?y ?z ?b ?e] => destruct (UnAckQueue.erase_loop x y z b e) as [[??]?]
    end; intros [= <-]; done. }
  unfold next_seqno. destruct (_ || _); injection E as <-; cbn; by rewrite Hn.
Qed.

(** Once SYN is acknowledged it is not sent again. *)
Lemma retransmitSeg_syn s seg s1 :
  _synAcked (unAckQueue s) = true -> retransmitSeg s = Ok (seg, s1) ->
  syn (_header seg) = false /\ _segments_out s1 = _segments_out s.
Proof.
  intros Ha. unfold retransmitSeg. rewrite Ha, andb_false_r.
  assert (Hf : (seg ← UnAckQueue.frontSeg (_isn s) (unAckQueue s); Ok (seg, s)) = Ok (seg, s1) ->
    syn (_header seg) = false /\ _segments_out s1 = _segments_out s).
  { intros E. apply bind_Ok in E as (seg' & E & [= -> ->]). split; [|done]. revert E.
    unfold UnAckQueue.frontSeg. destruct (_unAckedPayloadSize _); [done|]. destruct (_ <? _); [done|].
    intros [= <-]. by destruct (_ && _). }
  destruct (_ && _); [destruct (UnAckQueue.empty _); [|exact Hf]|destruct (negb _); [exact Hf|]]; by intros [= <- <-].
Qed.

Lemma tick_syn n s s' :
  _synAcked (unAckQueue s) = true -> tick n s = Ok s' -> _segments_out s = [] ->
  Forall (fun seg => syn (_header seg) = false) (_segments_out s').
Proof.
  intros Ha E Ho. revert E. unfold tick. destruct (_isTimerRunning _); [|by intros [= <-]; rewrite Ho].
  destruct (_ <=? _); [|by intros [= <-]; cbn; rewrite Ho]. unfold timeoutRetransmit.
  destruct (_finAcked _); [by intros [= <-]; cbn; rewrite Ho|]. intros E. apply bind_Ok in E as ([seg s1] & E & [= <-]).
  apply retransmitSeg_syn in E as [Hs Ho1]; [|done]. cbn in *. rewrite Ho1, Ho. by apply Forall_singleton.
Qed.

Lemma fill_loop_syn fuel : forall s, Forall (fun seg => syn (_header seg) = false) (_segments_out s) ->
  Forall (fun seg => syn (_header seg) = false) (_segments_out (fill_loop fuel s)).
Proof.
  induction fuel as [|fuel IH]; intros s F; [done|]. rewrite fill_loop_S. destruct (_ && _); [|done].
  apply IH. unfold fill_round, makePayLoadSeg. destruct (read _ _) as [p st].
  destruct (_ && _); rewrite firstPush_out; apply Forall_app; by split; [|apply Forall_singleton].
Qed.

Lemma fill_window_syn s : _synSent (unAckQueue s) = true ->
  Forall (fun seg => syn (_header seg) = false) (_segments_out s) ->
  Forall (fun seg => syn (_header seg) = false) (_segments_out (fill_window s)).
Proof.
  intros Hs F. unfold fill_window. destruct (_ || _); [done|]. rewrite Hs. cbn [negb].
  set (s1 := if _ && _ then _ else s).
  assert (F1 : Forall (fun seg => syn (_header seg) = false) (_segments_out s1)).
  { unfold s1. destruct (_ && _); [|done]. unfold makeFirstFinSeg. rewrite firstPush_out.
    apply Forall_app. by split; [|apply Forall_singleton]. }
  clearbody s1. destruct (_ && _); [done|by apply fill_loop_syn].
Qed.

(** Bytes in flight are in the queue. *)
Lemma in_flight_unacked s f :
  sender_inv s f -> _synSent (unAckQueue s) = true -> _synAcked (unAckQueue s) = true ->
  _finSent (unAckQueue s) = false -> _baseSqn (unAckQueue s) < _next_seqno (unAckQueue s) ->
  _unAcked (unAckQueue s) <> [].
Proof.
  intros I Hs Ha Hf Hlt Hu. pose proof (se_queue _ _ I) as Q. pose proof (qi_next _ _ Q) as Hn.
  rewrite Hs, Hf in Hn. cbn [b2n] in Hn. destruct (qi_data _ _ Q Ha) as [Hb1 Hd]. destruct Hd as [Hd1 Hd2].
  { destruct (_finAcked (unAckQueue s)) eqn:Efa; [|done]. destruct (qi_finAcked _ _ Q Efa). congruence. }
  rewrite Hu in Hd2. apply (f_equal (fun l => zlen l)) in Hd2.
  pose proof (ref_popped _ _ (se_stream _ _ I)). unfold taken in Hd2.
  rewrite zlen_zdrop, zlen_ztake in Hd2 by lia. cbn in Hd2. lia.
Qed.

(** The time left on a running timer. *)
Definition time_left s : Z := _timeout (timer s) - _msSinceBaseSegSent (timer s).

(** A tick of less than 2^32 ms: it sends something of the stream again, or the timer comes
    closer. *)
Lemma tick_clock s f g n s' :
  sender_inv s f -> pacing g s -> is_u32 n -> clock_ok (timer s) ->
  _consecutive_retransmissions (timer s) < 0xffffffff -> tick n s = Ok s' ->
  (unAckQueue s' = unAckQueue s /\ _stream s' = _stream s) /\
  (_finAcked (unAckQueue s) = false -> clock_ok (timer s')) /\
  _isTimerRunning (timer s') = _isTimerRunning (timer s) /\
  (_finAcked (unAckQueue s) = false -> _isTimerRunning (timer s) = true ->
   _consecutive_retransmissions (timer s') = _consecutive_retransmissions (timer s) + 1 \/
   _consecutive_retransmissions (timer s') = _consecutive_retransmissions (timer s) /\
   0 < time_left s' /\ time_left s' = time_left s - n) /\
  exists segs, _segments_out s' = _segments_out s ++ segs /\
    _consecutive_retransmissions (timer s') <=
      _consecutive_retransmissions (timer s) + (if _finAcked (unAckQueue s) then 0 else 1) /\
    (_synAcked (unAckQueue s) = true -> _finSent (unAckQueue s) = false ->
     _baseSqn (unAckQueue s) < _next_seqno (unAckQueue s) -> _isTimerRunning (timer s) = true ->
     (exists seg, segs = [seg] /\ 0 < zlen (str (_payload seg)) <= MAX_PAYLOAD_SIZE) \/
     _consecutive_retransmissions (timer s') = _consecutive_retransmissions (timer s) /\
     0 < time_left s' /\ time_left s' = time_left s - n).
Proof.
  intros I P Hn0 [K1 K2 K3 K4] Hcnt E. destruct (tick_spec n s f I) as (s2 & segs & E2 & S1 & Hlen & Ht & Hold).
  rewrite E in E2. apply Ok_inj in E2 as <-. split; [by eapply tick_queue|]. destruct S1 as (_ & _ & Ho & _).
  assert (Hel : elapsed n s = _msSinceBaseSegSent (timer s) + n) by (unfold elapsed; apply u64_id; lia).
  unfold expires in *. rewrite Hel in *. unfold time_left. rewrite Ht. clear Ht.
  destruct (_isTimerRunning (timer s)) eqn:Er; cbn [negb andb].
  2: { split; [done|]. split; [done|]. split; [done|]. exists segs. split; [done|]. split; [|done].
       destruct (_finAcked _); lia. }
  destruct (Z.leb_spec (_timeout (timer s)) (_msSinceBaseSegSent (timer s) + n)) as [Hle|Hgt]; cbn [andb].
  - destruct (_finAcked (unAckQueue s)) eqn:Efa; cbn [negb].
    + split; [done|]. split; [done|]. split; [done|]. exists segs. split; [done|]. cbn. split; [lia|]. intros Ha Hf.
      destruct (qi_finAcked _ _ (se_queue _ _ I) Efa). congruence.
    + pose proof (u32_range (_timeout (timer s) * 2)). split; [|split; [done|split; [intros _ _; left; cbn; apply u32_id; lia|]]].
      { intros _. split; cbn; [done|by destruct (_doubleTimeout _)|destruct (_doubleTimeout _); lia|]. apply u32_range. }
      exists segs. split; [done|]. cbn. rewrite u32_id by lia. split; [lia|].
      intros Ha Hf Hlt _. left.
      destruct (Hold eq_refl (in_flight_unacked s f I (pc_syn _ _ (proj1 P)) Ha Hf Hlt)) as (seg & k & -> & Hk & Hk2 & Hp & _).
      exists seg. split; [done|]. rewrite Hp, zlen_ztake; lia.
  - split; [intros _; split; cbn; lia|]. split; [done|]. split; [intros _ _; right; cbn; lia|]. exists segs. split; [done|]. cbn. split; [destruct (_finAcked _); lia|].
    intros _ _ _ _. right. lia.
Qed.

(** Once FIN is acknowledged a tick sends nothing. *)
Lemma acked_tick s f g n :
  sender_inv s f -> pacing g s -> _segments_out s = [] -> _finAcked (unAckQueue s) = true ->
  exists s', tick n s = Ok s' /\ _segments_out s' = [] /\ unAckQueue s' = unAckQueue s /\
    _consecutive_retransmissions (timer s') = _consecutive_retransmissions (timer s).
Proof.
  intros I P Hq Hfa. destruct (tick_spec n s f I) as (s' & segs & Es & (Is & _ & Ho & _) & Hlen & Ht & _).
  destruct (tick_queue _ f g n s' I P Es) as [Hqq _].
  rewrite Hfa, andb_false_r in Hlen, Ht. apply length_zero_iff_nil in Hlen as ->. rewrite Hq in Ho.
  exists s'. split_and!; try done. rewrite Ht. by destruct (negb _).
Qed.
