(* ===== verification/TCPState.v ===== *)
(** * TCPState: the official state names (tcp_helpers/tcp_state.hh, tcp_helpers/tcp_state.cc) *)

From Stdlib Require Import Strings.String.
From S2P Require Import Prelude ByteStream TCPReceiver TCPSender.

Module TCPReceiverStateSummary.
Definition ERROR : string := "error (connection was reset)"%string.
Definition LISTEN : string := "waiting for SYN: ackno is empty"%string.
Definition SYN_RECV : string :=
  "SYN received (ackno exists), and input to stream hasn't ended"%string.
Definition FIN_RECV : string := "input to stream has ended"%string.
End TCPReceiverStateSummary.

Module TCPSenderStateSummary.
Definition ERROR : string := "error (connection was reset)"%string.
Definition CLOSED : string := "waiting for stream to begin (no SYN sent)"%string.
Definition SYN_SENT : string := "stream started but nothing acknowledged"%string.
Definition SYN_ACKED : string := "stream ongoing"%string.
Definition FIN_SENT : string := "stream finished (FIN sent) but not fully acknowledged"%string.
Definition FIN_ACKED : string := "stream finished and fully acknowledged"%string.
End TCPSenderStateSummary.

Record TCPState := mkTCPState {
  _sender : string;
  _receiver : string;
  _active : bool;
  _linger_after_streams_finish : bool }.

Inductive State : Set :=
| LISTEN | SYN_RCVD | SYN_SENT | ESTABLISHED | CLOSE_WAIT | LAST_ACK
| FIN_WAIT_1 | FIN_WAIT_2 | CLOSING | TIME_WAIT | CLOSED | RESET.

(** [operator==] and [operator!=]. *)
Definition eqb (this other : TCPState) : bool :=
  Bool.eqb (_active this) (_active other) &&
  Bool.eqb (_linger_after_streams_finish this) (_linger_after_streams_finish other) &&
  String.eqb (_sender this) (_sender other) && String.eqb (_receiver this) (_receiver other).
Definition neqb (this other : TCPState) : bool := negb (eqb this other).

Definition to_string (b : bool) : string := if b then "1"%string else "0"%string.

Definition name (this : TCPState) : string :=
  ("sender=`" ++ _sender this ++ "`, receiver=`" ++ _receiver this ++ "`, active=" ++
   to_string (_active this) ++ ", linger_after_streams_finish=" ++
   to_string (_linger_after_streams_finish this))%string.

(** [TCPState(state)]. *)
Definition of_state (state : State) : TCPState :=
  match state with
  | LISTEN => mkTCPState TCPSenderStateSummary.CLOSED TCPReceiverStateSummary.LISTEN true true
  | SYN_RCVD => mkTCPState TCPSenderStateSummary.SYN_SENT TCPReceiverStateSummary.SYN_RECV true true
  | SYN_SENT => mkTCPState TCPSenderStateSummary.SYN_SENT TCPReceiverStateSummary.LISTEN true true
  | ESTABLISHED =>
    mkTCPState TCPSenderStateSummary.SYN_ACKED TCPReceiverStateSummary.SYN_RECV true true
  | CLOSE_WAIT =>
    mkTCPState TCPSenderStateSummary.SYN_ACKED TCPReceiverStateSummary.FIN_RECV true false
  | LAST_ACK => mkTCPState TCPSenderStateSummary.FIN_SENT TCPReceiverStateSummary.FIN_RECV true false
  | CLOSING => mkTCPState TCPSenderStateSummary.FIN_SENT TCPReceiverStateSummary.FIN_RECV true true
  | FIN_WAIT_1 => mkTCPState TCPSenderStateSummary.FIN_SENT TCPReceiverStateSummary.SYN_RECV true true
  | FIN_WAIT_2 =>
    mkTCPState TCPSenderStateSummary.FIN_ACKED TCPReceiverStateSummary.SYN_RECV true true
  | TIME_WAIT =>
    mkTCPState TCPSenderStateSummary.FIN_ACKED TCPReceiverStateSummary.FIN_RECV true true
  | RESET => mkTCPState TCPSenderStateSummary.ERROR TCPReceiverStateSummary.ERROR false false
  | CLOSED =>
    mkTCPState TCPSenderStateSummary.FIN_ACKED TCPReceiverStateSummary.FIN_RECV false false
  end.

(** [state_summary] of a receiver and of a sender. *)
Definition receiver_summary (receiver : TCPReceiver) : string :=
  if error (stream_out receiver) then TCPReceiverStateSummary.ERROR
  else
    match ackno receiver with
    | None => TCPReceiverStateSummary.LISTEN
    | Some _ =>
      if input_ended (stream_out receiver) then TCPReceiverStateSummary.FIN_RECV
      else TCPReceiverStateSummary.SYN_RECV
    end.

Definition sender_summary (sender : TCPSender) : string :=
  if error (stream_in sender) then TCPSenderStateSummary.ERROR
  else if next_seqno_absolute sender =? 0 then TCPSenderStateSummary.CLOSED
  else if next_seqno_absolute sender =? bytes_in_flight sender then TCPSenderStateSummary.SYN_SENT
  else if negb (eof (stream_in sender)) then TCPSenderStateSummary.SYN_ACKED
  else if next_seqno_absolute sender <? u64 (bytes_written (stream_in sender) + 2)
  then TCPSenderStateSummary.SYN_ACKED
  else if negb (bytes_in_flight sender =? 0) then TCPSenderStateSummary.FIN_SENT
  else TCPSenderStateSummary.FIN_ACKED.

(** [TCPState(sender, receiver, active, linger)]. *)
Definition of_endpoint (sender : TCPSender) (receiver : TCPReceiver) (active linger : bool)
  : TCPState :=
  mkTCPState (sender_summary sender) (receiver_summary receiver) active
    (if active then linger else false).

(** ** Lemmas *)

Lemma eqb_true a b : eqb a b = true <-> a = b.
Proof.
  unfold eqb. rewrite !andb_true_iff, !Bool.eqb_true_iff, !String.eqb_eq.
  destruct a, b; cbn. naive_solver.
Qed.

(** ** Properties *)

(** The summary tells the official states apart: comparing the summaries of two
    named states with [operator==] is comparing the states. *)
Theorem state_summaries_distinct s t : eqb (of_state s) (of_state t) = true <-> s = t.
Proof. rewrite eqb_true. split; [|by intros ->]. by destruct s, t. Qed.

(** What the summary of an endpoint says of its sender, while its stream has no
    error: CLOSED before the SYN, SYN_SENT until something is acknowledged, SYN_ACKED
    until FIN is sent, FIN_SENT while anything is in flight after that, and then
    FIN_ACKED; the summary is computed from counters, not from those flags. *)
Theorem sender_summary_sound s f :
  sender_inv s f -> failed f = false ->
  let q := unAckQueue s in
  sender_summary s =
    if negb (_synSent q) then TCPSenderStateSummary.CLOSED
    else if _baseSqn q =? 0 then TCPSenderStateSummary.SYN_SENT
    else if negb (_finSent q) then TCPSenderStateSummary.SYN_ACKED
    else if _baseSqn q <? _next_seqno q then TCPSenderStateSummary.FIN_SENT
    else TCPSenderStateSummary.FIN_ACKED.
Proof.
  intros I Hf q. destruct (in_flight_eq _ _ I) as [Hfl Hnx]. destruct I as [R Hl Q].
  destruct (stream_facts _ _ R) as (_ & Hp & He). fold q in Hfl, Q, Hnx.
  pose proof (qi_base _ _ Q) as Hb. pose proof (qi_next _ _ Q) as Hn. unfold LIMIT in *.
  unfold sender_summary, error, stream_in, next_seqno_absolute, bytes_written. fold q.
  rewrite (ref_err _ _ R), Hf, Hfl, (ref_in _ _ R), He.
  rewrite (u64_id (zlen _)), u64_id by lia.
  destruct (_synSent q) eqn:Es; cbn [negb].
  2: { destruct (qi_unsent _ _ Q Es) as [-> _]. done. }
  pose proof (b2n_range (_finSent q)). change (b2n true) with 1 in Hn.
  rewrite (proj2 (Z.eqb_neq (_next_seqno q) 0)) by lia.
  replace (_next_seqno q =? _next_seqno q - _baseSqn q) with (_baseSqn q =? 0) by lia.
  destruct (_baseSqn q =? 0) eqn:E0; [done|].
  destruct (_finSent q) eqn:Ef; cbn [negb].
  - destruct (qi_fin _ _ Q Ef) as [Hend Hpop].
    change (b2n true) with 1 in Hn. rewrite Hend, bool_decide_eq_true_2 by done. cbn [negb andb].
    rewrite (proj2 (Z.ltb_ge _ _)) by lia.
    replace (_baseSqn q <? _next_seqno q) with (negb (_next_seqno q - _baseSqn q =? 0)) by lia.
    done.
  - change (b2n false) with 0 in Hn. rewrite (proj2 (Z.ltb_lt _ _)) by lia.
    by destruct (negb _).
Qed.

Lemma sender_summary_sound_witness :
  sender_summary demo_s4 = TCPSenderStateSummary.SYN_ACKED.
Proof.
  destruct (sender_session_ok TCPSender.demo_isn 10 1000 demo_s4 demo_data false [] ltac:(lia) demo_session_s4 ltac:(by vm_compute))
    as [f [I _ _ _ _]].
  assert (Hf : failed f = false).
  { rewrite <- (ref_err _ _ (se_stream _ _ I)). by vm_compute. }
  rewrite (sender_summary_sound demo_s4 f I Hf). by vm_compute.
Defined.
