(* ===== verification/TCPConnection.v ===== *)
(** * TCPConnection (tcp_connection.hh, tcp_connection.cc)

    A complete endpoint: a sender, a receiver, and the rules by which segments from
    the peer, the application and the clock drive them.  [_segQueueFromSender] is a
    reference to the sender's own outbound queue, so it has no field here. *)

From S2P Require Import Prelude WrappingIntegers ByteStream StreamReassembler Buffer.
From S2P Require Import TCPHeader TCPSegment TCPConfig TCPReceiver TCPSender TCPState.

Record TCPConnection := mkTCPConnection {
  _cfg : TCPConfig;
  _receiver : TCPReceiver;
  _sender : TCPSender;
  _segments_out : list TCPSegment;
  _linger_after_streams_finish : bool;
  _active : bool;
  _time_since_last_segment_received : Z;
  _time_wait : bool }.

#[export] Instance eta_TCPConnection : Eta TCPConnection := fun c =>
  mkTCPConnection (_cfg c) (_receiver c) (_sender c) (_segments_out c)
    (_linger_after_streams_finish c) (_active c) (_time_since_last_segment_received c)
    (_time_wait c).

(** [TCPConnection(cfg)]; [random_isn] is for the sender. *)
Definition new (random_isn : Z) (cfg : TCPConfig) : TCPConnection :=
  mkTCPConnection cfg (TCPReceiver.new (recv_capacity cfg))
    (TCPSender.new random_isn (send_capacity cfg) (rt_timeout cfg) (fixed_isn cfg))
    [] true true 0 false.

(** The queue [_segQueueFromSender] refers to. *)
Definition segQueueFromSender (c : TCPConnection) : list TCPSegment :=
  TCPSender._segments_out (_sender c).
Definition set_segQueue (q : list TCPSegment) (c : TCPConnection) : TCPConnection :=
  c <| _sender := (_sender c) <| TCPSender._segments_out := q |> |>.

(** Changes of one of the two halves. *)
Definition on_sender (g : TCPSender -> TCPSender) (c : TCPConnection) : TCPConnection :=
  c <| _sender := g (_sender c) |>.
Definition on_sender_stream (g : ByteStream -> ByteStream) (c : TCPConnection) : TCPConnection :=
  on_sender (fun s => s <| _stream := g (_stream s) |>) c.
Definition on_receiver_stream (g : ByteStream -> ByteStream) (c : TCPConnection)
  : TCPConnection :=
  c <| _receiver := (_receiver c)
       <| _reassembler := (_reassembler (_receiver c))
            <| _output := g (_output (_reassembler (_receiver c))) |> |> |>.

Definition uncleanShutdown (c : TCPConnection) : TCPConnection :=
  (on_receiver_stream ByteStream.set_error (on_sender_stream ByteStream.set_error c))
    <| _active := false |>.

Definition cleanShutdown (c : TCPConnection) : TCPConnection := c <| _active := false |>.

(** What the loop of [updateOutput] does to one segment. *)
Definition stamp (r : TCPReceiver) (seg : TCPSegment) : TCPSegment :=
  match ackno r with
  | Some a =>
    if negb (rst (_header seg)) then
      seg <| _header := (_header seg) <| ack := true |> <| TCPHeader.ackno := a |>
                          <| win := u16 (window_size r) |> |>
    else seg
  | None => seg
  end.

Definition updateOutput (c : TCPConnection) : TCPConnection :=
  set_segQueue []
    (c <| _segments_out := _segments_out c ++ (stamp (_receiver c) <$> segQueueFromSender c) |>).

(** [front()] of the sender's queue, and then [.header() = g(header)]. *)
Definition update_front (g : TCPHeader -> TCPHeader) (c : TCPConnection) : outcome TCPConnection :=
  match segQueueFromSender c with
  | [] => Fault PastTheEnd
  | seg :: q => Ok (set_segQueue (seg <| _header := g (_header seg) |> :: q) c)
  end.

Definition sendRSTSeg (c : TCPConnection) : outcome TCPConnection :=
  match _segments_out c, segQueueFromSender c with
  | first :: _, _ =>
    let sqn := seqno (_header first) in
    let c := c <| _segments_out := [] |> in
    let c := set_segQueue [] c in
    let c := on_sender send_empty_segment c in
    c ← update_front (fun h => h <| seqno := sqn |>) c;
    c ← update_front (fun h => h <| rst := true |>) c;
    Ok (updateOutput c)
  | [], first :: _ =>
    let sqn := seqno (_header first) in
    let c := set_segQueue [] c in
    let c := on_sender send_empty_segment c in
    c ← update_front (fun h => h <| seqno := sqn |>) c;
    c ← update_front (fun h => h <| rst := true |>) c;
    Ok (updateOutput c)
  | [], [] =>
    let c := on_sender send_empty_segment c in
    (* the queue holds one segment, so [back()] is [front()] *)
    c ← update_front (fun h => h <| rst := true |>) c;
    Ok (updateOutput c)
  end.

Definition receiver_in_listen (c : TCPConnection) : bool := negb (bool_decide (is_Some (ackno (_receiver c)))).
Definition receiver_FIN_recv (c : TCPConnection) : bool := input_ended (stream_out (_receiver c)).

Definition remaining_outbound_capacity (c : TCPConnection) : Z :=
  remaining_capacity (stream_in (_sender c)).
Definition bytes_in_flight (c : TCPConnection) : Z := TCPSender.bytes_in_flight (_sender c).
Definition unassembled_bytes (c : TCPConnection) : Z := TCPReceiver.unassembled_bytes (_receiver c).
Definition time_since_last_segment_received (c : TCPConnection) : Z :=
  _time_since_last_segment_received c.
Definition inbound_stream (c : TCPConnection) : ByteStream := stream_out (_receiver c).
Definition segments_out (c : TCPConnection) : list TCPSegment := _segments_out c.
Definition active (c : TCPConnection) : bool := _active c.
Definition state (c : TCPConnection) : TCPState :=
  TCPState.of_endpoint (_sender c) (_receiver c) (active c) (_linger_after_streams_finish c).

(** Calls of the two halves that can fail. *)
Definition recv_segment (seg : TCPSegment) (c : TCPConnection) : outcome TCPConnection :=
  r ← TCPReceiver.segment_received seg (_receiver c); Ok (c <| _receiver := r |>).
Definition recv_ack (h : TCPHeader) (c : TCPConnection) : outcome TCPConnection :=
  s ← ack_received (TCPHeader.ackno h) (win h) (_sender c); Ok (c <| _sender := s |>).

Definition queue_empty (c : TCPConnection) : bool := bool_decide (segQueueFromSender c = []).
Definition out_empty (c : TCPConnection) : bool := bool_decide (_segments_out c = []).
Definition send_empty (c : TCPConnection) : TCPConnection := on_sender send_empty_segment c.
Definition fill (c : TCPConnection) : TCPConnection := on_sender fill_window c.

(** A keep-alive or a future segment that occupies at most one sequence number. *)
Definition out_of_order (seg : TCPSegment) (c : TCPConnection) : bool :=
  match ackno (_receiver c) with
  | Some a =>
    WrappingIntegers.neqb (seqno (_header seg)) a && (length_in_sequence_space seg <=? 1) && negb (syn (_header seg))
  | None => false
  end.

Definition handle_out_of_order (seg : TCPSegment) (c : TCPConnection) : outcome TCPConnection :=
  let h := _header seg in
  c ← recv_segment seg c;
  c ← (if ack h then c ← recv_ack h c; Ok (fill c) else Ok c);
  let c := if queue_empty c then send_empty c else c in
  Ok (updateOutput c).

(** The receiver's stream has ended. *)
Definition handle_FIN_recv (seg : TCPSegment) (c : TCPConnection) : outcome TCPConnection :=
  let h := _header seg in
  if syn h then Ok c
  else if negb (_linger_after_streams_finish c) then
    let c := if fin h then updateOutput (send_empty c) else c in
    if ack h then
      c ← recv_ack h c;
      if finAcked (_sender c) then Ok (cleanShutdown c) else Ok (updateOutput (fill c))
    else Ok c
  else
    c ← (if ack h then recv_ack h c else Ok c);
    Ok (if fin h then updateOutput (send_empty c) else c).

(** The receiver waits for a SYN. *)
Definition handle_listen (seg : TCPSegment) (c : TCPConnection) : outcome TCPConnection :=
  let h := _header seg in
  if syn h then
    c ← recv_segment seg c;
    c ← (if ack h then recv_ack h c else Ok c);
    let c := updateOutput (fill c) in
    Ok (if out_empty c then updateOutput (send_empty c) else c)
  else Ok c.

(** The receiver's stream is running. *)
Definition handle_SYN_recv (seg : TCPSegment) (c : TCPConnection) : outcome TCPConnection :=
  let h := _header seg in
  if syn h then Ok c
  else
    c ← (if negb (length_in_sequence_space seg =? 0) then recv_segment seg c else Ok c);
    c ← (if ack h then c ← recv_ack h c; Ok (updateOutput (fill c)) else Ok c);
    let c := if (0 <? length_in_sequence_space seg) && out_empty c
             then updateOutput (send_empty c) else c in
    if receiver_FIN_recv c then
      let c := if negb (_finSent (unAckQueue (_sender c)))
               then c <| _linger_after_streams_finish := false |>
               else c <| _time_wait := true |> in
      Ok (if out_empty c then updateOutput (send_empty c) else c)
    else Ok c.

Definition segment_received (seg : TCPSegment) (c : TCPConnection) : outcome TCPConnection :=
  if negb (_active c) then Ok c
  else
    let c := c <| _time_since_last_segment_received := 0 |> in
    if out_of_order seg c then handle_out_of_order seg c
    else if rst (_header seg) then Ok (uncleanShutdown c)
    else if receiver_FIN_recv c then handle_FIN_recv seg c
    else if receiver_in_listen c then handle_listen seg c
    else handle_SYN_recv seg c.

Definition write (data : bytes) (c : TCPConnection) : Z * TCPConnection :=
  if zlen data =? 0 then (0, c)
  else
    let '(writen, st) := ByteStream.write data (_stream (_sender c)) in
    let c := on_sender_stream (fun _ => st) c in
    (writen, updateOutput (fill c)).

Definition tick (ms_since_last_tick : Z) (c : TCPConnection) : outcome TCPConnection :=
  if negb (_active c) then Ok c
  else
    let c := c <| _time_since_last_segment_received :=
                    u64 (_time_since_last_segment_received c + ms_since_last_tick) |> in
    s ← TCPSender.tick ms_since_last_tick (_sender c);
    let c := updateOutput (c <| _sender := s |>) in
    if MAX_RETX_ATTEMPTS <? consecutive_retransmissions (_sender c) then
      c ← sendRSTSeg c;
      Ok (uncleanShutdown c)
    else if _time_wait c && (10 * rt_timeout (_cfg c) <=? _time_since_last_segment_received c)
    then Ok (cleanShutdown c)
    else Ok c.

Definition end_input_stream (c : TCPConnection) : TCPConnection :=
  updateOutput (fill (on_sender_stream end_input c)).

Definition connect (c : TCPConnection) : TCPConnection := updateOutput (fill c).

(** The destructor's last act; the warning it prints is left out. *)
Definition destroy (c : TCPConnection) : outcome TCPConnection :=
  if active c then sendRSTSeg c else Ok c.

(** ** Invariant

    The two halves keep their own invariants; what has been emitted, or waits in one
    of the two queues, is accurate; after a reset the receiver only differs by the
    error mark on its stream, and nothing reaches it any more. *)

Definition recv_error (r : TCPReceiver) : TCPReceiver :=
  r <| _reassembler := (_reassembler r) <| _output := set_error (_output (_reassembler r)) |> |>.

Section connection.
Context (isn pisn : WrappingInt32) (S : bytes) (rcap : Z).
Hypothesis rcap_nonneg : 0 <= rcap.
Hypothesis stream_bound : zlen S + rcap < 0x7fffffff00000000.

Record conn_inv (w : bytes) (e : bool) (sent : list TCPSegment) (rd : bytes)
    (c : TCPConnection) (f : fifo) (r : TCPReceiver) (ps : list (Z * Z)) (pe : bool) : Prop :=
  mk_conn_inv {
  ci_sender : sender_inv (_sender c) f;
  ci_isn : TCPSender._isn (_sender c) = isn;
  ci_hist : hist f = w;
  ci_ended : ended f = e;
  ci_out : Forall (accurate isn w e) (sent ++ _segments_out c ++ segQueueFromSender c);
  ci_receiver : receiver_inv S rcap pisn rd ps pe r;
  ci_same : _receiver c = r \/ _active c = false /\ _receiver c = recv_error r }.

Definition conn_mid (w : bytes) (e : bool) (sent : list TCPSegment) (rd : bytes)
    (c : TCPConnection) : Prop := exists f r ps pe, conn_inv w e sent rd c f r ps pe.

(** Between calls the sender's queue has been emptied into the connection's. *)
Definition conn_ok (w : bytes) (e : bool) (sent : list TCPSegment) (rd : bytes)
    (c : TCPConnection) : Prop := conn_mid w e sent rd c /\ segQueueFromSender c = [].

Implicit Types (w rd : bytes) (e : bool) (sent : list TCPSegment) (c : TCPConnection).

Lemma stamp_accurate w e r seg : accurate isn w e seg -> accurate isn w e (stamp r seg).
Proof. intros A. unfold stamp. destruct (ackno r); [|done]. by destruct (negb _). Qed.

Lemma conn_mid_update w e sent rd c : conn_mid w e sent rd c -> conn_ok w e sent rd (updateOutput c).
Proof.
  intros (f & r & ps & pe & [I Hi Hh He Ho Hr Hs]). split; [|done].
  exists f, r, ps, pe. split; try done; [by destruct I|].
  unfold segQueueFromSender, updateOutput in *. cbn. rewrite app_nil_r.
  rewrite !Forall_app in Ho |- *. destruct Ho as (? & ? & Hq). split_and!; try done.
  apply Forall_fmap. eapply Forall_impl; [exact Hq|]. intros seg. apply stamp_accurate.
Qed.

(** A step of the sender that only emits accurate segments. *)
Lemma conn_mid_sends w e sent rd c f r ps pe s' f' segs :
  conn_inv w e sent rd c f r ps pe -> sends (_sender c) f s' f' segs ->
  conn_mid w e sent rd (c <| _sender := s' |>).
Proof.
  intros [I Hi Hh He Ho Hr Hs] (I' & (Hh' & He' & _) & O' & A' & (Hi' & _) & _).
  exists f', r, ps, pe. split; try done; try congruence; [cbn; congruence|].
  unfold segQueueFromSender in *. cbn [_sender _segments_out upd eta eta_TCPConnection].
  rewrite O', !app_assoc in *. apply Forall_app. split; [done|].
  rewrite <- Hi, <- Hh, <- He. done.
Qed.

Lemma conn_mid_fill w e sent rd c : conn_mid w e sent rd c -> conn_mid w e sent rd (fill c).
Proof.
  intros (f & r & ps & pe & C). destruct (fill_window_sends _ _ (ci_sender _ _ _ _ _ _ _ _ _ C))
    as (f' & segs & S1 & _). by eapply conn_mid_sends.
Qed.

Lemma conn_mid_send_empty w e sent rd c :
  conn_mid w e sent rd c -> conn_mid w e sent rd (send_empty c).
Proof.
  intros (f & r & ps & pe & C). eapply conn_mid_sends; [exact C|].
  apply send_empty_sends, C.
Qed.

(** The sides of a connection a step leaves alone. *)
Definition same_sides c c' : Prop :=
  _receiver c' = _receiver c /\ _active c' = _active c /\ _cfg c' = _cfg c.

Lemma conn_mid_ack w e sent rd c h a :
  conn_mid w e sent rd c -> ack_ok (_sender c) (TCPHeader.ackno h) a -> is_u16 (win h) ->
  exists c', recv_ack h c = Ok c' /\ conn_mid w e sent rd c' /\ same_sides c c' /\
    segQueueFromSender c' = segQueueFromSender c /\ _segments_out c' = _segments_out c.
Proof.
  intros (f & r & ps & pe & [I Hi Hh He Ho Hr Hs]) Ha Hw.
  destruct (ack_received_spec _ f _ a _ I Ha Hw) as (s' & E & I' & O' & Hi' & _).
  unfold recv_ack. rewrite E. cbn [mbind outcome_bind]. eexists. split; [done|].
  split; [|split; [done|]].
  - exists f, r, ps, pe. split; try done; [cbn; congruence|].
    unfold segQueueFromSender in *. cbn. by rewrite O'.
  - unfold segQueueFromSender. cbn. done.
Qed.

Lemma conn_mid_receive w e sent rd c seg :
  conn_mid w e sent rd c -> _active c = true -> receivable S pisn (_receiver c) seg ->
  exists c', recv_segment seg c = Ok c' /\ conn_mid w e sent rd c' /\
    _sender c' = _sender c /\ _segments_out c' = _segments_out c /\ _active c' = true.
Proof.
  intros (f & r & ps & pe & [I Hi Hh He Ho Hr Hs]) Hac HR.
  destruct Hs as [<-|[? _]]; [|congruence].
  destruct (receivable_step S rcap pisn rcap_nonneg stream_bound _ _ _ _ seg Hr HR)
    as (r' & ps' & pe' & E & I' & _).
  unfold recv_segment. rewrite E. cbn [mbind outcome_bind]. eexists. split; [done|].
  split; [|done]. exists f, r', ps', pe'. split; try done. by left.
Qed.

Lemma conn_mid_unclean w e sent rd c :
  conn_mid w e sent rd c -> conn_mid w e sent rd (uncleanShutdown c).
Proof.
  intros (f & r & ps & pe & [[R Hl Q] Hi Hh He Ho Hr Hs]).
  exists (mk_fifo (hist f) (popped f) (bound f) (ended f) true), r, ps, pe.
  split; try done.
  - split; [by apply bs_refines_error|done|]. by destruct Q.
  - right. split; [done|]. clear -Hs. destruct c; cbn in *. destruct Hs as [->|[_ ->]]; done.
Qed.

Lemma conn_mid_fields w e sent rd c c' :
  conn_mid w e sent rd c -> _sender c' = _sender c -> _receiver c' = _receiver c ->
  _segments_out c' = _segments_out c -> (_active c' = _active c \/ _active c' = false) ->
  conn_mid w e sent rd c'.
Proof.
  intros (f & r & ps & pe & [I Hi Hh He Ho Hr Hs]) E1 E2 E3 E4.
  exists f, r, ps, pe. split; unfold segQueueFromSender in *; rewrite ?E1, ?E2, ?E3; try done.
  destruct Hs as [?|[? ?]]; [by left|right]. split; [|done]. destruct E4; congruence.
Qed.

(** Putting a bare segment in place of what waits in the queues. *)
Lemma conn_mid_queue w e sent rd c out q :
  conn_mid w e sent rd c -> Forall (accurate isn w e) out -> Forall (accurate isn w e) q ->
  conn_mid w e sent rd (set_segQueue q (c <| _segments_out := out |>)).
Proof.
  intros (f & r & ps & pe & [I Hi Hh He Ho Hr Hs]) Hout Hq.
  exists f, r, ps, pe. split; try done; [by destruct I|].
  unfold segQueueFromSender in *. cbn. rewrite !Forall_app in *. tauto.
Qed.

(** What [sendRSTSeg] leaves: one RST segment, numbered like the first segment that
    was waiting, or else with the next sequence number. *)
Definition rst_seqno c : WrappingInt32 :=
  match _segments_out c, segQueueFromSender c with
  | seg :: _, _ => seqno (_header seg)
  | [], seg :: _ => seqno (_header seg)
  | [], [] => TCPSender.next_seqno (_sender c)
  end.

Definition rst_segment (q : WrappingInt32) : TCPSegment :=
  headerSeg (TCPHeader.default <| seqno := q |> <| rst := true |>).

Lemma sendRSTSeg_eq c :
  sendRSTSeg c =
    Ok (set_segQueue [] (c <| _segments_out := [rst_segment (rst_seqno c)] |>)).
Proof.
  unfold sendRSTSeg, rst_seqno. destruct (_segments_out c) as [|seg out] eqn:E1.
  - destruct (segQueueFromSender c) as [|seg q] eqn:E2.
    + destruct c as [? ? [? ? ? so ?] ? ? ? ? ?]. cbn in E1, E2. subst.
      unfold updateOutput, stamp, segQueueFromSender, rst_segment, headerSeg. cbn.
      by destruct (ackno _).
    + destruct c as [? ? [? ? ? so ?] ? ? ? ? ?]. cbn in E1, E2. subst.
      unfold updateOutput, stamp, segQueueFromSender, rst_segment, headerSeg. cbn.
      by destruct (ackno _).
  - destruct c as [? ? [? ? ? so ?] ? ? ? ? ?]. cbn in E1. subst.
    unfold updateOutput, stamp, segQueueFromSender, rst_segment, headerSeg. cbn.
    by destruct (ackno _).
Qed.

Lemma conn_ok_rst w e sent rd c :
  conn_mid w e sent rd c -> exists c', sendRSTSeg c = Ok c' /\ conn_ok w e sent rd c'.
Proof.
  intros C. rewrite sendRSTSeg_eq. eexists. split; [done|]. split; [|done].
  apply conn_mid_queue; [done| |constructor].
  apply Forall_singleton. by left.
Qed.

(** ** Segments from the peer *)

(** A segment of the session: the receiver can be sure of its payload, and the sender of
    its acknowledgment. *)
Definition seg_ok c (seg : TCPSegment) : Prop :=
  receivable S pisn (_receiver c) seg /\ is_u16 (win (_header seg)) /\
  (ack (_header seg) = true -> exists a, ack_ok (_sender c) (TCPHeader.ackno (_header seg)) a).

(** [recv_ack] when the segment carries an acknowledgment. *)
Lemma conn_mid_maybe_ack w e sent rd c h :
  conn_mid w e sent rd c -> is_u16 (win h) ->
  (ack h = true -> exists a, ack_ok (_sender c) (TCPHeader.ackno h) a) ->
  exists c', (if ack h then recv_ack h c else Ok c) = Ok c' /\ conn_mid w e sent rd c' /\
    segQueueFromSender c' = segQueueFromSender c.
Proof.
  intros C Hw Ha. destruct (ack h); [|by exists c].
  destruct (Ha eq_refl) as [a Hok].
  destruct (conn_mid_ack _ _ _ _ _ _ _ C Hok Hw) as (c' & E & C' & _ & Hq & _). by exists c'.
Qed.

Lemma handle_out_of_order_ok w e sent rd c seg :
  conn_mid w e sent rd c -> _active c = true -> seg_ok c seg ->
  exists c', handle_out_of_order seg c = Ok c' /\ conn_ok w e sent rd c'.
Proof.
  intros C Hac (HR & Hw & Ha). unfold handle_out_of_order.
  destruct (conn_mid_receive _ _ _ _ _ _ C Hac HR) as (c1 & -> & C1 & Hs1 & _ & _).
  cbn [mbind outcome_bind]. rewrite <- Hs1 in Ha.
  destruct (ack (_header seg)).
  - destruct (Ha eq_refl) as [a Hok].
    destruct (conn_mid_ack _ _ _ _ _ _ _ C1 Hok Hw) as (c2 & -> & C2 & _).
    cbn [mbind outcome_bind]. eexists. split; [done|]. apply conn_mid_update.
    destruct (queue_empty _); [apply conn_mid_send_empty|]; by apply conn_mid_fill.
  - cbn [mbind outcome_bind]. eexists. split; [done|]. apply conn_mid_update.
    destruct (queue_empty _); [by apply conn_mid_send_empty|done].
Qed.

Lemma conn_ok_update_empty w e sent rd c :
  conn_mid w e sent rd c -> conn_ok w e sent rd (updateOutput (send_empty c)).
Proof. intros C. by apply conn_mid_update, conn_mid_send_empty. Qed.

Lemma handle_FIN_recv_ok w e sent rd c seg :
  conn_ok w e sent rd c -> seg_ok c seg ->
  exists c', handle_FIN_recv seg c = Ok c' /\ conn_ok w e sent rd c'.
Proof.
  intros [C Hq] (HR & Hw & Ha). unfold handle_FIN_recv.
  destruct (syn (_header seg)); [by exists c|].
  destruct (_linger_after_streams_finish c); cbn [negb].
  - destruct (conn_mid_maybe_ack _ _ _ _ _ _ C Hw Ha) as (c1 & -> & C1 & Hq1).
    cbn [mbind outcome_bind]. eexists. split; [done|].
    destruct (fin (_header seg)); [by apply conn_ok_update_empty|]. split; [done|congruence].
  - set (c0 := if fin (_header seg) then updateOutput (send_empty c) else c).
    assert (C0 : conn_ok w e sent rd c0).
    { unfold c0. destruct (fin (_header seg)); [by apply conn_ok_update_empty|by split]. }
    assert (Ha0 : ack (_header seg) = true ->
      exists a, ack_ok (_sender c0) (TCPHeader.ackno (_header seg)) a).
    { unfold c0. destruct (fin (_header seg)); exact Ha. }
    destruct (ack (_header seg)); [|by exists c0].
    destruct (Ha0 eq_refl) as [a Hok]. destruct C0 as [C0 Hq0].
    destruct (conn_mid_ack _ _ _ _ _ _ _ C0 Hok Hw) as (c1 & -> & C1 & _ & Hq1 & _).
    cbn [mbind outcome_bind]. destruct (finAcked _); eexists; (split; [done|]).
    + split; [|unfold segQueueFromSender in *; cbn; congruence].
      eapply conn_mid_fields; [exact C1|done|done|done|by right].
    + by apply conn_mid_update, conn_mid_fill.
Qed.

Lemma handle_listen_ok w e sent rd c seg :
  conn_ok w e sent rd c -> _active c = true -> seg_ok c seg ->
  exists c', handle_listen seg c = Ok c' /\ conn_ok w e sent rd c'.
Proof.
  intros [C Hq] Hac (HR & Hw & Ha). unfold handle_listen.
  destruct (syn (_header seg)); [|by exists c].
  destruct (conn_mid_receive _ _ _ _ _ _ C Hac HR) as (c1 & -> & C1 & Hs1 & _ & _).
  cbn [mbind outcome_bind]. rewrite <- Hs1 in Ha.
  destruct (conn_mid_maybe_ack _ _ _ _ _ _ C1 Hw Ha) as (c2 & -> & C2 & _).
  cbn [mbind outcome_bind]. eexists. split; [done|].
  assert (C3 : conn_ok w e sent rd (updateOutput (fill c2))) by by apply conn_mid_update, conn_mid_fill.
  destruct (out_empty _); [by apply conn_ok_update_empty, C3|done].
Qed.

Lemma handle_SYN_recv_ok w e sent rd c seg :
  conn_ok w e sent rd c -> _active c = true -> seg_ok c seg ->
  exists c', handle_SYN_recv seg c = Ok c' /\ conn_ok w e sent rd c'.
Proof.
  intros [C Hq] Hac (HR & Hw & Ha). unfold handle_SYN_recv.
  destruct (syn (_header seg)); [by exists c|].
  assert (exists c1, (if negb (length_in_sequence_space seg =? 0) then recv_segment seg c else Ok c) = Ok c1 /\
    conn_mid w e sent rd c1 /\ _sender c1 = _sender c) as (c1 & -> & C1 & Hs1).
  { destruct (negb _); [|by exists c].
    destruct (conn_mid_receive _ _ _ _ _ _ C Hac HR) as (c1 & -> & C1 & Hs1 & _). by exists c1. }
  cbn [mbind outcome_bind]. rewrite <- Hs1 in Ha.
  assert (exists c2, (if ack (_header seg) then c ← recv_ack (_header seg) c1; Ok (updateOutput (fill c))
      else Ok c1) = Ok c2 /\ conn_ok w e sent rd c2) as (c2 & -> & C2).
  { destruct (ack (_header seg)).
    - destruct (Ha eq_refl) as [a Hok].
      destruct (conn_mid_ack _ _ _ _ _ _ _ C1 Hok Hw) as (c2 & -> & C2 & _).
      cbn [mbind outcome_bind]. eexists. split; [done|]. by apply conn_mid_update, conn_mid_fill.
    - exists c1. split; [done|]. split; [done|]. unfold segQueueFromSender in *. congruence. }
  cbn [mbind outcome_bind].
  set (c3 := if (0 <? length_in_sequence_space seg) && out_empty c2 then updateOutput (send_empty c2) else c2).
  assert (C3 : conn_ok w e sent rd c3).
  { unfold c3. destruct (_ && _); [by apply conn_ok_update_empty, C2|done]. }
  destruct (receiver_FIN_recv c3); [|by exists c3].
  set (c4 := if negb (_finSent (unAckQueue (_sender c3)))
             then c3 <| _linger_after_streams_finish := false |> else c3 <| _time_wait := true |>).
  assert (C4 : conn_ok w e sent rd c4).
  { destruct C3 as [C3 Hq3]. unfold c4.
    destruct (negb _); (split; [|exact Hq3]); (eapply conn_mid_fields; [exact C3|done|done|done|by left]). }
  eexists. split; [done|]. destruct (out_empty c4); [by apply conn_ok_update_empty, C4|done].
Qed.

Lemma segment_received_ok w e sent rd c seg :
  conn_ok w e sent rd c -> (_active c = true -> seg_ok c seg) ->
  exists c', segment_received seg c = Ok c' /\ conn_ok w e sent rd c'.
Proof.
  intros [C Hq] Hok. unfold segment_received.
  destruct (_active c) eqn:Hac; cbn [negb]; [|by exists c].
  specialize (Hok eq_refl). set (c0 := c <| _time_since_last_segment_received := 0 |>).
  assert (C0 : conn_ok w e sent rd c0).
  { split; [|exact Hq]. eapply conn_mid_fields; [exact C|done|done|done|by left]. }
  assert (Hac0 : _active c0 = true) by exact Hac.
  assert (Hok0 : seg_ok c0 seg) by exact Hok. clearbody c0.
  destruct (out_of_order seg c0); [by apply handle_out_of_order_ok; [apply C0| |]|].
  destruct (rst (_header seg)).
  { eexists. split; [done|]. destruct C0 as [C0 Hq0]. split; [by apply conn_mid_unclean|exact Hq0]. }
  destruct (receiver_FIN_recv c0); [by apply handle_FIN_recv_ok|].
  destruct (receiver_in_listen c0); [by apply handle_listen_ok|by apply handle_SYN_recv_ok].
Qed.

(** ** The application and the clock *)

Lemma conn_inv_session w e sent rd c f r ps pe :
  conn_inv w e sent rd c f r ps pe ->
  session_ok isn (_sender c) w e (sent ++ _segments_out c) f.
Proof.
  intros [I Hi Hh He Ho Hr Hs]. split; try done. by rewrite <- app_assoc.
Qed.

(** The other way round, for a step that changes what the application has written. *)
Lemma conn_mid_session w e sent rd c f r ps pe w' e' s' f' :
  conn_inv w e sent rd c f r ps pe ->
  session_ok isn s' w' e' (sent ++ _segments_out c) f' ->
  conn_mid w' e' sent rd (c <| _sender := s' |>).
Proof.
  intros [I Hi Hh He Ho Hr Hs] [I' Hi' Hh' He' Ho']. exists f', r, ps, pe. split; try done.
  unfold segQueueFromSender. cbn. by rewrite app_assoc.
Qed.

Lemma write_ok w e sent rd c data :
  conn_mid w e sent rd c -> zlen (w ++ ztake (fst (write data c)) data) < LIMIT ->
  segQueueFromSender c = [] ->
  conn_ok (w ++ ztake (fst (write data c)) data) e sent rd (snd (write data c)).
Proof.
  intros C Hl Hq. unfold write in *. destruct (zlen data =? 0) eqn:Ez.
  { cbn [fst snd] in *. change (ztake 0 data) with (@nil byte). rewrite app_nil_r. by split. }
  destruct (ByteStream.write data (_stream (_sender c))) as [n st] eqn:E. cbn [fst snd] in *.
  apply conn_mid_update, conn_mid_fill.
  destruct C as (f & r & ps & pe & C). pose proof (conn_inv_session _ _ _ _ _ _ _ _ _ C) as SO.
  pose proof SO as [[R _ _] _ Hh He _].
  destruct (bs_refines_write data (_stream (_sender c)) f R) as [Hn R'].
  rewrite E in Hn, R'. cbn [fst snd] in Hn, R'. set (f' := mk_fifo _ _ _ _ _) in R'.
  assert (Hf : hist f' = w ++ ztake n data /\ ended f' = e) by (cbn; by rewrite Hh).
  destruct Hf as [Hf1 Hf2]. rewrite <- Hf1, <- Hf2.
  eapply (conn_mid_session _ _ _ _ _ _ _ _ _ _ _ _ f'); [exact C|].
  eapply session_ok_stream; [exact SO|exact R'|done| |by rewrite Hf1].
  exists (ztake n data). split; [done|]. intros Het. split; [congruence|]. by rewrite Hn, He, Het.
Qed.

Lemma end_input_ok w e sent rd c :
  conn_mid w e sent rd c -> conn_ok w true sent rd (end_input_stream c).
Proof.
  intros (f & r & ps & pe & C). pose proof (conn_inv_session _ _ _ _ _ _ _ _ _ C) as SO.
  pose proof SO as [[R Hl _] _ Hh He _]. pose proof (bs_refines_end _ _ R) as R'.
  set (f' := mk_fifo _ _ _ _ _) in R'. apply conn_mid_update, conn_mid_fill.
  rewrite <- Hh. change (hist f) with (hist f').
  eapply (conn_mid_session _ _ _ _ _ _ _ _ _ _ _ _ f'); [exact C|]. change true with (ended f').
  eapply session_ok_stream; [exact SO|exact R'|done| |done].
  exists []. rewrite app_nil_r. by split.
Qed.

Lemma tick_ok w e sent rd c n :
  conn_ok w e sent rd c -> exists c', tick n c = Ok c' /\ conn_ok w e sent rd c'.
Proof.
  intros [C Hq]. unfold tick. destruct (_active c) eqn:Hac; cbn [negb]; [|by exists c].
  set (c0 := c <| _time_since_last_segment_received := _ |>).
  assert (C0 : conn_mid w e sent rd c0).
  { eapply conn_mid_fields; [exact C|done|done|done|by left]. }
  clearbody c0. destruct C0 as (f & r & ps & pe & C0).
  destruct (tick_spec n (_sender c0) f (ci_sender _ _ _ _ _ _ _ _ _ C0)) as (s' & segs & E & S1 & _).
  rewrite E. cbn [mbind outcome_bind].
  assert (C1 : conn_ok w e sent rd (updateOutput (c0 <| _sender := s' |>))).
  { apply conn_mid_update. by eapply conn_mid_sends. }
  set (c1 := updateOutput (c0 <| _sender := s' |>)) in *. clearbody c1.
  destruct (_ <? _).
  - destruct (conn_ok_rst _ _ _ _ _ (proj1 C1)) as (c2 & -> & C2). cbn [mbind outcome_bind].
    eexists. split; [done|]. destruct C2 as [C2 Hq2]. split; [by apply conn_mid_unclean|exact Hq2].
  - destruct (_ && _); [|by exists c1].
    eexists. split; [done|]. destruct C1 as [C1 Hq1]. split; [|exact Hq1].
    eapply conn_mid_fields; [exact C1|done|done|done|by right].
Qed.

(** The application takes bytes from the inbound stream. *)
Definition read_inbound (n : Z) (c : TCPConnection) : TCPConnection :=
  on_receiver_stream (fun _ => snd (read n (inbound_stream c))) c.

Lemma read_ok w e sent rd c n :
  conn_ok w e sent rd c -> 0 <= n ->
  conn_ok w e sent (rd ++ fst (read n (inbound_stream c))) (read_inbound n c).
Proof.
  intros [(f & r & ps & pe & [I Hi Hh He Ho Hr Hs]) Hq] Hn. split; [|exact Hq].
  exists f, (r <| _reassembler := (_reassembler r) <| _output := snd (read n (stream_out r)) |> |>), ps, pe.
  pose proof (receiver_inv_read _ _ _ _ _ _ _ n Hr Hn) as Hr'.
  split; try done; unfold inbound_stream, read_inbound.
  - unfold inbound_stream in *. destruct Hs as [->|[_ ->]]; exact Hr'.
  - unfold on_receiver_stream, inbound_stream. destruct Hs as [E|[Hac E]].
    + left. cbn. by rewrite E.
    + right. split; [exact Hac|]. cbn. by rewrite E.
Qed.

(** The owner takes the segments to send. *)
Definition drain (c : TCPConnection) : TCPConnection := c <| _segments_out := [] |>.

Lemma drain_ok w e sent rd c :
  conn_ok w e sent rd c -> conn_ok w e (sent ++ segments_out c) rd (drain c).
Proof.
  intros [(f & r & ps & pe & [I Hi Hh He Ho Hr Hs]) Hq]. split; [|exact Hq].
  exists f, r, ps, pe. split; try done. unfold segQueueFromSender in *. cbn.
  by rewrite <- app_assoc.
Qed.

(** A connection whose input has not ended accepts all there is capacity for. *)
Lemma write_accepts w sent rd c data :
  conn_ok w false sent rd c ->
  zlen data <= remaining_outbound_capacity c -> fst (write data c) = zlen data.
Proof.
  intros [(f & r & ps & pe & [[R _ _] _ _ He _ _ _]) _] Hl. unfold write.
  destruct (Z.eqb_spec (zlen data) 0) as [Ez|Ez]; [by rewrite Ez|].
  destruct (bs_refines_write data _ _ R) as [Hn _].
  unfold remaining_outbound_capacity, stream_in in Hl.
  rewrite (bs_remaining_capacity_spec _ (ref_wf _ _ R)), (ref_cap _ _ R), (wf_size _ (ref_wf _ _ R)),
    (ref_buf _ _ R) in Hl.
  destruct (ByteStream.write data (_stream (_sender c))) as [n st]. cbn [fst] in *.
  rewrite Hn, He. lia.
Qed.

(** [conn_session cfg w e sent rd c]: a connection built from [cfg], used by its
    application, its owner and its peer in any order; the application wrote [w], ended its
    stream when [e], and read [rd]; the owner took the segments [sent].  The
    peer sends the stream [S] from the sequence number [pisn]. *)
Inductive conn_session (cfg : TCPConfig) :
  bytes -> bool -> list TCPSegment -> bytes -> TCPConnection -> Prop :=
| conn_new rnd :
    TCPSender._isn (_sender (new rnd cfg)) = isn -> conn_session cfg [] false [] [] (new rnd cfg)
| conn_write w e sent rd c data :
    conn_session cfg w e sent rd c ->
    conn_session cfg (w ++ ztake (fst (write data c)) data) e sent rd (snd (write data c))
| conn_end w e sent rd c :
    conn_session cfg w e sent rd c -> conn_session cfg w true sent rd (end_input_stream c)
| conn_connect w e sent rd c :
    conn_session cfg w e sent rd c -> conn_session cfg w e sent rd (connect c)
| conn_tick w e sent rd c n c' :
    conn_session cfg w e sent rd c -> tick n c = Ok c' -> conn_session cfg w e sent rd c'
| conn_segment w e sent rd c seg c' :
    conn_session cfg w e sent rd c -> (active c = true -> seg_ok c seg) ->
    segment_received seg c = Ok c' -> conn_session cfg w e sent rd c'
| conn_drain w e sent rd c :
    conn_session cfg w e sent rd c ->
    conn_session cfg w e (sent ++ segments_out c) rd (drain c)
| conn_read w e sent rd c n :
    conn_session cfg w e sent rd c -> 0 <= n ->
    conn_session cfg w e sent (rd ++ fst (read n (inbound_stream c))) (read_inbound n c).

Lemma conn_ok_new cfg rnd :
  recv_capacity cfg = rcap -> is_u64 (send_capacity cfg) ->
  TCPSender._isn (_sender (new rnd cfg)) = isn -> conn_ok [] false [] [] (new rnd cfg).
Proof.
  intros Hr Hs Hi. split; [|done].
  exists (fifo_new (send_capacity cfg)), (TCPReceiver.new rcap), [], false.
  assert (I : sender_inv (_sender (new rnd cfg)) (fifo_new (send_capacity cfg))).
  { unfold new. cbn [_sender]. destruct (fixed_isn cfg) as [i|]; [by apply sender_inv_new|].
    exact (sender_inv_new rnd _ (rt_timeout cfg) (mkWrappingInt32 (u32 rnd)) Hs). }
  split; try done; [apply receiver_inv_new|]. left. unfold new. cbn [_receiver]. by rewrite Hr.
Qed.

Lemma conn_session_ok cfg w e sent rd c :
  recv_capacity cfg = rcap -> is_u64 (send_capacity cfg) ->
  conn_session cfg w e sent rd c -> zlen w < LIMIT -> conn_ok w e sent rd c.
Proof.
  intros Hr Hs. induction 1 as [rnd|w e sent rd c data Hc IH|w e sent rd c Hc IH
    |w e sent rd c Hc IH|w e sent rd c n c' Hc IH E|w e sent rd c seg c' Hc IH HR E
    |w e sent rd c Hc IH|w e sent rd c n Hc IH Hn]; intros Hl.
  - by apply conn_ok_new.
  - pose proof Hl as Hl'. rewrite zlen_app in Hl'.
    destruct IH as [C Hq]; [lia|].
    by apply write_ok.
  - apply (end_input_ok w e), IH, Hl.
  - apply conn_mid_update, conn_mid_fill, IH, Hl.
  - destruct (tick_ok _ _ _ _ _ n (IH Hl)) as (c'' & E' & C). rewrite E in E'. by apply Ok_inj in E' as ->.
  - destruct (segment_received_ok _ _ _ _ _ seg (IH Hl) HR) as (c'' & E' & C).
    rewrite E in E'. by apply Ok_inj in E' as ->.
  - by apply drain_ok, IH.
  - by apply read_ok; [apply IH|].
Qed.
End connection.

(** ** What a step emits *)

(** A segment that carries the receiver's current acknowledgment and window. *)
Definition stamped (r : TCPReceiver) (seg : TCPSegment) : Prop :=
  forall a, ackno r = Some a -> rst (_header seg) = false ->
    ack (_header seg) = true /\ TCPHeader.ackno (_header seg) = a /\
    win (_header seg) = u16 (window_size r).

(** [c'] has the outbound segments of [c] and then some, all stamped by its receiver. *)
Definition emits (c c' : TCPConnection) : Prop :=
  exists segs, segments_out c' = segments_out c ++ segs /\
    Forall (stamped (_receiver c')) segs.

Lemma stamp_stamped r seg : stamped r (stamp r seg).
Proof.
  intros a E. unfold stamp. rewrite E. destruct (rst (_header seg)) eqn:Er; cbn [negb].
  - by rewrite Er.
  - by intros _.
Qed.

Lemma emits_update c : emits c (updateOutput c).
Proof.
  exists (stamp (_receiver c) <$> segQueueFromSender c). split; [done|].
  apply Forall_fmap, Forall_true. intros seg. apply stamp_stamped.
Qed.

Lemma emits_refl c c' : segments_out c' = segments_out c -> emits c c'.
Proof. intros E. exists []. by rewrite app_nil_r. Qed.

Lemma emits_trans c c1 c2 :
  emits c c1 -> emits c1 c2 -> _receiver c2 = _receiver c1 -> emits c c2.
Proof.
  intros (l1 & E1 & F1) (l2 & E2 & F2) Hr. exists (l1 ++ l2). rewrite E2, E1, app_assoc.
  split; [done|]. apply Forall_app. by rewrite Hr in *.
Qed.

(** A silent step before an emitting one. *)
Lemma emits_after c c1 c2 : segments_out c1 = segments_out c -> emits c1 c2 -> emits c c2.
Proof. intros E (l & El & F). exists l. by rewrite El, E. Qed.

Lemma ack_received_out ackno w s s' :
  ack_received ackno w s = Ok s' -> TCPSender.segments_out s' = TCPSender.segments_out s.
Proof.
  unfold ack_received. destruct (_ || _); [by intros [= <-]|].
  destruct (_ <? _); [|by intros [= <-]].
  destruct (UnAckQueue.updateBase _ _); cbn [mbind outcome_bind]; [|done].
  by destruct (_ || _); intros [= <-].
Qed.

Lemma recv_ack_sides h c c' :
  recv_ack h c = Ok c' -> same_sides c c' /\ segments_out c' = segments_out c /\
    segQueueFromSender c' = segQueueFromSender c.
Proof.
  unfold recv_ack. destruct (ack_received _ _ _) as [s|] eqn:E; cbn [mbind outcome_bind]; [|done].
  intros [= <-]. split; [done|]. split; [done|]. by apply ack_received_out in E.
Qed.

Lemma recv_segment_sides seg c c' :
  recv_segment seg c = Ok c' -> _sender c' = _sender c /\ segments_out c' = segments_out c /\
    _active c' = _active c.
Proof.
  unfold recv_segment. destruct (TCPReceiver.segment_received _ _); cbn [mbind outcome_bind]; [|done].
  by intros [= <-].
Qed.

(** Taking the binds of an outcome that has returned apart. *)
Ltac split_binds H :=
  repeat match type of H with
  | Ok _ = Ok _ => apply Ok_inj in H
  | (_ ← _; _) = Ok _ =>
    let c := fresh "c" in let E := fresh "E" in
    apply bind_Ok in H as (c & E & H)
  end.

Lemma maybe_ack_sides h c c' :
  (if ack h then recv_ack h c else Ok c) = Ok c' ->
  same_sides c c' /\ segments_out c' = segments_out c.
Proof.
  destruct (ack h); [|by intros [= <-]]. intros E. by apply recv_ack_sides in E as (? & ? & _).
Qed.

Lemma handle_out_of_order_emits seg c c' : handle_out_of_order seg c = Ok c' -> emits c c'.
Proof.
  unfold handle_out_of_order. intros H. split_binds H. subst c'.
  apply recv_segment_sides in E as (_ & E & _).
  assert (segments_out c1 = segments_out c0) as E1.
  { destruct (ack _); [|by apply Ok_inj in E0 as ->]. split_binds E0. subst c1.
    by apply recv_ack_sides in E1 as (_ & E1 & _). }
  eapply emits_after; [|apply emits_update]. by destruct (queue_empty c1); rewrite <- E, <- E1.
Qed.

Lemma handle_FIN_recv_emits seg c c' : handle_FIN_recv seg c = Ok c' -> emits c c'.
Proof.
  unfold handle_FIN_recv. destruct (syn _); [by intros [= <-]; apply emits_refl|].
  destruct (negb _).
  - set (c0 := if fin _ then _ else c). intros H.
    assert (S0 : emits c c0 /\ _receiver c0 = _receiver c).
    { unfold c0. destruct (fin _); [|split; [by apply emits_refl|done]]. split; [|done].
      eapply emits_after; [|apply emits_update]. done. }
    destruct S0 as [S0 _].
    destruct (ack _); [|by apply Ok_inj in H as <-]. split_binds H.
    apply recv_ack_sides in E as ((Hr & _) & Ho & _).
    eapply emits_trans; [exact S0| |].
    + destruct (finAcked _); apply Ok_inj in H as <-; [by apply emits_refl|].
      eapply emits_after; [|apply emits_update]. done.
    + destruct (finAcked _); apply Ok_inj in H as <-; done.
  - intros H. split_binds H. subst c'. apply maybe_ack_sides in E as ((Hr & _) & Ho).
    destruct (fin _); [|by apply emits_refl]. eapply emits_after; [|apply emits_update]. done.
Qed.

(** An acknowledgment when nothing else goes out. *)
Lemma emits_reply c (b : bool) :
  emits c (if b then updateOutput (send_empty c) else c) /\
  _receiver (if b then updateOutput (send_empty c) else c) = _receiver c.
Proof.
  destruct b; (split; [|done]); [|by apply emits_refl].
  eapply emits_after; [|apply emits_update]. done.
Qed.

Lemma handle_listen_emits seg c c' : handle_listen seg c = Ok c' -> emits c c'.
Proof.
  unfold handle_listen. destruct (syn _); [|by intros [= <-]; apply emits_refl].
  intros H. split_binds H. subst c'. apply recv_segment_sides in E as (_ & Ho & _).
  apply maybe_ack_sides in E0 as (_ & Ho').
  eapply (emits_trans _ (updateOutput (fill c1))); [|apply emits_reply..].
  eapply emits_after; [|apply emits_update]. cbn. by rewrite <- Ho, <- Ho'.
Qed.

(** The part of [handle_SYN_recv] after the acknowledgment has been handled. *)
Definition finish_SYN_recv (seg : TCPSegment) (c : TCPConnection) : TCPConnection :=
  let c := if (0 <? length_in_sequence_space seg) && out_empty c
           then updateOutput (send_empty c) else c in
  if receiver_FIN_recv c then
    let c := if negb (_finSent (unAckQueue (_sender c)))
             then c <| _linger_after_streams_finish := false |>
             else c <| _time_wait := true |> in
    if out_empty c then updateOutput (send_empty c) else c
  else c.

Lemma handle_SYN_recv_eq seg c :
  syn (_header seg) = false ->
  handle_SYN_recv seg c =
    c ← (if negb (length_in_sequence_space seg =? 0) then recv_segment seg c else Ok c);
    c ← (if ack (_header seg) then c ← recv_ack (_header seg) c; Ok (updateOutput (fill c)) else Ok c);
    Ok (finish_SYN_recv seg c).
Proof.
  intros Hs. unfold handle_SYN_recv. rewrite Hs.
  destruct (if negb _ then _ else _) as [c1|]; cbn [mbind outcome_bind]; [|done].
  destruct (if ack _ then _ else _) as [c2|]; cbn [mbind outcome_bind]; [|done].
  unfold finish_SYN_recv. by destruct (receiver_FIN_recv _).
Qed.

Lemma finish_SYN_recv_emits seg c :
  emits c (finish_SYN_recv seg c) /\ _receiver (finish_SYN_recv seg c) = _receiver c.
Proof.
  unfold finish_SYN_recv. set (b := (_ <? _) && _). destruct (emits_reply c b) as [E1 R1].
  set (c1 := if b then _ else c) in *. clearbody c1.
  destruct (receiver_FIN_recv c1); [|done].
  set (c2 := if negb _ then c1 <| _linger_after_streams_finish := _ |> else _).
  assert (_receiver c2 = _receiver c1 /\ segments_out c2 = segments_out c1) as [R2 O2].
  { unfold c2. by destruct (negb _). }
  clearbody c2. destruct (emits_reply c2 (out_empty c2)) as [E3 R3].
  split; [|congruence]. eapply emits_trans; [exact E1| |congruence].
  by eapply emits_after.
Qed.

Lemma handle_SYN_recv_emits seg c c' : handle_SYN_recv seg c = Ok c' -> emits c c'.
Proof.
  destruct (syn (_header seg)) eqn:Es.
  { unfold handle_SYN_recv. rewrite Es. intros [= <-]. by apply emits_refl. }
  rewrite handle_SYN_recv_eq by done. intros H. split_binds H. subst c'.
  assert (Ho : segments_out c0 = segments_out c).
  { destruct (negb _); [|by apply Ok_inj in E as ->]. by apply recv_segment_sides in E as (_ & ? & _). }
  eapply emits_after; [exact Ho|].
  eapply emits_trans; [|apply finish_SYN_recv_emits..].
  destruct (ack _); [|apply Ok_inj in E0 as ->; by apply emits_refl].
  split_binds E0. subst c1. apply recv_ack_sides in E1 as (_ & E1 & _).
  eapply emits_after; [|apply emits_update]. exact E1.
Qed.

Lemma segment_received_emits seg c c' : segment_received seg c = Ok c' -> emits c c'.
Proof.
  unfold segment_received. destruct (negb _); [intros [= <-]; by apply emits_refl|].
  set (c0 := c <| _time_since_last_segment_received := 0 |>). intros H.
  eapply (emits_after _ c0); [done|]. clearbody c0.
  destruct (out_of_order seg c0); [by apply handle_out_of_order_emits in H|].
  destruct (rst _); [apply Ok_inj in H as <-; by apply emits_refl|].
  destruct (receiver_FIN_recv c0); [by apply handle_FIN_recv_emits in H|].
  destruct (receiver_in_listen c0); [by apply handle_listen_emits in H|by apply handle_SYN_recv_emits in H].
Qed.

(** Replies *)

Lemma emits_nonempty c c' : emits c c' -> segments_out c <> [] -> segments_out c' <> [].
Proof. intros (l & -> & _) H E. by apply app_eq_nil in E as [? _]. Qed.

Lemma update_nonempty c : segQueueFromSender c <> [] -> segments_out (updateOutput c) <> [].
Proof.
  intros H. unfold updateOutput, segments_out. cbn. destruct (segQueueFromSender c); [done|].
  by destruct (_segments_out c).
Qed.

Lemma send_empty_nonempty c : segments_out (updateOutput (send_empty c)) <> [].
Proof.
  apply update_nonempty. unfold segQueueFromSender. cbn. by destruct (TCPSender._segments_out _).
Qed.

Lemma handle_out_of_order_replies seg c c' :
  handle_out_of_order seg c = Ok c' -> segments_out c' <> [].
Proof.
  unfold handle_out_of_order. intros H. split_binds H. subst c'.
  unfold queue_empty. case_bool_decide; [apply send_empty_nonempty|by apply update_nonempty].
Qed.

Lemma handle_SYN_recv_replies seg c c' :
  syn (_header seg) = false -> 0 < length_in_sequence_space seg ->
  handle_SYN_recv seg c = Ok c' -> segments_out c' <> [].
Proof.
  intros Hs Hl. rewrite handle_SYN_recv_eq by done. intros H. split_binds H. subst c'.
  unfold finish_SYN_recv. rewrite (proj2 (Z.ltb_lt _ _) Hl). cbn [andb].
  set (c2 := if out_empty c1 then _ else c1).
  assert (H2 : segments_out c2 <> []).
  { unfold c2, out_empty. case_bool_decide as Ho; [apply send_empty_nonempty|exact Ho]. }
  clearbody c2. destruct (receiver_FIN_recv c2); [|done].
  destruct (out_empty _); [apply send_empty_nonempty|]. destruct (_finSent _); exact H2.
Qed.

(** What a session hands out. *)
Lemma session_outbound isn pisn S cfg w e sent rd c :
  0 <= recv_capacity cfg -> zlen S + recv_capacity cfg < 0x7fffffff00000000 ->
  is_u64 (send_capacity cfg) -> zlen w < LIMIT ->
  conn_session isn pisn S cfg w e sent rd c ->
  Forall (accurate isn w e) (sent ++ segments_out c) /\ segQueueFromSender c = [].
Proof.
  intros Hc Hb Hs Hl Hse.
  destruct (conn_session_ok isn pisn S _ Hc Hb _ _ _ _ _ _ eq_refl Hs Hse Hl)
    as [(f & r & ps & pe & [I Hi Hh Hend Ho Hr Hsame]) Hq].
  unfold segQueueFromSender in *. by rewrite Hq, app_nil_r in Ho.
Qed.

(** The inbound stream of a session; its error mark comes with the end of the connection. *)
Lemma session_inbound isn pisn S cfg w e sent rd c :
  0 <= recv_capacity cfg -> zlen S + recv_capacity cfg < 0x7fffffff00000000 ->
  is_u64 (send_capacity cfg) -> zlen w < LIMIT ->
  conn_session isn pisn S cfg w e sent rd c ->
  (exists k, 0 <= k <= zlen S /\ rd ++ _buf (inbound_stream c) = ztake k S) /\
  (input_ended (inbound_stream c) = true -> rd ++ _buf (inbound_stream c) = S) /\
  (error (inbound_stream c) = true -> active c = false) /\
  ByteStream.wf (inbound_stream c).
Proof.
  intros Hc Hb Hs Hl Hse.
  destruct (conn_session_ok isn pisn S _ Hc Hb _ _ _ _ _ _ eq_refl Hs Hse Hl)
    as [(f & r & ps & pe & [I Hi Hh He Ho [Hr _ _ _] Hsame]) Hq].
  destruct (session_fifo S _ Hc Hb _ _ _ _ Hr) as [g SI].
  pose proof (session_out _ _ _ _ _ _ _ SI) as Hout. destruct SI as [[C _] _ _ _ Hfin _ Hok].
  pose proof (core_range _ _ _ _ C) as Hk. pose proof (core_out _ _ _ _ C) as R.
  assert (E : _buf (inbound_stream c) = _buf (stream_out r) /\
              input_ended (inbound_stream c) = input_ended (stream_out r) /\
              (error (inbound_stream c) = true -> active c = false) /\ ByteStream.wf (inbound_stream c)).
  { unfold inbound_stream. destruct Hsame as [->|[Hac ->]]; (split_and!; [done|done| |]).
    - unfold error, stream_out, StreamReassembler.stream_out. by rewrite (ref_err _ _ R), Hok.
    - apply R.
    - done.
    - by apply bs_set_error_wf, (ref_wf _ _ R). }
  destruct E as (-> & -> & Herr & Hwf).
  split_and!; [exists (_exIdx (_reassembler r)); split; [lia|exact Hout]| |exact Herr|exact Hwf].
  unfold stream_out, StreamReassembler.stream_out, input_ended in *.
  rewrite (ref_end _ _ R), (core_ended _ _ _ _ C), Hfin.
  intros [_ H2%Z.eqb_eq]%andb_true_iff. rewrite Hout, H2. by apply ztake_ge.
Qed.

(** ** Properties *)

(** C7. A connection is sound in both directions: in every session with its application, owner
    and peer, each segment it hands out, data, acknowledgments and resets alike, is
    accurate for the stream the application wrote; what the application has read and
    can read is a prefix of the peer's stream, and all of it once the inbound stream
    has ended; and nothing is left behind in the sender's own queue. *)
Theorem connection_sound isn pisn S cfg w e sent rd c :
  0 <= recv_capacity cfg -> zlen S + recv_capacity cfg < 0x7fffffff00000000 ->
  is_u64 (send_capacity cfg) -> zlen w < LIMIT ->
  conn_session isn pisn S cfg w e sent rd c ->
  Forall (accurate isn w e) (sent ++ segments_out c) /\
  (exists k, 0 <= k <= zlen S /\ rd ++ _buf (inbound_stream c) = ztake k S) /\
  (input_ended (inbound_stream c) = true -> rd ++ _buf (inbound_stream c) = S) /\
  segQueueFromSender c = [].
Proof.
  intros Hc Hb Hs Hl Hse. pose proof (session_inbound _ _ _ _ _ _ _ _ _ Hc Hb Hs Hl Hse) as (Hk & He & _).
  pose proof (session_outbound _ _ _ _ _ _ _ _ _ Hc Hb Hs Hl Hse) as [Ho Hq]. by split_and!.
Qed.

(** C13. A connection does not fault: in every session, a further segment that is accurate,
    in the window and acceptably acknowledged is handled in whatever state the
    connection is, every tick is, and the destructor can send its reset. *)
Theorem connection_progress isn pisn S cfg w e sent rd c :
  0 <= recv_capacity cfg -> zlen S + recv_capacity cfg < 0x7fffffff00000000 ->
  is_u64 (send_capacity cfg) -> zlen w < LIMIT ->
  conn_session isn pisn S cfg w e sent rd c ->
  (forall seg, (active c = true -> seg_ok pisn S c seg) ->
     exists c', segment_received seg c = Ok c') /\
  (forall n, exists c', tick n c = Ok c') /\
  (exists c', destroy c = Ok c').
Proof.
  intros Hc Hb Hs Hl Hse.
  pose proof (conn_session_ok isn pisn S _ Hc Hb _ _ _ _ _ _ eq_refl Hs Hse Hl) as C.
  split_and!.
  - intros seg Hok. destruct (segment_received_ok isn pisn S _ Hc Hb _ _ _ _ _ seg C Hok)
      as (c' & E & _). by exists c'.
  - intros n. destruct (tick_ok isn pisn S _ _ _ _ _ _ n C) as (c' & E & _). by exists c'.
  - unfold destroy. destruct (active c); [|by exists c].
    rewrite sendRSTSeg_eq. by eexists.
Qed.

(** Whatever is sent in response to a segment carries the state after that segment:
    the handler only appends to the outbound segments, and each segment it appends
    has the receiver's new acknowledgment number and its new window modulo 2^16. *)
Theorem replies_are_stamped seg c c' :
  segment_received seg c = Ok c' ->
  exists segs, segments_out c' = segments_out c ++ segs /\
    Forall (stamped (_receiver c')) segs.
Proof. apply segment_received_emits. Qed.

(** C21. While the inbound stream runs, every segment without RST and SYN that occupies sequence numbers, in
    order or not, is answered: something waits to be sent after it was handled,
    and so it does after an out-of-order segment of at most one number, keep-alives included,
    in whatever state. *)
Theorem segments_are_answered seg c c' :
  active c = true -> syn (_header seg) = false -> rst (_header seg) = false ->
  out_of_order seg c = true \/
    (is_Some (ackno (_receiver c)) /\
     input_ended (inbound_stream c) = false /\ 0 < length_in_sequence_space seg) ->
  segment_received seg c = Ok c' -> segments_out c' <> [].
Proof.
  intros Hac Hsy Hr Hor. unfold active in Hac. unfold segment_received. rewrite Hac. cbn [negb].
  set (c0 := c <| _time_since_last_segment_received := 0 |>).
  change (out_of_order seg c) with (out_of_order seg c0) in Hor.
  change (inbound_stream c) with (inbound_stream c0) in Hor.
  change (_receiver c) with (_receiver c0) in Hor. clearbody c0.
  destruct (out_of_order seg c0); [by apply handle_out_of_order_replies|].
  destruct Hor as [?|(Ha & Hf & Hl)]; [done|]. rewrite Hr.
  unfold receiver_FIN_recv, inbound_stream in *. rewrite Hf.
  unfold receiver_in_listen. rewrite bool_decide_eq_true_2 by done. cbn [negb].
  by apply handle_SYN_recv_replies.
Qed.

(** An out-of-order reset of at most one number is not ignored: it is answered like any other such segment. *)
Lemma stray_reset_answered seg c c' :
  active c = true -> out_of_order seg c = true -> segment_received seg c = Ok c' ->
  segments_out c' <> [] /\ active c' = true.
Proof.
  unfold active, segment_received. intros Ha Ho. rewrite Ha. cbn [negb].
  set (c0 := c <| _time_since_last_segment_received := 0 |>).
  change (out_of_order seg c) with (out_of_order seg c0) in Ho. rewrite Ho. change (_active c) with (_active c0) in Ha.
  clearbody c0. intros E. split; [by eapply handle_out_of_order_replies|].
  unfold handle_out_of_order in E. apply bind_Ok in E as (c1 & (r & _ & [= <-])%bind_Ok & E).
  apply bind_Ok in E as (c2 & E2 & [= <-]). assert (_active c2 = _active c0) as E3.
  { destruct (ack _); [|by injection E2 as <-]. by apply bind_Ok in E2 as (c3 & (x & _ & [= <-])%bind_Ok & [= <-]). }
  destruct (queue_empty _); exact (eq_trans E3 Ha).
Qed.

(** Any other reset kills the connection, whatever its state: also in LISTEN and SYN_SENT, where [ackno] is [None]. *)
Lemma reset_kills seg c :
  active c = true -> rst (_header seg) = true -> out_of_order seg c = false ->
  exists c', segment_received seg c = Ok c' /\ active c' = false /\
    error (inbound_stream c') = true /\ error (stream_in (_sender c')) = true /\
    segments_out c' = segments_out c /\
    (forall seg', segment_received seg' c' = Ok c') /\ (forall n, tick n c' = Ok c').
Proof.
  intros Hac Hr Ho. unfold active in Hac. unfold segment_received at 1. rewrite Hac. cbn [negb].
  set (c0 := c <| _time_since_last_segment_received := 0 |>).
  change (out_of_order seg c) with (out_of_order seg c0) in Ho. rewrite Ho, Hr.
  eexists. split; [done|]. by split_and!.
Qed.

(** C23. Resets, once the peer's SYN has been received: a segment with RST at the expected sequence number
    kills the connection: both streams get the error mark, nothing is sent, and
    from then on neither segments nor ticks change anything; and a bare RST anywhere else, as one who
    guesses at the connection would send it, does not end it. *)
Theorem rst_resets seg c a :
  active c = true -> rst (_header seg) = true -> ackno (_receiver c) = Some a ->
  (seqno (_header seg) = a ->
   exists c', segment_received seg c = Ok c' /\ active c' = false /\
     error (inbound_stream c') = true /\ error (stream_in (_sender c')) = true /\
     segments_out c' = segments_out c /\
     (forall seg', segment_received seg' c' = Ok c') /\ (forall n, tick n c' = Ok c')) /\
  (raw_value (seqno (_header seg)) <> raw_value a -> syn (_header seg) = false -> length_in_sequence_space seg <= 1 ->
   forall c', segment_received seg c = Ok c' -> active c' = true).
Proof.
  intros Hac Hr Ha. split.
  - intros Hs. apply reset_kills; [done..|]. unfold out_of_order. rewrite Ha, Hs. unfold WrappingIntegers.neqb, WrappingIntegers.eqb.
    by rewrite Z.eqb_refl.
  - intros Hs Hsy Hl c' E. eapply stray_reset_answered; [done| |exact E]. unfold out_of_order, WrappingIntegers.neqb, WrappingIntegers.eqb.
    by rewrite Ha, (proj2 (Z.eqb_neq _ _) Hs), (proj2 (Z.leb_le _ _) Hl), Hsy.
Qed.

(** C22. The clock: a tick of an active connection adds to the time since the last segment
    and ticks the sender. More than MAX_RETX_ATTEMPTS consecutive retransmissions leave a single
    RST segment to send and reset both streams; else both streams are as they were, whatever the sender retransmits
    waits to be sent behind what did, and the connection stays active unless TIME_WAIT (entered
    with [_time_wait]) has lasted ten initial timeouts without a segment, which ends it cleanly. *)
Theorem tick_decides isn pisn S cfg w e sent rd c n :
  0 <= recv_capacity cfg -> zlen S + recv_capacity cfg < 0x7fffffff00000000 ->
  is_u64 (send_capacity cfg) -> zlen w < LIMIT ->
  conn_session isn pisn S cfg w e sent rd c -> active c = true ->
  let elapsed := u64 (time_since_last_segment_received c + n) in
  exists s c', TCPSender.tick n (_sender c) = Ok s /\ tick n c = Ok c' /\
    time_since_last_segment_received c' = elapsed /\
    if MAX_RETX_ATTEMPTS <? consecutive_retransmissions s then
      active c' = false /\ error (inbound_stream c') = true /\
      error (stream_in (_sender c')) = true /\
      exists seg, segments_out c' = [seg] /\ rst (_header seg) = true /\ length_in_sequence_space seg = 0
    else
      _receiver c' = _receiver c /\ stream_in (_sender c') = stream_in (_sender c) /\
      unAckQueue (_sender c') = unAckQueue s /\ timer (_sender c') = timer s /\
      segments_out c' = segments_out c ++ (stamp (_receiver c) <$> TCPSender._segments_out s) /\
      active c' = negb (_time_wait c && (10 * rt_timeout (_cfg c) <=? elapsed)).
Proof.
  intros Hc Hb Hs Hl Hse Hac elapsed.
  pose proof (conn_session_ok isn pisn S _ Hc Hb _ _ _ _ _ _ eq_refl Hs Hse Hl)
    as [(f & r & ps & pe & [I _ _ _ _ _ _]) _].
  destruct (tick_spec n (_sender c) f I) as (s & segs & E & _).
  unfold active in Hac. unfold tick. rewrite Hac. cbn [negb].
  fold (time_since_last_segment_received c) elapsed. cbn [_sender upd eta eta_TCPConnection].
  exists s. rewrite E. cbn [mbind outcome_bind].
  set (c1 := updateOutput _).
  change (consecutive_retransmissions (_sender c1)) with (consecutive_retransmissions s).
  destruct (_ <? _).
  - rewrite sendRSTSeg_eq. cbn [mbind outcome_bind]. eexists. split_and!; try done.
    by exists (rst_segment (rst_seqno c1)).
  - change (_time_wait c1) with (_time_wait c). change (_cfg c1) with (_cfg c).
    change (_time_since_last_segment_received c1) with elapsed.
    pose proof (tick_stream _ _ _ E) as Hst. destruct (_ && _); eexists; by split_and!.
Qed.

(** Data that arrives again after the peer's FIN gets no acknowledgment: a segment
    of two or more bytes without FIN leaves the outbound segments alone when both
    streams linger, so a peer that lost the acknowledgments retransmits it in vain. *)
Theorem data_after_fin_unanswered isn pisn S cfg w e sent rd c seg :
  0 <= recv_capacity cfg -> zlen S + recv_capacity cfg < 0x7fffffff00000000 ->
  is_u64 (send_capacity cfg) -> zlen w < LIMIT ->
  conn_session isn pisn S cfg w e sent rd c ->
  seg_ok pisn S c seg -> input_ended (inbound_stream c) = true ->
  _linger_after_streams_finish c = true -> 1 < length_in_sequence_space seg ->
  fin (_header seg) = false -> rst (_header seg) = false ->
  exists c', segment_received seg c = Ok c' /\ segments_out c' = segments_out c.
Proof.
  intros Hc Hb Hs Hl Hse Hok Hf Hli Hlen Hfi Hr.
  pose proof (conn_session_ok isn pisn S _ Hc Hb _ _ _ _ _ _ eq_refl Hs Hse Hl) as C.
  destruct (segment_received_ok isn pisn S _ Hc Hb _ _ _ _ _ seg C (fun _ => Hok)) as (c' & E & _).
  exists c'. split; [done|]. revert E. unfold segment_received.
  destruct (negb _); [by intros [= <-]|].
  set (c0 := c <| _time_since_last_segment_received := 0 |>).
  change (segments_out c) with (segments_out c0). change (_linger_after_streams_finish c) with
    (_linger_after_streams_finish c0) in Hli.
  change (inbound_stream c) with (inbound_stream c0) in Hf. clearbody c0.
  assert (out_of_order seg c0 = false) as ->.
  { unfold out_of_order. destruct (ackno _); [|done].
    rewrite (proj2 (Z.leb_gt _ _) Hlen), andb_false_r. done. }
  rewrite Hr. unfold receiver_FIN_recv, inbound_stream in *. rewrite Hf.
  unfold handle_FIN_recv. destruct (syn _); [by intros [= <-]|]. rewrite Hli, Hfi. cbn [negb].
  intros E. split_binds E. subst c'. by apply maybe_ack_sides in E0 as (_ & ?).
Qed.

(** A repeated SYN is not answered either: once the peer's SYN is received, its
    retransmission (the SYN+ACK a server repeats when the last acknowledgment of the handshake was
    lost) leaves the whole connection as it was but for the time of the last segment. *)
Theorem repeated_syn_unanswered seg c :
  active c = true -> syn (_header seg) = true -> rst (_header seg) = false ->
  is_Some (ackno (_receiver c)) ->
  segment_received seg c = Ok (c <| _time_since_last_segment_received := 0 |>).
Proof.
  intros Hac Hs Hr [a Ha]. unfold active in Hac. unfold segment_received. rewrite Hac. cbn [negb].
  set (c0 := c <| _time_since_last_segment_received := 0 |>).
  change (_receiver c) with (_receiver c0) in Ha. clearbody c0.
  unfold out_of_order. rewrite Ha, Hs, andb_false_r, Hr.
  unfold handle_FIN_recv, handle_SYN_recv, receiver_in_listen. rewrite Hs, Ha.
  rewrite bool_decide_eq_true_2 by done. cbn [negb]. by destruct (receiver_FIN_recv c0).
Qed.

(** ** The handshake

    Two fresh connections and a network that loses nothing. *)

(** The owner hands every outbound segment of [c] to [d], in order. *)
Definition deliver (c d : TCPConnection) : outcome (TCPConnection * TCPConnection) :=
  d ← foldl (fun d seg => d ← d; segment_received seg d) (Ok d) (segments_out c);
  Ok (drain c, d).

(** The client connects; SYN, SYN+ACK and ACK are delivered. *)
Definition handshake (client server : TCPConnection)
  : outcome (TCPConnection * TCPConnection) :=
  '(client, server) ← deliver (connect client) server;
  '(server, client) ← deliver server client;
  deliver client server.

Definition isn_of (rnd : Z) (cfg : TCPConfig) : WrappingInt32 :=
  TCPSender._isn (_sender (new rnd cfg)).

(** A connection during the handshake, after its SYN was sent. *)
Definition shaking (cfg : TCPConfig) (i : WrappingInt32) (r : TCPReceiver) (t : Timer)
    (acked : bool) (win : Z) (out : list TCPSegment) : TCPConnection :=
  mkTCPConnection cfg r
    (mkTCPSender t i (ByteStream.new (send_capacity cfg)) []
       (mkUnAckQueue [] [] true acked false false (if acked then 1 else 0) 1 win))
    out true true 0 false.

Definition syn_received (cfg : TCPConfig) (i : WrappingInt32) : TCPReceiver :=
  mkTCPReceiver (StreamReassembler.new (recv_capacity cfg)) true (wrap 0 i) (wrap 1 (wrap 0 i))
    (recv_capacity cfg).
Definition syn_timer (cfg : TCPConfig) : Timer := Timer.startTimer (Timer.new (rt_timeout cfg)).
Definition acked_timer (win : Z) (cfg : TCPConfig) : Timer :=
  Timer.stopTimer ((syn_timer cfg) <| _doubleTimeout := negb (win =? 0) |>).
Definition syn_segment (i : WrappingInt32) : TCPSegment :=
  headerSeg (TCPHeader.default <| seqno := wrap 0 i |> <| syn := true |>).
Definition ack_segment (i : WrappingInt32) : TCPSegment :=
  headerSeg (TCPHeader.default <| seqno := wrap 1 i |>).
(** The window field of the first reply of a receiver of this capacity. *)
Definition first_win (cfg : TCPConfig) : Z := u16 (u64 (recv_capacity cfg)).

Lemma first_win_eq cfg i : u16 (window_size (syn_received cfg i)) = first_win cfg.
Proof. unfold window_size, first_win. cbn. by rewrite Z.sub_0_r. Qed.

Lemma connect_new rnd cfg :
  connect (new rnd cfg) =
    shaking cfg (isn_of rnd cfg) (TCPReceiver.new (recv_capacity cfg)) (syn_timer cfg) false 1
      [syn_segment (isn_of rnd cfg)].
Proof. reflexivity. Qed.

Lemma listen_syn rnd cfg j :
  segment_received (syn_segment j) (new rnd cfg) =
    Ok (shaking cfg (isn_of rnd cfg) (syn_received cfg j) (syn_timer cfg) false 1
          [stamp (syn_received cfg j) (syn_segment (isn_of rnd cfg))]).
Proof. reflexivity. Qed.

Lemma wrap_wrap_0 x i : wrap x (wrap 0 i) = wrap x i.
Proof. unfold wrap, add. cbn [raw_value]. f_equal. ulia. Qed.

(** The acknowledgment of the SYN. *)
Lemma recv_ack_syn cfg cfg' i r out h :
  TCPHeader.ackno h = wrap 1 (wrap 0 i) -> win h = first_win cfg' ->
  recv_ack h (shaking cfg i r (syn_timer cfg) false 1 out) =
    Ok (shaking cfg i r (acked_timer (first_win cfg') cfg) true (Z.max 1 (first_win cfg')) out).
Proof.
  intros Ea Ew. unfold recv_ack, ack_received. rewrite Ea, Ew, wrap_wrap_0. cbn [_sender shaking].
  cbn [TCPSender._isn unAckQueue setWindowSize upd eta eta_TCPSender eta_UnAckQueue _baseSqn].
  rewrite unwrap_first by lia.
  assert (E : (if 0 <? first_win cfg' then first_win cfg' else 1) = Z.max 1 (first_win cfg')).
  { destruct (Z.ltb_spec 0 (first_win cfg')); lia. }
  rewrite E. reflexivity.
Qed.

(** Nothing to send. *)
Lemma fill_acked cfg i r t win out :
  fill (shaking cfg i r t true win out) = shaking cfg i r t true win out.
Proof.
  unfold fill, on_sender. cbn [_sender shaking]. set (s := mkTCPSender _ _ _ _ _).
  assert (fill_window s = s) as ->; [|done].
  transitivity (fill_loop 2 s); [reflexivity|]. rewrite fill_loop_S.
  change (hasContentToPush s) with false. by rewrite andb_false_r.
Qed.

Lemma client_synack cfg cfg' i j :
  segment_received (stamp (syn_received cfg' i) (syn_segment j))
    (shaking cfg i (TCPReceiver.new (recv_capacity cfg)) (syn_timer cfg) false 1 []) =
  Ok (shaking cfg i (syn_received cfg j) (acked_timer (first_win cfg') cfg) true
        (Z.max 1 (first_win cfg')) [stamp (syn_received cfg j) (ack_segment i)]).
Proof.
  set (seg := stamp _ _). set (c := shaking _ _ _ _ _ _ _).
  transitivity (handle_listen seg c); [reflexivity|].
  unfold handle_listen. change (syn (_header seg)) with true. cbv iota.
  change (recv_segment seg c) with
    (Ok (shaking cfg i (syn_received cfg j) (syn_timer cfg) false 1 [])).
  cbn [mbind outcome_bind]. change (ack (_header seg)) with true. cbv iota.
  rewrite (recv_ack_syn cfg cfg') by (done || exact (first_win_eq cfg' i)).
  cbn [mbind outcome_bind]. rewrite fill_acked. reflexivity.
Qed.

Lemma segment_received_running seg c :
  _active c = true -> _time_since_last_segment_received c = 0 -> out_of_order seg c = false ->
  rst (_header seg) = false -> receiver_FIN_recv c = false -> receiver_in_listen c = false ->
  segment_received seg c = handle_SYN_recv seg c.
Proof.
  intros Ha Ht Ho Hr Hf Hl. unfold segment_received. rewrite Ha. cbn [negb].
  assert (c <| _time_since_last_segment_received := 0 |> = c) as ->.
  { destruct c; cbn in Ht |- *. by rewrite Ht. }
  by rewrite Ho, Hr, Hf, Hl.
Qed.

(** A bare acknowledgment while the inbound stream runs. *)
Lemma handle_SYN_recv_bare seg c c' :
  syn (_header seg) = false -> length_in_sequence_space seg = 0 -> ack (_header seg) = true ->
  recv_ack (_header seg) c = Ok c' -> receiver_FIN_recv (updateOutput (fill c')) = false ->
  handle_SYN_recv seg c = Ok (updateOutput (fill c')).
Proof.
  intros Hs Hl Ha E Hf. rewrite handle_SYN_recv_eq, Hl, Ha by done. cbn [Z.eqb negb mbind outcome_bind].
  rewrite E. cbn [mbind outcome_bind]. unfold finish_SYN_recv. rewrite Hl. cbn [Z.ltb Z.compare andb].
  by rewrite Hf.
Qed.

Lemma server_ack cfg cfg' i j :
  segment_received (stamp (syn_received cfg' i) (ack_segment j))
    (shaking cfg i (syn_received cfg j) (syn_timer cfg) false 1 []) =
  Ok (shaking cfg i (syn_received cfg j) (acked_timer (first_win cfg') cfg) true
        (Z.max 1 (first_win cfg')) []).
Proof.
  rewrite segment_received_running; try reflexivity.
  - rewrite (handle_SYN_recv_bare _ _ (shaking cfg i (syn_received cfg j)
      (acked_timer (first_win cfg') cfg) true (Z.max 1 (first_win cfg')) [])); try reflexivity.
    + by rewrite fill_acked.
    + apply (recv_ack_syn cfg cfg'); [done|exact (first_win_eq cfg' i)].
  - unfold out_of_order, ackno. cbn [_receiver shaking syn_received _synRecv _ackno].
    assert (seqno (_header (stamp (syn_received cfg' i) (ack_segment j))) = wrap 1 j) as -> by done.
    rewrite wrap_wrap_0. unfold WrappingIntegers.neqb, WrappingIntegers.eqb. by rewrite Z.eqb_refl.
Qed.

Lemma deliver_one c d seg d' :
  segments_out c = [seg] -> segment_received seg d = Ok d' -> deliver c d = Ok (drain c, d').
Proof. intros E1 E2. unfold deliver. rewrite E1. cbn. by rewrite E2. Qed.

Lemma handshake_steps c s c1 s1 c2 s2 x y z :
  connect c = c1 -> segments_out c1 = [x] -> segment_received x s = Ok s1 ->
  segments_out s1 = [y] -> segment_received y (drain c1) = Ok c2 ->
  segments_out c2 = [z] -> segment_received z (drain s1) = Ok s2 ->
  handshake c s = Ok (drain c2, s2).
Proof.
  intros <- E2 E3 E4 E5 E6 E7. unfold handshake.
  rewrite (deliver_one _ _ _ _ E2 E3). cbn [mbind outcome_bind].
  rewrite (deliver_one _ _ _ _ E4 E5). cbn [mbind outcome_bind].
  exact (deliver_one _ _ _ _ E6 E7).
Qed.

Lemma drain_shaking cfg i r t acked win out :
  drain (shaking cfg i r t acked win out) = shaking cfg i r t acked win [].
Proof. done. Qed.

Lemma segments_out_shaking cfg i r t acked win out :
  segments_out (shaking cfg i r t acked win out) = out.
Proof. done. Qed.

Lemma handshake_eq rnd cfg rnd' cfg' :
  handshake (new rnd cfg) (new rnd' cfg') =
    Ok (shaking cfg (isn_of rnd cfg) (syn_received cfg (isn_of rnd' cfg'))
          (acked_timer (first_win cfg') cfg) true (Z.max 1 (first_win cfg')) [],
        shaking cfg' (isn_of rnd' cfg') (syn_received cfg' (isn_of rnd cfg))
          (acked_timer (first_win cfg) cfg') true (Z.max 1 (first_win cfg)) []).
Proof.
  erewrite handshake_steps;
    [|apply connect_new|apply segments_out_shaking|apply listen_syn|apply segments_out_shaking
    |rewrite drain_shaking; apply client_synack|apply segments_out_shaking
    |rewrite drain_shaking; apply server_ack].
  by rewrite drain_shaking.
Qed.

(** C11. The three-way handshake: whatever the configurations and initial sequence numbers of
    two fresh connections, delivering the SYN of one, the reply and the reply to
    that leaves both in ESTABLISHED, with nothing in flight, nothing to send, each
    expecting the other's next sequence number, and each with the other's capacity modulo 2^16 as its
    window (0 counts as 1). *)
Theorem handshake_establishes rnd cfg rnd' cfg' :
  exists a b, handshake (new rnd cfg) (new rnd' cfg') = Ok (a, b) /\
    state a = TCPState.of_state TCPState.ESTABLISHED /\
    state b = TCPState.of_state TCPState.ESTABLISHED /\
    bytes_in_flight a = 0 /\ bytes_in_flight b = 0 /\ segments_out a = [] /\ segments_out b = [] /\
    ackno (_receiver a) = Some (TCPSender.next_seqno (_sender b)) /\
    ackno (_receiver b) = Some (TCPSender.next_seqno (_sender a)) /\
    _win_size (unAckQueue (_sender a)) = Z.max 1 (recv_capacity cfg' mod 0x10000) /\
    _win_size (unAckQueue (_sender b)) = Z.max 1 (recv_capacity cfg mod 0x10000).
Proof.
  rewrite handshake_eq. eexists _, _. split; [done|].
  assert (F : forall k, first_win k = recv_capacity k mod 0x10000) by (intros k; unfold first_win; ulia).
  rewrite <- !F. split_and!; try reflexivity.
  - change (Some (wrap 1 (wrap 0 (isn_of rnd' cfg'))) = Some (wrap 1 (isn_of rnd' cfg'))).
    by rewrite wrap_wrap_0.
  - change (Some (wrap 1 (wrap 0 (isn_of rnd cfg))) = Some (wrap 1 (isn_of rnd cfg))).
    by rewrite wrap_wrap_0.
Qed.

(** The window field is the receiver's window cut to 16 bits, not limited to them: a server
    whose whole capacity, a positive multiple of 2^16, is free answers a SYN with
    window 0. *)
Theorem large_window_advertised_as_zero rnd cfg j k :
  0 < k < 0x1000000000000 -> recv_capacity cfg = k * 0x10000 ->
  exists c seg, segment_received (syn_segment j) (new rnd cfg) = Ok c /\
    segments_out c = [seg] /\ ack (_header seg) = true /\ win (_header seg) = 0 /\
    window_size (_receiver c) = k * 0x10000.
Proof.
  intros Hk Hc. rewrite listen_syn. eexists _, _. split; [done|]. split; [done|]. split; [done|].
  split.
  - transitivity (first_win cfg); [exact (first_win_eq cfg j)|]. unfold first_win. rewrite Hc. ulia.
  - unfold window_size. cbn. rewrite Z.sub_0_r, Hc. apply u64_id. lia.
Qed.

(** ** A concrete session

    The client of ISN 1000 connects, writes "abcd" and ends its stream; its peer of
    ISN 2000 sends "xy" and FIN. *)

Definition demo_isn : WrappingInt32 := mkWrappingInt32 1000.
Definition demo_pisn : WrappingInt32 := mkWrappingInt32 2000.
Definition demo_peer : bytes := [x78; x79].
Definition demo_cfg : TCPConfig := mkTCPConfig 1000 16 16 (Some demo_isn).
Definition demo_header (i a : Z) : TCPHeader :=
  TCPHeader.default <| seqno := wrap i demo_pisn |> <| ack := true |>
    <| TCPHeader.ackno := wrap a demo_isn |> <| win := 100 |>.
Definition demo_synack : TCPSegment := headerSeg ((demo_header 0 1) <| syn := true |>).
Definition demo_data : TCPSegment := mkTCPSegment (demo_header 1 5) (of_string demo_peer).
Definition demo_fin : TCPSegment := headerSeg ((demo_header 3 5) <| fin := true |>).
Definition demo_rst : TCPSegment := headerSeg ((demo_header 3 5) <| rst := true |>).
Definition demo_abcd : bytes := [x61; x62; x63; x64].

Definition demo_recv (seg : TCPSegment) (c : TCPConnection) : TCPConnection :=
  match segment_received seg c with Ok c' => c' | Fault _ => c end.
Definition demo_c1 : TCPConnection := connect (new 0 demo_cfg).
Definition demo_c2 : TCPConnection := demo_recv demo_synack demo_c1.
Definition demo_c3 : TCPConnection := snd (write demo_abcd demo_c2).
Definition demo_c4 : TCPConnection := demo_recv demo_data demo_c3.
Definition demo_c5 : TCPConnection := end_input_stream demo_c4.
Definition demo_c6 : TCPConnection := demo_recv demo_fin demo_c5.

Definition demo_session := conn_session demo_isn demo_pisn demo_peer demo_cfg.

Lemma demo_recv_session w e sent rd c seg :
  demo_session w e sent rd c -> seg_ok demo_pisn demo_peer c seg ->
  segment_received seg c = Ok (demo_recv seg c) -> demo_session w e sent rd (demo_recv seg c).
Proof. intros Hs Hok. by apply (conn_segment _ _ _ _ w e sent rd c seg). Qed.

Lemma demo_session_c2 : demo_session [] false [] [] demo_c2.
Proof.
  apply demo_recv_session; [|split; [|split]|by vm_compute].
  - by apply conn_connect, conn_new.
  - left. exists 0. left. split; [split_and!|..]; by vm_compute.
  - by vm_compute.
  - intros _. exists 1. split_and!; try (by vm_compute). intros _. left. split; [by vm_compute|by left].
Qed.

Lemma demo_session_c3 : demo_session demo_abcd false [] [] demo_c3.
Proof. exact (conn_write _ _ _ _ [] false [] [] demo_c2 demo_abcd demo_session_c2). Qed.

(** Acknowledging all of "abcd". *)
Lemma demo_ack5 c :
  TCPSender._isn (_sender c) = demo_isn ->
  _baseSqn (unAckQueue (_sender c)) = 1 \/ _baseSqn (unAckQueue (_sender c)) = 5 ->
  5 <= _next_seqno (unAckQueue (_sender c)) ->
  zsum (take 1 (_unAckedPayloadSize (unAckQueue (_sender c)))) = 4 \/
    _baseSqn (unAckQueue (_sender c)) = 5 ->
  ack_ok (_sender c) (wrap 5 demo_isn) 5.
Proof.
  intros Hi Hb Hn Hz. unfold ack_ok. rewrite Hi. split_and!; try done; try lia.
  intros Hlt. left. split; [done|]. right; right; left. exists 1%nat. lia.
Qed.

Lemma demo_session_c4 : demo_session demo_abcd false [] [] demo_c4.
Proof.
  apply demo_recv_session; [apply demo_session_c3|split; [|split]|by vm_compute].
  - left. exists 0. left. split; [split_and!|..]; by vm_compute.
  - by vm_compute.
  - intros _. exists 5. apply demo_ack5; [|left|..|left]; by vm_compute.
Qed.

Lemma demo_session_c5 : demo_session demo_abcd true [] [] demo_c5.
Proof. apply (conn_end _ _ _ _ demo_abcd false), demo_session_c4. Qed.

Lemma demo_session_c6 : demo_session demo_abcd true [] [] demo_c6.
Proof.
  apply demo_recv_session; [apply demo_session_c5|split; [|split]|by vm_compute].
  - left. exists 2. left. split; [split_and!|..]; by vm_compute.
  - by vm_compute.
  - intros _. exists 5. apply demo_ack5; [|right|..|right]; by vm_compute.
Qed.

(** The retransmitted "xy". *)
Lemma demo_data_ok : seg_ok demo_pisn demo_peer demo_c6 demo_data.
Proof.
  split; [|split].
  - left. exists 0. left. split; [split_and!|..]; by vm_compute.
  - by vm_compute.
  - intros _. exists 5. apply demo_ack5; [|right|..|right]; by vm_compute.
Qed.

Lemma connection_sound_witness :
  length (segments_out demo_c6) = 3%nat /\ _buf (inbound_stream demo_c6) = demo_peer /\
  Forall (accurate demo_isn demo_abcd true) ([] ++ segments_out demo_c6) /\
  (exists k, 0 <= k <= 2 /\ [] ++ _buf (inbound_stream demo_c6) = ztake k demo_peer) /\
  (input_ended (inbound_stream demo_c6) = true -> [] ++ _buf (inbound_stream demo_c6) = demo_peer) /\
  segQueueFromSender demo_c6 = [].
Proof.
  split; [by vm_compute|]. split; [by vm_compute|].
  apply (connection_sound demo_isn demo_pisn demo_peer demo_cfg demo_abcd true [] [] demo_c6);
    [by vm_compute|by vm_compute|by vm_compute|by vm_compute|apply demo_session_c6].
Defined.

Lemma connection_progress_witness :
  (exists c', segment_received demo_data demo_c6 = Ok c') /\
  (exists c', tick 5 demo_c6 = Ok c') /\ (exists c', destroy demo_c6 = Ok c').
Proof.
  destruct (connection_progress demo_isn demo_pisn demo_peer demo_cfg demo_abcd true [] [] demo_c6)
    as (H1 & H2 & H3);
    [by vm_compute|by vm_compute|by vm_compute|by vm_compute|apply demo_session_c6|].
  split; [apply H1; intros _; apply demo_data_ok|]. by split.
Defined.

Lemma replies_are_stamped_witness :
  exists segs, segments_out demo_c4 = segments_out demo_c3 ++ segs /\
    Forall (stamped (_receiver demo_c4)) segs.
Proof. apply (replies_are_stamped demo_data demo_c3 demo_c4). by vm_compute. Defined.

Lemma segments_are_answered_witness : segments_out (demo_recv demo_data (drain demo_c3)) <> [].
Proof.
  apply (segments_are_answered demo_data (drain demo_c3)); [by vm_compute..| |by vm_compute].
  right. split_and!; [by eexists|by vm_compute|by vm_compute].
Defined.

Lemma rst_resets_witness :
  exists c', segment_received demo_rst demo_c5 = Ok c' /\ active c' = false /\
    error (inbound_stream c') = true /\ error (stream_in (_sender c')) = true /\
    segments_out c' = segments_out demo_c5 /\
    (forall seg', segment_received seg' c' = Ok c') /\ (forall n, tick n c' = Ok c').
Proof.
  destruct (ackno (_receiver demo_c5)) as [a|] eqn:Ea; [|by vm_compute in Ea].
  apply (rst_resets demo_rst demo_c5 a); [by vm_compute..|exact Ea|]. vm_compute in Ea. by injection Ea as <-.
Defined.

(** TIME_WAIT is over although the client's FIN is not acknowledged. *)
Lemma tick_decides_witness :
  exists c', tick 10000 demo_c6 = Ok c' /\ active c' = false /\
    _finAcked (unAckQueue (_sender c')) = false.
Proof.
  destruct (tick_decides demo_isn demo_pisn demo_peer demo_cfg demo_abcd true [] [] demo_c6 10000)
    as (s & c' & E1 & E2 & _); [by vm_compute..|apply demo_session_c6|by vm_compute|].
  exists c'. split; [exact E2|].
  assert (E3 : Ok c' = tick 10000 demo_c6) by done. clear -E3. vm_compute in E3.
  injection E3 as ->. by vm_compute.
Defined.

Lemma data_after_fin_unanswered_witness :
  exists c', segment_received demo_data demo_c6 = Ok c' /\
    segments_out c' = segments_out demo_c6.
Proof.
  apply (data_after_fin_unanswered demo_isn demo_pisn demo_peer demo_cfg demo_abcd true [] [] demo_c6);
    [by vm_compute..|apply demo_session_c6|apply demo_data_ok|by vm_compute|by vm_compute
    |by vm_compute|by vm_compute|by vm_compute].
Defined.

Lemma repeated_syn_unanswered_witness :
  segment_received demo_synack demo_c2 =
    Ok (demo_c2 <| _time_since_last_segment_received := 0 |>).
Proof. apply repeated_syn_unanswered; [by vm_compute..|by eexists]. Defined.

Lemma large_window_advertised_as_zero_witness :
  exists c seg, segment_received (syn_segment demo_pisn)
      (new 0 (demo_cfg <| recv_capacity := 65536 |>)) = Ok c /\
    segments_out c = [seg] /\ ack (_header seg) = true /\ win (_header seg) = 0 /\
    window_size (_receiver c) = 1 * 0x10000.
Proof. apply large_window_advertised_as_zero; [lia|by vm_compute]. Defined.
