(* ===== verification/Handlers.v ===== *)
(** * Handlers: what [segment_received] makes of a connection

    One description of all the paths through [segment_received] for a connection whose peer has
    sent SYN, for a segment without RST: the acknowledgment is heard, then the
    window may be filled, and replies are appended to the outbound segments. *)

From S2P Require Import Prelude WrappingIntegers ByteStream Buffer.
From S2P Require Import TCPHeader TCPSegment TCPConfig TCPState StreamReassembler TCPReceiver TCPSender TCPConnection.
Implicit Types (c : TCPConnection) (s : TCPSender) (seg : TCPSegment) (r : TCPReceiver).

(** A sender without the segments that wait in its queue. *)
Definition silent s : TCPSender := s <| TCPSender._segments_out := [] |>.

(** What [send_empty_segment] makes of [s], without payload, SYN and FIN, once [updateOutput] has stamped it. *)
Definition blank r s seg : Prop := seg = stamp r (headerSeg (TCPHeader.default <| seqno := next_seqno s |>)).

(** A segment out of the queue of [s], or a blank one of [s] or of [s0]. *)
Definition made r s0 s seg : Prop :=
  blank r s0 seg \/ blank r s seg \/ exists seg0, seg0 ∈ TCPSender._segments_out s /\ seg = stamp r seg0.

Definition heard seg s s' : Prop :=
  if syn (_header seg) then s' = s
  else if ack (_header seg) then ack_received (TCPHeader.ackno (_header seg)) (win (_header seg)) s = Ok s'
  else s' = s.

(** Replies and flags. *)
Record quiet c c' : Prop := mk_quiet {
  qt_receiver : _receiver c' = _receiver c;
  qt_active : _active c' = _active c;
  qt_cfg : _cfg c' = _cfg c;
  qt_time : _time_since_last_segment_received c' = _time_since_last_segment_received c;
  qt_sender : silent (_sender c') = silent (_sender c);
  qt_queue : segQueueFromSender c = [] -> segQueueFromSender c' = [];
  qt_out : exists segs, segments_out c' = segments_out c ++ segs /\ Forall (blank (_receiver c) (_sender c)) segs }.

Lemma quiet_refl c : quiet c c.
Proof. split; try done. exists []. by rewrite app_nil_r. Qed.

Lemma quiet_trans c1 c2 c3 : quiet c1 c2 -> quiet c2 c3 -> quiet c1 c3.
Proof.
  intros [r1 a1 g1 t1 s1 q1 (l1 & o1 & b1)] [r2 a2 g2 t2 s2 q2 (l2 & o2 & b2)]. split; try congruence; [auto|].
  exists (l1 ++ l2). rewrite o2, o1, app_assoc. split; [done|]. apply Forall_app.
  assert (E : forall sg, blank (_receiver c2) (_sender c2) sg -> blank (_receiver c1) (_sender c1) sg).
  { unfold blank. intros sg. change (next_seqno (_sender c2)) with (next_seqno (silent (_sender c2))). by rewrite s1, r1. }
  split; [done|]. eapply Forall_impl; [exact b2|exact E].
Qed.

Definition same_flags c c' : Prop :=
  _linger_after_streams_finish c' = _linger_after_streams_finish c /\ _time_wait c' = _time_wait c.

Lemma quiet_reply c (b : bool) :
  segQueueFromSender c = [] -> let c' := if b then updateOutput (send_empty c) else c in quiet c c' /\ same_flags c c'.
Proof.
  intros Hq c'. unfold c'. destruct b; [|by split; [apply quiet_refl|]]. split; [|done]. split; try done.
  exists (stamp (_receiver c) <$> segQueueFromSender (send_empty c)). split; [done|].
  unfold segQueueFromSender in *. cbn. rewrite Hq. by apply Forall_singleton.
Qed.

Lemma silent_eq s : TCPSender._segments_out s = [] -> silent s = s.
Proof. destruct s. cbn. by intros ->. Qed.

Lemma quiet_sender c c' : segQueueFromSender c = [] -> quiet c c' -> _sender c' = _sender c.
Proof.
  intros Hq Q. pose proof (qt_sender _ _ Q) as E. pose proof (qt_queue _ _ Q Hq) as Hq'.
  by rewrite !silent_eq in E.
Qed.

Lemma update_idle c : segQueueFromSender c = [] -> updateOutput c = c.
Proof.
  unfold segQueueFromSender, updateOutput, set_segQueue, segQueueFromSender. intros Hq. rewrite Hq. cbn.
  rewrite app_nil_r. destruct c as [? ? s ? ? ? ? ?]. cbn in *. by destruct s; cbn in *; subst.
Qed.

(** The sender and the outbound segments of [c'], with [s2] after the acknowledgment and the
    window filled when [b]. *)
Definition sends_on c c' (s2 : TCPSender) (b : bool) : Prop :=
  let s3 := if b then fill_window s2 else s2 in
  _sender c' = silent s3 /\ _cfg c' = _cfg c /\
  exists segs, segments_out c' = segments_out c ++ segs /\ Forall (made (_receiver c') (_sender c) s3) segs /\
    Forall (fun sg => stamp (_receiver c') sg ∈ segs) (TCPSender._segments_out s3).

Lemma compose c cb c' s2 (b : bool) :
  (exists pre, segments_out cb = segments_out c ++ pre /\ Forall (blank (_receiver cb) (_sender c)) pre) -> _cfg cb = _cfg c ->
  TCPSender._segments_out s2 = [] ->
  let cc := cb <| _sender := s2 |> in
  quiet (if b then updateOutput (fill cc) else cc) c' -> sends_on c c' s2 b.
Proof.
  intros (pre & Ho & Hpre) Hg H2 cc Q. unfold sends_on.
  assert (Hq : segQueueFromSender (if b then updateOutput (fill cc) else cc) = []) by by destruct b.
  rewrite (quiet_sender _ _ Hq Q). destruct Q as [Hr _ Hcfg _ _ _ (post & Ho' & Hpost)].
  assert (Hb : forall sg, blank (_receiver cb) (_sender (if b then updateOutput (fill cc) else cc)) sg ->
    blank (_receiver cb) (if b then fill_window s2 else s2) sg) by (by destruct b).
  split; [destruct b; [done|by rewrite silent_eq]|]. split; [destruct b; rewrite Hcfg; exact Hg|].
  assert (Hr' : _receiver c' = _receiver cb) by (by destruct b). rewrite Hr'. rewrite Hr in Hr'. rewrite Hr' in Hpost. clear Hr Hr'.
  exists (pre ++ (if b then stamp (_receiver cb) <$> TCPSender._segments_out (fill_window s2) else []) ++ post).
  split; [|split].
  - rewrite Ho'. destruct b; unfold segments_out in *; cbn; by rewrite Ho, <- !app_assoc.
  - rewrite !Forall_app. split_and!.
    + eapply Forall_impl; [exact Hpre|]. intros sg. by left.
    + destruct b; [|constructor]. apply Forall_fmap, Forall_forall. intros sg Hin. right. right. by exists sg.
    + eapply Forall_impl; [exact Hpost|]. intros sg Hs. right. left. by apply Hb.
  - destruct b; [|rewrite H2; constructor]. apply Forall_forall. intros sg Hin.
    rewrite !elem_of_app. right. left. by apply list_elem_of_fmap_2.
Qed.

Lemma heard_queue seg s s' : heard seg s s' -> TCPSender._segments_out s' = TCPSender._segments_out s.
Proof.
  unfold heard. destruct (syn _); [by intros ->|]. destruct (ack _); [|by intros ->].
  intros E. by apply ack_received_out in E.
Qed.

(** How [c] takes FIN in [handle_SYN_recv]. *)
Definition closing (fin_sent : bool) c c' : Prop :=
  if fin_sent then _linger_after_streams_finish c' = _linger_after_streams_finish c /\ _time_wait c' = true
  else _linger_after_streams_finish c' = false /\ _time_wait c' = _time_wait c.

(** All of it.  After FIN nothing reaches the receiver but what is out of order. *)
Record shaped seg c c' (s2 : TCPSender) (b : bool) : Prop := mk_shaped {
  sp_heard : heard seg (_sender c) s2;
  sp_sends : sends_on c c' s2 b;
  sp_time : _time_since_last_segment_received c' = 0 \/
    _time_since_last_segment_received c' = _time_since_last_segment_received c;
  sp_receiver : TCPReceiver.segment_received seg (_receiver c) = Ok (_receiver c') \/
    _receiver c' = _receiver c /\
      (syn (_header seg) = true \/ length_in_sequence_space seg = 0 \/ receiver_FIN_recv c = true);
  sp_fills : syn (_header seg) = false -> ack (_header seg) = true ->
    (receiver_FIN_recv c = true -> _linger_after_streams_finish c = false /\ finAcked s2 = false) ->
    b = true /\ _active c' = true;
  sp_active : receiver_FIN_recv c = false -> _active c' = true;
  sp_flags : receiver_FIN_recv c = true \/ receiver_FIN_recv c' = false -> same_flags c c';
  sp_closing : receiver_FIN_recv c = false -> receiver_FIN_recv c' = true ->
    out_of_order seg c = true \/ closing (_finSent (unAckQueue (_sender c'))) c c';
  sp_replies : syn (_header seg) = false -> receiver_FIN_recv c = false ->
    0 < length_in_sequence_space seg -> segments_out c' <> [];
  sp_over : receiver_FIN_recv c = true -> out_of_order seg c = false -> syn (_header seg) = false ->
    ack (_header seg) = true -> _linger_after_streams_finish c = false -> finAcked s2 = true -> _active c' = false;
  sp_mute : receiver_FIN_recv c = true -> out_of_order seg c = false -> fin (_header seg) = false ->
    TCPSender._segments_out (fill_window s2) = [] -> segments_out c' = segments_out c }.

Lemma shaped_ignored seg c :
  syn (_header seg) = true -> _active c = true -> segQueueFromSender c = [] -> shaped seg c c (_sender c) false.
Proof.
  intros Hs Hac Hq. split; try done; try (intros; congruence).
  - unfold heard. by rewrite Hs.
  - unfold sends_on. change (TCPSender._segments_out (_sender c)) with (segQueueFromSender c).
    rewrite silent_eq by done. split; [done|]. split; [done|]. exists []. rewrite app_nil_r, Hq. by split_and!.
  - by right.
  - right. split; [done|by left].
Qed.

Lemma recv_segment_eq seg c c' :
  recv_segment seg c = Ok c' ->
  exists r, TCPReceiver.segment_received seg (_receiver c) = Ok r /\ c' = c <| _receiver := r |>.
Proof. unfold recv_segment. intros H. split_binds H. by exists c0. Qed.

Lemma recv_ack_eq h c c' :
  recv_ack h c = Ok c' ->
  exists s, ack_received (TCPHeader.ackno h) (win h) (_sender c) = Ok s /\ c' = c <| _sender := s |>.
Proof. unfold recv_ack. intros H. split_binds H. by exists c0. Qed.

Lemma on_sender_same c : c <| _sender := _sender c |> = c.
Proof. by destruct c. Qed.

Lemma handle_out_of_order_shaped seg c c' :
  handle_out_of_order seg c = Ok c' -> _active c = true -> segQueueFromSender c = [] -> syn (_header seg) = false ->
  out_of_order seg c = true -> exists s2 b, shaped seg c c' s2 b.
Proof.
  intros H Hac Hq Hs Hoo. pose proof (handle_out_of_order_replies seg c c' H) as Hrep.
  unfold handle_out_of_order in H. split_binds H. apply recv_segment_eq in E as (r & Er & ->).
  set (cb := c <| _receiver := r |>) in *.
  assert (Hsh : forall s2 (b : bool), heard seg (_sender c) s2 -> c1 = (if b then fill (cb <| _sender := s2 |>) else cb <| _sender := s2 |>) ->
    (ack (_header seg) = true -> b = true) -> shaped seg c c' s2 b).
  { intros s2 b Hh Ec1 Hb. pose proof (heard_queue _ _ _ Hh) as H2.
    change (TCPSender._segments_out (_sender c)) with (segQueueFromSender c) in H2. rewrite Hq in H2.
    set (cc := cb <| _sender := s2 |>) in *.
    assert (Q : quiet (if b then updateOutput (fill cc) else cc) c' /\ same_flags cc c').
    { subst c' c1. unfold queue_empty. destruct b.
      - case_bool_decide as Hqe; [|by split; [apply quiet_refl|]].
        rewrite (update_idle (fill cc) Hqe). destruct (quiet_reply (fill cc) true Hqe) as [Q1 Q2]. by split.
      - rewrite bool_decide_eq_true_2 by done. by apply (quiet_reply cc true). }
    destruct Q as [Q Hfl]. split; try done.
    - eapply (compose c cb); [|done|done|exact Q]. exists []. by rewrite app_nil_r.
    - right. rewrite (qt_time _ _ Q). by destruct b.
    - left. rewrite (qt_receiver _ _ Q). by destruct b.
    - intros _ Ha _. rewrite (qt_active _ _ Q). split; [auto|]. by destruct b.
    - intros _. rewrite (qt_active _ _ Q). by destruct b.
    - intros _ _. by left.
    - intros _ ?. congruence.
    - intros _ ?. congruence. }
  destruct (ack (_header seg)) eqn:Ea.
  - split_binds E0. apply recv_ack_eq in E as (s2 & E2 & ->). exists s2, true.
    apply Hsh; [by unfold heard; rewrite Hs, Ea|by subst|done].
  - apply Ok_inj in E0 as <-. exists (_sender c), false. apply Hsh; [by unfold heard; rewrite Hs, Ea| |done].
    by rewrite <- (on_sender_same cb) at 1.
Qed.

Lemma finish_SYN_recv_quiet seg c :
  segQueueFromSender c = [] -> let c' := finish_SYN_recv seg c in
  quiet c c' /\ (if receiver_FIN_recv c then closing (_finSent (unAckQueue (_sender c))) c c' else same_flags c c').
Proof.
  intros Hq c'. unfold c', finish_SYN_recv. set (b := (_ <? _) && _).
  destruct (quiet_reply c b Hq) as [Q1 F1]. set (c1 := if b then _ else c) in *. clearbody c1 b.
  pose proof (qt_queue _ _ Q1 Hq) as Hq1. pose proof (quiet_sender _ _ Hq Q1) as Hs1.
  unfold receiver_FIN_recv. rewrite (qt_receiver _ _ Q1).
  destruct (input_ended (stream_out (_receiver c))); [|by split].
  set (c2 := if negb _ then _ else _).
  assert (Q2 : quiet c1 c2 /\ closing (_finSent (unAckQueue (_sender c1))) c1 c2).
  { unfold c2, closing. destruct (_finSent _); cbn [negb]; (split; [|done]); split; try done; exists []; by rewrite app_nil_r. }
  destruct Q2 as [Q2 F2]. pose proof (qt_queue _ _ Q2 Hq1) as Hq2.
  destruct (quiet_reply c2 (out_empty c2) Hq2) as [Q3 F3].
  split; [by eapply quiet_trans, quiet_trans|]. rewrite <- Hs1. unfold closing, same_flags in *.
  destruct F1, F3. destruct (_finSent _), F2; split; congruence.
Qed.

Lemma handle_SYN_recv_shaped seg c c' :
  handle_SYN_recv seg c = Ok c' -> _active c = true -> segQueueFromSender c = [] -> receiver_FIN_recv c = false ->
  exists s2 b, shaped seg c c' s2 b.
Proof.
  intros H Hac Hq Hfc. destruct (syn (_header seg)) eqn:Hs.
  { unfold handle_SYN_recv in H. rewrite Hs in H. apply Ok_inj in H as <-. exists (_sender c), false. by apply shaped_ignored. }
  pose proof (fun Hl => handle_SYN_recv_replies seg c c' Hs Hl H) as Hrep.
  rewrite handle_SYN_recv_eq in H by done. split_binds H.
  assert (exists r, (TCPReceiver.segment_received seg (_receiver c) = Ok r \/
      r = _receiver c /\ length_in_sequence_space seg = 0) /\ c0 = c <| _receiver := r |>) as (r & Er & ->).
  { destruct (Z.eqb_spec (length_in_sequence_space seg) 0) as [Hz|Hz]; cbn [negb] in E.
    - apply Ok_inj in E as <-. exists (_receiver c). split; [by right|]. by destruct c.
    - apply recv_segment_eq in E as (r & Er & ->). exists r. split; [by left|done]. }
  set (cb := c <| _receiver := r |>) in *.
  assert (Hsh : forall s2 (b : bool), heard seg (_sender c) s2 ->
    c1 = (if b then updateOutput (fill (cb <| _sender := s2 |>)) else cb <| _sender := s2 |>) ->
    (ack (_header seg) = true -> b = true) -> shaped seg c c' s2 b).
  { intros s2 b Hh Ec1 Hb. pose proof (heard_queue _ _ _ Hh) as H2.
    change (TCPSender._segments_out (_sender c)) with (segQueueFromSender c) in H2. rewrite Hq in H2.
    assert (Hq1 : segQueueFromSender c1 = []) by (subst c1; by destruct b).
    destruct (finish_SYN_recv_quiet seg c1 Hq1) as [Q F]. rewrite H in Q, F.
    assert (E1 : _receiver c1 = r /\ _active c1 = true /\ same_flags c c1) by (subst c1; by destruct b).
    destruct E1 as (Er1 & Ea1 & Ef1). pose proof (qt_receiver _ _ Q) as Erc. pose proof (qt_active _ _ Q) as Eac.
    rewrite Er1 in Erc. rewrite Ea1 in Eac.
    split; try done.
    - rewrite Ec1 in Q. eapply (compose c cb); [|done|done|exact Q]. exists []. by rewrite app_nil_r.
    - right. rewrite (qt_time _ _ Q), Ec1. by destruct b.
    - rewrite Erc. destruct Er as [Er|[-> Hz]]; [by left|right]. split; [done|]. by right; left.
    - intros _ Ha _. split; [auto|done].
    - intros [?|Hn]; [congruence|]. unfold receiver_FIN_recv in Hn, F. rewrite Erc in Hn. rewrite Er1, Hn in F.
      unfold same_flags in *. destruct Ef1 as [<- <-]. exact F.
    - intros _ Hn. right. unfold receiver_FIN_recv in Hn, F. rewrite Erc in Hn. rewrite Er1, Hn in F.
      rewrite (quiet_sender _ _ Hq1 Q). unfold closing, same_flags in *. destruct Ef1 as [<- <-]. exact F.
    - congruence.
    - congruence. }
  destruct (ack (_header seg)) eqn:Ea.
  - split_binds E0. apply recv_ack_eq in E1 as (s2 & E2 & ->). exists s2, true.
    apply Hsh; [by unfold heard; rewrite Hs, Ea|by subst|done].
  - apply Ok_inj in E0 as <-. exists (_sender c), false. apply Hsh; [by unfold heard; rewrite Hs, Ea| |done].
    by rewrite <- (on_sender_same cb) at 1.
Qed.

(** After FIN: [cb] is what answers the peer's FIN, [s2] has heard the acknowledgment. *)
Lemma shaped_after_FIN seg c c' cb s2 (b : bool) :
  syn (_header seg) = false -> _active c = true -> segQueueFromSender c = [] -> receiver_FIN_recv c = true ->
  heard seg (_sender c) s2 -> quiet c cb /\ same_flags c cb ->
  (quiet (if b then updateOutput (fill (cb <| _sender := s2 |>)) else cb <| _sender := s2 |>) c' /\ same_flags cb c' \/
   b = false /\ c' = cleanShutdown (cb <| _sender := s2 |>) /\ finAcked s2 = true) ->
  (b = false -> ack (_header seg) = true -> _linger_after_streams_finish c = true \/ finAcked s2 = true) ->
  (_linger_after_streams_finish c = false -> ack (_header seg) = true -> finAcked s2 = true -> _active c' = false) ->
  (fin (_header seg) = false -> segments_out c' =
    segments_out c ++ if b then stamp (_receiver c) <$> TCPSender._segments_out (fill_window s2) else []) ->
  shaped seg c c' s2 b.
Proof.
  intros Hs Hac Hq Hfc Hh [Qb [F1 F2]] Q Hb Hov Hmu. pose proof (heard_queue _ _ _ Hh) as H2.
  change (TCPSender._segments_out (_sender c)) with (segQueueFromSender c) in H2. rewrite Hq in H2.
  assert (Hpre : exists pre, segments_out cb = segments_out c ++ pre /\ Forall (blank (_receiver cb) (_sender c)) pre).
  { destruct (qt_out _ _ Qb) as (pre & ? & ?). exists pre. by rewrite (qt_receiver _ _ Qb). }
  assert (Hr : _receiver c' = _receiver c).
  { rewrite <- (qt_receiver _ _ Qb). destruct Q as [[Q _]|(_ & -> & _)]; [|done].
    rewrite (qt_receiver _ _ Q). by destruct b. }
  assert (Hfl : same_flags c c').
  { destruct Q as [[_ [F3 F4]]|(_ & -> & _)]; split; cbn; congruence. }
  split; try done; try (intros; congruence).
  - destruct Q as [[Q _]|(-> & -> & _)]; [by apply (compose c cb); [| apply Qb | |]|].
    exact (compose c cb (cb <| _sender := s2 |>) s2 false Hpre (qt_cfg _ _ Qb) H2 (quiet_refl _)).
  - right. rewrite <- (qt_time _ _ Qb). destruct Q as [[Q _]|(_ & -> & _)]; [rewrite (qt_time _ _ Q); by destruct b|done].
  - right. split; [done|by right; right].
  - intros _ Ha Hlf. destruct (Hlf Hfc) as [Hli Hfa]. destruct b; [|destruct (Hb eq_refl Ha); congruence].
    split; [done|]. destruct Q as [[Q _]|(? & _)]; [|done]. rewrite (qt_active _ _ Q). cbn. rewrite (qt_active _ _ Qb). done.
  - intros _ _ _ Ha Hl Hfa. by apply Hov.
  - intros _ _ Hfi Hn. rewrite Hmu, Hn by done. destruct b; by rewrite app_nil_r.
Qed.

Lemma handle_FIN_recv_shaped seg c c' :
  handle_FIN_recv seg c = Ok c' -> _active c = true -> segQueueFromSender c = [] -> receiver_FIN_recv c = true ->
  exists s2 b, shaped seg c c' s2 b.
Proof.
  intros H Hac Hq Hfc. unfold handle_FIN_recv in H. destruct (syn (_header seg)) eqn:Hs.
  { apply Ok_inj in H as <-. exists (_sender c), false. by apply shaped_ignored. }
  pose proof (fun cb s2 b => shaped_after_FIN seg c c' cb s2 b Hs Hac Hq Hfc) as Hsh.
  destruct (_linger_after_streams_finish c) eqn:Hli; cbn [negb] in H.
  - split_binds H. subst c'. destruct (ack (_header seg)) eqn:Ea.
    + apply recv_ack_eq in E as (s2 & E2 & ->). exists s2, false. apply (Hsh c); try done.
      * unfold heard. by rewrite Hs, Ea.
      * by split; [apply quiet_refl|].
      * left. apply ack_received_out in E2.
        assert (Hq2 : segQueueFromSender (c <| _sender := s2 |>) = []) by (etransitivity; [exact E2|exact Hq]).
        destruct (quiet_reply _ (fin (_header seg)) Hq2) as [Q F]. split; [exact Q|exact F].
      * by left.
      * intros ->. cbn. by rewrite app_nil_r.
    + apply Ok_inj in E as <-. exists (_sender c), false. apply (Hsh c); try done.
      * unfold heard. by rewrite Hs, Ea.
      * by split; [apply quiet_refl|].
      * left. rewrite on_sender_same. by apply (quiet_reply c (fin (_header seg))).
      * intros ->. cbn. by rewrite app_nil_r.
  - destruct (quiet_reply c (fin (_header seg)) Hq) as [Qb Fb]. set (cb := if fin _ then _ else c) in *.
    assert (Hcb : fin (_header seg) = false -> segments_out cb = segments_out c) by (unfold cb; by intros ->).
    clearbody cb. destruct (ack (_header seg)) eqn:Ea.
    + split_binds H. apply recv_ack_eq in E as (s2 & E2 & ->). rewrite (quiet_sender _ _ Hq Qb) in E2.
      assert (Hh : heard seg (_sender c) s2) by (unfold heard; by rewrite Hs, Ea).
      change (_sender (cb <| _sender := s2 |>)) with s2 in H. destruct (finAcked s2) eqn:Efa; apply Ok_inj in H as <-.
      * exists s2, false. apply (Hsh cb); try done; [by right|by right|].
        intros Hf. rewrite app_nil_r. by apply Hcb.
      * exists s2, true. apply (Hsh cb); try done; [left; by split; [apply quiet_refl|]|congruence|].
        intros Hf. rewrite <- (qt_receiver _ _ Qb), <- (Hcb Hf). done.
    + apply Ok_inj in H as <-. exists (_sender c), false. apply (Hsh cb); try done.
      * unfold heard. by rewrite Hs, Ea.
      * left. rewrite <- (quiet_sender _ _ Hq Qb), on_sender_same. by split; [apply quiet_refl|].
      * intros Hf. rewrite app_nil_r. by apply Hcb.
Qed.

(** A reset, unless the segment is out of order. *)
Definition reset seg c c' : Prop :=
  rst (_header seg) = true /\ c' = uncleanShutdown (c <| _time_since_last_segment_received := 0 |>).

Lemma segment_received_cases seg c c' :
  segment_received seg c = Ok c' -> _active c = true -> segQueueFromSender c = [] ->
  _synRecv (_receiver c) = true ->
  _time_since_last_segment_received c' = 0 /\ (reset seg c c' \/ exists s2 b, shaped seg c c' s2 b).
Proof.
  intros H Hac Hq Hsy. unfold segment_received in H. rewrite Hac in H. cbn [negb] in H. unfold reset.
  set (c0 := c <| _time_since_last_segment_received := 0 |>) in *.
  assert (H0 : rst (_header seg) = true /\ c' = uncleanShutdown c0 \/ exists s2 b, shaped seg c0 c' s2 b).
  { assert (Hac0 : _active c0 = true) by done. assert (Hq0 : segQueueFromSender c0 = []) by done.
    assert (Hl0 : receiver_in_listen c0 = false).
    { unfold receiver_in_listen, ackno. change (_receiver c0) with (_receiver c). rewrite Hsy.
      by rewrite bool_decide_eq_true_2 by by eexists. }
    rewrite Hl0 in H. clearbody c0. destruct (out_of_order seg c0) eqn:Hoo.
    - right. apply handle_out_of_order_shaped; try done. unfold out_of_order in Hoo. destruct (ackno _); [|done].
      by apply andb_true_iff in Hoo as [_ ?%negb_true_iff].
    - destruct (rst (_header seg)); [left; injection H as <-; done|right].
      destruct (receiver_FIN_recv c0) eqn:Hf; [by apply handle_FIN_recv_shaped|by apply handle_SYN_recv_shaped]. }
  destruct H0 as [[Hr E]|(s2 & b & Sh)]; [rewrite E; split; [done|by left]|].
  assert (Ht' : _time_since_last_segment_received c' = 0) by (by destruct (sp_time _ _ _ _ _ Sh)).
  split; [done|]. right. exists s2, b. destruct Sh. split; try done. by left.
Qed.

Lemma segment_received_shaped seg c c' :
  segment_received seg c = Ok c' -> _active c = true -> segQueueFromSender c = [] ->
  _synRecv (_receiver c) = true -> rst (_header seg) = false ->
  _time_since_last_segment_received c' = 0 /\ exists s2 b, shaped seg c c' s2 b.
Proof.
  intros H Hac Hq Hsy Hr. destruct (segment_received_cases seg c c' H Hac Hq Hsy) as [Ht [[? _]|Sh]]; [congruence|done].
Qed.
