(* ===== verification/FlowControl.v ===== *)
(** * FlowControl: the receiver's side of [Pace], and whole connections

    A receiver that got only segments of one paced sender acknowledges its cuts, and
    moves the edge of its window forwards only. *)

From stdpp Require Import relations.
From S2P Require Import Prelude WrappingIntegers ByteStream StreamReassembler Buffer.
From S2P Require Import TCPHeader TCPSegment TCPConfig TCPReceiver TCPSender Pace Transfer TCPConnection.
Implicit Types (g : progress).

(** ** The receiver *)

(** The number the receiver acknowledges, and the number up to which the sender may then send: a
    window of 0 counts as 1. *)
Definition assembled (r : TCPReceiver) : Z := _exIdx (_reassembler r).
Definition right_edge (r : TCPReceiver) : Z := first_unacceptable (_reassembler r).
Definition acked (r : TCPReceiver) : Z := assembled r + 1 + b2n (input_ended (stream_out r)).
Definition edge (r : TCPReceiver) : Z := acked r + Z.max 1 (right_edge r - assembled r).

(** Forwards: what both numbers do over time. *)
Definition forwards (r r' : TCPReceiver) : Prop :=
  acked r <= acked r' /\ edge r <= edge r' /\ right_edge r <= right_edge r' /\
  (_synRecv r = true -> _synRecv r' = true).

#[export] Instance forwards_preorder : PreOrder forwards.
Proof.
  split; [by intros r|]. intros r1 r2 r3 (? & ? & ? & ?) (? & ? & ? & ?). split_and!; [lia|lia|lia|auto].
Qed.

Section receiver.
Context (S : bytes) (cap : Z) (isn : WrappingInt32).
Hypothesis cap_nonneg : 0 <= cap.
Hypothesis cap_bound : cap < 0x7ffffff000000000.
Hypothesis short_stream : zlen S < 0x7fffffff.
Hypothesis isn_valid : valid isn.

(** Every range received ends at a cut of the sender. *)
Definition gathered (g : progress) (r : TCPReceiver) : Prop :=
  exists out ps e, receiver_inv S cap isn out ps e r /\
    Forall (fun p => fst p + snd p ∈ cuts g) ps /\ (e = true -> fin_at g = Some (zlen S)) /\ 0 ∈ cuts g.

Lemma gathered_later g g' r : later g g' -> gathered g r -> gathered g' r.
Proof.
  intros [C F] (out & ps & e & I & Hps & He & Hz). exists out, ps, e. split; [done|]. split.
  - eapply Forall_impl; [exact Hps|]. intros p. apply C.
  - split; [auto|by apply C].
Qed.

Lemma covered_cut g ps k :
  Forall (fun p => fst p + snd p ∈ cuts g) ps -> covered ps (k - 1) = true -> covered ps k = false -> k ∈ cuts g.
Proof.
  unfold covered. induction 1 as [|[i n] ps Hp _ IH]; [done|]. cbn [existsb fst snd] in *.
  rewrite orb_true_iff, orb_false_iff. intros [H|H] [Hk Hps]; [|by apply IH].
  assert (i + n = k) as <- by lia. done.
Qed.

Lemma receiver_stream r out ps e :
  receiver_inv S cap isn out ps e r -> ByteStream.wf (stream_out r) /\ error (stream_out r) = false.
Proof.
  intros [Hs _ _ _]. destruct (session_fifo S cap cap_nonneg ltac:(lia) _ _ _ _ Hs) as [f [[C _] _ _ _ _ _ Hok]].
  pose proof (core_out _ _ _ _ C) as R. split; [apply R|]. unfold error. by rewrite <- Hok, <- (ref_err _ _ R).
Qed.

Lemma receiver_sizes r out ps e :
  receiver_inv S cap isn out ps e r ->
  0 <= assembled r <= zlen S /\ window_size r = right_edge r - assembled r /\
  0 <= right_edge r - assembled r <= cap /\ right_edge r <= zlen S + cap /\
  (_buf (stream_out r) = [] -> right_edge r = assembled r + cap).
Proof.
  intros [Hs Hc Hi Ha]. destruct (session_fifo S cap cap_nonneg ltac:(lia) _ _ _ _ Hs) as [f [[C _] _ _ _ _ Hb _]].
  pose proof (core_range _ _ _ _ C) as Hr. pose proof (core_out _ _ _ _ C) as R.
  pose proof (core_idx _ _ _ _ C) as Hx. pose proof (ref_popped _ _ R) as Hp.
  assert (Hsz : buffer_size (stream_out r) = assembled r - popped f).
  { unfold stream_out, StreamReassembler.stream_out, buffer_size, assembled.
    rewrite (wf_size _ (ref_wf _ _ R)), (ref_buf _ _ R), (bs_zlen_pending f Hp). lia. }
  assert (He : right_edge r = popped f + cap).
  { unfold right_edge. rewrite (first_unacceptable_window _ _ _ _ C). unfold window_end. lia. }
  unfold window_end in Hr. unfold window_size. rewrite Hc, Hsz. fold (assembled r) in *.
  rewrite u64_id by lia. split_and!; try lia.
  intros E. unfold stream_out, StreamReassembler.stream_out, buffer_size in Hsz.
  rewrite (wf_size _ (ref_wf _ _ R)) in Hsz. unfold stream_out, StreamReassembler.stream_out in E.
  rewrite E in Hsz. cbn in Hsz. lia.
Qed.

(** What the receiver acknowledges is good for the sender. *)
Lemma gathered_good g r :
  gathered g r -> good g (acked r) /\
  (forall a, ackno r = Some a -> a = wrap (acked r) isn).
Proof.
  intros (out & ps & e & [Hs Hc Hi Ha] & Hps & He & Hz). split.
  - destruct (session_fifo S cap cap_nonneg ltac:(lia) _ _ _ _ Hs) as [f SI].
    pose proof (session_gap _ _ _ _ _ _ _ SI) as Hgap. destruct SI as [[C _] _ _ Hcov Heof _ _].
    pose proof (core_range _ _ _ _ C) as Hr. pose proof (core_idx _ _ _ _ C) as Hx.
    assert (Hk : assembled r ∈ cuts g).
    { destruct (decide (assembled r = 0)) as [->|Hn]; [done|]. apply (covered_cut g ps); [done| |exact Hgap].
      unfold assembled in *. apply Hcov. unfold view. rewrite decide_True by lia. apply zget_is_Some. lia. }
    exists (assembled r). split; [done|]. unfold acked, stream_out, StreamReassembler.stream_out, input_ended.
    rewrite (ref_end _ _ (core_out _ _ _ _ C)), (core_ended _ _ _ _ C), Heof.
    destruct (e && _) eqn:E; cbn [b2n]; [right|left; lia].
    apply andb_true_iff in E as [-> E%Z.eqb_eq]. split; [|lia]. unfold assembled. rewrite E. by apply He.
  - unfold ackno. destruct (_synRecv r); [|done]. intros a [= <-]. rewrite (Ha eq_refl). unfold ack_at, acked, b2n.
    done.
Qed.

Lemma gathered_ended g r :
  gathered g r -> input_ended (stream_out r) = true -> fin_at g = Some (zlen S).
Proof.
  intros (out & ps & e & [Hs Hc Hi Ha] & Hps & He & Hz).
  destruct (session_fifo S cap cap_nonneg ltac:(lia) _ _ _ _ Hs) as [f [[C _] _ _ _ Heof _ _]].
  unfold stream_out, StreamReassembler.stream_out, input_ended.
  rewrite (ref_end _ _ (core_out _ _ _ _ C)), (core_ended _ _ _ _ C), Heof.
  intros [E _]%andb_true_iff. by apply He.
Qed.

Lemma grown_forwards r r' :
  grown (_reassembler r) (_reassembler r') -> (_synRecv r = true -> _synRecv r' = true) ->
  assembled r' <= right_edge r' -> forwards r r'.
Proof.
  intros (E & L & D) Hs Hle. unfold forwards, edge, acked, right_edge, assembled in *.
  unfold stream_out, StreamReassembler.stream_out. rewrite E in *.
  assert (b2n (input_ended (_output (_reassembler r))) <= b2n (input_ended (_output (_reassembler r')))).
  { destruct (input_ended (_output (_reassembler r))); [by rewrite D|]. apply b2n_range. }
  split_and!; [lia|lia|lia|done].
Qed.

(** What a segment of the sender carries: up to a cut. *)
Lemma marked_placed g r out ps e seg :
  receiver_inv S cap isn out ps e r -> accurate isn S true seg -> marked isn g seg ->
  (forall k, k ∈ cuts g -> k <= zlen S) ->
  bare seg \/ exists i, slice_at S i (str (_payload seg)) /\ i + zlen (str (_payload seg)) ∈ cuts g /\
    (fin (_header seg) = true -> i + zlen (str (_payload seg)) = zlen S /\ fin_at g = Some (zlen S)) /\
    (syn (_header seg) = true -> i = 0 /\ seqno (_header seg) = isn) /\
    (syn (_header seg) = false -> seqno (_header seg) = wrap (i + 1) isn) /\
    -0x80000000 <= bytes_written (stream_out r) - (i + 1) < 0x80000000.
Proof.
  intros I A M Hk. destruct (receiver_sizes _ _ _ _ I) as (Hr & _).
  destruct M as [?|(i & Hi & Hq & Hsy & Hcut & Hfin)]; [by left|]. pose proof (Hk _ Hcut) as Hk1.
  destruct A as [?|(i' & Hi' & Hle & Hdata & _ & Hq' & Hsy' & Hfi)]; [by left|]. right.
  assert (i' = i) as ->.
  { rewrite Hq in Hq'. destruct (syn (_header seg)); [rewrite Hsy, Hsy' by done; done|].
    apply wrap_eq_iff in Hq'. ulia. }
  exists i.
  pose proof (receiver_written S cap isn cap_nonneg short_stream cap_bound _ _ _ _ I) as [Hw _].
  rewrite Hw. fold (assembled r). split_and!; try done; try lia.
  - intros H. destruct (Hfi H) as [_ Hl]. split; [done|]. rewrite <- Hl. by apply Hfin.
  - intros Es. rewrite Es in Hq. rewrite Hq. split; [by apply Hsy|]. by eapply wrap_0.
  - intros Es. by rewrite Es in Hq.
Qed.

(** A segment of the sender in the window. *)
Lemma marked_valid g r out ps e seg :
  receiver_inv S cap isn out ps e r -> accurate isn S true seg -> marked isn g seg ->
  (forall k, k ∈ cuts g -> k <= zlen S /\ k <= right_edge r) ->
  bare seg \/ exists i, valid_segment S isn r seg i /\ i + zlen (str (_payload seg)) ∈ cuts g /\
    (fin (_header seg) = true -> fin_at g = Some (zlen S)).
Proof.
  intros I A M Hk. destruct (marked_placed g r out ps e seg I A M ltac:(intros; by apply Hk))
    as [?|(i & Hsl & Hcut & Hf & Hsy & Hq & Hn)]; [by left|right].
  exists i. split; [|split; [done|by apply Hf]]. destruct (Hk _ Hcut). split; try done. split_and!; try done. apply Hf.
Qed.

(** An index that the window reaches; a closed one keeps everything else out. *)
Definition takes (r : TCPReceiver) (k : Z) : Prop := k <= right_edge r \/ right_edge r <= assembled r.

Lemma gathered_segment g r seg :
  gathered g r -> accurate isn S true seg -> marked isn g seg ->
  (forall k, k ∈ cuts g -> k <= zlen S /\ takes r k) ->
  receivable S isn r seg /\
  forall r', TCPReceiver.segment_received seg r = Ok r' ->
    gathered g r' /\ forwards r r' /\ grown (_reassembler r) (_reassembler r').
Proof.
  intros (out & ps & e & I & Hps & He & Hz) A M Hk.
  assert (Hsame : accepts r seg = false \/ bare seg -> receivable S isn r seg /\
    forall r', TCPReceiver.segment_received seg r = Ok r' ->
      gathered g r' /\ forwards r r' /\ grown (_reassembler r) (_reassembler r')).
  { intros H. split; [right; tauto|]. rewrite (segment_ignored S cap isn cap_nonneg ltac:(lia) _ _ _ _ _ I H).
    intros r' [= <-]. split; [by exists out, ps, e|done]. }
  destruct (accepts r seg) eqn:Hacc; [|apply Hsame; by left].
  destruct (marked_placed g r out ps e seg I A M ltac:(intros; by apply Hk))
    as [?|(i & Hsl & Hcut & Hf & Hsy & Hq & Hn)]; [apply Hsame; by right|].
  assert (exists ps', some_push S (_reassembler r) (str (_payload seg)) i (fin (_header seg)) ps ps' /\
    Forall (fun p => fst p + snd p ∈ cuts g) ps') as (ps' & Hp & Hps').
  { destruct (Hk _ Hcut) as [_ [Hle|Hcl]].
    - eexists. split; [left; split; [|done]|by constructor]. split_and!; try done. apply Hf.
    - exists ps. split; [right; split; [|done]|done]. split_and!; [done| |apply Hf].
      unfold right_edge, assembled in Hcl. lia. }
  split.
  { left. exists i. destruct Hp as [[Hp _]|[Hp _]]; [left|right]; by split. }
  intros r' E.
  destruct (segment_pushed S cap isn cap_nonneg ltac:(lia) _ _ _ _ _ _ _ I Hp Hsy Hq Hn) as (r2 & E2 & I2 & Hg).
  rewrite E in E2. apply Ok_inj in E2 as <-. rewrite Hacc in I2. split; [|split; [|done]].
  - eexists _, _, _. split; [exact I2|]. split; [done|]. split; [|done]. cbn [andb].
    intros [?|H]%orb_true_iff; [auto|by apply Hf].
  - apply grown_forwards; [done| |].
    + intros Hs. revert E. unfold TCPReceiver.segment_received. destruct (syn _); [by rewrite Hs; intros [= <-]|].
      rewrite Hs. cbn [negb]. intros E. apply bind_Ok in E as (re & _ & [= <-]). unfold update_ackno.
      by destruct (input_ended _).
    + destruct (receiver_sizes _ _ _ _ I2) as (_ & _ & ? & _). lia.
Qed.

Lemma gathered_read g r n :
  gathered g r -> 0 <= n ->
  let r' := r <| _reassembler := (_reassembler r) <| _output := snd (read n (stream_out r)) |> |> in
  gathered g r' /\ forwards r r' /\ assembled r' = assembled r.
Proof.
  intros (out & ps & e & I & Hps & He & Hz) Hn r'. pose proof (receiver_inv_read _ _ _ _ _ _ _ n I Hn) as I'.
  fold r' in I'. split; [by exists (out ++ fst (read n (stream_out r))), ps, e|]. split; [|done].
  assert (Hd : right_edge r <= right_edge r').
  { destruct (receiver_stream _ _ _ _ I) as [Hwf _].
    destruct (bs_pop_output_buf n _ Hwf Hn) as [_ Hs]. pose proof (wf_size _ Hwf).
    unfold right_edge, first_unacceptable, r', buffer_size, stream_out, StreamReassembler.stream_out in *. cbn in *.
    lia. }
  unfold forwards, edge, acked. change (assembled r') with (assembled r).
  assert (Hi : input_ended (stream_out r') = input_ended (stream_out r)) by done. rewrite Hi.
  split_and!; [lia|lia|lia|done].
Qed.

Lemma gathered_new g : 0 ∈ cuts g -> gathered g (TCPReceiver.new cap).
Proof. intros Hz. exists [], [], false. split; [apply receiver_inv_new|]. by split_and!. Qed.
End receiver.

(** ** Acknowledgments on the way

    Every segment of an outbound queue acknowledges something good, and each no less than the
    one before: [feedback g isn a e segs a' e'] goes from the number [a] with edge [e] to
    [a'] and [e']. *)

Definition feeds (g : progress) (isn : WrappingInt32) (seg : TCPSegment) (b : Z) : Prop :=
  TCPHeader.ackno (_header seg) = wrap b isn /\ good g b.
Definition fed_edge (seg : TCPSegment) (b : Z) : Z := b + Z.max 1 (win (_header seg)).

Fixpoint feedback (g : progress) (isn : WrappingInt32) (a e : Z) (segs : list TCPSegment) (a' e' : Z) : Prop :=
  match segs with
  | [] => a <= a' /\ e <= e'
  | seg :: segs =>
    is_u16 (win (_header seg)) /\
    if ack (_header seg) then
      exists b, feeds g isn seg b /\ a <= b /\ e <= fed_edge seg b /\
        feedback g isn b (fed_edge seg b) segs a' e'
    else feedback g isn a e segs a' e'
  end.

(** A segment whose acknowledgment, if any, is good. *)
Definition acks (g : progress) (isn : WrappingInt32) (seg : TCPSegment) : Prop :=
  is_u16 (win (_header seg)) /\ (ack (_header seg) = true -> exists b, feeds g isn seg b).

Lemma feedback_acks g isn segs : forall a e a' e',
  feedback g isn a e segs a' e' -> Forall (acks g isn) segs.
Proof.
  induction segs as [|seg segs IH]; intros a e a' e'; cbn [feedback]; [by constructor|].
  intros [Hw H]. destruct (ack (_header seg)) eqn:E.
  - destruct H as (b & Hb & _ & _ & H). constructor; [|by eapply IH]. split; [done|]. intros _. by exists b.
  - constructor; [|by eapply IH]. split; [done|]. congruence.
Qed.

Lemma feedback_le g isn segs : forall a e a' e', feedback g isn a e segs a' e' -> a <= a' /\ e <= e'.
Proof.
  induction segs as [|seg segs IH]; intros a e a' e'; cbn [feedback]; [done|].
  intros [_ H]. destruct (ack _); [|by apply IH].
  destruct H as (b & _ & ? & ? & H). apply IH in H. lia.
Qed.

Lemma feedback_front g isn segs a e : forall a1 e1 a' e',
  a <= a1 -> e <= e1 -> feedback g isn a1 e1 segs a' e' -> feedback g isn a e segs a' e'.
Proof.
  induction segs as [|seg segs IH]; intros a1 e1 a' e' Ha He; cbn [feedback]; [lia|].
  intros [Hw H]. split; [done|]. destruct (ack _); [|by eapply IH].
  destruct H as (b & ? & ? & ? & H). exists b. split_and!; try done; lia.
Qed.

Lemma feedback_app g isn segs segs' : forall a e a1 e1 a' e',
  feedback g isn a e segs a1 e1 -> feedback g isn a1 e1 segs' a' e' ->
  feedback g isn a e (segs ++ segs') a' e'.
Proof.
  induction segs as [|seg segs IH]; intros a e a1 e1 a' e'; cbn [feedback app].
  - intros [? ?]. by apply feedback_front.
  - intros [Hw H] H'. split; [done|]. destruct (ack _); [|by eapply IH].
    destruct H as (b & ? & ? & ? & H). exists b. split_and!; try done. by eapply IH.
Qed.

Lemma feedback_end g isn segs a e a1 e1 a' e' :
  feedback g isn a e segs a1 e1 -> a1 <= a' -> e1 <= e' -> feedback g isn a e segs a' e'.
Proof. intros H ? ?. rewrite <- (app_nil_r segs). by eapply feedback_app. Qed.

Lemma feedback_later g g' isn segs : later g g' -> forall a e a' e',
  feedback g isn a e segs a' e' -> feedback g' isn a e segs a' e'.
Proof.
  intros L. induction segs as [|seg segs IH]; intros a e a' e'; cbn [feedback]; [done|].
  intros [Hw H]. split; [done|]. destruct (ack _); [|by apply IH].
  destruct H as (b & [Hb G] & ? & ? & H). exists b. split_and!; try done; [split; [done|by eapply good_later]|by apply IH].
Qed.

(** A segment as the sender makes it, before [updateOutput] has seen it. *)
Definition plain (seg : TCPSegment) : Prop :=
  ack (_header seg) = false /\ rst (_header seg) = false /\ win (_header seg) = 0.

Lemma firstPush_plain seg s :
  plain seg -> Forall plain (TCPSender._segments_out s) -> Forall plain (TCPSender._segments_out (firstPush seg s)).
Proof. intros. rewrite firstPush_out. apply Forall_app. by rewrite Forall_singleton. Qed.

Lemma makeSynSeg_plain s : plain (fst (makeSynSeg s)) /\
  TCPSender._segments_out (snd (makeSynSeg s)) = TCPSender._segments_out s.
Proof. unfold makeSynSeg. destruct (negb _), (_ && _); by split. Qed.

Lemma makePayLoadSeg_plain s : plain (fst (makePayLoadSeg s)) /\
  TCPSender._segments_out (snd (makePayLoadSeg s)) = TCPSender._segments_out s.
Proof.
  unfold makePayLoadSeg. destruct (read _ _) as [payload stream]. by destruct (_ && _).
Qed.

Lemma fill_loop_plain fuel : forall s, Forall plain (TCPSender._segments_out s) ->
  Forall plain (TCPSender._segments_out (fill_loop fuel s)).
Proof.
  induction fuel as [|fuel IH]; intros s F; [done|]. rewrite fill_loop_S. destruct (_ && _); [|done].
  apply IH. unfold fill_round. destruct (makePayLoadSeg_plain s) as [P O].
  destruct (makePayLoadSeg s) as [seg s1]. cbn [fst snd] in *. apply firstPush_plain; [done|]. by rewrite <- O in F.
Qed.

Lemma fill_window_plain s : Forall plain (TCPSender._segments_out s) ->
  Forall plain (TCPSender._segments_out (fill_window s)).
Proof.
  intros F. unfold fill_window. destruct (_ || _); [done|]. destruct (negb (_synSent _)).
  - destruct (makeSynSeg_plain s) as [P O]. destruct (makeSynSeg s) as [seg s1]. cbn [fst snd] in *.
    apply firstPush_plain; [done|congruence].
  - set (s1 := if _ && _ then _ else s).
    assert (F1 : Forall plain (TCPSender._segments_out s1)).
    { unfold s1. destruct (_ && _); [|done]. unfold makeFirstFinSeg. by apply firstPush_plain. }
    clearbody s1. destruct (_ && _); [done|]. by apply fill_loop_plain.
Qed.

Lemma retransmitSeg_plain s seg s1 : retransmitSeg s = Ok (seg, s1) ->
  plain seg /\ TCPSender._segments_out s1 = TCPSender._segments_out s.
Proof.
  assert (Hf : (seg ← UnAckQueue.frontSeg (TCPSender._isn s) (unAckQueue s); Ok (seg, s)) = Ok (seg, s1) ->
    plain seg /\ TCPSender._segments_out s1 = TCPSender._segments_out s).
  { intros E. apply bind_Ok in E as (seg' & E & [= -> ->]). split; [|done]. revert E.
    unfold UnAckQueue.frontSeg. destruct (_unAckedPayloadSize _); [done|]. destruct (_ <? _); [done|].
    intros [= <-]. by destruct (_ && _). }
  unfold retransmitSeg. destruct (_ && _).
  - destruct (UnAckQueue.empty _); [|exact Hf]. by intros [= <- <-].
  - destruct (_ && _).
    + intros [= E]. destruct (makeSynSeg_plain s) as [P O]. by rewrite E in P, O.
    + destruct (negb _); [exact Hf|]. by intros [= <- <-].
Qed.

Lemma tick_plain n s s' : Forall plain (TCPSender._segments_out s) -> TCPSender.tick n s = Ok s' ->
  Forall plain (TCPSender._segments_out s').
Proof.
  intros F. unfold TCPSender.tick. destruct (_isTimerRunning _); [|by intros [= <-]].
  destruct (_ <=? _); [|by intros [= <-]]. unfold timeoutRetransmit. destruct (_finAcked _); [by intros [= <-]|].
  intros E. apply bind_Ok in E as ([seg s1] & E & [= <-]). apply retransmitSeg_plain in E as [P O].
  cbn. rewrite O. apply Forall_app. by rewrite Forall_singleton.
Qed.

(** ** The steps of a connection *)

(** What a connection does of its own accord. *)
Inductive act : TCPConnection -> TCPConnection -> Prop :=
| act_fill c : act c (fill c)
| act_empty c : act c (send_empty c)
| act_update c : act c (updateOutput c)
| act_unclean c : act c (uncleanShutdown c)
| act_fields c c' :
    _sender c' = _sender c -> _receiver c' = _receiver c -> _segments_out c' = _segments_out c ->
    (_active c' = _active c \/ _active c' = false) -> _cfg c' = _cfg c -> act c c'
| act_tick n c s : TCPSender.tick n (_sender c) = Ok s -> act c (c <| _sender := s |>)
| act_rst c c' : sendRSTSeg c = Ok c' -> act c c'.

(** And what it does with a segment of its peer. *)
Inductive react (seg : TCPSegment) : TCPConnection -> TCPConnection -> Prop :=
| react_act c c' : act c c' -> react seg c c'
| react_recv c c' : _active c = true -> recv_segment seg c = Ok c' -> react seg c c'
| react_ack c c' : ack (_header seg) = true -> recv_ack (_header seg) c = Ok c' -> react seg c c'.

Abbreviation reacts seg := (rtc (react seg)).

Lemma react_one seg c c' : act c c' -> reacts seg c c'.
Proof. intros H. apply rtc_once. by apply react_act. Qed.

(** [updateOutput] after a reply. *)
Lemma react_reply seg c (b : bool) : reacts seg c (if b then updateOutput (send_empty c) else c).
Proof.
  destruct b; [|done]. etrans; [apply react_one, act_empty|apply react_one, act_update].
Qed.

Lemma react_fill_update seg c : reacts seg c (updateOutput (fill c)).
Proof. etrans; [apply react_one, act_fill|apply react_one, act_update]. Qed.

Lemma react_maybe_ack seg c c' :
  (if ack (_header seg) then recv_ack (_header seg) c else Ok c) = Ok c' -> reacts seg c c'.
Proof.
  destruct (ack (_header seg)) eqn:Ea; [|by intros [= <-]]. intros E. by apply rtc_once, react_ack.
Qed.

Lemma handle_out_of_order_reacts seg c c' :
  _active c = true -> handle_out_of_order seg c = Ok c' -> reacts seg c c'.
Proof.
  intros Hac. unfold handle_out_of_order. intros H. split_binds H. subst c'.
  etrans; [by apply rtc_once, react_recv|].
  assert (H1 : reacts seg c0 c1).
  { destruct (ack (_header seg)) eqn:Ea; [|by apply Ok_inj in E0 as ->]. split_binds E0. subst c1.
    etrans; [by apply rtc_once, react_ack|]. apply react_one, act_fill. }
  etrans; [exact H1|]. etrans; [|apply react_one, act_update].
  destruct (queue_empty c1); [apply react_one, act_empty|done].
Qed.

Lemma handle_FIN_recv_reacts seg c c' : handle_FIN_recv seg c = Ok c' -> reacts seg c c'.
Proof.
  unfold handle_FIN_recv. destruct (syn _); [by intros [= <-]|]. destruct (negb _).
  - intros H. etrans; [apply (react_reply seg c (fin (_header seg)))|]. set (c0 := if fin _ then _ else c) in *.
    clearbody c0. destruct (ack (_header seg)) eqn:Ea; [|by apply Ok_inj in H as <-]. split_binds H.
    etrans; [by apply rtc_once, react_ack|]. destruct (finAcked _); apply Ok_inj in H as <-.
    + apply react_one, act_fields; try done. by right.
    + apply react_fill_update.
  - intros H. split_binds H. subst c'. etrans; [by apply react_maybe_ack|].
    apply (react_reply seg c0 (fin (_header seg))).
Qed.

Lemma handle_listen_reacts seg c c' :
  _active c = true -> handle_listen seg c = Ok c' -> reacts seg c c'.
Proof.
  intros Hac. unfold handle_listen. destruct (syn _); [|by intros [= <-]].
  intros H. split_binds H. subst c'. etrans; [by apply rtc_once, react_recv|].
  etrans; [by apply react_maybe_ack|]. etrans; [apply react_fill_update|]. apply react_reply.
Qed.

Lemma finish_SYN_recv_reacts seg c : reacts seg c (finish_SYN_recv seg c).
Proof.
  unfold finish_SYN_recv. set (b := _ && _). etrans; [apply (react_reply seg c b)|].
  set (c1 := if b then _ else c). clearbody c1 b. destruct (receiver_FIN_recv c1); [|done].
  set (c2 := if negb _ then _ else _). etrans; [|apply (react_reply seg c2 (out_empty c2))].
  apply react_one. unfold c2. destruct (negb _); apply act_fields; try done; by left.
Qed.

Lemma handle_SYN_recv_reacts seg c c' :
  _active c = true -> handle_SYN_recv seg c = Ok c' -> reacts seg c c'.
Proof.
  intros Hac. destruct (syn (_header seg)) eqn:Es.
  { unfold handle_SYN_recv. rewrite Es. by intros [= <-]. }
  rewrite handle_SYN_recv_eq by done. intros H. split_binds H. subst c'.
  assert (H1 : reacts seg c c0).
  { destruct (negb _); [|by apply Ok_inj in E as ->]. by apply rtc_once, react_recv. }
  etrans; [exact H1|]. etrans; [|apply finish_SYN_recv_reacts].
  destruct (ack (_header seg)) eqn:Ea; [|by apply Ok_inj in E0 as ->]. split_binds E0. subst c1.
  etrans; [by apply rtc_once, react_ack|]. apply react_fill_update.
Qed.

Lemma segment_received_reacts seg c c' : segment_received seg c = Ok c' -> reacts seg c c'.
Proof.
  unfold segment_received. destruct (_active c) eqn:Hac; cbn [negb]; [|by intros [= <-]].
  set (c0 := c <| _time_since_last_segment_received := 0 |>). intros H.
  etrans; [apply (react_one seg c c0), act_fields; try done; by left|].
  assert (Hac0 : _active c0 = true) by exact Hac. clearbody c0.
  destruct (out_of_order seg c0); [by apply handle_out_of_order_reacts|].
  destruct (rst _); [apply Ok_inj in H as <-; by apply react_one, act_unclean|].
  destruct (receiver_FIN_recv c0); [by apply handle_FIN_recv_reacts|].
  destruct (receiver_in_listen c0); [by apply handle_listen_reacts|by apply handle_SYN_recv_reacts].
Qed.

Lemma tick_acts n c c' : tick n c = Ok c' -> rtc act c c'.
Proof.
  unfold tick. destruct (_active c) eqn:Hac; cbn [negb]; [|by intros [= <-]].
  set (c0 := c <| _time_since_last_segment_received := _ |>). intros H. split_binds H.
  etrans; [apply (rtc_once c c0), act_fields; try done; by left|].
  etrans; [by apply rtc_once, (act_tick n c0 c1)|]. etrans; [apply rtc_once, act_update|].
  set (c2 := updateOutput _) in *. clearbody c2. destruct (_ <? _).
  - split_binds H. subst c'. etrans; [by apply rtc_once, act_rst|apply rtc_once, act_unclean].
  - destruct (_ && _); apply Ok_inj in H as <-; [|done]. apply rtc_once, act_fields; try done. by right.
Qed.

(** None of this moves the receiver. *)
Lemma act_cfg c c' : act c c' -> _cfg c' = _cfg c.
Proof. intros []; try done. match goal with H : sendRSTSeg _ = _ |- _ => rewrite sendRSTSeg_eq in H; by injection H as <- end. Qed.

Lemma session_cfg isn pisn S cfg w e sent rd c : conn_session isn pisn S cfg w e sent rd c -> _cfg c = cfg.
Proof.
  induction 1 as [| | | |w e sent rd c n c' Hs IH E|w e sent rd c seg c' Hs IH Hok E| |]; try done.
  - unfold write. destruct (_ =? _); [done|]. by destruct (ByteStream.write _ _).
  - rewrite <- IH. clear -E. apply tick_acts in E. induction E as [|? ? ? A _ IH]; [done|]. rewrite IH. by apply act_cfg.
  - rewrite <- IH. clear -E. apply segment_received_reacts in E. induction E as [|? ? ? R _ IH]; [done|]. rewrite IH.
    destruct R as [? ? A|? ? _ R|? ? _ R]; [by apply act_cfg| |].
    + unfold recv_segment in R. split_binds R. by subst.
    + unfold recv_ack in R. split_binds R. by subst.
Qed.

Lemma acts_window c c' : rtc act c c' ->
  right_edge (_receiver c') = right_edge (_receiver c) /\ assembled (_receiver c') = assembled (_receiver c).
Proof.
  induction 1 as [c|c c1 c2 A _ [-> ->]]; [done|].
  destruct A as [| | | |c c' _ -> _ _| |c c' E]; try done. rewrite sendRSTSeg_eq in E. by injection E as <-.
Qed.

(** ** A connection in step with its peer

    Its own stream is paced by [g], its peer's, [S], by [g']. *)

Definition live (w : bytes) (s : TCPSender) : Prop := exists f, sender_inv s f /\ hist f = w.
(** What is in flight fits the window. *)
Definition fits (s : TCPSender) : Prop :=
  _next_seqno (unAckQueue s) <= _baseSqn (unAckQueue s) + _win_size (unAckQueue s).

Lemma live_sends w s f s' f' segs : sends s f s' f' segs -> hist f = w -> live w s'.
Proof. intros (I & (Hh & _) & _) <-. by exists f'. Qed.

Lemma fits_sends s f s' f' segs :
  sender_inv s f -> sends s f s' f' segs -> fits s ->
  fits s' /\ _baseSqn (unAckQueue s') = _baseSqn (unAckQueue s) /\
  _win_size (unAckQueue s') = _win_size (unAckQueue s).
Proof.
  intros I (I' & _ & _ & _ & (_ & Hb & Hw & _) & _ & W). unfold fits.
  rewrite (proj1 (in_flight_eq _ _ I)), (proj1 (in_flight_eq _ _ I')) in W. intros H.
  split_and!; [|done|done]. lia.
Qed.

Section peer.
Context (isn pisn : WrappingInt32) (S : bytes) (cap : Z).
Hypothesis cap_range : 0 < cap < 0x10000.
Hypothesis short_stream : zlen S < 0x7fffffff.
Hypothesis pisn_valid : valid pisn.

Definition inbound_ok (g' : progress) (a e : Z) (c : TCPConnection) : Prop :=
  exists r, (_receiver c = r \/ _active c = false /\ _receiver c = recv_error r) /\
    gathered S cap pisn g' r /\ feedback g' pisn a e (_segments_out c) (acked r) (edge r).

Record steady (w : bytes) (g g' : progress) (a e : Z) (c : TCPConnection) : Prop := mk_steady {
  st_live : live w (_sender c);
  st_isn : TCPSender._isn (_sender c) = isn;
  st_pacing : pacing g (_sender c);
  st_plain : Forall plain (segQueueFromSender c);
  st_out : Forall (marked isn g) (_segments_out c);
  st_inbound : inbound_ok g' a e c }.

Lemma peer_good g' r :
  gathered S cap pisn g' r -> good g' (acked r) /\ (forall n, ackno r = Some n -> n = wrap (acked r) pisn).
Proof. apply gathered_good; lia. Qed.

Lemma peer_sizes g' r :
  gathered S cap pisn g' r ->
  0 <= assembled r <= zlen S /\ window_size r = right_edge r - assembled r /\
  0 <= right_edge r - assembled r <= cap /\ right_edge r <= zlen S + cap /\
  (_buf (stream_out r) = [] -> right_edge r = assembled r + cap).
Proof. intros (out & ps & pe & I & _). eapply receiver_sizes; [..|exact I]; lia. Qed.

Lemma stamp_marked g r seg : marked isn g seg -> marked isn g (stamp r seg).
Proof. intros M. unfold stamp. destruct (ackno r); [|done]. by destruct (negb _). Qed.

(** What [updateOutput] stamps acknowledges what the receiver does. *)
Lemma stamp_feedback g' r segs :
  gathered S cap pisn g' r -> Forall plain segs ->
  feedback g' pisn (acked r) (edge r) (stamp r <$> segs) (acked r) (edge r).
Proof.
  intros G F. destruct (peer_good g' r G) as [Hgood Hack]. destruct (peer_sizes g' r G) as (_ & Hwin & Hr & _).
  induction F as [|seg segs (Ha & Hr0 & Hw) F IH]; [by split|]. cbn [fmap list_fmap feedback].
  destruct (ackno r) as [n|] eqn:En.
  - assert (Es : _header (stamp r seg) = (_header seg) <| ack := true |> <| TCPHeader.ackno := n |>
      <| win := u16 (window_size r) |>) by (unfold stamp; by rewrite En, Hr0).
    unfold fed_edge, feeds. rewrite Es. cbn. split; [apply u16_range|]. exists (acked r).
    rewrite Hwin, u16_id by lia. split; [split; [by apply Hack|done]|].
    split_and!; [lia|unfold edge; lia|exact IH].
  - assert (Es : stamp r seg = seg) by (unfold stamp; by rewrite En).
    rewrite Es, Ha, Hw. split; [lia|]. exact IH.
Qed.

Lemma pacing_clear g s : pacing g s -> pacing g (s <| TCPSender._segments_out := [] |>).
Proof. intros [P _]. by split. Qed.

Lemma live_clear w s : live w s -> live w (s <| TCPSender._segments_out := [] |>).
Proof. intros (f & I & H). exists f. split; [by destruct I|done]. Qed.

(** What a step leaves of the window: nothing shrinks. *)
Definition keeps c c' : Prop :=
  right_edge (_receiver c) <= right_edge (_receiver c') /\
  (fits (_sender c) -> fits (_sender c') /\
    _baseSqn (unAckQueue (_sender c')) = _baseSqn (unAckQueue (_sender c)) /\
    _win_size (unAckQueue (_sender c')) = _win_size (unAckQueue (_sender c))).

Lemma inbound_out g' a e c c' segs :
  inbound_ok g' a e c -> _receiver c' = _receiver c -> _active c' = _active c ->
  _segments_out c' = _segments_out c ++ (stamp (_receiver c) <$> segs) -> Forall plain segs ->
  inbound_ok g' a e c'.
Proof.
  intros (r & Hr & G & F) Er Ea Eo P. exists r. rewrite Er, Ea. split; [done|]. split; [done|]. rewrite Eo.
  eapply feedback_app; [exact F|].
  assert (Es : stamp (_receiver c) <$> segs = stamp r <$> segs) by (destruct Hr as [->|[_ ->]]; done).
  rewrite Es. by apply stamp_feedback.
Qed.

Lemma inbound_same g' a e c c' :
  inbound_ok g' a e c -> _receiver c' = _receiver c -> (_active c' = _active c \/ _active c' = false) ->
  _segments_out c' = _segments_out c -> inbound_ok g' a e c'.
Proof.
  intros (r & Hr & G & F) Er Ea Eo. exists r. rewrite Er, Eo. split; [|done].
  destruct Hr as [?|[? ?]]; [by left|right]. split; [|done]. destruct Ea; congruence.
Qed.

(** The acts that make the sender send. *)
Lemma fill_steady w g g' a e c :
  steady w g g' a e c -> exists g1, later g g1 /\ steady w g1 g' a e (fill c) /\ keeps c (fill c).
Proof.
  intros [(f & I & Hw) Hi HP Hq Ho Hin].
  destruct (fill_window_sends _ f I) as (f' & segs & Sn & _). destruct (fill_window_pacing g _ f I HP) as (g1 & L & P1).
  exists g1. split; [done|]. split; [|split; [done|by eapply fits_sends]]. split.
  - by eapply live_sends.
  - destruct Sn as (_ & _ & _ & _ & (Hi' & _) & _). by rewrite <- Hi.
  - exact P1.
  - by apply fill_window_plain.
  - eapply all_marked_later; [exact L|exact Ho].
  - eapply inbound_same; [exact Hin|done|by left|done].
Qed.

Lemma ticked_steady w g g' a e c n s :
  TCPSender.tick n (_sender c) = Ok s -> steady w g g' a e c ->
  steady w g g' a e (c <| _sender := s |>) /\ keeps c (c <| _sender := s |>).
Proof.
  intros E [(f & I & Hw) Hi HP Hq Ho Hin].
  destruct (tick_spec n _ f I) as (s' & segs & E' & Sn & _). rewrite E in E'. apply Ok_inj in E' as <-.
  split; [|split; [done|by eapply fits_sends]]. split; try done.
  - by eapply live_sends.
  - destruct Sn as (_ & _ & _ & _ & (Hi' & _) & _). by rewrite <- Hi.
  - by eapply tick_pacing.
  - by eapply tick_plain.
Qed.

(** The segment of a reset is all that is left to send. *)
Lemma reset_steady w g g' a e c c' :
  sendRSTSeg c = Ok c' -> steady w g g' a e c -> steady w g g' a e c' /\ keeps c c'.
Proof.
  intros E [(f & I & Hw) Hi HP Hq Ho Hin]. rewrite sendRSTSeg_eq in E. apply Ok_inj in E as <-.
  split; [|split; [done|done]]. split.
  - apply live_clear. by exists f.
  - exact Hi.
  - by apply pacing_clear.
  - constructor.
  - apply Forall_singleton. by left.
  - destruct Hin as (r & Hr & G & F). exists r. split; [exact Hr|]. split; [done|].
    apply feedback_le in F as [? ?]. cbn. lia.
Qed.

Lemma act_steady w g g' a e c c' :
  act c c' -> steady w g g' a e c -> exists g1, later g g1 /\ steady w g1 g' a e c' /\ keeps c c'.
Proof.
  intros A St. pose proof St as [(f & I & Hw) Hi HP Hq Ho Hin]. destruct A as [c|c|c|c|c c' E1 E2 E3 E4|n c s E|c c' E].
  - by apply fill_steady.
  - exists g. split; [done|]. split; [|split; [done|done]]. split; try done.
    + exists f. split; [by destruct I|done].
    + by apply send_empty_pacing.
    + apply Forall_app. split; [exact Hq|]. by apply Forall_singleton.
  - exists g. split; [done|]. split; [|split; [done|done]]. split.
    + apply live_clear. by exists f.
    + exact Hi.
    + by apply pacing_clear.
    + constructor.
    + apply Forall_app. split; [exact Ho|]. apply Forall_fmap. destruct HP as [_ HP].
      eapply Forall_impl; [exact HP|]. intros seg. rewrite Hi. apply stamp_marked.
    + by eapply inbound_out.
  - exists g. split; [done|]. split; [|split; [done|done]]. split; try done.
    + exists (mk_fifo (hist f) (popped f) (bound f) (ended f) true).
      split; [|done]. destruct I as [R Hl Q]. split; [by apply bs_refines_error|done|]. by destruct Q.
    + destruct Hin as (r & Hr & G & F). exists r. split; [|done]. right. split; [done|].
      clear -Hr. destruct c; cbn in *. by destruct Hr as [->|[_ ->]].
  - exists g. split; [done|]. split; [|split; [by rewrite E2|by rewrite E1]].
    split; unfold segQueueFromSender; rewrite ?E1, ?E3; try done; [by exists f|].
    by eapply inbound_same.
  - exists g. split; [done|]. by apply (ticked_steady w g g' a e c n s).
  - exists g. split; [done|]. by apply (reset_steady w g g' a e c c').
Qed.

(** The window the sender knows: up to [b], with edge at most [E]. *)
Definition within (b E : Z) (s : TCPSender) : Prop :=
  fits s /\ _baseSqn (unAckQueue s) <= b /\ _baseSqn (unAckQueue s) + _win_size (unAckQueue s) <= E.

(** A segment of the peer that may arrive at [c]; its acknowledgment, if any, is [b]. *)
Record arrives (g g' : progress) (b E : Z) (seg : TCPSegment) (c : TCPConnection) : Prop := mk_arrives {
  ar_accurate : accurate pisn S true seg;
  ar_marked : marked pisn g' seg;
  ar_win : is_u16 (win (_header seg));
  ar_ack : ack (_header seg) = true -> feeds g isn seg b /\ E = fed_edge seg b;
  ar_cuts : forall k, k ∈ cuts g' -> k <= zlen S /\ k <= right_edge (_receiver c) }.

(** The same when the window may be closed to some of what the peer has sent. *)
Record comes (g g' : progress) (b E : Z) (seg : TCPSegment) (c : TCPConnection) : Prop := mk_comes {
  co_accurate : accurate pisn S true seg;
  co_marked : marked pisn g' seg;
  co_win : is_u16 (win (_header seg));
  co_ack : ack (_header seg) = true -> feeds g isn seg b /\ E = fed_edge seg b;
  co_cuts : forall k, k ∈ cuts g' -> k <= zlen S /\ takes (_receiver c) k }.

Lemma arrives_comes g g' b E seg c : arrives g g' b E seg c -> comes g g' b E seg c.
Proof. intros [A M W Ha Hk]. split; try done. intros k Hin. destruct (Hk k Hin). by split; [|left]. Qed.

(** What happens to the receiver meanwhile: the edge of the window stays. *)
Definition moves (r r' : TCPReceiver) : Prop := right_edge r' = right_edge r /\ assembled r <= assembled r'.

Lemma comes_later g g1 g' b E seg c c' :
  later g g1 -> moves (_receiver c) (_receiver c') -> comes g g' b E seg c -> comes g1 g' b E seg c'.
Proof.
  intros L [Hr Hx] [A M W Ha Hk]. split; try done.
  - intros H. destruct (Ha H) as [[? G] ?]. split; [|done]. split; [done|by eapply good_later].
  - intros k Hin. destruct (Hk k Hin) as [? [?|?]]; (split; [done|]); [left|right]; lia.
Qed.

Lemma recv_steady w g g' a e b E seg c c' :
  steady w g g' a e c -> comes g g' b E seg c -> _active c = true -> recv_segment seg c = Ok c' ->
  steady w g g' a e c' /\ keeps c c' /\ moves (_receiver c) (_receiver c').
Proof.
  intros [Hl Hi HP Hq Ho (r & Hr & G & F)] [A M W Ha Hk] Hac Ec.
  destruct Hr as [<-|[? _]]; [|congruence].
  destruct (gathered_segment S cap pisn ltac:(lia) ltac:(lia) short_stream pisn_valid g' _ seg G A M Hk) as [_ Hstep].
  apply bind_Ok in Ec as (r' & Er & [= <-]). destruct (Hstep r' Er) as (G' & (F1 & F2 & F3 & _) & (M1 & M2 & _)).
  split; [|split; [by split|by split]]. split; try done. exists r'. split; [by left|]. split; [done|].
  by eapply feedback_end.
Qed.

Lemma ack_steady w g g' a e b E seg c c' :
  steady w g g' a e c -> zlen w < 0x7fffffff -> comes g g' b E seg c -> ack (_header seg) = true ->
  recv_ack (_header seg) c = Ok c' ->
  steady w g g' a e c' /\ right_edge (_receiver c) <= right_edge (_receiver c') /\
  (within b E (_sender c) -> within b E (_sender c')).
Proof.
  intros [(f & I & Hw) Hi HP Hq Ho Hin] Hlw [A M W Ha Hk] Eack Ec. destruct (Ha Eack) as [[Hb G] ->].
  apply bind_Ok in Ec as (s & Es & [= <-]). rewrite Hb, <- Hi in Es. rewrite <- Hw in Hlw.
  destruct (ack_received_paced _ f g b _ s I HP G Hlw W Es) as [HP' Hbase].
  destruct (ack_received_spec _ f _ b _ I (good_ack_ok _ f g b I (proj1 HP) G Hlw) W)
    as (s2 & E2 & I2 & O2 & Hi2 & _ & Hn2 & Hw2 & _).
  rewrite Es in E2. apply Ok_inj in E2 as <-. split; [|split; [done|]].
  - split; try done; [by exists f|cbn; congruence|unfold segQueueFromSender; cbn; by rewrite O2].
  - unfold within, fits, fed_edge. cbn [_sender upd eta eta_TCPConnection]. rewrite Hn2, Hbase.
    rewrite Hw2. intros (Hf & Hb1 & Hb2). destruct (Z.ltb_spec 0 (win (_header seg))); lia.
Qed.

Lemma react_steady w g g' a e b E seg c c' :
  react seg c c' -> steady w g g' a e c -> zlen w < 0x7fffffff -> comes g g' b E seg c ->
  exists g1, later g g1 /\ steady w g1 g' a e c' /\ comes g1 g' b E seg c' /\
    right_edge (_receiver c) <= right_edge (_receiver c') /\
    (within b E (_sender c) -> within b E (_sender c')).
Proof.
  assert (Hkeep : forall c c', keeps c c' -> within b E (_sender c) -> within b E (_sender c')).
  { intros d d' [_ Hk] (Hf & ? & ?). destruct (Hk Hf) as (? & Hb & Hw). unfold within. by rewrite Hb, Hw. }
  intros R St Hw Ar. destruct R as [c c' A|c c' Hac Er|c c' Ha Er].
  - destruct (act_steady _ _ _ _ _ _ _ A St) as (g1 & L & St1 & K). exists g1.
    split_and!; [done|done|eapply comes_later; [done| |done]|apply K|by apply Hkeep].
    destruct (acts_window c c' (rtc_once _ _ A)) as [? Hx]. split; [done|by rewrite Hx].
  - destruct (recv_steady _ _ _ _ _ _ _ _ _ _ St Ar Hac Er) as (St1 & K & Mv). exists g.
    split_and!; [done|done|by eapply comes_later|apply K|by apply Hkeep].
  - destruct (ack_steady _ _ _ _ _ _ _ _ _ _ St Hw Ar Ha Er) as (St1 & Hr & K). exists g.
    split_and!; [done|done|eapply comes_later; [done| |done]|done|done].
    apply bind_Ok in Er as (s & _ & [= <-]). by split.
Qed.

Lemma reacts_steady w g' a e b E seg c c' :
  reacts seg c c' -> zlen w < 0x7fffffff -> forall g, steady w g g' a e c -> comes g g' b E seg c ->
  exists g1, later g g1 /\ steady w g1 g' a e c' /\
    right_edge (_receiver c) <= right_edge (_receiver c') /\
    (within b E (_sender c) -> within b E (_sender c')).
Proof.
  intros R Hw. induction R as [c|c c1 c2 R _ IH]; intros g St Ar; [by exists g|].
  destruct (react_steady _ _ _ _ _ _ _ _ _ _ R St Hw Ar) as (g1 & L1 & St1 & Ar1 & Hr1 & W1).
  destruct (IH g1 St1 Ar1) as (g2 & L2 & St2 & Hr2 & W2). exists g2.
  split_and!; [by etrans|done|lia|auto].
Qed.

Lemma acts_steady w g' a e c c' :
  rtc act c c' -> forall g, steady w g g' a e c ->
  exists g1, later g g1 /\ steady w g1 g' a e c' /\ keeps c c'.
Proof.
  induction 1 as [c|c c1 c2 A _ IH]; intros g St; [by exists g|].
  destruct (act_steady _ _ _ _ _ _ _ A St) as (g1 & L1 & St1 & Hr1 & K1).
  destruct (IH g1 St1) as (g2 & L2 & St2 & Hr2 & K2). exists g2. split; [by etrans|]. split; [done|].
  split; [lia|]. intros H. destruct (K1 H) as (H1 & Hb1 & Hw1). destruct (K2 H1) as (? & Hb2 & Hw2).
  split; [done|]. split; congruence.
Qed.

(** Such a segment is one the connection handles. *)
Lemma comes_ok w g g' a e b E seg c :
  steady w g g' a e c -> zlen w < 0x7fffffff -> comes g g' b E seg c -> active c = true ->
  seg_ok pisn S c seg.
Proof.
  intros [(f & I & Hw) Hi HP Hq Ho (r & Hr & G & F)] Hlw [A M W Ha Hk] Hac.
  unfold active in Hac. destruct Hr as [<-|[? _]]; [|congruence].
  destruct (gathered_segment S cap pisn ltac:(lia) ltac:(lia) short_stream pisn_valid g' _ seg G A M Hk) as [HR _].
  split; [exact HR|]. split; [done|]. intros H. destruct (Ha H) as [[-> Hg] _]. exists b. rewrite <- Hi.
  apply (good_ack_ok _ f g); [done|apply HP|done|congruence].
Qed.

(** ** The application and the network *)

Lemma steady_later w g g' g1' a e c : later g' g1' -> steady w g g' a e c -> steady w g g1' a e c.
Proof.
  intros L [Hl Hi HP Hq Ho (r & Hr & G & F)]. split; try done. exists r. split; [done|].
  split; [by eapply gathered_later|by eapply feedback_later].
Qed.

Lemma inbound_feedback w g g' a e c :
  steady w g g' a e c ->
  feedback g' pisn a e (_segments_out c) (acked (_receiver c)) (edge (_receiver c)).
Proof. intros [_ _ _ _ _ (r & Hr & G & F)]. destruct Hr as [->|[_ ->]]; exact F. Qed.

Lemma steady_drain w g g' a e a1 e1 c :
  steady w g g' a e c -> a1 <= acked (_receiver c) -> e1 <= edge (_receiver c) ->
  steady w g g' a1 e1 (drain c).
Proof.
  intros [Hl Hi HP Hq Ho (r & Hr & G & F)] Ha He. split; try done.
  exists r. split; [done|]. split; [done|]. destruct Hr as [E|[_ E]]; rewrite E in Ha, He; by split.
Qed.

(** What [write] and [end_input_stream] do: new input, and then what [connect] does. *)
Lemma steady_input w g g' a e c st f f' :
  steady w g g' a e c -> sender_inv (_sender c) f -> hist f = w ->
  refines st f' -> popped f' = popped f -> grows w (ended f) (hist f') (ended f') ->
  zlen (hist f') < LIMIT ->
  exists g1, later g g1 /\
    steady (hist f') g1 g' a e (updateOutput (fill (on_sender_stream (fun _ => st) c))) /\
    keeps c (updateOutput (fill (on_sender_stream (fun _ => st) c))).
Proof.
  intros [Hl Hi HP Hq Ho Hin] I <- R Hp G Hlim.
  set (c0 := on_sender_stream (fun _ => st) c).
  assert (St0 : steady (hist f') g g' a e c0).
  { split; try done. exists f'. split; [|done]. by apply (sender_inv_stream (_sender c) f). }
  assert (K0 : keeps c c0) by (by split).
  destruct (acts_steady (hist f') g' a e c0 (updateOutput (fill c0))
    ltac:(etrans; [apply rtc_once, act_fill|apply rtc_once, act_update]) g St0) as (g1 & L & St1 & K1).
  exists g1. split; [done|]. split; [done|]. destruct K0 as [Hr0 K0], K1 as [Hr1 K1].
  split; [lia|]. intros H. destruct (K0 H) as (H0 & Hb0 & Hw0). destruct (K1 H0) as (? & Hb1 & Hw1).
  split; [done|]. split; congruence.
Qed.

Lemma steady_write w g g' a e c data :
  steady w g g' a e c -> zlen (w ++ ztake (fst (write data c)) data) < LIMIT ->
  exists g1, later g g1 /\
    steady (w ++ ztake (fst (write data c)) data) g1 g' a e (snd (write data c)) /\
    keeps c (snd (write data c)).
Proof.
  intros St Hl. pose proof St as [(f & I & Hw) _ _ _ _ _]. unfold write in *.
  destruct (zlen data =? 0) eqn:Ez.
  { cbn [fst snd] in *. rewrite ztake_0, app_nil_r. by exists g. }
  destruct (ByteStream.write data (_stream (_sender c))) as [n st] eqn:E. cbn [fst snd] in *.
  destruct (bs_refines_write data _ f (se_stream _ _ I)) as [Hn R']. rewrite E in Hn, R'. cbn [fst snd] in Hn, R'.
  set (f' := mk_fifo _ _ _ _ _) in R'.
  assert (Hf : hist f' = w ++ ztake n data) by (cbn; by rewrite Hw).
  rewrite <- Hf in Hl |- *. apply (steady_input w g g' a e c st f f'); try done.
  exists (ztake n data). split; [exact Hf|]. intros He. split; [exact He|]. by rewrite Hn, He.
Qed.

Lemma steady_end w g g' a e c :
  steady w g g' a e c ->
  exists g1, later g g1 /\ steady w g1 g' a e (end_input_stream c) /\ keeps c (end_input_stream c).
Proof.
  intros St. pose proof St as [(f & I & Hw) _ _ _ _ _]. pose proof (bs_refines_end _ _ (se_stream _ _ I)) as R'.
  set (f' := mk_fifo _ _ _ _ _) in R'. rewrite <- Hw. change (hist f) with (hist f').
  unfold end_input_stream. apply (steady_input w g g' a e c _ f f'); try done.
  - exists []. by rewrite app_nil_r.
  - apply I.
Qed.

Lemma inbound_read g' a e c n :
  inbound_ok g' a e c -> 0 <= n ->
  inbound_ok g' a e (read_inbound n c) /\ right_edge (_receiver c) <= right_edge (_receiver (read_inbound n c)).
Proof.
  intros (r & Hr & G & F) Hn.
  destruct (gathered_read S cap pisn ltac:(lia) ltac:(lia) short_stream g' r n G Hn)
    as (G' & (Ha & He & Hre & _) & _).
  set (r' := r <| _reassembler := _ |>) in *.
  assert (Hr' : _receiver (read_inbound n c) = r' \/
    _active (read_inbound n c) = false /\ _receiver (read_inbound n c) = recv_error r').
  { unfold read_inbound, on_receiver_stream, inbound_stream. destruct Hr as [E|[Hac E]].
    - left. cbn. by rewrite E.
    - right. split; [exact Hac|]. cbn. by rewrite E. }
  split; [exists r'; split; [done|]; split; [done|by eapply feedback_end]|].
  assert (right_edge (_receiver c) = right_edge r) as -> by (by destruct Hr as [->|[_ ->]]).
  by destruct Hr' as [->|[_ ->]].
Qed.

Lemma steady_read w g g' a e c n :
  steady w g g' a e c -> 0 <= n ->
  steady w g g' a e (read_inbound n c) /\ keeps c (read_inbound n c).
Proof.
  intros [Hl Hi HP Hq Ho Hin] Hn. destruct (inbound_read _ _ _ _ n Hin Hn) as [Hin' Hr]. by split.
Qed.
End peer.

(** The initial number of a new connection. *)
Lemma new_isn_valid cfg random : TCPConfig.wf cfg -> valid (TCPSender._isn (_sender (TCPConnection.new random cfg))).
Proof.
  intros W. cbn [TCPConnection.new _sender TCPSender.new TCPSender._isn].
  destruct (fixed_isn cfg) as [isn|] eqn:E; [by apply (wf_fixed_isn _ W)|]. unfold valid. cbn. ulia.
Qed.
