(* ===== verification/Network.v ===== *)
(** * Network: two connections over links that lose segments

    Two connections with arbitrary applications: either side writes, ends its stream, connects, reads and
    ticks whenever it likes, and what it sends travels over a link of its own that delivers in order and may
    lose any segment, as [LossyFdAdapter] makes it do.  Both directions carry data, a window may be closed and probed, and
    a side that has not sent its SYN listens for one. *)

From stdpp Require Import relations sets.
From S2P Require Import Prelude WrappingIntegers ByteStream StreamReassembler Buffer.
From S2P Require Import TCPHeader TCPSegment TCPConfig TCPReceiver TCPSender Pace Transfer TCPConnection FlowControl.
Implicit Types (c : TCPConnection) (g : progress).

(** ** The system *)

(** One side: its connection, what its application has written and read, and the segments on the way to the
    other side, oldest first. *)
Record side := mk_side {
  conn : TCPConnection;
  wrote : bytes;
  finished : bool;
  got : bytes;
  link : list TCPSegment }.

#[export] Instance eta_side : Eta side := fun a => mk_side (conn a) (wrote a) (finished a) (got a) (link a).

Definition new_side (random_isn : Z) (cfg : TCPConfig) : side :=
  mk_side (TCPConnection.new random_isn cfg) [] false [] [].

(** What a side does alone. *)
Inductive alone (a : side) : side -> Prop :=
| side_writes data :
    alone a (a <| conn := snd (write data (conn a)) |> <| wrote := wrote a ++ ztake (fst (write data (conn a))) data |>)
| side_ends : alone a (a <| conn := end_input_stream (conn a) |> <| finished := true |>)
| side_connects : alone a (a <| conn := connect (conn a) |>)
| side_ticks n c : tick n (conn a) = Ok c -> alone a (a <| conn := c |>)
| side_reads n : 0 <= n ->
    alone a (a <| conn := read_inbound n (conn a) |> <| got := got a ++ fst (read n (inbound_stream (conn a))) |>)
| side_sends : alone a (a <| conn := drain (conn a) |> <| link := link a ++ segments_out (conn a) |>)
| side_loses l1 seg l2 : link a = l1 ++ seg :: l2 -> alone a (a <| link := l1 ++ l2 |>).

(** The oldest segment on the way from [a] arrives at [b]. *)
Inductive crosses (a b : side) : side -> side -> Prop :=
| crosses_head seg segs c : link a = seg :: segs -> segment_received seg (conn b) = Ok c ->
    crosses a b (a <| link := segs |>) (b <| conn := c |>).

Inductive network_step : side * side -> side * side -> Prop :=
| step_left a a' b : alone a a' -> network_step (a, b) (a', b)
| step_right a b b' : alone b b' -> network_step (a, b) (a, b')
| step_to_right a b a' b' : crosses a b a' b' -> network_step (a, b) (a', b')
| step_to_left a b a' b' : crosses b a b' a' -> network_step (a, b) (a', b').

(** ** Acknowledgments on a lossy link *)

Lemma feedback_lose g isn seg l1 l2 : forall a e a' e',
  feedback g isn a e (l1 ++ seg :: l2) a' e' -> feedback g isn a e (l1 ++ l2) a' e'.
Proof.
  induction l1 as [|s1 l1 IH]; intros a e a' e'; cbn [feedback app].
  - intros [_ H]. destruct (ack _); [|done]. destruct H as (n & _ & Ha & He & H). by eapply feedback_front.
  - intros [Hw H]. split; [done|]. destruct (ack _); [|by eapply IH].
    destruct H as (n & ? & ? & ? & H). exists n. split_and!; try done. by eapply IH.
Qed.

(** A connection that has no peer to acknowledge yet. *)
Definition unacking (seg : TCPSegment) : Prop := ack (_header seg) = false.
Definition deaf c : Prop := ackno (_receiver c) = None /\ Forall unacking (segments_out c).

Lemma deaf_stamp r segs : ackno r = None -> Forall plain segs -> Forall unacking (stamp r <$> segs).
Proof.
  intros E F. apply Forall_fmap. eapply Forall_impl; [exact F|]. intros seg (Ha & _). unfold stamp. cbn. by rewrite E.
Qed.

Lemma ackno_error r : ackno (recv_error r) = ackno r.
Proof. done. Qed.

Lemma act_deaf c c' : act c c' -> Forall plain (segQueueFromSender c) -> deaf c -> deaf c'.
Proof.
  intros A P [Hn Hf]. unfold deaf, segments_out in *. destruct A as [c|c|c|c|c c' E1 E2 E3 E4|n c s E|c c' E]; try done.
  - split; [done|]. cbn. apply Forall_app. split; [done|]. by apply deaf_stamp.
  - by rewrite E2, E3.
  - rewrite sendRSTSeg_eq in E. apply Ok_inj in E as <-. split; [done|]. by apply Forall_singleton.
Qed.

Lemma acts_deaf isn pisn S cap w g' a e c c' :
  0 < cap < 0x10000 -> zlen S < 0x7fffffff ->
  rtc act c c' -> forall g, steady isn pisn S cap w g g' a e c -> deaf c -> deaf c'.
Proof.
  intros Hc Hs. induction 1 as [c|c c1 c2 A _ IH]; intros g St D; [done|].
  destruct (act_steady isn pisn S cap Hc Hs _ _ _ _ _ _ _ A St) as (g1 & _ & St1 & _).
  eapply IH; [exact St1|]. eapply act_deaf; [exact A|apply St|done].
Qed.

(** ** A side before its SYN *)

Definition start_progress : progress := mk_progress [0] None.

Section endpoint.
Context (isn pisn : WrappingInt32) (S : bytes) (cap : Z).
Hypothesis cap_range : 0 < cap < 0x10000.
Hypothesis S_short : zlen S < 0x7fffffff.
Hypothesis pisn_valid : valid pisn.

(** Nothing sent, nothing received. *)
Record dormant (w : bytes) (g' : progress) (a e : Z) c : Prop := mk_dormant {
  do_live : live w (_sender c);
  do_isn : TCPSender._isn (_sender c) = isn;
  do_queue : unAckQueue (_sender c) = UnAckQueue.new;
  do_timer : _isTimerRunning (timer (_sender c)) = false /\ _consecutive_retransmissions (timer (_sender c)) = 0;
  do_quiet : segQueueFromSender c = [];
  do_out : segments_out c = [];
  do_inbound : inbound_ok pisn S cap g' a e c;
  do_listens : ackno (_receiver c) = None;
  do_open : input_ended (inbound_stream c) = false }.

Abbreviation steady := (steady isn pisn S cap).

Lemma dormant_later w g' g1' a e c : later g' g1' -> dormant w g' a e c -> dormant w g1' a e c.
Proof.
  intros L [Hl Hi Hq Ht Hs Ho (r & Hr & G & F) Hn Hx]. split; try done. exists r. split; [done|].
  split; [by eapply gathered_later|by eapply feedback_later].
Qed.

Lemma dormant_sends w g' a e c : dormant w g' a e c ->
  fill c = c <| _sender := (_sender c) <| timer := Timer.startTimer (timer (_sender c)) |>
    <| TCPSender._segments_out := [headerSeg (TCPHeader.default <| seqno := wrap 0 isn |> <| syn := true |>)] |>
    <| unAckQueue := UnAckQueue.new <| _synSent := true |> <| _next_seqno := 1 |> |> |>.
Proof.
  intros [Hl Hi Hq [Ht _] Hs _ _ _ _]. unfold fill, on_sender. f_equal.
  unfold segQueueFromSender in Hs. destruct (_sender c) as [tm i st out q]. cbn in *. subst.
  unfold fill_window. cbn -[firstPush]. unfold makeSynSeg, remainSpace. cbn -[firstPush]. rewrite andb_false_r.
  unfold firstPush. cbn. by rewrite Ht.
Qed.

(** The SYN: from here on the side is in step with its peer. *)
Lemma dormant_wakes w g' a e c : dormant w g' a e c ->
  steady w start_progress g' a e (fill c) /\ within 0 1 (_sender (fill c)) /\ deaf (fill c).
Proof.
  intros D. pose proof (dormant_sends _ _ _ _ _ D) as E. pose proof D as [(f & I & Hw) Hi Hq Ht Hs Ho Hin Hn Hx].
  destruct (fill_window_sends _ f I) as (f' & segs & Sn & _).
  split; [split|split].
  - by eapply live_sends.
  - rewrite E. exact Hi.
  - rewrite E. split.
    + split; cbn; try done.
      * intros k [->|[]%not_elem_of_nil]%elem_of_cons. done.
      * by left.
    + cbn [_sender upd eta eta_TCPConnection TCPSender._segments_out eta_TCPSender TCPSender._isn]. rewrite Hi.
      apply Forall_singleton. right. exists 0. cbn. split_and!; try done. by left.
  - rewrite E. cbn. by apply Forall_singleton.
  - rewrite E. change (Forall (marked isn start_progress) (segments_out c)). by rewrite Ho.
  - by eapply inbound_same; [exact Hin|done|left|].
  - rewrite E. cbn. unfold within, fits. cbn. lia.
  - split; [done|]. change (Forall unacking (segments_out c)). by rewrite Ho.
Qed.

(** What it does before. *)
Lemma update_quiet c : segQueueFromSender c = [] -> updateOutput c = c.
Proof.
  destruct c as [? ? [? ? ? q ?] out ? ? ? ?]. unfold segQueueFromSender. cbn. intros ->.
  unfold updateOutput, set_segQueue, segQueueFromSender. cbn. by rewrite app_nil_r.
Qed.

Lemma dormant_same w g' a e c c' : dormant w g' a e c ->
  _sender c' = _sender c -> _receiver c' = _receiver c -> _segments_out c' = _segments_out c ->
  (_active c' = _active c \/ _active c' = false) -> dormant w g' a e c'.
Proof.
  intros [Hl Hi Hq Ht Hs Ho Hin Hn Hx] E1 E2 E3 E4.
  split; unfold segQueueFromSender, inbound_stream, segments_out in *; rewrite ?E1, ?E2, ?E3; try done.
  by eapply inbound_same.
Qed.

Lemma dormant_ticks w g' a e n c c' : dormant w g' a e c -> tick n c = Ok c' -> dormant w g' a e c'.
Proof.
  intros D. pose proof D as [Hl Hi Hq [Ht Hc] Hs Ho Hin Hn Hx]. unfold tick.
  destruct (_active c) eqn:Hac; cbn [negb]; [|by intros [= <-]].
  cbn [_sender upd eta eta_TCPConnection]. unfold TCPSender.tick. rewrite Ht. cbn [mbind outcome_bind].
  rewrite update_quiet by done. unfold consecutive_retransmissions. cbn [_sender upd eta eta_TCPConnection]. rewrite Hc.
  cbn [Z.ltb Z.compare MAX_RETX_ATTEMPTS]. destruct (_ && _); intros [= <-].
  - eapply dormant_same; [exact D|done..|by right].
  - eapply dormant_same; [exact D|done..|by left].
Qed.

Lemma dormant_reads w g' a e n c : dormant w g' a e c -> 0 <= n -> dormant w g' a e (read_inbound n c).
Proof.
  intros [Hl Hi Hq Ht Hs Ho Hin Hnn Hx] Hn. split; try done.
  by eapply inbound_read.
Qed.

Lemma dormant_resets w g' a e c : dormant w g' a e c -> dormant w g' a e (uncleanShutdown c).
Proof.
  intros [(f & I & Hw) Hi Hq Ht Hs Ho (r & Hr & G & F) Hn Hx]. split; try done.
  - exists (mk_fifo (hist f) (popped f) (bound f) (ended f) true).
    split; [|done]. destruct I as [R Hl Q]. split; [by apply bs_refines_error|done|]. by destruct Q.
  - exists r. split; [|done]. right. split; [done|]. clear -Hr. destruct c; cbn in *. by destruct Hr as [->|[_ ->]].
Qed.

(** A connection in step with its peer whose sender knows the window up to [E], the base at [b]. *)
Definition awake (w : bytes) (g' : progress) (a e b E : Z) c : Prop :=
  exists g, later start_progress g /\ steady w g g' a e c /\ within b E (_sender c) /\ deaf c.

Lemma acts_awake w g' a e b E c c' : rtc act c c' -> awake w g' a e b E c -> awake w g' a e b E c'.
Proof.
  intros A (g & L & St & (Wf & Wb & We) & Df).
  destruct (acts_steady isn pisn S cap cap_range S_short _ _ _ _ _ _ A g St) as (g1 & L1 & St1 & _ & K).
  exists g1. split; [by etrans|]. split; [done|]. split.
  - destruct (K Wf) as (? & Hb & Hw). unfold within. by rewrite Hb, Hw.
  - eapply acts_deaf; [exact cap_range|exact S_short|exact A|exact St|done].
Qed.

Lemma dormant_connects w g' a e c : dormant w g' a e c -> awake w g' a e 0 1 (connect c).
Proof.
  intros D. apply (acts_awake _ _ _ _ _ _ (fill c)); [apply rtc_once, act_update|].
  exists start_progress. split; [done|]. by apply dormant_wakes.
Qed.

Lemma dormant_input w g' a e c st f f' :
  dormant w g' a e c -> sender_inv (_sender c) f -> hist f = w ->
  refines st f' -> popped f' = popped f -> grows w (ended f) (hist f') (ended f') ->
  zlen (hist f') < LIMIT ->
  awake (hist f') g' a e 0 1 (updateOutput (fill (on_sender_stream (fun _ => st) c))).
Proof.
  intros [Hl Hi Hq Ht Hs Ho Hin Hn Hx] I <- R Hp G Hlim. apply dormant_connects.
  split; try done. exists f'. split; [|done]. by apply (sender_inv_stream (_sender c) f).
Qed.

Lemma dormant_writes w g' a e c data :
  dormant w g' a e c -> zlen (w ++ ztake (fst (write data c)) data) < LIMIT ->
  let w' := w ++ ztake (fst (write data c)) data in
  let c' := snd (write data c) in dormant w' g' a e c' \/ awake w' g' a e 0 1 c'.
Proof.
  intros D Hl. pose proof D as [(f & I & Hw) _ _ _ _ _ _ _ _]. cbv zeta. unfold write in *.
  destruct (zlen data =? 0) eqn:Ez.
  { cbn [fst snd] in *. rewrite ztake_0, app_nil_r. by left. }
  right. destruct (ByteStream.write data (_stream (_sender c))) as [n st] eqn:E. cbn [fst snd] in *.
  destruct (bs_refines_write data _ f (se_stream _ _ I)) as [Hn R']. rewrite E in Hn, R'. cbn [fst snd] in Hn, R'.
  set (f' := mk_fifo _ _ _ _ _) in R'.
  assert (Hf : hist f' = w ++ ztake n data) by (cbn; by rewrite Hw).
  rewrite <- Hf in Hl |- *. apply (dormant_input w g' a e c st f f'); try done.
  exists (ztake n data). split; [exact Hf|]. intros He. split; [exact He|]. by rewrite Hn, He.
Qed.

Lemma dormant_ends w g' a e c : dormant w g' a e c -> awake w g' a e 0 1 (end_input_stream c).
Proof.
  intros D. pose proof D as [(f & I & Hw) _ _ _ _ _ _ _ _]. pose proof (bs_refines_end _ _ (se_stream _ _ I)) as R'.
  set (f' := mk_fifo _ _ _ _ _) in R'. rewrite <- Hw. change (hist f) with (hist f').
  unfold end_input_stream. apply (dormant_input w g' a e c _ f f'); try done.
  - exists []. by rewrite app_nil_r.
  - apply I.
Qed.

(** A segment of a peer that acknowledges nothing: the SYN wakes it. *)
Lemma dormant_comes w g' a e seg c :
  dormant w g' a e c -> accurate pisn S true seg -> marked pisn g' seg -> is_u16 (win (_header seg)) ->
  unacking seg -> (forall k, k ∈ cuts g' -> k <= zlen S /\ takes (_receiver c) k) ->
  comes isn pisn S start_progress g' 0 1 seg (fill c).
Proof. intros D A M W Ha Hk. split; try done. unfold unacking in Ha. congruence. Qed.

Lemma dormant_receives w g' a e seg c c' :
  dormant w g' a e c -> zlen w < 0x7fffffff -> comes isn pisn S start_progress g' 0 1 seg (fill c) -> unacking seg ->
  segment_received seg c = Ok c' ->
  dormant w g' a e c' \/ exists g, later start_progress g /\ steady w g g' a e c' /\ within 0 1 (_sender c').
Proof.
  intros D Hl Co Ha. unfold segment_received. destruct (_active c) eqn:Hac; cbn [negb]; [|intros [= <-]; by left].
  set (c0 := c <| _time_since_last_segment_received := 0 |>).
  assert (D0 : dormant w g' a e c0) by (eapply dormant_same; [exact D|done..|by left]).
  assert (Co0 : comes isn pisn S start_progress g' 0 1 seg (fill c0)) by (by destruct Co).
  assert (Hac0 : _active c0 = true) by exact Hac. clearbody c0. clear D Co Hac c. rename c0 into c.
  pose proof (do_listens _ _ _ _ _ D0) as Hn.
  unfold out_of_order. rewrite Hn. destruct (rst _).
  { intros [= <-]. left. by apply dormant_resets. }
  unfold receiver_FIN_recv. change (stream_out (_receiver c)) with (inbound_stream c). rewrite (do_open _ _ _ _ _ D0).
  unfold receiver_in_listen. rewrite Hn, bool_decide_eq_false_2 by (by intros [? ?]). cbn [negb].
  unfold handle_listen. destruct (syn (_header seg)) eqn:Hs; [|intros [= <-]; by left].
  rewrite Ha. cbn [mbind outcome_bind]. intros E. apply bind_Ok in E as (c1 & E1 & [= <-]). right.
  destruct (dormant_wakes _ _ _ _ _ D0) as (St & Wi & _).
  assert (E2 : recv_segment seg (fill c) = Ok (fill c1)).
  { unfold recv_segment in *. apply bind_Ok in E1 as (r & E1 & [= <-]). change (_receiver (fill c)) with (_receiver c).
    by rewrite E1. }
  assert (R : reacts seg (fill c) (if out_empty (updateOutput (fill c1)) then updateOutput (send_empty (updateOutput (fill c1)))
      else updateOutput (fill c1))).
  { etrans; [by apply rtc_once, react_recv|]. etrans; [apply react_one, act_update|]. apply react_reply. }
  destruct (reacts_steady isn pisn S cap cap_range S_short pisn_valid _ _ _ _ _ _ _ _ _ R Hl _ St Co0)
    as (g1 & L1 & St1 & _ & W1).
  exists g1. split; [done|]. split; [done|]. by apply W1.
Qed.

Lemma dormant_seg_ok w g' a e seg c :
  dormant w g' a e c -> comes isn pisn S start_progress g' 0 1 seg (fill c) -> unacking seg -> active c = true ->
  seg_ok pisn S c seg.
Proof.
  intros D [A M W _ Hk] Ha Hac. pose proof (do_inbound _ _ _ _ _ D) as (r & Hr & G & F). unfold active in Hac.
  destruct Hr as [<-|[? _]]; [|congruence].
  destruct (gathered_segment S cap pisn ltac:(lia) ltac:(lia) S_short pisn_valid g' _ seg G A M Hk) as [HR _].
  split; [exact HR|]. split; [done|]. unfold unacking in Ha. congruence.
Qed.
End endpoint.

(** ** What holds in every state

    For a side [a] whose peer [b] will have written [S] in the end: [g] is what [a] has sent, [g'] what [b]
    has.  The acknowledgments on [a]'s link continue those [b] has had. *)

Definition base (s : side) : Z := _baseSqn (unAckQueue (_sender (conn s))).
Definition reach (s : side) : Z := base s + _win_size (unAckQueue (_sender (conn s))).
Definition asleep (s : side) : Prop := _synSent (unAckQueue (_sender (conn s))) = false.

Section half.
Context (isn pisn : WrappingInt32) (S : bytes) (cfg : TCPConfig).
Abbreviation cap := (recv_capacity cfg).
Hypothesis cap_range : 0 < cap < 0x10000.
Hypothesis send_bound : is_u64 (send_capacity cfg).
Hypothesis S_short : zlen S < 0x7fffffff.
Hypothesis pisn_valid : valid pisn.

Inductive phase (g g' : progress) (a e : Z) (s : side) : Prop :=
| phase_asleep : dormant isn pisn S cap (wrote s) g' a e (conn s) -> link s = [] -> g = start_progress ->
    phase g g' a e s
| phase_awake : steady isn pisn S cap (wrote s) g g' a e (conn s) -> fits (_sender (conn s)) -> phase g g' a e s.

Definition in_session (s : side) : Prop := exists sent,
  conn_session isn pisn S cfg (wrote s) (finished s) sent (got s) (conn s) /\ link s ⊆ sent.

Record half_inv (g g' : progress) (s p : side) : Prop := mk_half_inv {
  hf_session : in_session s;
  hf_marked : Forall (marked isn g) (link s);
  hf_start : later start_progress g;
  hf_phase : exists a e, feedback g' pisn (base p) (reach p) (link s) a e /\ phase g g' a e s;
  hf_deaf : asleep p -> deaf (conn s) /\ Forall unacking (link s) }.

Lemma phase_inbound g g' a e s : phase g g' a e s -> inbound_ok pisn S cap g' a e (conn s).
Proof. intros [D _ _|St _]; [apply D|apply St]. Qed.

Lemma phase_later g g' g1' a e s : later g' g1' -> phase g g' a e s -> phase g g1' a e s.
Proof.
  intros L [D Hl Hg|St Hf]; [apply phase_asleep; [by eapply dormant_later|done..]|apply phase_awake; [|done]].
  by eapply steady_later.
Qed.

(** A step of the peer. *)
Lemma half_frame g g' g1' s p p' : half_inv g g' s p -> later g' g1' ->
  base p' <= base p -> reach p' <= reach p -> (asleep p' -> asleep p) -> half_inv g g1' s p'.
Proof.
  intros [Hs Hm Hz (a & e & F & P) Hd] L Hb Hr Ha. split; try done; [|by intros ?; apply Hd, Ha].
  exists a, e. split; [|by eapply phase_later]. eapply feedback_later; [exact L|]. by eapply feedback_front.
Qed.

Lemma deaf_connect c : Forall plain (segQueueFromSender c) -> deaf c -> deaf (connect c).
Proof.
  intros P D. unfold connect. eapply act_deaf; [apply act_update|by apply fill_window_plain|].
  eapply act_deaf; [apply act_fill|exact P|exact D].
Qed.
(** ** What a side does alone *)

Definition evolves (g g' : progress) (a e : Z) (s s' : side) : Prop :=
  exists g1 a1 e1, later g g1 /\ phase g1 g' a1 e1 s' /\
    (forall a0 e0, feedback g' pisn a0 e0 (link s) a e -> feedback g' pisn a0 e0 (link s') a1 e1) /\
    (base s' <= base s /\ reach s' <= reach s /\ (asleep s' -> asleep s)) /\
    (deaf (conn s) /\ Forall unacking (link s) -> deaf (conn s') /\ Forall unacking (link s')) /\
    (Forall (marked isn g) (link s) -> Forall (marked isn g1) (link s')).

Lemma steady_awake w g g1 a e s : steady isn pisn S cap w g g1 a e (conn s) -> asleep s -> False.
Proof. intros [_ _ [P _] _ _ _] Ha. unfold asleep in Ha. by rewrite (pc_syn _ _ P) in Ha. Qed.

(** Steps that leave the link alone. *)
Lemma steady_evolves g g1 g' a e s s' :
  steady isn pisn S cap (wrote s) g g' a e (conn s) -> fits (_sender (conn s)) -> link s' = link s -> later g g1 ->
  steady isn pisn S cap (wrote s') g1 g' a e (conn s') -> keeps (conn s) (conn s') ->
  (deaf (conn s) -> deaf (conn s')) -> evolves g g' a e s s'.
Proof.
  intros St Hf El L St1 [_ K] Hd. destruct (K Hf) as (Hf1 & Hb & Hw). exists g1, a, e. rewrite El.
  split; [done|]. split; [by apply phase_awake|]. split; [done|].
  split; [|split; [by intros [? ?]; auto|by apply all_marked_later]].
  unfold reach, base. rewrite Hb, Hw. split_and!; [done|done|].
  intros Ha. by destruct (steady_awake _ _ _ _ _ _ St1).
Qed.

Lemma dormant_asleep w g' a e s : dormant isn pisn S cap w g' a e (conn s) -> base s = 0 /\ reach s = 1 /\ asleep s.
Proof. intros D. unfold reach, base, asleep. by rewrite (do_queue _ _ _ _ _ _ _ _ _ D). Qed.

Lemma dormant_evolves g' a e s s' :
  dormant isn pisn S cap (wrote s) g' a e (conn s) -> link s = [] -> link s' = [] ->
  dormant isn pisn S cap (wrote s') g' a e (conn s') \/ awake isn pisn S cap (wrote s') g' a e 0 1 (conn s') ->
  evolves start_progress g' a e s s'.
Proof.
  intros D El El' H. destruct (dormant_asleep _ _ _ _ _ D) as (Hb & Hr & Ha). unfold evolves.
  rewrite Hb, Hr, El, El'. destruct H as [D1|(g1 & L & St & (Hf & Hb1 & Hr1) & Df)].
  - exists start_progress, a, e. destruct (dormant_asleep _ _ _ _ _ D1) as (Hb1 & Hr1 & Ha1).
    rewrite Hb1, Hr1. split_and!; try done; [by apply phase_asleep|]. intros _. split; [|done].
    split; [apply D1|]. by rewrite (do_out _ _ _ _ _ _ _ _ _ D1).
  - exists g1, a, e. split_and!; try done. by apply phase_awake.
Qed.

Lemma write_deaf data c : Forall plain (segQueueFromSender c) -> deaf c -> deaf (snd (write data c)).
Proof.
  intros P D. unfold write. destruct (_ =? 0); [done|]. destruct (ByteStream.write _ _) as [n st]. cbn [snd].
  by apply deaf_connect.
Qed.

Lemma dormant_alone g' a e s s' :
  dormant isn pisn S cap (wrote s) g' a e (conn s) -> link s = [] -> alone s s' -> zlen (wrote s') < LIMIT ->
  evolves start_progress g' a e s s'.
Proof.
  intros D El A Hl. destruct A as [data| | |n c E|n Hn| |l1 seg l2 E].
  - apply dormant_evolves; try done. by apply dormant_writes.
  - apply dormant_evolves; try done. right. by apply dormant_ends.
  - apply dormant_evolves; try done. right. by apply dormant_connects.
  - apply dormant_evolves; try done. left. by eapply dormant_ticks.
  - apply dormant_evolves; try done. left. by apply dormant_reads.
  - pose proof (do_out _ _ _ _ _ _ _ _ _ D) as Ho. apply dormant_evolves; try done; [by cbn; rewrite El, Ho|].
    left. by eapply dormant_same; [exact D|..|left].
  - rewrite El in E. by destruct l1.
Qed.

Lemma steady_alone g g' a e s s' :
  steady isn pisn S cap (wrote s) g g' a e (conn s) -> fits (_sender (conn s)) -> alone s s' ->
  zlen (wrote s') < LIMIT -> evolves g g' a e s s'.
Proof.
  intros St Hf A Hl. pose proof (st_plain _ _ _ _ _ _ _ _ _ _ St) as Hq. destruct A as [data| | |n c E|n Hn| |l1 seg l2 E].
  - destruct (steady_write isn pisn S cap cap_range S_short _ _ _ _ _ _ data St Hl) as (g1 & L & St1 & K).
    eapply steady_evolves; try done. by apply write_deaf.
  - destruct (steady_end isn pisn S cap cap_range S_short _ _ _ _ _ _ St) as (g1 & L & St1 & K).
    eapply steady_evolves; try done. by apply (deaf_connect (on_sender_stream end_input (conn s))).
  - destruct (acts_steady isn pisn S cap cap_range S_short _ _ _ _ _ (connect (conn s))
      ltac:(etrans; [apply rtc_once, act_fill|apply rtc_once, act_update]) _ St) as (g1 & L & St1 & K).
    eapply steady_evolves; try done. by apply deaf_connect.
  - apply tick_acts in E. destruct (acts_steady isn pisn S cap cap_range S_short _ _ _ _ _ _ E _ St) as (g1 & L & St1 & K).
    eapply steady_evolves; try done. by eapply acts_deaf.
  - destruct (steady_read isn pisn S cap cap_range S_short _ _ _ _ _ _ n St Hn) as [St1 K].
    by eapply steady_evolves.
  - exists g, (acked (_receiver (conn s))), (edge (_receiver (conn s))). split; [done|].
    split; [apply phase_awake; [by eapply steady_drain|done]|].
    split; [|split; [done|split]].
    + intros a0 e0 F. eapply feedback_app; [exact F|]. by eapply inbound_feedback.
    + intros [[Hn Ho] Hu]. split; [by split|]. by apply Forall_app.
    + intros Hm. apply Forall_app. split; [exact Hm|apply St].
  - exists g, a, e. split; [done|]. split; [by apply phase_awake|]. split; [|split; [done|split]].
    + intros a0 e0. cbn [link upd eta eta_side]. rewrite E. apply feedback_lose.
    + intros [Hd Hu]. split; [done|]. rewrite E in Hu. apply Forall_app in Hu as [? [_ ?]%Forall_cons]. by apply Forall_app.
    + intros Hm. rewrite E in Hm. apply Forall_app in Hm as [? [_ ?]%Forall_cons]. by apply Forall_app.
Qed.

Lemma alone_session s s' : alone s s' -> in_session s -> in_session s'.
Proof.
  intros A (sent & Hs & Hl). destruct A as [data| | |n c E|n Hn| |l1 seg l2 E]; cbn [link] in *.
  - exists sent. split; [by apply conn_write|done].
  - exists sent. split; [by eapply conn_end|done].
  - exists sent. split; [by apply conn_connect|done].
  - exists sent. split; [by eapply conn_tick|done].
  - exists sent. split; [by apply conn_read|done].
  - exists (sent ++ segments_out (conn s)). split; [by apply conn_drain|]. cbn. clear -Hl. set_solver.
  - exists sent. split; [done|]. rewrite E in Hl. cbn. clear -Hl. set_solver.
Qed.

(** What is on the way is true of what has been written. *)
Lemma link_accurate s : in_session s -> zlen (wrote s) < LIMIT ->
  Forall (accurate isn (wrote s) (finished s)) (link s).
Proof.
  intros (sent & Hs & Hl) Hw. destruct (session_outbound isn pisn S cfg _ _ _ _ _ ltac:(lia) ltac:(lia) send_bound Hw Hs)
    as [[Ha _]%Forall_app _]. apply Forall_forall. intros seg Hin%Hl. by eapply Forall_forall in Ha.
Qed.

Lemma side_ok s : in_session s -> zlen (wrote s) < LIMIT -> exists sent,
  conn_ok isn pisn S cap (wrote s) (finished s) sent (got s) (conn s).
Proof.
  intros (sent & Hs & _) Hw. exists sent. apply (conn_session_ok isn pisn S cap ltac:(lia) ltac:(lia) cfg); done.
Qed.
End half.

(** ** A segment arrives *)

Section arrival.
Context (isn pisn : WrappingInt32) (W S : bytes) (cfg cfg' : TCPConfig).
Abbreviation cap := (recv_capacity cfg).
Hypothesis cap_range : 0 < cap < 0x10000.
Hypothesis send_bound : is_u64 (send_capacity cfg).
Hypothesis cap_range' : 0 < recv_capacity cfg' < 0x10000.
Hypothesis send_bound' : is_u64 (send_capacity cfg').
Hypothesis W_short : zlen W < 0x7fffffff.
Hypothesis S_short : zlen S < 0x7fffffff.
Hypothesis isn_valid : valid isn.
Hypothesis pisn_valid : valid pisn.

(** All the peer has sent lies in the window, or the window is closed. *)
Lemma cuts_taken g g' a e a' e' s p :
  inbound_ok pisn S cap g' a e (conn s) -> reach p <= e ->
  steady pisn isn W (recv_capacity cfg') (wrote p) g' g a' e' (conn p) -> fits (_sender (conn p)) ->
  zlen (wrote p) <= zlen S ->
  forall k, k ∈ cuts g' -> k <= zlen S /\ takes (_receiver (conn s)) k.
Proof.
  intros (r & Hr & G & F) Hreach [(f & I & Hw) _ [P _] _ _ _] Hf Hlen k Hk.
  pose proof (pc_range _ _ P _ Hk) as Hkr. pose proof (ref_popped _ _ (se_stream _ _ I)) as Hp. rewrite Hw in Hp.
  pose proof (sent_popped _ _ (se_queue _ _ I) (pc_syn _ _ P)) as Hs. split; [lia|].
  destruct (feedback_le _ _ _ _ _ _ _ F) as [_ Hed].
  destruct (peer_sizes pisn S cap cap_range S_short g' r G) as (_ & _ & Hwin & _).
  assert (Et : takes (_receiver (conn s)) k <-> takes r k) by (by destruct Hr as [->|[_ ->]]). apply Et. clear Et.
  unfold fits in Hf. unfold edge, acked in Hed. unfold reach, base in Hreach. unfold sent_bytes in *. unfold takes.
  assert (Hfin : b2n (input_ended (stream_out r)) <= b2n (_finSent (unAckQueue (_sender (conn p))))).
  { destruct (input_ended (stream_out r)) eqn:E; [|apply b2n_range].
    pose proof (gathered_ended S cap pisn ltac:(lia) ltac:(lia) S_short g' r G E) as Hend.
    rewrite (pc_fin _ _ P) in Hend. by destruct (_finSent _). }
  lia.
Qed.

Definition both (g g' : progress) (s p : side) : Prop :=
  half_inv isn pisn S cfg g g' s p /\ half_inv pisn isn W cfg' g' g p s.

(** The peer has a link, so it is awake: its oldest segment comes. *)
Lemma head_comes g g' s p seg segs :
  both g g' s p -> link p = seg :: segs -> grows (wrote p) (finished p) S true ->
  exists a e n E, feedback g isn n E segs a e /\ base s <= n /\ reach s <= E /\
    phase pisn isn W cfg' g' g a e p /\ comes isn pisn S g g' n E seg (conn s) /\
    (asleep s -> unacking seg).
Proof.
  intros [[_ _ _ (as' & es & Fs & Ps) _] [Hses Hm _ (a & e & F & P) Hd]] El Hg.
  rewrite El in F. cbn [feedback] in F. destruct F as [Hw F].
  assert (Hlen : zlen (wrote p) <= zlen S) by (destruct Hg as (t & -> & _); rewrite zlen_app; lia).
  assert (Hlim : zlen (wrote p) < LIMIT) by (unfold LIMIT; lia).
  pose proof (link_accurate pisn isn W cfg' cap_range' send_bound' W_short p Hses Hlim) as Ha.
  rewrite El in Ha, Hm. apply Forall_cons in Ha as [Ha _]. apply Forall_cons in Hm as [Hm _].
  assert (Hk : forall k, k ∈ cuts g' -> k <= zlen S /\ takes (_receiver (conn s)) k).
  { destruct P as [_ El' _|St Hf]; [congruence|]. eapply cuts_taken; [by eapply phase_inbound| |exact St|done|done].
    by apply feedback_le in Fs as [_ ?]. }
  assert (Hu : asleep s -> unacking seg) by (intros Hs; destruct (Hd Hs) as [_ Hu]; rewrite El in Hu; by apply Forall_cons in Hu as [? _]).
  apply (accurate_grows _ _ _ _ _ _ Hg) in Ha. destruct (ack (_header seg)) eqn:Eack.
  - destruct F as (n & Hf & Hb & He & F). exists a, e, n, (fed_edge seg n). split_and!; try done; by split.
  - exists a, e, (base s), (reach s). split_and!; try done; split; try done; congruence.
Qed.

Lemma head_ok g g' s p seg segs :
  both g g' s p -> link p = seg :: segs -> grows (wrote p) (finished p) S true -> zlen (wrote s) < 0x7fffffff ->
  active (conn s) = true -> seg_ok pisn S (conn s) seg.
Proof.
  intros HB El Hg Hl Hac. destruct (head_comes g g' s p seg segs HB El Hg) as (a & e & n & E & _ & _ & _ & _ & Co & Hu).
  destruct HB as [[_ _ _ (a1 & e1 & _ & [D Hlk Hg1|St Hf]) _] _].
  - destruct (dormant_asleep _ _ _ _ _ _ _ _ _ D) as (_ & _ & Ha).
    apply (dormant_seg_ok isn pisn S cap cap_range S_short pisn_valid (wrote s) g' a1 e1); [done| |by apply Hu|done].
    destruct Co as [A M Wn _ Hk]. eapply dormant_comes; try done. by apply Hu.
  - by eapply (comes_ok isn pisn S cap cap_range S_short pisn_valid); [exact St|exact Hl|exact Co|].
Qed.

(** What the segment makes of the receiving side. *)
Lemma head_received g g' a e n E s c seg :
  phase isn pisn S cfg g g' a e s -> later start_progress g -> zlen (wrote s) < 0x7fffffff ->
  comes isn pisn S g g' n E seg (conn s) -> (asleep s -> unacking seg) -> base s <= n -> reach s <= E ->
  segment_received seg (conn s) = Ok c ->
  let s' := s <| conn := c |> in
  exists g1, later g g1 /\ phase isn pisn S cfg g1 g' a e s' /\ base s' <= n /\ reach s' <= E /\ (asleep s' -> asleep s).
Proof.
  intros P Lz Hl Co Hu Hb Hr Ec s'. destruct P as [D Hlk Hg|St Hf].
  - destruct (dormant_asleep _ _ _ _ _ _ _ _ _ D) as (Hb0 & Hr0 & Ha). specialize (Hu Ha).
    assert (Co0 : comes isn pisn S start_progress g' 0 1 seg (fill (conn s))).
    { destruct Co as [A M Wn _ Hk]. eapply dormant_comes; try done. }
    destruct (dormant_receives isn pisn S cap cap_range S_short pisn_valid _ _ _ _ _ _ _ D Hl Co0 Hu Ec)
      as [D1|(g1 & L1 & St1 & (Hf & Hb1 & Hr1))].
    + exists g. destruct (dormant_asleep _ _ _ _ _ _ _ _ s' D1) as (Hb1 & Hr1 & Ha1).
      split_and!; [done|by apply phase_asleep|lia|lia|done].
    + exists g1. subst g. split_and!; [done|by apply phase_awake| | |done].
      * unfold base. cbn. lia.
      * unfold reach, base. cbn. lia.
  - destruct (reacts_steady isn pisn S cap cap_range S_short pisn_valid _ _ _ _ _ _ _ _ _
      (segment_received_reacts _ _ _ Ec) Hl _ St Co) as (g1 & L1 & St1 & _ & Wi).
    destruct (Wi (conj Hf (conj Hb Hr))) as (Hf1 & Hb1 & Hr1). exists g1.
    split_and!; [done|by apply phase_awake|done|done|].
    intros Ha. by destruct (steady_awake _ _ _ _ _ _ _ _ _ s' St1).
Qed.

Lemma crosses_both g g' s p s' p' :
  both g g' s p -> crosses p s p' s' -> grows (wrote p) (finished p) S true -> zlen (wrote s) < 0x7fffffff ->
  exists g1, later g g1 /\ both g1 g' s' p'.
Proof.
  intros HB X Hg Hl. destruct X as [seg segs c El Ec].
  destruct (head_comes g g' s p seg segs HB El Hg) as (a & e & n & E & F & Hb & Hr & P & Co & Hu).
  pose proof (head_ok g g' s p seg segs HB El Hg Hl) as Hok.
  destruct HB as [[(sent & Hs & Hin) Hm Hz (as' & es & Fs & Ps) Hd] [(sentp & Hsp & Hinp) Hmp Hzp _ Hdp]].
  destruct (head_received g g' as' es n E s c seg Ps Hz Hl Co Hu Hb Hr Ec) as (g1 & L1 & Ps1 & Hb1 & Hr1 & Ha1).
  exists g1. split; [done|]. split; split.
  - exists sent. split; [by eapply conn_segment|done].
  - by eapply all_marked_later.
  - etrans; [exact Hz|done].
  - by exists as', es.
  - intros Ha. destruct P as [_ El' _|St _]; [congruence|]. by destruct (steady_awake _ _ _ _ _ _ _ _ _ p St).
  - exists sentp. split; [done|]. rewrite El in Hinp. cbn. set_solver.
  - rewrite El in Hmp. by apply Forall_cons in Hmp as [_ ?].
  - done.
  - exists a, e. split.
    + eapply feedback_later; [exact L1|]. by eapply feedback_front; [| |exact F].
    + apply (phase_later _ _ _ _ g' g g1); [done|]. destruct P as [D El' Hg'|St Hf]; [congruence|]. by apply phase_awake.
  - intros Ha. destruct (Hdp (Ha1 Ha)) as [Hdf Hun]. split; [done|]. rewrite El in Hun. by apply Forall_cons in Hun as [_ ?].
Qed.

Lemma alone_both g g' s p s' :
  both g g' s p -> alone s s' -> zlen (wrote s') < LIMIT -> exists g1, later g g1 /\ both g1 g' s' p.
Proof.
  intros [[Hs Hm Hz (a & e & F & P) Hd] Hp] A Hl.
  assert (evolves isn pisn S cfg g g' a e s s') as (g1 & a1 & e1 & L & P1 & HF & (Hb & Hr & Ha) & Hdf & Hmk).
  { destruct P as [D El ->|St Hf]; [by eapply dormant_alone|by eapply steady_alone]. }
  exists g1. split; [done|]. split; [|by eapply half_frame]. split.
  - by eapply alone_session.
  - by apply Hmk.
  - etrans; [exact Hz|done].
  - exists a1, e1. split; [by apply HF|done].
  - intros Hp'. by apply Hdf, Hd.
Qed.
End arrival.

(** ** Every state *)

Lemma both_sym isn pisn W S cfg cfg' g g' s p :
  both isn pisn W S cfg cfg' g g' s p -> both pisn isn S W cfg' cfg g' g p s.
Proof. by intros [? ?]. Qed.

(** What has been written only grows, and not once it has ended. *)
Lemma alone_grows isn pisn S cfg s s' :
  0 < recv_capacity cfg < 0x10000 -> is_u64 (send_capacity cfg) -> zlen S < 0x7fffffff ->
  in_session isn pisn S cfg s -> zlen (wrote s) < LIMIT -> alone s s' ->
  grows (wrote s) (finished s) (wrote s') (finished s').
Proof.
  intros Hc Hb Hs Hin Hl A. destruct A as [data| | | | | |]; try apply grows_refl.
  - destruct (side_ok isn pisn S cfg Hc Hb Hs s Hin Hl) as (sent & (f & r & ps & pe & [I _ _ He _ _ _]) & _).
    eexists. split; [done|]. cbn. intros Hf. split; [done|]. rewrite Hf in He. unfold write.
    destruct (Z.eqb_spec (zlen data) 0) as [Ez|Ez]; [done|].
    destruct (bs_refines_write data _ f (se_stream _ _ I)) as [Hn _].
    destruct (ByteStream.write data _) as [n st]. cbn [fst] in *. by rewrite Hn, He.
  - exists []. cbn. by rewrite app_nil_r.
Qed.

Lemma grows_trans w e w1 e1 w2 e2 : grows w e w1 e1 -> grows w1 e1 w2 e2 -> grows w e w2 e2.
Proof.
  intros (x & -> & Hx) (y & -> & Hy). exists (x ++ y). split; [by rewrite app_assoc|]. intros He.
  destruct (Hx He) as [H1 ->]. by destruct (Hy H1) as [H2 ->].
Qed.

Lemma grows_end w e : grows w e w true.
Proof. exists []. by rewrite app_nil_r. Qed.

Lemma grows_short w e w' e' n : grows w e w' e' -> zlen w' < n -> zlen w < n.
Proof. intros (x & -> & _). rewrite zlen_app. lia. Qed.

Lemma crosses_frame s p s' p' : crosses p s p' s' ->
  wrote s' = wrote s /\ finished s' = finished s /\ wrote p' = wrote p /\ finished p' = finished p.
Proof. by intros [seg segs c _ _]. Qed.

(** The invariant, for all that the two sides may write later. *)
Section holds.
Context (isn pisn : WrappingInt32) (cfg cfg' : TCPConfig).
Hypothesis cap_range : 0 < recv_capacity cfg < 0x10000.
Hypothesis send_bound : is_u64 (send_capacity cfg).
Hypothesis cap_range' : 0 < recv_capacity cfg' < 0x10000.
Hypothesis send_bound' : is_u64 (send_capacity cfg').
Hypothesis isn_valid : valid isn.
Hypothesis pisn_valid : valid pisn.

Definition holds (s p : side) : Prop := forall W S,
  grows (wrote s) (finished s) W true -> grows (wrote p) (finished p) S true ->
  zlen W < 0x7fffffff -> zlen S < 0x7fffffff -> exists g g', both isn pisn W S cfg cfg' g g' s p.

Lemma holds_alone s p s' : holds s p -> alone s s' -> holds s' p.
Proof.
  intros H A W S HW HS Lw Ls.
  assert (exists x, wrote s' = wrote s ++ x) as [x Ex].
  { destruct A; cbn; (by eexists) || (exists []; by rewrite app_nil_r). }
  pose proof (grows_short _ _ _ _ _ HW Lw) as Lw'. pose proof (grows_short _ _ _ _ _ HS Ls) as Ls'.
  assert (Lws : zlen (wrote s) < 0x7fffffff) by (rewrite Ex, zlen_app in Lw'; lia).
  destruct (H (wrote s) (wrote p) (grows_end _ _) (grows_end _ _) Lws Ls') as (g0 & g0' & [[Hin _ _ _ _] _]).
  pose proof (alone_grows isn pisn (wrote p) cfg s s' cap_range send_bound Ls' Hin ltac:(unfold LIMIT; lia) A) as G.
  destruct (H W S (grows_trans _ _ _ _ _ _ G HW) HS Lw Ls) as (g & g' & HB).
  destruct (alone_both isn pisn W S cfg cfg' cap_range Ls g g' s p s' HB A) as (g1 & _ & HB1);
    [unfold LIMIT; lia|by exists g1, g'].
Qed.

Lemma holds_crosses s p s' p' : holds s p -> crosses p s p' s' -> holds s' p'.
Proof.
  intros H X W S HW HS Lw Ls. destruct (crosses_frame _ _ _ _ X) as (E1 & E2 & E3 & E4).
  rewrite E1, E2 in HW. rewrite E3, E4 in HS. destruct (H W S HW HS Lw Ls) as (g & g' & HB).
  destruct (crosses_both isn pisn W S cfg cfg' cap_range send_bound cap_range' send_bound' Lw Ls isn_valid pisn_valid g g' s p s' p' HB X HS)
    as (g1 & _ & HB1); [by eapply grows_short|by exists g1, g'].
Qed.
End holds.

Lemma holds_sym isn pisn cfg cfg' s p : holds isn pisn cfg cfg' s p -> holds pisn isn cfg' cfg p s.
Proof. intros H W S HW HS Lw Ls. destruct (H S W HS HW Ls Lw) as (g & g' & HB). exists g', g. by apply both_sym. Qed.

Section network.
Context (rnd rnd' : Z) (cfg cfg' : TCPConfig).
Hypothesis cfg_wf : TCPConfig.wf cfg.
Hypothesis cfg_wf' : TCPConfig.wf cfg'.
Hypothesis cap_range : 0 < recv_capacity cfg < 0x10000.
Hypothesis cap_range' : 0 < recv_capacity cfg' < 0x10000.
Abbreviation isn := (isn_of rnd cfg).
Abbreviation isn' := (isn_of rnd' cfg').
Abbreviation start := (new_side rnd cfg, new_side rnd' cfg').

Lemma new_dormant W cfg0 rnd0 g' pisn : TCPConfig.wf cfg0 -> zlen W < 0x7fffffff -> 0 ∈ cuts g' ->
  0 < recv_capacity cfg0 < 0x10000 ->
  dormant (isn_of rnd0 cfg0) pisn W (recv_capacity cfg0) [] g' 0 1 (TCPConnection.new rnd0 cfg0).
Proof.
  intros Wf Hl Hz Hc. split; try done.
  - exists (fifo_new (send_capacity cfg0)). split; [|done]. pose proof (wf_send_capacity _ Wf).
    unfold TCPConnection.new. cbn [_sender]. destruct (fixed_isn cfg0) as [i|]; [by apply sender_inv_new|].
    exact (sender_inv_new rnd0 _ (rt_timeout cfg0) (mkWrappingInt32 (u32 rnd0)) ltac:(done)).
  - exists (TCPReceiver.new (recv_capacity cfg0)). split; [by left|]. split; [by apply gathered_new|].
    unfold edge, acked, assembled. cbn. lia.
Qed.

Lemma new_half W cfg0 rnd0 p pisn : TCPConfig.wf cfg0 -> zlen W < 0x7fffffff -> 0 < recv_capacity cfg0 < 0x10000 ->
  base p = 0 -> reach p = 1 ->
  half_inv (isn_of rnd0 cfg0) pisn W cfg0 start_progress start_progress (new_side rnd0 cfg0) p.
Proof.
  intros Wf Hl Hc Hb Hr. split; try done.
  - exists []. split; [by apply conn_new|done].
  - exists 0, 1. rewrite Hb, Hr. split; [done|]. apply phase_asleep; try done. apply new_dormant; try done. by left.
Qed.

Lemma network_holds q : rtc network_step start q -> holds isn isn' cfg cfg' (fst q) (snd q).
Proof.
  pose proof (wf_send_capacity _ cfg_wf) as Hs. pose proof (wf_send_capacity _ cfg_wf') as Hs'.
  pose proof (new_isn_valid cfg rnd cfg_wf) as Hv. pose proof (new_isn_valid cfg' rnd' cfg_wf') as Hv'.
  revert q. apply (rtc_ind_r (fun q => holds isn isn' cfg cfg' (fst q) (snd q))); cbn [fst snd].
  - intros W S _ _ Lw Ls. exists start_progress, start_progress. split; by apply new_half.
  - intros q q' _ Hst IH. destruct Hst as [a a' b A|a b b' A|a b a' b' X|a b a' b' X]; cbn [fst snd] in *.
    + by eapply holds_alone.
    + apply holds_sym. eapply holds_alone; [..|exact A]; try done. by apply holds_sym.
    + apply holds_sym. eapply holds_crosses; [..|exact X]; try done. by apply holds_sym.
    + by eapply holds_crosses.
Qed.
End network.

(** ** Properties *)

(** What [p]'s reader has taken and can take, against what [s] wrote. *)
Definition can_read (p : side) : bytes := got p ++ _buf (inbound_stream (conn p)).
Definition delivered (s p : side) : Prop :=
  can_read p `prefix_of` wrote s /\
  (input_ended (inbound_stream (conn p)) = true -> finished s = true /\ can_read p = wrote s).

(** [s] handles what comes next and the clock; and it has sent nothing beyond the window [p] has now. *)
Definition works (s p : side) : Prop :=
  (forall seg segs, link p = seg :: segs -> is_Ok (segment_received seg (conn s))) /\
  (forall n, is_Ok (tick n (conn s))) /\
  next_seqno_absolute (_sender (conn s)) <= edge (_receiver (conn p)).

Section both.
Context (isn pisn : WrappingInt32) (cfg cfg' : TCPConfig) (s p : side).
Hypothesis cap_range : 0 < recv_capacity cfg < 0x10000.
Hypothesis send_bound : is_u64 (send_capacity cfg).
Hypothesis cap_range' : 0 < recv_capacity cfg' < 0x10000.
Hypothesis send_bound' : is_u64 (send_capacity cfg').
Hypothesis wrote_short : zlen (wrote s) < 0x7fffffff.
Hypothesis peer_short : zlen (wrote p) < 0x7fffffff.
Hypothesis isn_valid : valid isn.
Hypothesis pisn_valid : valid pisn.
Hypothesis invariant : holds isn pisn cfg cfg' s p.

Lemma now : exists g g', both isn pisn (wrote s) (wrote p) cfg cfg' g g' s p.
Proof. by apply invariant; try apply grows_end. Qed.

(** FIN has been sent only if the application has ended its stream. *)
Lemma fin_finished g g' n : both isn pisn (wrote s) (wrote p) cfg cfg' g g' s p -> fin_at g = Some n -> finished s = true.
Proof.
  intros [[Hs _ _ (a & e & _ & P) _] _] Hf.
  destruct (side_ok isn pisn (wrote p) cfg cap_range send_bound peer_short s Hs) as (sent & (f & r & ps & pe & [I _ _ He _ _ _]) & _);
    [unfold LIMIT; lia|].
  destruct P as [_ _ ->|[(f1 & I1 & _) _ [Pc _] _ _ _] _]; [done|]. rewrite (pc_fin _ _ Pc) in Hf.
  destruct (_finSent _) eqn:E; [|done]. destruct (qi_fin _ _ (se_queue _ _ I1) E) as [H _].
  by rewrite <- He, <- (ref_end _ _ (se_stream _ _ I)), (ref_end _ _ (se_stream _ _ I1)).
Qed.

Lemma holds_delivered : delivered s p.
Proof.
  destruct now as (g & g' & HB). pose proof HB as [_ [(sent & Hs & _) _ _ (a & e & _ & P) _]].
  destruct (session_inbound pisn isn (wrote s) cfg' (wrote p) (finished p) sent (got p) (conn p) ltac:(lia) ltac:(lia) send_bound' ltac:(unfold LIMIT; lia) Hs)
    as ((k & Hk & Hpre) & Hend & _).
  split; [unfold can_read; rewrite Hpre; apply prefix_take|]. intros He. split; [|by apply Hend].
  apply phase_inbound in P as (r & Hr & G & _). eapply fin_finished; [exact HB|].
  apply (gathered_ended (wrote s) (recv_capacity cfg') isn ltac:(lia) ltac:(lia) wrote_short g r G).
  unfold inbound_stream in He. by destruct Hr as [Hr|[_ Hr]]; rewrite Hr in He.
Qed.

Lemma holds_works : works s p.
Proof.
  destruct now as (g & g' & HB). pose proof HB as [[Hs _ _ (a & e & F & P) _] Hp].
  destruct (side_ok isn pisn (wrote p) cfg cap_range send_bound peer_short s Hs) as (sent & Hok); [unfold LIMIT; lia|].
  split; [|split].
  - intros seg segs El.
    destruct (segment_received_ok isn pisn (wrote p) (recv_capacity cfg) ltac:(lia) ltac:(lia) _ _ _ _ (conn s) seg Hok) as (c & -> & _);
      [|by eexists]. intros Hac.
    eapply (head_ok isn pisn (wrote s) (wrote p) cfg cfg'); [..|exact HB|exact El|apply grows_end| |]; done.
  - intros n. destruct (tick_ok isn pisn (wrote p) (recv_capacity cfg) _ _ _ _ _ n Hok) as (c & -> & _). by eexists.
  - destruct Hp as [_ _ _ (a' & e' & F' & P') _]. apply feedback_le in F' as [_ Hr].
    apply phase_inbound in P' as (r & Hr' & _ & Fp). apply feedback_le in Fp as [_ Hed].
    assert (edge (_receiver (conn p)) = edge r) as -> by (by destruct Hr' as [->|[_ ->]]).
    unfold next_seqno_absolute. destruct P as [D _ _|_ Hf].
    + destruct (dormant_asleep _ _ _ _ _ _ _ _ _ D) as (_ & H1 & _). rewrite (do_queue _ _ _ _ _ _ _ _ _ D). cbn. lia.
    + unfold fits in Hf. unfold reach, base in Hr. lia.
Qed.
End both.

(** C4. Two connections deliver over lossy links. Take any two configurations with receive capacities between 1 and
    65535, any random numbers, any applications that write, end, read and connect on either side at any time, any clocks,
    and links that lose any segments: what either reader has got and can read is a prefix of what the other side wrote (fewer
    than 2^31 - 1 bytes), and all of it, ended by its writer, once the stream has ended; no segment and no tick
    makes a connection fault; and neither side sends beyond the window of the other. *)
Theorem lossy_links_deliver rnd cfg rnd' cfg' a b :
  TCPConfig.wf cfg -> TCPConfig.wf cfg' -> 0 < recv_capacity cfg < 0x10000 -> 0 < recv_capacity cfg' < 0x10000 ->
  rtc network_step (new_side rnd cfg, new_side rnd' cfg') (a, b) ->
  zlen (wrote a) < 0x7fffffff -> zlen (wrote b) < 0x7fffffff ->
  (delivered a b /\ delivered b a) /\ (works a b /\ works b a).
Proof.
  intros Wf Wf' Hc Hc' R%network_holds La Lb; try done. cbn [fst snd] in R. pose proof (holds_sym _ _ _ _ _ _ R) as R'.
  pose proof (wf_send_capacity _ Wf). pose proof (wf_send_capacity _ Wf').
  pose proof (new_isn_valid cfg rnd Wf). pose proof (new_isn_valid cfg' rnd' Wf').
  split; split; [eapply holds_delivered; [..|exact R]|eapply holds_delivered; [..|exact R']
    |eapply holds_works; [..|exact R]|eapply holds_works; [..|exact R']]; done.
Qed.

(** ** Runs by script *)

Inductive event := Writes (data : bytes) | Ends | Connects | Ticks (n : Z) | Reads (n : nat) | Sends | Loses (i : nat).
Inductive happening := OnLeft (ev : event) | OnRight (ev : event) | ToRight | ToLeft.

Definition perform (ev : event) (s : side) : outcome side :=
  match ev with
  | Writes data =>
    let '(n, c) := write data (conn s) in Ok (s <| conn := c |> <| wrote := wrote s ++ ztake n data |>)
  | Ends => Ok (s <| conn := end_input_stream (conn s) |> <| finished := true |>)
  | Connects => Ok (s <| conn := connect (conn s) |>)
  | Ticks n => c ← tick n (conn s); Ok (s <| conn := c |>)
  | Reads n =>
    Ok (s <| conn := read_inbound (Z.of_nat n) (conn s) |>
          <| got := got s ++ fst (read (Z.of_nat n) (inbound_stream (conn s))) |>)
  | Sends => Ok (s <| conn := drain (conn s) |> <| link := link s ++ segments_out (conn s) |>)
  | Loses i => Ok (match link s !! i with Some _ => s <| link := take i (link s) ++ skipn (S i) (link s) |> | None => s end)
  end.

Definition arrive (s p : side) : outcome (side * side) :=
  match link s with
  | [] => Ok (s, p)
  | seg :: segs => c ← segment_received seg (conn p); Ok (s <| link := segs |>, p <| conn := c |>)
  end.

Definition happen (h : happening) (q : side * side) : outcome (side * side) :=
  let '(a, b) := q in
  match h with
  | OnLeft ev => a ← perform ev a; Ok (a, b)
  | OnRight ev => b ← perform ev b; Ok (a, b)
  | ToRight => arrive a b
  | ToLeft => '(b, a) ← arrive b a; Ok (a, b)
  end.

Fixpoint play (script : list happening) (q : side * side) : outcome (side * side) :=
  match script with [] => Ok q | h :: script => q ← happen h q; play script q end.

Lemma perform_alone ev s s' : perform ev s = Ok s' -> s' = s \/ alone s s'.
Proof.
  destruct ev as [data| | |n|n| |i]; cbn [perform]; intros E.
  - right. pose proof (side_writes s data) as A. destruct (write data (conn s)) as [k c]. by injection E as <-.
  - right. injection E as <-. constructor.
  - right. injection E as <-. constructor.
  - right. apply bind_Ok in E as (c & E & [= <-]). by apply (side_ticks s n).
  - right. injection E as <-. constructor. lia.
  - right. injection E as <-. constructor.
  - injection E as <-. destruct (link s !! i) as [seg|] eqn:El; [right|by left].
    apply (side_loses s _ seg). symmetry. by apply take_drop_middle.
Qed.

Lemma arrive_crosses s p s' p' : arrive s p = Ok (s', p') -> (s', p') = (s, p) \/ crosses s p s' p'.
Proof.
  unfold arrive. destruct (link s) as [|seg segs] eqn:El; [intros [= <- <-]; by left|].
  intros (c & E & [= <- <-])%bind_Ok. right. by econstructor.
Qed.

Lemma play_steps script : forall q q', play script q = Ok q' -> rtc network_step q q'.
Proof.
  induction script as [|h script IH]; intros [a b] q' E; cbn [play] in E; [by injection E as <-|].
  apply bind_Ok in E as ([a1 b1] & E1 & E). etrans; [|by eapply IH]. destruct h as [ev|ev| |]; cbn [happen] in E1.
  - apply bind_Ok in E1 as (a2 & [->|A]%perform_alone & [= <- <-]); [done|by apply rtc_once, step_left].
  - apply bind_Ok in E1 as (b2 & [->|A]%perform_alone & [= <- <-]); [done|by apply rtc_once, step_right].
  - apply arrive_crosses in E1 as [[= -> ->]|X]; [done|by apply rtc_once, step_to_right].
  - apply bind_Ok in E1 as ([b2 a2] & [[= -> ->]|X]%arrive_crosses & [= <- <-]); [done|by apply rtc_once, step_to_left].
Qed.

(** ** Examples

    A handshake whose first SYN is lost, then data both ways; the right side's window of 8 bytes fills up and its
    reader makes room. *)
Definition demo_left : TCPConfig := mkTCPConfig 1000 8 64 None.
Definition demo_right : TCPConfig := mkTCPConfig 1000 8 8 None.
Definition demo_start : side * side := (new_side 5 demo_left, new_side 7 demo_right).
Definition demo_text : bytes := [x61; x62; x63; x64; x65; x66; x67; x68].

Definition demo_handshake : list happening :=
  [OnLeft Connects; OnLeft Sends; OnLeft (Loses 0); OnLeft (Ticks 1000); OnLeft Sends; ToRight; OnRight Sends; ToLeft;
   OnLeft Sends; ToRight].
Definition demo_talk : list happening :=
  [OnLeft (Writes demo_text); OnRight (Writes [x78; x79]); OnLeft Sends; OnRight Sends].
Definition demo_listen : list happening := [ToLeft; ToRight; OnRight (Reads 3); OnRight Sends; ToLeft].
Definition demo_script : list happening := demo_handshake ++ demo_talk ++ demo_listen.
Definition demo_final : side * side := match play demo_script demo_start with Ok q => q | Fault _ => demo_start end.

Lemma demo_plays : play demo_script demo_start = Ok demo_final.
Proof.
  assert (E : match play demo_script demo_start with Ok _ => true | Fault _ => false end = true) by by vm_compute.
  unfold demo_final. by destruct (play demo_script demo_start).
Qed.

Lemma lossy_links_deliver_witness :
  wrote (fst demo_final) = demo_text /\ got (snd demo_final) = [x61; x62; x63] /\ can_read (fst demo_final) = [x78; x79] /\
  delivered (fst demo_final) (snd demo_final) /\ works (snd demo_final) (fst demo_final).
Proof.
  destruct (lossy_links_deliver 5 demo_left 7 demo_right (fst demo_final) (snd demo_final)) as [[H1 _] [_ H2]].
  - by split.
  - by split.
  - done.
  - done.
  - rewrite <- surjective_pairing. exact (play_steps demo_script demo_start demo_final demo_plays).
  - by vm_compute.
  - by vm_compute.
  - split_and!; [by vm_compute..|exact H1|exact H2].
Defined.

(** Why the links deliver in order: in this run the segment with [x78; x79] tells of a window of 8 bytes. If it arrives
    again after the right side has filled up and its reader has taken 3 bytes, the left side takes the old window for the
    present one, sends beyond it, and the right side's reassembler uses the element it has erased. *)
Definition again (seg : TCPSegment) (q : side * side) : outcome (side * side) :=
  let '(a, b) := q in c ← segment_received seg (conn a); Ok (a <| conn := c |>, b).

Lemma stale_acknowledgment_overruns :
  (q ← play (demo_handshake ++ demo_talk) demo_start;
   match link (snd q) with
   | [] => Ok q
   | seg :: _ =>
     q ← play (demo_listen ++ [OnLeft (Writes demo_text)]) q;
     q ← again seg q;
     play [OnLeft Sends; ToRight; ToRight; ToRight] q
   end) = Fault UseAfterErase.
Proof. vm_compute. reflexivity. Qed.
