(* ===== verification/Benchmark.v ===== *)
(** * Benchmark: two connections joined (apps/tcp_benchmark.cc)

    [main_loop] connects two endpoints back to back: segments move both ways between the
    two, the ones from [x] in reverse order when [reorder].  The bytes it sends are those
    [rand] gave; the timing and the report are left out. *)

From S2P Require Import Prelude WrappingIntegers ByteStream Buffer.
From S2P Require Import TCPHeader TCPSegment TCPConfig TCPState StreamReassembler TCPReceiver TCPSender Pace Transfer TCPConnection FlowControl.

(** The local variables of [main_loop]. *)
Record bench := mk_bench {
  x : TCPConnection;
  y : TCPConnection;
  bytes_to_send : Buffer;
  x_closed : bool;
  string_received : bytes }.

#[export] Instance eta_bench : Eta bench := fun b =>
  mk_bench (x b) (y b) (bytes_to_send b) (x_closed b) (string_received b).
Implicit Types (b : bench) (c : TCPConnection).

(** [y.segment_received] for each segment, in order. *)
Fixpoint receive_all (segs : list TCPSegment) (c : TCPConnection) : outcome TCPConnection :=
  match segs with
  | [] => Ok c
  | seg :: segs => c ← segment_received seg c; receive_all segs c
  end.

Definition order (reorder : bool) (segs : list TCPSegment) : list TCPSegment :=
  if reorder then rev segs else segs.

(** [move_segments(x, y, segments, reorder)]: the two connections and [segments] after it. *)
Definition move_segments (from to : TCPConnection) (segments : list TCPSegment) (reorder : bool)
  : outcome (TCPConnection * TCPConnection * list TCPSegment) :=
  let segments := segments ++ segments_out from in
  let from := drain from in
  to ← receive_all (order reorder segments) to;
  Ok (from, to, []).

(** The loop that writes into [x]: each round but the last takes a byte at least. *)
Fixpoint write_input (fuel : nat) b : outcome bench :=
  if negb (0 <? Buffer.size (bytes_to_send b)) || negb (0 <? remaining_outbound_capacity (x b)) then Ok b
  else
    match fuel with
    | O => Fault OutOfFuel
    | S fuel =>
      let want := Z.min (remaining_outbound_capacity (x b)) (Buffer.size (bytes_to_send b)) in
      let '(written, c) := write (ztake want (str (bytes_to_send b))) (x b) in
      if negb (want =? written) then Fault RuntimeError
      else
        rest ← Buffer.remove_prefix written (bytes_to_send b);
        write_input fuel (b <| x := c |> <| bytes_to_send := rest |>)
    end.
Definition input_fuel b : nat := Z.to_nat (Buffer.size (bytes_to_send b)).

(** The end of [x]'s input. *)
Definition close_input b : bench :=
  if (Buffer.size (bytes_to_send b) =? 0) && negb (x_closed b)
  then b <| x := end_input_stream (x b) |> <| x_closed := true |> else b.

Definition read_output b : bench :=
  let available_output := buffer_size (inbound_stream (y b)) in
  if 0 <? available_output then
    b <| string_received := string_received b ++ fst (read available_output (inbound_stream (y b))) |>
      <| y := read_inbound available_output (y b) |>
  else b.

(** [loop]. *)
Definition loop (reorder : bool) b : outcome bench :=
  b ← write_input (input_fuel b) b;
  let b := close_input b in
  '(cx, cy, segments) ← move_segments (x b) (y b) [] reorder;
  '(cy, cx, _) ← move_segments cy cx segments false;
  let b := read_output (b <| x := cx |> <| y := cy |>) in
  cx ← tick 1000 (x b);
  cy ← tick 1000 (y b);
  Ok (b <| x := cx |> <| y := cy |>).

(** [while (condition) loop();], at most [rounds] times; the flag tells whether it has ended. *)
Fixpoint loop_while (condition : bench -> bool) (reorder : bool) (rounds : nat) b
  : outcome (bool * bench) :=
  if negb (condition b) then Ok (true, b)
  else
    match rounds with
    | O => Ok (false, b)
    | S rounds => b ← loop reorder b; loop_while condition reorder rounds b
    end.

(** The state before the first loop; [random_x] and [random_y] are for the senders. *)
Definition bench_start (random_x random_y : Z) (config : TCPConfig) (string_to_send : bytes) : bench :=
  mk_bench (connect (TCPConnection.new random_x config))
    (end_input_stream (TCPConnection.new random_y config)) (of_string string_to_send) false [].

Definition receiving b : bool := negb (eof (inbound_stream (y b))).
Definition running b : bool := active (x b) || active (y b).

(** [main_loop(reorder)], with at most [rounds] rounds of the first loop and [rounds'] of the second. *)
Definition main_loop (random_x random_y : Z) (config : TCPConfig) (string_to_send : bytes) (reorder : bool)
    (rounds rounds' : nat) : outcome (bool * bench) :=
  '(done, b) ← loop_while receiving reorder rounds (bench_start random_x random_y config string_to_send);
  if negb done then Ok (false, b)
  else if negb (bool_decide (string_received b = string_to_send)) then Fault RuntimeError
  else loop_while running reorder rounds' b.

(** ** Soundness *)

Section sound.
Context (cfg : TCPConfig) (D : bytes) (isnx isny : WrappingInt32).
Abbreviation cap := (recv_capacity cfg).
Hypothesis cap_range : 0 < cap < 0x10000.
Hypothesis send_bound : is_u64 (send_capacity cfg).
Hypothesis short : zlen D < 0x7fffffff.
Hypothesis isnx_valid : valid isnx.
Hypothesis isny_valid : valid isny.

(** One connection of the two: its peer sends [S]. *)
Section one.
Context (isn pisn : WrappingInt32) (S : bytes).
Hypothesis pisn_valid : valid pisn.
Hypothesis S_short : zlen S < 0x7fffffff.

Lemma session_ok w e sent rd c :
  conn_session isn pisn S cfg w e sent rd c -> zlen w < 0x7fffffff -> conn_ok isn pisn S cap w e sent rd c.
Proof.
  intros Hs Hl. apply (conn_session_ok isn pisn S cap ltac:(lia) ltac:(lia) cfg); try done.
  unfold LIMIT. lia.
Qed.

Lemma receive_one w e sent rd g g' a E n ed seg c :
  zlen w < 0x7fffffff -> conn_session isn pisn S cfg w e sent rd c ->
  steady isn pisn S cap w g g' a E c -> arrives isn pisn S g g' n ed seg c ->
  exists c' g1, segment_received seg c = Ok c' /\ conn_session isn pisn S cfg w e sent rd c' /\
    later g g1 /\ steady isn pisn S cap w g1 g' a E c' /\
    right_edge (_receiver c) <= right_edge (_receiver c') /\
    (within n ed (_sender c) -> within n ed (_sender c')).
Proof.
  intros Hl Hs St Ar.
  apply arrives_comes in Ar.
  assert (Hok : active c = true -> seg_ok pisn S c seg) by by eapply comes_ok.
  destruct (segment_received_ok isn pisn S cap ltac:(lia) ltac:(lia) _ _ _ _ c seg
    (session_ok _ _ _ _ _ Hs Hl) Hok) as (c' & Ec & _).
  destruct (reacts_steady isn pisn S cap cap_range S_short pisn_valid _ _ _ _ _ _ _ _ _
    (segment_received_reacts _ _ _ Ec) Hl g St Ar) as (g1 & L & St1 & Hr & W).
  exists c', g1. split; [done|]. split; [by eapply conn_segment|done].
Qed.

(** Any good segments, in any order, with a property [P] of the segments left and the connection
    that each step keeps. *)
Lemma receive_all_good (P : list TCPSegment -> TCPConnection -> Prop) w e sent rd g' a E segs :
  zlen w < 0x7fffffff ->
  (forall seg segs c c' g n ed, segment_received seg c = Ok c' -> conn_session isn pisn S cfg w e sent rd c ->
    steady isn pisn S cap w g g' a E c -> arrives isn pisn S g g' n ed seg c -> P (seg :: segs) c -> P segs c') ->
  forall g c,
  conn_session isn pisn S cfg w e sent rd c -> steady isn pisn S cap w g g' a E c ->
  Forall (accurate pisn S true) segs -> Forall (marked pisn g') segs -> Forall (acks g isn) segs ->
  (forall k, k ∈ cuts g' -> k <= zlen S /\ k <= right_edge (_receiver c)) -> P segs c ->
  exists c' g1, receive_all segs c = Ok c' /\ conn_session isn pisn S cfg w e sent rd c' /\
    later g g1 /\ steady isn pisn S cap w g1 g' a E c' /\ P [] c'.
Proof.
  intros Hl HP. induction segs as [|seg segs IH]; intros g c Hs St HA HM HF Hk H0; cbn [receive_all]; [by exists c, g|].
  apply Forall_cons in HA as [A HA]. apply Forall_cons in HM as [M HM]. apply Forall_cons in HF as [[Hw Hb] HF].
  assert (exists n, arrives isn pisn S g g' n (fed_edge seg n) seg c) as [n Ar].
  { destruct (ack (_header seg)) eqn:Ea.
    - destruct (Hb eq_refl) as [n Hf]. by exists n.
    - exists 0. split; try done. congruence. }
  destruct (receive_one w e sent rd g g' a E _ _ seg c Hl Hs St Ar) as (c1 & g1 & E1 & Hs1 & L1 & St1 & Hr & _).
  rewrite E1. cbn [mbind outcome_bind]. destruct (IH g1 c1) as (c2 & g2 & E2 & Hs2 & L2 & St2 & H2); try done.
  - eapply Forall_impl; [exact HF|]. intros seg' [? H]. split; [done|]. intros Ha.
    destruct (H Ha) as (b' & ? & ?). exists b'. split; [done|by eapply good_later].
  - intros k Hin. destruct (Hk k Hin). lia.
  - by eapply HP.
  - exists c2, g2. split_and!; try done. by etrans.
Qed.

(** The feedback of a receiver, in order: the window in the end.  It begins at the number [a0], and
    nothing acknowledges less than [lo]. *)
Lemma receive_all_fed (P : list TCPSegment -> TCPConnection -> Prop) w e sent rd g' a E a' e' lo segs :
  zlen w < 0x7fffffff ->
  (forall seg segs c c' g n ed, segment_received seg c = Ok c' -> conn_session isn pisn S cfg w e sent rd c ->
    steady isn pisn S cap w g g' a E c -> arrives isn pisn S g g' n ed seg c -> (ack (_header seg) = true -> lo <= n) ->
    P (seg :: segs) c -> P segs c') ->
  forall g c a0 e0, lo <= a0 ->
  conn_session isn pisn S cfg w e sent rd c -> steady isn pisn S cap w g g' a E c ->
  Forall (accurate pisn S true) segs -> Forall (marked pisn g') segs ->
  within a0 e0 (_sender c) -> feedback g isn a0 e0 segs a' e' ->
  (forall k, k ∈ cuts g' -> k <= zlen S /\ k <= right_edge (_receiver c)) -> P segs c ->
  exists c' g1, receive_all segs c = Ok c' /\ conn_session isn pisn S cfg w e sent rd c' /\
    later g g1 /\ steady isn pisn S cap w g1 g' a E c' /\ within a' e' (_sender c') /\ P [] c'.
Proof.
  intros Hl HP. induction segs as [|seg segs IH]; intros g c a0 e0 Hlo Hs St HA HM Wi HF Hk H0; cbn [receive_all].
  { exists c, g. destruct HF as [? ?], Wi as (? & ? & ?). split_and!; try done. split_and!; [done|lia|lia]. }
  apply Forall_cons in HA as [A HA]. apply Forall_cons in HM as [M HM]. destruct HF as [Hw HF].
  assert (exists n ed, arrives isn pisn S g g' n ed seg c /\ within n ed (_sender c) /\ lo <= n /\
    feedback g isn n ed segs a' e') as (n & ed & Ar & Wi' & Hn & HF').
  { destruct (ack (_header seg)) eqn:Ea.
    - destruct HF as (n & Hf & Hb1 & Hb2 & HF). destruct Wi as (? & ? & ?). exists n, (fed_edge seg n).
      split; [by split|]. split; [split_and!; [done|lia|lia]|]. split; [lia|done].
    - exists a0, e0. split; [split; try done; congruence|]. by split_and!. }
  destruct (receive_one w e sent rd g g' a E _ _ seg c Hl Hs St Ar) as (c1 & g1 & E1 & Hs1 & L1 & St1 & Hr & W1).
  rewrite E1. cbn [mbind outcome_bind]. destruct (IH g1 c1 n ed) as (c2 & g2 & E2 & Hs2 & L2 & St2 & Wi2 & H2); try done.
  - by apply W1.
  - by eapply feedback_later.
  - intros k Hin. destruct (Hk k Hin). lia.
  - by eapply HP.
  - exists c2, g2. split_and!; try done. by etrans.
Qed.

Lemma tick_steady w e sent rd g g' a E n c : zlen w < 0x7fffffff ->
  conn_session isn pisn S cfg w e sent rd c -> steady isn pisn S cap w g g' a E c ->
  exists c' g1, tick n c = Ok c' /\ conn_session isn pisn S cfg w e sent rd c' /\
    later g g1 /\ steady isn pisn S cap w g1 g' a E c' /\ keeps c c'.
Proof.
  intros Hl Hs St. destruct (tick_ok isn pisn S cap _ _ _ _ _ n (session_ok _ _ _ _ _ Hs Hl)) as (c' & Ec & _).
  destruct (acts_steady isn pisn S cap cap_range S_short w g' a E c c' (tick_acts _ _ _ Ec) g St)
    as (g1 & L & St1 & K).
  exists c', g1. split; [done|]. split; [by eapply conn_tick|done].
Qed.
End one.

Implicit Types (reorder : bool).

(** Between two steps of [main_loop]: each connection is a session of what the other sends,
    and in step with it; [gx] and [gy] are what they have sent.  What waits in [y] continues
    the feedback [x] has had. *)
Record bench_inv (gx gy : progress) b : Prop := mk_bench_inv {
  bi_buffer : Buffer.wf (bytes_to_send b);
  bi_closed : x_closed b = true -> str (bytes_to_send b) = [];
  bi_x : exists w sent, D = w ++ str (bytes_to_send b) /\
    conn_session isnx isny [] cfg w (x_closed b) sent [] (x b) /\
    steady isnx isny [] cap w gx gy 0 0 (x b);
  bi_y : exists sent, conn_session isny isnx D cfg [] true sent (string_received b) (y b) /\
    steady isny isnx D cap [] gy gx (_baseSqn (unAckQueue (_sender (x b))))
      (_baseSqn (unAckQueue (_sender (x b))) + _win_size (unAckQueue (_sender (x b)))) (y b);
  bi_fits : fits (_sender (x b)) }.

(** [y]'s reader has taken everything. *)
Definition drained b : Prop :=
  right_edge (_receiver (y b)) = assembled (_receiver (y b)) + cap.

Lemma nil_short : zlen (@nil byte) < 0x7fffffff.
Proof. done. Qed.

Lemma prefix_short w (s : bytes) : D = w ++ s -> zlen w < 0x7fffffff.
Proof. intros E. pose proof short as Hd. rewrite E, zlen_app in Hd. lia. Qed.

(** A step of [x] alone, with new input. *)
Lemma x_step gx gy b c rest closed w sent :
  bench_inv gx gy b -> Buffer.wf rest -> (closed = true -> str rest = []) -> D = w ++ str rest ->
  conn_session isnx isny [] cfg w closed sent [] c ->
  (exists g1, later gx g1 /\ steady isnx isny [] cap w g1 gy 0 0 c /\ keeps (x b) c) ->
  exists gx', later gx gx' /\ bench_inv gx' gy (b <| x := c |> <| bytes_to_send := rest |> <| x_closed := closed |>).
Proof.
  intros [_ _ _ (senty & Hsy & Sty) Hf] Hwf Hcl HD Hs (g1 & L & St & _ & K). exists g1. split; [done|].
  destruct (K Hf) as (Hf' & Hb & Hw). split; try done; cbn [x y string_received bytes_to_send x_closed upd eta eta_bench].
  - by exists w, sent.
  - exists senty. split; [done|]. rewrite Hb, Hw. by eapply steady_later.
Qed.

Lemma input_step gx gy b :
  bench_inv gx gy b -> 0 < zlen (str (bytes_to_send b)) -> 0 < remaining_outbound_capacity (x b) ->
  let want := Z.min (remaining_outbound_capacity (x b)) (Buffer.size (bytes_to_send b)) in
  exists c rest gx', write (ztake want (str (bytes_to_send b))) (x b) = (want, c) /\
    Buffer.remove_prefix want (bytes_to_send b) = Ok rest /\
    zlen (str rest) < zlen (str (bytes_to_send b)) /\ later gx gx' /\
    bench_inv gx' gy (b <| x := c |> <| bytes_to_send := rest |>).
Proof.
  intros HI Hz Hc want. unfold Buffer.size in want.
  pose proof HI as [Hwf Hcl (w & sent & HD & Hs & St) _ _].
  assert (He : x_closed b = false).
  { destruct (x_closed b); [|done]. rewrite Hcl in Hz by done. done. }
  rewrite He in Hs. set (s := str _) in *.
  assert (Hlen : zlen (ztake want s) = want) by (rewrite zlen_ztake; lia).
  pose proof (session_ok isnx isny [] nil_short _ _ _ _ _ Hs (prefix_short _ _ HD)) as Hok.
  pose proof (write_accepts _ _ _ _ _ _ _ _ (ztake want s) Hok ltac:(lia)) as Hn. rewrite Hlen in Hn.
  pose proof (conn_write _ _ _ _ _ _ _ _ _ (ztake want s) Hs) as Hs'.
  assert (HD' : D = (w ++ ztake want s) ++ zdrop want s) by (rewrite HD, <- app_assoc; by rewrite ztake_zdrop).
  destruct (steady_write isnx isny [] cap cap_range nil_short w gx gy 0 0 (x b) (ztake want s) St)
    as (g1 & L & St' & K).
  { rewrite Hn, (ztake_ge want) by lia. pose proof (prefix_short _ _ HD'). unfold LIMIT. lia. }
  rewrite Hn, (ztake_ge want) in Hs', St' by lia.
  destruct (write _ _) as [n c]. cbn [fst snd] in *. subst n.
  destruct (Buffer.remove_prefix_ok want (bytes_to_send b) Hwf) as (rest & E & Hwf' & Hstr); [fold s; lia|].
  fold s in Hstr.
  destruct (x_step gx gy b c rest false _ sent HI Hwf' ltac:(done) ltac:(by rewrite Hstr) Hs' ltac:(by exists g1))
    as (gx' & L' & HI').
  exists c, rest, gx'. split; [done|]. split; [exact E|]. rewrite Hstr, zlen_zdrop by lia. split; [lia|]. split; [done|].
  clear -HI' He. destruct b. cbn in He. by subst.
Qed.

Lemma write_input_ok gy fuel : forall gx b,
  bench_inv gx gy b -> zlen (str (bytes_to_send b)) <= Z.of_nat fuel ->
  exists b' gx', write_input fuel b = Ok b' /\ bench_inv gx' gy b' /\ y b' = y b /\
    string_received b' = string_received b.
Proof.
  induction fuel as [|fuel IH]; intros gx b HI Hf; cbn [write_input]; unfold Buffer.size at 1;
    (destruct (Z.ltb_spec 0 (zlen (str (bytes_to_send b)))) as [Hz|Hz]; [|by exists b, gx]); [lia|].
  destruct (Z.ltb_spec 0 (remaining_outbound_capacity (x b))) as [Hc|Hc]; [|by exists b, gx]. cbn [negb orb].
  destruct (input_step gx gy b HI Hz Hc) as (c & rest & gx1 & E1 & E2 & Hlt & _ & HI'). rewrite E1, Z.eqb_refl. cbn [negb].
  rewrite E2. cbn [mbind outcome_bind].
  destruct (IH gx1 _ HI') as (b' & gx2 & E & HI2 & Hy & Hr); [cbn [bytes_to_send upd eta eta_bench]; lia|].
  by exists b', gx2.
Qed.

Lemma close_input_ok gx gy b :
  bench_inv gx gy b -> exists gx', later gx gx' /\ bench_inv gx' gy (close_input b) /\ y (close_input b) = y b /\
    string_received (close_input b) = string_received b.
Proof.
  intros HI. unfold close_input. destruct (Z.eqb_spec (Buffer.size (bytes_to_send b)) 0) as [Hz|]; [|by exists gx].
  destruct (x_closed b) eqn:He; [by exists gx|]. cbn [negb andb].
  pose proof HI as [Hwf Hcl (w & sent & HD & Hs & St) _ _]. apply zlen_nil_inv in Hz.
  pose proof (steady_end isnx isny [] cap cap_range nil_short w gx gy 0 0 (x b) St) as H1.
  destruct (x_step gx gy b (end_input_stream (x b)) (bytes_to_send b) true w sent HI Hwf ltac:(done) HD) as (gx' & L & HI');
    [by eapply conn_end|done|].
  exists gx'. split; [done|]. split; [|done]. clear -HI'. by destruct b.
Qed.

(** All [x] has sent lies inside [y]'s window. *)
Lemma sent_in_window gx gy b : bench_inv gx gy b -> drained b ->
  forall k, k ∈ cuts gx -> k <= zlen D /\ k <= right_edge (_receiver (y b)).
Proof.
  intros [_ _ (w & sent & HD & _ & Sx) (senty & _ & Sy) Hf] Hdr k Hk.
  pose proof Sx as [(f & I & Hw) _ [P _] _ _ _]. pose proof (pc_range _ _ P _ Hk) as Hkr.
  pose proof (ref_popped _ _ (se_stream _ _ I)) as Hp. rewrite Hw in Hp.
  pose proof (sent_popped _ _ (se_queue _ _ I) (pc_syn _ _ P)) as Hs.
  apply (f_equal (fun l => zlen l)) in HD. rewrite zlen_app in HD. split; [lia|].
  destruct (feedback_le _ _ _ _ _ _ _ (inbound_feedback _ _ _ _ _ _ _ _ _ _ Sy)) as [_ Hed].
  unfold fits in Hf. unfold edge, acked in Hed. unfold drained in Hdr. unfold sent_bytes in Hkr.
  assert (Hfin : b2n (input_ended (stream_out (_receiver (y b)))) <= b2n (_finSent (unAckQueue (_sender (x b))))).
  { destruct (input_ended (stream_out (_receiver (y b)))) eqn:E; [|apply b2n_range].
    destruct Sy as [_ _ _ _ _ (r & Hr & G & _)].
    pose proof (gathered_ended D cap isnx ltac:(lia) ltac:(lia) short gx r G) as Hend.
    rewrite (pc_fin _ _ P) in Hend. destruct (_finSent _); [done|].
    assert (input_ended (stream_out r) = true) as Er by (by destruct Hr as [Hr|[_ Hr]]; rewrite Hr in E).
    by specialize (Hend Er). }
  lia.
Qed.

(** What [x] has sent is true of the whole of [D]. *)
Lemma x_accurate b w sent : (x_closed b = true -> str (bytes_to_send b) = []) ->
  D = w ++ str (bytes_to_send b) -> conn_session isnx isny [] cfg w (x_closed b) sent [] (x b) ->
  Forall (accurate isnx D true) (segments_out (x b)).
Proof.
  intros Hcl HD Hs. pose proof (prefix_short _ _ HD).
  destruct (session_outbound isnx isny [] cfg w (x_closed b) sent [] (x b)) as [[_ HA]%Forall_app _];
    try done; try (cbn; lia); [unfold LIMIT; lia|].
  eapply Forall_impl; [exact HA|]. intros seg. apply accurate_grows. exists (str (bytes_to_send b)).
  split; [exact HD|]. intros He. by rewrite Hcl.
Qed.

(** [y] writes nothing: all its segments begin and end at index 0. *)
Lemma y_in_window gx gy a E c :
  steady isny isnx D cap [] gy gx a E c -> forall k, k ∈ cuts gy -> k <= 0.
Proof.
  intros [(f & I & Hw) _ [P _] _ _ _] k Hk. pose proof (pc_range _ _ P _ Hk) as Hkr.
  pose proof (ref_popped _ _ (se_stream _ _ I)) as Hp. rewrite Hw in Hp.
  rewrite (sent_popped _ _ (se_queue _ _ I) (pc_syn _ _ P)) in Hkr. cbn in Hp. lia.
Qed.

(** The segments of [x] go to [y], those of [y] to [x].  [A] and [E] bound from below what waits in
    [y] acknowledges; [P] and [Q] are properties of the segments left and of [y] and [x], that of [x] for what
    [y] has become. *)
Lemma exchange_with reorder gx gy b A E (P : list TCPSegment -> TCPConnection -> Prop)
    (Q : TCPConnection -> list TCPSegment -> TCPConnection -> Prop) :
  bench_inv gx gy b -> drained b -> within A E (_sender (x b)) ->
  (exists sent, conn_session isny isnx D cfg [] true sent (string_received b) (y b)) ->
  steady isny isnx D cap [] gy gx A E (y b) ->
  (forall seg segs c c' sent g n ed, segment_received seg c = Ok c' ->
    conn_session isny isnx D cfg [] true sent (string_received b) c -> steady isny isnx D cap [] g gx A E c ->
    arrives isny isnx D g gx n ed seg c -> P (seg :: segs) c -> P segs c') ->
  (forall cy seg segs c c' w sent g g' n ed, segment_received seg c = Ok c' -> zlen w < 0x7fffffff ->
    conn_session isnx isny [] cfg w (x_closed b) sent [] c -> steady isnx isny [] cap w g g' 0 0 c ->
    arrives isnx isny [] g g' n ed seg c -> (ack (_header seg) = true -> A <= n) ->
    Q cy (seg :: segs) c -> Q cy segs c') ->
  P (order reorder (segments_out (x b))) (y b) ->
  (forall cy, P [] cy -> Q cy (segments_out cy) (drain (x b))) ->
  exists cx cy gx' gy', receive_all (order reorder (segments_out (x b))) (y b) = Ok cy /\
    receive_all (segments_out cy) (drain (x b)) = Ok cx /\
    bench_inv gx' gy' (b <| x := cx |> <| y := drain cy |>) /\ P [] cy /\ Q cy [] cx /\
    steady isny isnx D cap [] gy' gx' (acked (_receiver cy)) (edge (_receiver cy)) (drain cy) /\
    within (acked (_receiver cy)) (edge (_receiver cy)) (_sender cx).
Proof.
  intros HI Hdr Wi (senty & Hy) Sy HP HQ HP0 HQ0. pose proof (sent_in_window gx gy b HI Hdr) as Hk.
  destruct HI as [Hwf Hcl (w & sentx & HD & Hx & Sx) _ Hf].
  pose proof (prefix_short _ _ HD) as Hw. pose proof (x_accurate b w sentx Hcl HD Hx) as HA.
  pose proof (inbound_feedback _ _ _ _ _ _ _ _ _ _ Sx) as Hfx.
  assert (Hord : forall P : TCPSegment -> Prop, Forall P (segments_out (x b)) ->
    Forall P (order reorder (segments_out (x b)))).
  { intros P' H. unfold order. destruct reorder; [by apply Forall_rev|done]. }
  destruct (receive_all_good isny isnx D isnx_valid short P [] true senty (string_received b) gx A E
    (order reorder (segments_out (x b))) nil_short) with (g := gy) (c := y b)
    as (cy & gy1 & Ey & Hy1 & Ly & Sy1 & Py); try done.
  { intros. by eapply HP. }
  { by apply Hord. }
  { apply Hord, Sx. }
  { by eapply Hord, feedback_acks. }
  destruct (session_outbound isny isnx D cfg _ _ _ _ _ ltac:(lia) ltac:(lia) send_bound
    (eq_refl : zlen (@nil byte) < LIMIT) Hy1) as [[_ HAy]%Forall_app _].
  destruct (receive_all_fed isnx isny [] isny_valid nil_short (Q cy) w (x_closed b) (sentx ++ segments_out (x b)) []
    gy1 0 0 (acked (_receiver cy)) (edge (_receiver cy)) A (segments_out cy) Hw) with (g := gx) (c := drain (x b)) (a0 := A) (e0 := E)
    as (cx & gx1 & Ex & Hx1 & Lx & Sx1 & Wi1 & Qx); try done.
  { intros. by eapply HQ. }
  { by apply conn_drain. }
  { apply feedback_le in Hfx as [? ?]. eapply steady_drain; [by eapply steady_later|lia|lia]. }
  { apply Sy1. }
  { by eapply inbound_feedback. }
  { intros k Hin. pose proof (y_in_window _ _ _ _ _ Sy1 k Hin).
    destruct Sx as [_ _ _ _ _ (r & Hr & G & _)].
    destruct (peer_sizes isny [] cap ltac:(lia) nil_short gy r G) as (? & _ & ? & _).
    assert (right_edge (_receiver (drain (x b))) = right_edge r) as -> by (by destruct Hr as [Hr|[_ Hr]]; unfold drain; cbn; rewrite Hr).
    cbn. lia. }
  { by apply HQ0. }
  assert (Sy2 : steady isny isnx D cap [] gy1 gx1 (acked (_receiver cy)) (edge (_receiver cy)) (drain cy)).
  { eapply steady_drain; [by eapply steady_later|done|done]. }
  exists cx, cy, gx1, gy1. split_and!; try done. split; try done.
  - by exists w, (sentx ++ segments_out (x b)).
  - exists (senty ++ segments_out cy). split; [by apply conn_drain|]. cbn [x y upd eta eta_bench].
    destruct Wi1 as (_ & ? & ?). eapply steady_drain; [by eapply steady_later|lia|lia].
  - apply Wi1.
Qed.

Lemma exchange_ok reorder gx gy b : bench_inv gx gy b -> drained b ->
  exists cx cy gx' gy', receive_all (order reorder (segments_out (x b))) (y b) = Ok cy /\
    receive_all (segments_out cy) (drain (x b)) = Ok cx /\
    bench_inv gx' gy' (b <| x := cx |> <| y := drain cy |>).
Proof.
  intros HI Hdr. pose proof HI as [_ _ _ (senty & Hy & Sy) Hf].
  destruct (exchange_with reorder gx gy b _ _ (fun _ _ => True) (fun _ _ _ => True) HI Hdr
    (conj Hf (conj (Z.le_refl _) (Z.le_refl _))) (ex_intro _ senty Hy) Sy)
    as (cx & cy & gx' & gy' & E1 & E2 & HI' & _); try done.
  by exists cx, cy, gx', gy'.
Qed.

Lemma read_output_inv gx gy b : bench_inv gx gy b ->
  exists t, string_received (read_output b) = string_received b ++ t /\
    bench_inv gx gy (read_output b) /\ drained (read_output b) /\ x (read_output b) = x b /\
    (forall A E, steady isny isnx D cap [] gy gx A E (y b) -> steady isny isnx D cap [] gy gx A E (y (read_output b))).
Proof.
  intros [Hwf Hcl Hx (sent & Hs & St) Hf]. unfold read_output.
  set (n := buffer_size (inbound_stream (y b))).
  destruct (session_inbound isny isnx D cfg _ _ _ _ _ ltac:(lia) ltac:(lia) send_bound
    (eq_refl : zlen (@nil byte) < LIMIT) Hs) as (_ & _ & _ & Hwfs).
  assert (Hsz : n = zlen (_buf (inbound_stream (y b)))) by by apply wf_size.
  assert (Hdr : forall c, inbound_ok isnx D cap gx
      (_baseSqn (unAckQueue (_sender (x b))))
      (_baseSqn (unAckQueue (_sender (x b))) + _win_size (unAckQueue (_sender (x b)))) c ->
    _buf (inbound_stream c) = [] -> right_edge (_receiver c) = assembled (_receiver c) + cap).
  { intros c (r & Hr & G & _) Hb. destruct (peer_sizes isnx D cap cap_range short gx r G) as (_ & _ & _ & _ & He).
    unfold inbound_stream in Hb. by destruct Hr as [Hr|[_ Hr]]; rewrite Hr in Hb |- *; apply He. }
  destruct (Z.ltb_spec 0 n) as [Hn|Hn].
  - destruct (steady_read isny isnx D cap cap_range short [] gy gx _ _ (y b) n St ltac:(lia)) as [St' _].
    eexists. split; [done|]. split; [|split; [|split; [done|]]].
    + split; [done|done|exact Hx| |exact Hf]. exists sent. split; [|exact St']. apply conn_read; [exact Hs|lia].
    + apply Hdr; [apply St'|]. unfold inbound_stream, read_inbound, on_receiver_stream. cbn.
      destruct (bs_pop_output_buf n _ Hwfs ltac:(lia)) as [Hb _].
      etransitivity; [exact Hb|]. apply zdrop_ge. lia.
    + intros A E St2. by destruct (steady_read isny isnx D cap cap_range short [] gy gx _ _ (y b) n St2 ltac:(lia)).
  - exists []. rewrite app_nil_r. split; [done|]. split; [split; try done; by exists sent|]. split; [|done].
    apply Hdr; [apply St|]. apply zlen_nil_inv. lia.
Qed.

Lemma steady_front gy gx a0 e0 a e c :
  a0 <= a -> e0 <= e -> steady isny isnx D cap [] gy gx a e c -> steady isny isnx D cap [] gy gx a0 e0 c.
Proof.
  intros Ha He [? ? ? ? ? (r & Hr & G & F)]. split; try done. exists r. split_and!; try done. by eapply feedback_front.
Qed.

Lemma ticks_ok gx gy b A E :
  bench_inv gx gy b -> drained b -> within A E (_sender (x b)) -> steady isny isnx D cap [] gy gx A E (y b) ->
  exists cx cy gx' gy', tick 1000 (x b) = Ok cx /\ tick 1000 (y b) = Ok cy /\
    bench_inv gx' gy' (b <| x := cx |> <| y := cy |>) /\ drained (b <| x := cx |> <| y := cy |>) /\
    steady isny isnx D cap [] gy' gx' A E cy.
Proof.
  intros [Hwf Hcl (w & sentx & HD & Hx & Sx) (senty & Hy & _) Hf] Hdr (_ & WA & WE) Sy.
  pose proof (prefix_short _ _ HD) as Hw.
  destruct (tick_steady isnx isny [] nil_short _ _ _ _ _ _ _ _ 1000 (x b) Hw Hx Sx)
    as (cx & gx1 & Ex & Hx1 & Lx & Sx1 & _ & Kx).
  destruct (tick_steady isny isnx D short _ _ _ _ _ _ _ _ 1000 (y b) nil_short Hy Sy)
    as (cy & gy1 & Ey & Hy1 & Ly & Sy1 & _).
  exists cx, cy, gx1, gy1. split; [done|]. split; [done|]. destruct (Kx Hf) as (Hf1 & Hb & Hwin).
  assert (Sy2 : steady isny isnx D cap [] gy1 gx1 A E cy) by by eapply steady_later. split; [|split; [|done]].
  - split; try done.
    + exists w, sentx. split; [done|]. split; [done|]. by eapply steady_later.
    + exists senty. split; [done|]. cbn [x y upd eta eta_bench]. rewrite Hb, Hwin. by eapply steady_front.
  - unfold drained. cbn [y upd eta eta_bench]. by destruct (acts_window _ _ (tick_acts _ _ _ Ey)) as [-> ->].
Qed.

Lemma loop_ok reorder gx gy b : bench_inv gx gy b -> drained b ->
  exists b' t gx' gy', loop reorder b = Ok b' /\ bench_inv gx' gy' b' /\ drained b' /\
    string_received b' = string_received b ++ t.
Proof.
  intros HI Hdr. unfold loop, move_segments.
  destruct (write_input_ok gy (input_fuel b) gx b HI) as (b1 & gx1 & -> & HI1 & Hy1 & Hr1).
  { unfold input_fuel, Buffer.size. lia. }
  cbn [mbind outcome_bind]. destruct (close_input_ok gx1 gy b1 HI1) as (gx2 & _ & HI2 & Hy2 & Hr2).
  set (b2 := close_input b1) in *. assert (Hdr2 : drained b2) by (unfold drained; by rewrite Hy2, Hy1).
  destruct (exchange_ok reorder gx2 gy b2 HI2 Hdr2) as (cx & cy & gx3 & gy3 & Ey & Ex & HI3).
  cbn [app]. rewrite Ey. cbn [mbind outcome_bind order app]. rewrite Ex. cbn [mbind outcome_bind].
  destruct (read_output_inv _ _ _ HI3) as (t & Hr3 & HI4 & Hdr4 & _). set (b3 := read_output _) in *.
  pose proof HI4 as [_ _ _ (senty & _ & Sy4) Hf4].
  destruct (ticks_ok _ _ _ _ _ HI4 Hdr4 (conj Hf4 (conj (Z.le_refl _) (Z.le_refl _))) Sy4)
    as (cx3 & cy3 & gx4 & gy4 & -> & -> & HI5 & Hdr5 & _).
  cbn [mbind outcome_bind]. eexists _, t, gx4, gy4. split; [done|]. split; [done|]. split; [done|].
  change (string_received b3 = string_received b ++ t). rewrite Hr3, <- Hr1, <- Hr2. done.
Qed.

Lemma loop_while_ok condition reorder rounds : forall gx gy b, bench_inv gx gy b -> drained b ->
  exists done b' t gx' gy', loop_while condition reorder rounds b = Ok (done, b') /\
    bench_inv gx' gy' b' /\ drained b' /\
    string_received b' = string_received b ++ t /\ (done = true -> condition b' = false).
Proof.
  induction rounds as [|rounds IH]; intros gx gy b HI Hdr; cbn [loop_while];
    (destruct (condition b) eqn:Hc; cbn [negb];
      [|exists true, b, [], gx, gy; rewrite app_nil_r; by split_and!]).
  { exists false, b, [], gx, gy. rewrite app_nil_r. by split_and!. }
  destruct (loop_ok reorder gx gy b HI Hdr) as (b1 & t1 & gx1 & gy1 & -> & HI1 & Hdr1 & Hr1).
  cbn [mbind outcome_bind].
  destruct (IH gx1 gy1 b1 HI1 Hdr1) as (d & b2 & t2 & gx2 & gy2 & -> & HI2 & Hdr2 & Hr2 & Hd).
  exists d, b2, (t1 ++ t2), gx2, gy2. rewrite Hr2, Hr1, app_assoc. by split_and!.
Qed.

(** What [y] has got. *)
Lemma received_prefix gx gy b : bench_inv gx gy b ->
  string_received b `prefix_of` D /\ (receiving b = false -> string_received b = D).
Proof.
  intros [_ _ _ (sent & Hs & _) _].
  destruct (session_inbound isny isnx D cfg _ _ _ _ _ ltac:(lia) ltac:(lia) send_bound (eq_refl : zlen (@nil byte) < LIMIT) Hs)
    as ((k & Hk & Hpre) & Hend & _ & Hwf). split.
  - etrans; [by apply prefix_app_r|]. rewrite Hpre. apply prefix_take.
  - unfold receiving, eof. intros H%negb_false_iff%andb_true_iff. destruct H as [Hz%Z.eqb_eq He].
    rewrite (wf_size _ Hwf) in Hz. apply zlen_nil_inv in Hz. specialize (Hend He).
    by rewrite Hz, app_nil_r in Hend.
Qed.
End sound.

(** The two connections after SYN went out. *)
Definition start_progress : progress := mk_progress [0] None.

Lemma start_steady isn pisn S cap w e sent rd c :
  0 < cap < 0x10000 -> zlen S < 0x7fffffff ->
  conn_ok isn pisn S cap w e sent rd c ->
  unAckQueue (_sender c) = mkUnAckQueue [] [] true false false false 0 1 1 ->
  _receiver c = TCPReceiver.new cap -> segments_out c = [syn_segment isn] ->
  steady isn pisn S cap w start_progress start_progress 0 1 c.
Proof.
  intros Hc Hs [(f & r & ps & pe & [I Hi Hh He _ _ _]) Hq] Eq Er Eo. unfold segments_out in Eo.
  assert (Hsyn : marked isn start_progress (syn_segment isn)).
  { right. exists 0. cbn. split_and!; try done. by left. }
  split; rewrite ?Hq, ?Eo; try done.
  - by exists f.
  - split.
    + rewrite Eq. split; cbn; try done.
      * intros k [->|[]%not_elem_of_nil]%elem_of_cons. done.
      * by left.
    + unfold segQueueFromSender in Hq. by rewrite Hq.
  - by apply Forall_singleton.
  - exists (TCPReceiver.new cap). split; [by left|]. split; [apply gathered_new; by left|]. rewrite Eo.
    unfold edge, acked, assembled. cbn. lia.
Qed.

Lemma start_inv cfg D random_x random_y :
  TCPConfig.wf cfg -> 0 < recv_capacity cfg < 0x10000 -> zlen D < 0x7fffffff ->
  let b := bench_start random_x random_y cfg D in
  bench_inv cfg D (isn_of random_x cfg) (isn_of random_y cfg) start_progress start_progress b /\ drained cfg b.
Proof.
  intros W Hc Hl b. pose proof (wf_send_capacity _ W) as Hs.
  assert (Hx : conn_session (isn_of random_x cfg) (isn_of random_y cfg) [] cfg [] false [] [] (x b)).
  { by apply conn_connect, conn_new. }
  assert (Hy : conn_session (isn_of random_y cfg) (isn_of random_x cfg) D cfg [] true [] [] (y b)).
  { by eapply conn_end, conn_new. }
  split.
  - split; [apply Buffer.buffer_of_string_wf; lia|done| | |].
    + exists [], []. split; [done|]. split; [done|].
      assert (St : steady (isn_of random_x cfg) (isn_of random_y cfg) [] (recv_capacity cfg) []
        start_progress start_progress 0 1 (x b)).
      { eapply start_steady; [done|done| |done|done|done]. eapply session_ok; try done; lia. }
      destruct St as [Hl0 Hi HP Hq Ho (r & Hr & G & F)]. split; try done. exists r. split; [done|]. split; [done|].
      by eapply feedback_front; [| |exact F].
    + exists []. split; [done|].
      eapply start_steady; [done|done| |done|done|done]. eapply session_ok; try done; lia.
    + by vm_compute.
  - unfold drained. cbn. unfold right_edge, first_unacceptable, assembled. cbn. lia.
Qed.

(** [main_loop] after its first loop. *)
Lemma main_loop_received random_x random_y config string_to_send reorder rounds rounds' b1 :
  TCPConfig.wf config -> 0 < recv_capacity config < 0x10000 -> zlen string_to_send < 0x7fffffff ->
  loop_while receiving reorder rounds (bench_start random_x random_y config string_to_send) = Ok (true, b1) ->
  exists finished b,
    main_loop random_x random_y config string_to_send reorder rounds rounds' = Ok (finished, b) /\
    string_received b = string_to_send /\ (finished = true -> active (x b) = false /\ active (y b) = false).
Proof.
  intros W Hc Hl E. destruct (start_inv config string_to_send random_x random_y W Hc Hl) as [HI Hdr].
  pose proof (new_isn_valid config random_x W) as Vx. pose proof (new_isn_valid config random_y W) as Vy.
  pose proof (wf_send_capacity _ W) as Hs.
  destruct (loop_while_ok config _ _ _ Hc Hs Hl Vx Vy receiving reorder rounds _ _ _ HI Hdr)
    as (d1 & b1' & t1 & gx & gy & E1 & HI1 & Hdr1 & Hr1 & Hd1).
  rewrite E in E1. injection E1 as <- <-. unfold main_loop. rewrite E. cbn [mbind outcome_bind negb].
  destruct (received_prefix config _ _ _ Hc Hs Hl gx gy b1 HI1) as [Hp1 He1]. specialize (He1 (Hd1 eq_refl)).
  rewrite He1, bool_decide_eq_true_2 by done. cbn [negb].
  destruct (loop_while_ok config _ _ _ Hc Hs Hl Vx Vy running reorder rounds' _ _ _ HI1 Hdr1)
    as (d2 & b2 & t2 & gx2 & gy2 & -> & HI2 & _ & Hr2 & Hd2).
  destruct (received_prefix config _ _ _ Hc Hs Hl gx2 gy2 b2 HI2) as [Hp2 _].
  exists d2, b2. split; [done|]. rewrite Hr2, He1 in Hp2 |- *.
  apply prefix_length in Hp2. rewrite length_app in Hp2.
  assert (t2 = []) as -> by (apply length_zero_iff_nil; lia). rewrite app_nil_r.
  split; [done|]. intros Hd. apply orb_false_iff. by apply Hd2.
Qed.

(** ** Properties *)

(** C1. The benchmark delivers. For any configuration with a receive capacity between 1 and
    65535 (what the window field holds), any random numbers, data of less than 2^31 - 1 bytes
    and number of rounds, in order or reordered, [main_loop] throws nothing: no segment, write
    or tick fails, and the strings sent and received match. At any time [y]'s reader
    has a prefix of the data; and when it ends all of it, with both connections over. *)
Theorem benchmark_delivers random_x random_y config string_to_send reorder rounds rounds' :
  TCPConfig.wf config -> 0 < recv_capacity config < 0x10000 -> zlen string_to_send < 0x7fffffff ->
  exists finished b,
    main_loop random_x random_y config string_to_send reorder rounds rounds' = Ok (finished, b) /\
    string_received b `prefix_of` string_to_send /\
    (finished = true -> string_received b = string_to_send /\ active (x b) = false /\ active (y b) = false).
Proof.
  intros W Hc Hl. destruct (start_inv config string_to_send random_x random_y W Hc Hl) as [HI Hdr].
  pose proof (new_isn_valid config random_x W) as Vx. pose proof (new_isn_valid config random_y W) as Vy.
  pose proof (wf_send_capacity _ W) as Hs.
  destruct (loop_while_ok config _ _ _ Hc Hs Hl Vx Vy receiving reorder rounds _ _ _ HI Hdr)
    as (d1 & b1 & t1 & gx & gy & E1 & HI1 & Hdr1 & Hr1 & Hd1).
  destruct (received_prefix config _ _ _ Hc Hs Hl gx gy b1 HI1) as [Hp1 He1].
  destruct d1; [|exists false, b1; unfold main_loop; rewrite E1; by split].
  destruct (main_loop_received _ _ _ _ _ _ rounds' _ W Hc Hl E1) as (d & b & E & Hr & Hd).
  exists d, b. split; [done|]. rewrite Hr. split; [done|]. intros Hd1'. split; [done|by apply Hd].
Qed.

Definition demo_data : bytes := [x61; x62; x63; x64; x65; x66; x67; x68; x69; x6a; x6b; x6c].
Definition demo_config : TCPConfig := mkTCPConfig 1000 8 8 None.

Lemma benchmark_delivers_witness : exists b,
  main_loop 5 7 demo_config demo_data true 20 20 = Ok (true, b) /\ string_received b = demo_data.
Proof.
  destruct (benchmark_delivers 5 7 demo_config demo_data true 20 20) as (d & b & E & _ & Hd);
    [by split|done|done|].
  assert (Hf : match main_loop 5 7 demo_config demo_data true 20 20 with
               | Ok (d, _) => d | Fault _ => false end = true) by by vm_compute.
  rewrite E in Hf. subst d. exists b. split; [done|]. by apply Hd.
Defined.
