(* ===== verification/Rounds.v ===== *)
(** * Rounds: what a round of the benchmark achieves

    Once the connections of [Benchmark] are established, [lively] holds between two rounds, and
    each round brings the end closer: [x]'s base rises, or a segment that [y] answers is under
    way, or the retransmission timer comes closer.  So the first loop ends ([going_finishes]). *)

From stdpp Require Import relations.
From S2P Require Import Prelude WrappingIntegers ByteStream Buffer.
From S2P Require Import TCPHeader TCPSegment TCPConfig TCPState StreamReassembler TCPReceiver TCPSender Pace Progress.
From S2P Require Import Transfer TCPConnection Handlers FlowControl Benchmark.
Implicit Types (b : bench) (c : TCPConnection) (s : TCPSender) (seg : TCPSegment) (segs : list TCPSegment).

(** ** Segments *)

Definition plainly seg : Prop := rst (_header seg) = false.
(** What an established connection sends. *)
Definition replyable seg : Prop :=
  ack (_header seg) = true /\ syn (_header seg) = false /\ rst (_header seg) = false.
Definition countable seg : Prop := syn (_header seg) = false /\ 0 < length_in_sequence_space seg.

Lemma length_data seg :
  syn (_header seg) = false -> zlen (str (_payload seg)) < 0x80000000 ->
  length_in_sequence_space seg = zlen (str (_payload seg)) + b2n (fin (_header seg)).
Proof.
  intros Hs Hl. unfold length_in_sequence_space. rewrite Hs, Z.add_0_r.
  rewrite (u64_id (zlen (str (_payload seg)))) by lia. destruct (fin _); cbn [b2n]; apply u64_id; lia.
Qed.

Lemma stamp_header r seg :
  _payload (stamp r seg) = _payload seg /\ syn (_header (stamp r seg)) = syn (_header seg) /\
  fin (_header (stamp r seg)) = fin (_header seg) /\ rst (_header (stamp r seg)) = rst (_header seg) /\
  seqno (_header (stamp r seg)) = seqno (_header seg).
Proof. unfold stamp. destruct (ackno r); [|done]. by destruct (negb _). Qed.

Lemma stamp_carries isn r seg j : carries isn seg j -> carries isn (stamp r seg) j.
Proof.
  destruct (stamp_header r seg) as (Hp & Hs & _ & _ & Hq). unfold carries. by rewrite Hp, Hs, Hq.
Qed.

(** The stamped segments do what the plain ones do. *)
Lemma stamp_delivers isn q q' r segs segs' :
  delivers isn q q' segs -> Forall (fun sg => stamp r sg ∈ segs') segs -> delivers isn q q' segs'.
Proof.
  intros (H1 & Hsp & H2 & H3) HF. rewrite Forall_forall in HF. split; [done|]. split.
  - intros j Hj. destruct (Hsp j Hj) as (seg & Hin & Hc). exists (stamp r seg). split; [by apply HF|by apply stamp_carries].
  - split; [done|]. intros Hf. destruct (H3 Hf) as [?|(seg & Hin & Hfi & Hs)]; [by left|right].
    destruct (stamp_header r seg) as (_ & Es & Ef & _). exists (stamp r seg). rewrite Es, Ef. split; [by apply HF|done].
Qed.

Lemma carries_countable isn seg j : carries isn seg j -> countable seg.
Proof.
  intros (Hs & i & _ & Hi & Hj). split; [done|]. rewrite length_data by (done || lia).
  pose proof (b2n_range (fin (_header seg))). lia.
Qed.

Lemma blank_replyable r s seg : _synRecv r = true -> blank r s seg -> replyable seg.
Proof. intros Hs ->. unfold stamp, ackno. rewrite Hs. done. Qed.

Lemma made_plainly r s0 s seg : Forall plain (TCPSender._segments_out s) -> made r s0 s seg -> plainly seg.
Proof.
  assert (Hb : forall s, blank r s seg -> plainly seg).
  { intros s1 ->. unfold plainly.
    by destruct (stamp_header r (headerSeg (TCPHeader.default <| seqno := next_seqno s1 |>))) as (_ & _ & _ & -> & _). }
  rewrite Forall_forall. intros HF [H|[H|(seg0 & Hin & ->)]]; [by eapply Hb|by eapply Hb|].
  unfold plainly. destruct (stamp_header r seg0) as (_ & _ & _ & -> & _). by apply HF.
Qed.

(** ** Receivers *)

Lemma receiver_keeps seg r r' :
  TCPReceiver.segment_received seg r = Ok r' ->
  (_synRecv r = true -> _synRecv r' = true) /\
  (input_ended (stream_out r) = true -> input_ended (stream_out r') = true).
Proof.
  assert (Hpush : forall d i e r0 r1, (re ← push_substring d i e (_reassembler r0);
      Ok (update_ackno (r0 <| _reassembler := re |>))) = Ok r1 ->
    _synRecv r1 = _synRecv r0 /\ (input_ended (stream_out r0) = true -> input_ended (stream_out r1) = true)).
  { intros d i e r0 r1 E. apply bind_Ok in E as (re & E & E1%Ok_inj). subst r1.
    assert (Hu : forall r, _synRecv (update_ackno r) = _synRecv r /\ stream_out (update_ackno r) = stream_out r).
    { intros r2. unfold update_ackno. by destruct (input_ended _). }
    destruct (Hu (r0 <| _reassembler := re |>)) as [-> ->]. split; [done|]. intros He.
    unfold push_substring, push_substring_reading in E. unfold stream_out, StreamReassembler.stream_out in *. rewrite He in E.
    apply Ok_inj in E as <-. exact He. }
  unfold TCPReceiver.segment_received. destruct (syn _).
  - destruct (_synRecv r) eqn:Hs; [by intros [= <-]|]. intros E. apply Hpush in E as [_ E2]. by split.
  - destruct (_synRecv r) eqn:Hs; cbn [negb]; [|by intros [= <-]].
    intros E. apply Hpush in E as [E1 E2]. split; [by rewrite E1|done].
Qed.

Lemma shaped_receiver seg c c' s2 (b : bool) : shaped seg c c' s2 b ->
  (_synRecv (_receiver c) = true -> _synRecv (_receiver c') = true) /\
  (receiver_FIN_recv c = true -> receiver_FIN_recv c' = true).
Proof.
  intros H. unfold receiver_FIN_recv. destruct (sp_receiver _ _ _ _ _ H) as [E|[-> _]]; [|done]. by eapply receiver_keeps.
Qed.

(** ** What [y] has got *)

Section cover.
Context (D : bytes) (cap : Z) (isn : WrappingInt32).
Hypothesis cap_range : 0 < cap < 0x10000.
Hypothesis short : zlen D < 0x7fffffff.
Hypothesis isn_valid : valid isn.

(** The receiver and the segments on the way to it have the first [n] bytes, and FIN when [f]. *)
Definition cover (r : TCPReceiver) segs (n : Z) (f : bool) : Prop :=
  exists out ps e, receiver_inv D cap isn out ps e r /\
    (forall j, 0 <= j < n -> covered ps j = true \/ exists seg, seg ∈ segs /\ carries isn seg j) /\
    (f = true -> e = true \/ ends segs).

Lemma cover_more r segs segs' q q' :
  cover r segs (sent_bytes q) (_finSent q) -> delivers isn q q' segs' ->
  cover r (segs ++ segs') (sent_bytes q') (_finSent q').
Proof.
  intros (out & ps & e & I & Hc & He) (H1 & Hsp & H2 & H3). exists out, ps, e. split; [done|]. split.
  - intros j Hj. destruct (Z.ltb_spec j (sent_bytes q)).
    + destruct (Hc j ltac:(lia)) as [?|(seg & ? & ?)]; [by left|right]. exists seg. rewrite elem_of_app. tauto.
    + right. destruct (Hsp j ltac:(lia)) as (seg & ? & ?). exists seg. rewrite elem_of_app. tauto.
  - intros Hf. destruct (H3 Hf) as [Hf'|?]; [destruct (He Hf') as [?|?]; [by left|]|]; right; apply ends_app; tauto.
Qed.

Lemma cover_order r segs segs' n f : (forall seg, seg ∈ segs -> seg ∈ segs') -> cover r segs n f -> cover r segs' n f.
Proof.
  intros Hin (out & ps & e & I & Hc & He). exists out, ps, e. split; [done|]. split.
  - intros j Hj. destruct (Hc j Hj) as [?|(seg & ? & ?)]; [by left|right]. exists seg. auto.
  - intros Hf. destruct (He Hf) as [?|(seg & ? & ?)]; [by left|right]. exists seg. auto.
Qed.

Lemma cover_read r segs n f k :
  cover r segs n f -> 0 <= k ->
  cover (r <| _reassembler := (_reassembler r) <| _output := snd (read k (stream_out r)) |> |>) segs n f.
Proof. intros (out & ps & e & I & H) Hk. eexists _, ps, e. split; [by apply receiver_inv_read|done]. Qed.

(** A segment that is no use. *)
Lemma cover_useless r seg segs n f :
  syn (_header seg) = true \/ zlen (str (_payload seg)) = 0 /\ fin (_header seg) = false ->
  cover r (seg :: segs) n f -> cover r segs n f.
Proof.
  intros Hu (out & ps & e & I & Hc & He). exists out, ps, e. split; [done|]. split.
  - intros j Hj. destruct (Hc j Hj) as [?|(sg & [->|Hin]%elem_of_cons & Hca)]; [by left| |right; by exists sg].
    destruct Hca as (Hs & i & _ & ? & ?). destruct Hu as [?|[? _]]; [congruence|lia].
  - intros Hf. destruct (He Hf) as [?|(sg & [->|Hin]%elem_of_cons & Hf1 & Hf2)]; [by left| |right; by exists sg].
    destruct Hu as [?|[_ ?]]; congruence.
Qed.

Lemma bare_useless seg : bare seg -> zlen (str (_payload seg)) = 0 /\ fin (_header seg) = false.
Proof. intros (-> & _ & ->). done. Qed.

(** A segment the receiver takes. *)
Lemma cover_segment g r r' seg segs n f :
  cover r (seg :: segs) n f -> _synRecv r = true -> accurate isn D true seg -> marked isn g seg ->
  (forall k, k ∈ cuts g -> k <= zlen D /\ k <= right_edge r) ->
  (TCPReceiver.segment_received seg r = Ok r' \/ r' = r /\ (syn (_header seg) = true \/ length_in_sequence_space seg = 0)) ->
  cover r' segs n f.
Proof.
  intros HC Hy A M Hk Hr. pose proof HC as (out & ps & e & I & Hc & He).
  assert (Hlen : zlen (str (_payload seg)) < 0x80000000).
  { destruct A as [(-> & _)|(i & ? & ? & _ & Hm & _)]; [done|]. unfold MAX_PAYLOAD_SIZE in Hm. lia. }
  destruct (syn (_header seg)) eqn:Hs.
  { assert (r' = r) as ->; [|eapply cover_useless; [by left|exact HC]].
    destruct Hr as [Hr|[-> _]]; [|done]. unfold TCPReceiver.segment_received in Hr. rewrite Hs, Hy in Hr. by injection Hr. }
  destruct Hr as [Hr|[-> [?|Hz]]]; [|congruence|].
  2: { rewrite length_data in Hz by done. eapply cover_useless; [|exact HC]. right.
       destruct (fin _); cbn [b2n] in Hz; [lia|]. split; [lia|done]. }
  assert (Hacc : accepts r seg = true) by (unfold accepts; by rewrite Hs, Hy).
  destruct (marked_valid D cap isn ltac:(lia) ltac:(lia) short isn_valid g r out ps e seg I A M Hk)
    as [Hb|(i & V & Hcut & Hfi)].
  { rewrite (segment_ignored D cap isn ltac:(lia) ltac:(lia) _ _ _ _ _ I (or_intror Hb)) in Hr.
    apply Ok_inj in Hr as <-. eapply cover_useless; [|exact HC]. right. by apply bare_useless. }
  destruct (segment_received_step D cap isn ltac:(lia) ltac:(lia) _ _ _ _ _ _ I V) as (r2 & E2 & I2 & _).
  rewrite Hr in E2. apply Ok_inj in E2 as <-. rewrite Hacc in I2. cbn [andb] in I2.
  eexists out, _, _. split; [exact I2|]. split.
  - intros j Hj. destruct (Hc j Hj) as [Hcj|(sg & [->|Hin]%elem_of_cons & Hca)]; [| |right; by exists sg].
    + left. unfold covered in *. cbn [existsb]. rewrite Hcj. apply orb_true_r.
    + left. destruct Hca as (_ & i' & Hq & Hi' & Hj'). pose proof (vs_seqno _ _ _ _ _ V Hs) as Hq'.
      rewrite Hq in Hq'. apply wrap_eq_iff in Hq'. destruct (vs_push _ _ _ _ _ V) as [(? & ? & _) _].
      assert (i' = i) as -> by ulia. unfold covered. cbn [existsb fst snd]. apply orb_true_iff. left. lia.
  - intros Hf. destruct (He Hf) as [->|(sg & [->|Hin]%elem_of_cons & Hf1 & Hf2)]; [by left| |right; by exists sg].
    left. rewrite Hf1. apply orb_true_r.
Qed.

(** Nothing on the way: the receiver has it all. *)
Lemma cover_done r n f :
  cover r [] n f -> 0 <= n <= zlen D ->
  n <= assembled r /\ (f = true -> n = zlen D -> input_ended (stream_out r) = true).
Proof.
  intros (out & ps & e & [Hs _ _ _] & Hc & He) Hn.
  destruct (session_fifo D cap ltac:(lia) ltac:(lia) _ _ _ _ Hs) as [fi SI].
  pose proof (session_gap _ _ _ _ _ _ _ SI) as Hgap. destruct SI as [[C _] _ _ _ Heof _ _].
  pose proof (core_range _ _ _ _ C) as Hr. unfold assembled.
  assert (Hle : n <= _exIdx (_reassembler r)).
  { destruct (Z.leb_spec n (_exIdx (_reassembler r))); [done|].
    destruct (Hc (_exIdx (_reassembler r)) ltac:(lia)) as [?|(seg & ?%elem_of_nil & _)]; [congruence|done]. }
  split; [done|]. intros Hf ->. destruct (He Hf) as [->|(seg & ?%elem_of_nil & _)]; [|done].
  unfold stream_out, StreamReassembler.stream_out, input_ended.
  rewrite (ref_end _ _ (core_out _ _ _ _ C)), (core_ended _ _ _ _ C), Heof. cbn [andb]. lia.
Qed.

(** A segment of at most one number that is out of order does not end the stream. *)
Lemma out_of_order_open g r r' out ps e seg :
  receiver_inv D cap isn out ps e r -> _synRecv r = true -> accurate isn D true seg -> marked isn g seg ->
  (forall k, k ∈ cuts g -> k <= zlen D /\ k <= right_edge r) -> TCPReceiver.segment_received seg r = Ok r' ->
  syn (_header seg) = false -> length_in_sequence_space seg <= 1 -> seqno (_header seg) <> _ackno r ->
  input_ended (stream_out r) = false -> input_ended (stream_out r') = false.
Proof.
  intros I Hy A M Hk Hr Hs Hlen Hq He.
  assert (Hacc : accepts r seg = true) by (unfold accepts; by rewrite Hs, Hy).
  assert (Hsmall : zlen (str (_payload seg)) < 0x80000000).
  { destruct A as [(-> & _)|(i & ? & ? & _ & Hm & _)]; [done|]. unfold MAX_PAYLOAD_SIZE in Hm. lia. }
  rewrite length_data in Hlen by done.
  destruct (marked_valid D cap isn ltac:(lia) ltac:(lia) short isn_valid g r out ps e seg I A M Hk)
    as [Hb|(i & V & _)].
  { rewrite (segment_ignored D cap isn ltac:(lia) ltac:(lia) _ _ _ _ _ I (or_intror Hb)) in Hr. by apply Ok_inj in Hr as <-. }
  destruct (segment_received_step D cap isn ltac:(lia) ltac:(lia) _ _ _ _ _ _ I V) as (r2 & E2 & I2 & _).
  rewrite Hr in E2. apply Ok_inj in E2 as <-. rewrite Hacc in I2. cbn [andb] in I2.
  pose proof (vs_seqno _ _ _ _ _ V Hs) as Hsq. destruct (vs_push _ _ _ _ _ V) as [(Hi & Hn & _) [_ Hfin]].
  destruct I as [S _ _ Ha], I2 as [S2 _ _ _]. specialize (Ha Hy). rewrite He in Ha. unfold ack_at in Ha.
  destruct (session_fifo D cap ltac:(lia) ltac:(lia) _ _ _ _ S) as [f SI].
  destruct (session_fifo D cap ltac:(lia) ltac:(lia) _ _ _ _ S2) as [f2 SI2].
  pose proof (session_gap _ _ _ _ _ _ _ SI) as Hgap. destruct SI as [[C _] _ _ _ Heof _ _].
  destruct SI2 as [[C2 _] _ _ Hcov2 Heof2 _ _].
  pose proof (core_range _ _ _ _ C) as Hr1. pose proof (core_idx _ _ _ _ C2) as Hx2.
  assert (Hne : i <> _exIdx (_reassembler r)).
  { intros ->. apply Hq. rewrite Hsq, Ha. f_equal. lia. }
  unfold stream_out, StreamReassembler.stream_out, input_ended in He |- *.
  rewrite (ref_end _ _ (core_out _ _ _ _ C)), (core_ended _ _ _ _ C), Heof in He.
  rewrite (ref_end _ _ (core_out _ _ _ _ C2)), (core_ended _ _ _ _ C2), Heof2.
  apply not_true_iff_false. intros [H1 H2%Z.eqb_eq]%andb_true_iff.
  destruct (Z.ltb_spec (_exIdx (_reassembler r)) (zlen D)) as [Hlt|Hge].
  - assert (Hc : covered ((i, zlen (str (_payload seg))) :: ps) (_exIdx (_reassembler r)) = true).
    { apply Hcov2. unfold view. rewrite decide_True by lia. apply zget_is_Some. lia. }
    unfold covered in Hc, Hgap. cbn [existsb fst snd] in Hc. rewrite Hgap, orb_false_r in Hc.
    pose proof (b2n_range (fin (_header seg))). lia.
  - rewrite (proj2 (Z.eqb_eq _ _)), andb_true_r in He by lia. rewrite He in H1. cbn [orb] in H1.
    specialize (Hfin H1). rewrite H1 in Hlen. cbn [b2n] in Hlen. lia.
Qed.

(** All of it and FIN: what the receiver acknowledges. *)
Lemma cover_ackno r :
  cover r [] (zlen D) true -> _synRecv r = true ->
  input_ended (stream_out r) = true /\ ackno r = Some (wrap (zlen D + 2) isn).
Proof.
  intros HC Hs. destruct (cover_done _ _ _ HC ltac:(lia)) as [Hle He]. specialize (He eq_refl eq_refl).
  split; [done|]. destruct HC as (out & ps & e & I & _).
  destruct (receiver_sizes D cap isn ltac:(lia) ltac:(lia) ltac:(lia) _ _ _ _ I) as (Hr & _).
  unfold ackno. rewrite Hs. destruct I as [_ _ _ Ha]. rewrite (Ha Hs), He. unfold ack_at. unfold assembled in *. do 2 f_equal. lia.
Qed.
End cover.

(** ** The two ends *)

Section ends.
Context (cfg : TCPConfig) (D : bytes) (isnx isny : WrappingInt32).
Abbreviation cap := (recv_capacity cfg).
Hypothesis cap_range : 0 < cap < 0x10000.
Hypothesis send_bound : 0 < send_capacity cfg < 0x10000000000000000.
Hypothesis short : zlen D < 0x7fffffff.
Hypothesis isnx_valid : valid isnx.
Hypothesis isny_valid : valid isny.
Abbreviation base c := (_baseSqn (unAckQueue (_sender c))).
Abbreviation retries c := (_consecutive_retransmissions (timer (_sender c))).
Abbreviation reached b := (acked (_receiver (y b))).

(** What [y] sends: in order and without data, or from before it has heard of any data. *)
Definition prompt seg : Prop :=
  replyable seg /\ seqno (_header seg) = wrap 2 isny /\ length_in_sequence_space seg = 0.
Definition modest seg : Prop := prompt seg \/ replyable seg /\ TCPHeader.ackno (_header seg) = wrap 1 isnx.

Lemma blank_prompt r s seg :
  _synRecv r = true -> next_seqno s = wrap 2 isny -> blank r s seg -> prompt seg.
Proof.
  intros Hr Hn Hb. split; [by eapply blank_replyable|]. rewrite Hb. unfold stamp, ackno. rewrite Hr. split; [exact Hn|done].
Qed.

Lemma prompt_modest segs : Forall prompt segs -> Forall modest segs.
Proof. intros H. eapply Forall_impl; [exact H|]. intros seg. by left. Qed.

Lemma modest_replyable seg : modest seg -> replyable seg.
Proof. intros [[? _]|[? _]]; done. Qed.

(** [y] has sent FIN and waits for [x]'s. *)
Record y_ready c : Prop := mk_y_ready {
  yr_active : _active c = true;
  yr_syn : _synRecv (_receiver c) = true;
  yr_open : receiver_FIN_recv c = false;
  yr_fin : _finSent (unAckQueue (_sender c)) = true;
  yr_linger : _linger_after_streams_finish c = true;
  yr_wait : _time_wait c = false;
  yr_count : 0 <= _consecutive_retransmissions (timer (_sender c)) <= 1;
  yr_out : Forall modest (segments_out c) }.

(** [y]'s FIN is acknowledged, or the segments under way do so. *)
Definition fin_pending (q : UnAckQueue) : Prop :=
  _unAcked q = [] /\ _finSent q = true /\ _finAcked q = false /\ _baseSqn q = 1 /\ _next_seqno q = 2.
Definition acks_fin seg : Prop :=
  syn (_header seg) = false /\ ack (_header seg) = true /\ TCPHeader.ackno (_header seg) = wrap 2 isny.
Definition settles segs s : Prop :=
  _finAcked (unAckQueue s) = true \/ fin_pending (unAckQueue s) /\ Exists acks_fin segs.

Lemma ack_fin s w s' :
  fin_pending (unAckQueue s) -> TCPSender._isn s = isny -> ack_received (wrap 2 isny) w s = Ok s' ->
  _finAcked (unAckQueue s') = true.
Proof.
  intros (Hu & Hf & Hfa & Hb & Hn) Hi. unfold ack_received, UnAckQueue.ackForFinSqn.
  change (TCPSender._isn (setWindowSize w s)) with (TCPSender._isn s).
  change (_baseSqn (unAckQueue (setWindowSize w s))) with (_baseSqn (unAckQueue s)).
  change (_finSent (unAckQueue (setWindowSize w s))) with (_finSent (unAckQueue s)).
  change (_next_seqno (unAckQueue (setWindowSize w s))) with (_next_seqno (unAckQueue s)).
  rewrite Hi, Hb, Hn, Hf, unwrap_eq by lia. cbn [Z.ltb Z.leb Z.compare Pos.compare Pos.compare_cont andb orb].
  change (if 2 <? 0 then 2 + 4294967296 else 2) with 2.
  unfold UnAckQueue.updateBase, UnAckQueue.ackSqnForFin.
  change (_baseSqn (unAckQueue (setWindowSize w s))) with (_baseSqn (unAckQueue s)).
  change (_finSent (unAckQueue (setWindowSize w s))) with (_finSent (unAckQueue s)).
  change (_next_seqno (unAckQueue (setWindowSize w s))) with (_next_seqno (unAckQueue s)).
  rewrite Hb, Hf, Hn.
  assert (He : UnAckQueue.empty ((unAckQueue (setWindowSize w s)) <| _finAcked := true |>) = true).
  { unfold UnAckQueue.empty. by apply bool_decide_eq_true_2. }
  cbn [Z.ltb Z.leb Z.eqb Z.compare Pos.compare Pos.compare_cont Pos.eqb andb orb]. rewrite He. cbn [negb mbind outcome_bind].
  destruct (_ || _); by intros [= <-].
Qed.

(** What hearing an acknowledgment does to a sender that has sent FIN. *)
Lemma heard_fin g f s seg s2 segs n :
  sender_inv s f -> zlen (hist f) < 0x7fffffff -> pacing g s -> TCPSender._isn s = isny -> is_u16 (win (_header seg)) ->
  (ack (_header seg) = true -> TCPHeader.ackno (_header seg) = wrap n isny /\ good g n) -> heard seg s s2 ->
  _finSent (unAckQueue s) = true -> 0 <= _consecutive_retransmissions (timer s) <= 1 ->
  _finSent (unAckQueue s2) = true /\ 0 <= _consecutive_retransmissions (timer s2) <= 1 /\
  (settles (seg :: segs) s -> settles segs s2).
Proof.
  intros I Hl P Hi Hw Ha Hh Hf Hc. unfold heard in Hh.
  assert (Hsame : s2 = s -> (syn (_header seg) = true \/ ack (_header seg) = false) ->
    _finSent (unAckQueue s2) = true /\ 0 <= _consecutive_retransmissions (timer s2) <= 1 /\
    (settles (seg :: segs) s -> settles segs s2)).
  { intros -> Hn. split_and!; try done; try lia. intros [?|(Hp & HF)]; [by left|].
    apply Exists_cons in HF as [(? & ? & _)|HF]; [destruct Hn; congruence|by right]. }
  destruct (syn (_header seg)) eqn:Hs; [by apply Hsame; [|left]|].
  destruct (ack (_header seg)) eqn:Hk; [|by apply Hsame; [|right]].
  destruct (Ha eq_refl) as [Hn G]. rewrite Hn in Hh. pose proof Hh as Hh'. rewrite <- Hi in Hh.
  destruct (ack_received_moved s f g n _ s2 I P G Hl Hw Hh) as (M & _ & Hf2 & _).
  split_and!; [congruence|destruct (mv_count _ _ M); lia|destruct (mv_count _ _ M); lia|].
  pose proof (good_pos f g _ n (se_queue _ _ I) (proj1 P) G) as Hr.
  destruct (good_ack_ok s f g n I (proj1 P) G Hl) as (_ & _ & Hnear & _). destruct (in_flight_eq _ _ I) as [_ Hnx].
  pose proof (ref_popped _ _ (se_stream _ _ I)) as Hpop. pose proof (qi_next _ _ (se_queue _ _ I)) as Hq.
  pose proof (qi_base _ _ (se_queue _ _ I)) as Hbr.
  pose proof (b2n_range (_finSent (unAckQueue s))). pose proof (b2n_range (_synSent (unAckQueue s))).
  destruct (ack_received_timer s n _ s2 ltac:(lia) Hnear ltac:(unfold LIMIT in *; lia) ltac:(lia) Hh) as [Hold _].
  intros [Hfa|(Hp & HF)].
  - left. pose proof (pc_done _ _ (proj1 P) Hfa) as Hb. rewrite Hold by lia. exact Hfa.
  - pose proof Hp as (Hp1 & Hp2 & Hp3 & Hp4 & Hp5). destruct (Z.eq_dec n 2) as [->|Hn2].
    + left. by eapply ack_fin.
    + right. rewrite Hold by lia. split; [done|]. apply Exists_cons in HF as [(_ & _ & Hn')|HF]; [|done].
      exfalso. rewrite Hn in Hn'. apply wrap_eq_iff in Hn'. ulia.
Qed.

Lemma fill_window_fin s : _finSent (unAckQueue s) = true -> fill_window s = s.
Proof. intros Hf. unfold fill_window. rewrite Hf. by destruct (_finAcked _). Qed.

(** [y] while it takes [x]'s segments, [segs] left; [n] and [f] are what [x] has sent. *)
Record y_taking (n : Z) (f : bool) (sending : Prop) segs c : Prop := mk_y_taking {
  yt_cover : cover D cap isnx (_receiver c) segs n f;
  yt_replies : sending -> segments_out c <> [] \/ Exists countable segs;
  yt_settles : settles segs (_sender c);
  yt_ready : y_ready c }.

(** [y] with [x]'s FIN: it waits for the end of TIME_WAIT, unless it is reset. *)
Record y_waits segs c : Prop := mk_y_waits {
  yw_syn : _synRecv (_receiver c) = true;
  yw_fin : receiver_FIN_recv c = true;
  yw_linger : _linger_after_streams_finish c = true;
  yw_wait : _time_wait c = true;
  yw_sent : _finSent (unAckQueue (_sender c)) = true;
  yw_settles : settles segs (_sender c);
  yw_count : 0 <= _consecutive_retransmissions (timer (_sender c)) <= 1 }.
Definition y_over segs c : Prop := Forall modest (segments_out c) /\ (_active c = true -> y_waits segs c).

Definition y_step (n : Z) (f : bool) (sending : Prop) segs c : Prop :=
  Forall plainly segs /\ _synRecv (_receiver c) = true /\
  (receiver_FIN_recv c = true /\ y_over segs c \/ y_taking n f sending segs c).

(** One segment for [y], which has sent FIN: its half of the connection. *)
Lemma y_heard g g' a E m ed sent rd seg segs c c' s2 (b : bool) :
  shaped seg c c' s2 b -> conn_session isny isnx D cfg [] true sent rd c -> steady isny isnx D cap [] g g' a E c ->
  arrives isny isnx D g g' m ed seg c -> _synRecv (_receiver c) = true ->
  _finSent (unAckQueue (_sender c)) = true -> 0 <= _consecutive_retransmissions (timer (_sender c)) <= 1 ->
  settles (seg :: segs) (_sender c) ->
  _sender c' = s2 /\ _finSent (unAckQueue s2) = true /\ 0 <= _consecutive_retransmissions (timer s2) <= 1 /\
  (exists new, segments_out c' = segments_out c ++ new /\ Forall prompt new) /\ settles segs s2.
Proof.
  intros Sh Hse St Ar Hsy Hf Hc Hset. destruct (shaped_receiver _ _ _ _ _ Sh) as [Hsy' _].
  destruct (session_outbound isny isnx D cfg _ _ _ _ _ ltac:(lia) ltac:(lia) ltac:(lia)
    (eq_refl : zlen (@nil byte) < LIMIT) Hse) as [_ Hq].
  pose proof St as [(fi & I & Hw) Hi HP _ _ _]. pose proof Ar as [_ _ W Ha _].
  pose proof (sp_heard _ _ _ _ _ Sh) as Hh. pose proof (heard_queue _ _ _ Hh) as Hq2.
  change (TCPSender._segments_out (_sender c)) with (segQueueFromSender c) in Hq2. rewrite Hq in Hq2.
  destruct (heard_fin g fi (_sender c) seg s2 segs m I ltac:(by rewrite Hw) HP Hi W) as (Hf2 & Hc2 & Hset2); try done.
  { intros Hka. destruct (Ha Hka) as [[? ?] _]. done. }
  destruct (sp_sends _ _ _ _ _ Sh) as (Es & _ & segs' & Eo & Hmade & _).
  assert (E3 : (if b then fill_window s2 else s2) = s2) by (destruct b; [by apply fill_window_fin|done]).
  rewrite E3 in Es, Hmade. rewrite silent_eq in Es by done. split; [done|]. split; [done|]. split; [done|]. split; [|auto].
  assert (Hn : next_seqno (_sender c) = wrap 2 isny).
  { unfold next_seqno. rewrite Hi. f_equal. pose proof (qi_next _ _ (se_queue _ _ I)) as Hn.
    pose proof (ref_popped _ _ (se_stream _ _ I)) as Hp. rewrite Hw in Hp. change (zlen []) with 0 in Hp.
    rewrite Hf, (pc_syn _ _ (proj1 HP)) in Hn. cbn [b2n] in Hn. lia. }
  assert (Hn2 : next_seqno s2 = wrap 2 isny).
  { rewrite <- Hn. unfold heard in Hh. destruct (syn _); [by subst|]. destruct (ack _); [|by subst]. by eapply ack_received_next. }
  exists segs'. split; [done|]. eapply Forall_impl; [exact Hmade|].
  intros sg [Hb|[Hb|(sg0 & Hin & _)]]; [eapply blank_prompt; [|exact Hn|exact Hb]; auto|eapply blank_prompt; [|exact Hn2|exact Hb]; auto|].
  rewrite Hq2 in Hin. by apply elem_of_nil in Hin.
Qed.

Lemma y_over_stepped seg segs c c' sent rd g g' a E m ed :
  segment_received seg c = Ok c' -> conn_session isny isnx D cfg [] true sent rd c ->
  steady isny isnx D cap [] g g' a E c -> arrives isny isnx D g g' m ed seg c ->
  y_over (seg :: segs) c -> y_over segs c' /\ exists new, segments_out c' = segments_out c ++ new /\ Forall prompt new.
Proof.
  intros Ec Hse St Ar [Ho HY].
  assert (Hsame : segments_out c' = segments_out c -> _active c' = false ->
    y_over segs c' /\ exists new, segments_out c' = segments_out c ++ new /\ Forall prompt new).
  { intros E1 E2. split; [split; [by rewrite E1|congruence]|]. exists []. by rewrite app_nil_r. }
  destruct (_active c) eqn:Hac.
  2: { unfold segment_received in Ec. rewrite Hac in Ec. apply Ok_inj in Ec as <-. by apply Hsame. }
  destruct (HY eq_refl) as [Hsy Hf Hli Hw Hs Hset Hc].
  destruct (session_outbound isny isnx D cfg _ _ _ _ _ ltac:(lia) ltac:(lia) ltac:(lia)
    (eq_refl : zlen (@nil byte) < LIMIT) Hse) as [_ Hq].
  destruct (segment_received_cases seg c c' Ec Hac Hq Hsy) as [_ [[_ ->]|(s2 & b & Sh)]]; [by apply Hsame|]. clear Hsame.
  destruct (shaped_receiver _ _ _ _ _ Sh) as [Hsy' Hfr].
  destruct (y_heard g g' a E m ed sent rd seg segs c c' s2 b) as (Es & Hf2 & Hc2 & (new & Eo & Hnew) & Hset2); try done.
  destruct (sp_flags _ _ _ _ _ Sh (or_introl Hf)) as [Hl Ht]. split; [|by exists new].
  split; [rewrite Eo; apply Forall_app; split; [done|by apply prompt_modest]|]. intros _.
  split; rewrite ?Es; try done; try congruence; auto.
Qed.

Lemma y_stepped n f sending seg segs c c' sent rd g g' a E m ed :
  segment_received seg c = Ok c' -> conn_session isny isnx D cfg [] true sent rd c ->
  steady isny isnx D cap [] g g' a E c -> arrives isny isnx D g g' m ed seg c ->
  y_step n f sending (seg :: segs) c -> y_step n f sending segs c'.
Proof.
  intros Ec Hse St Ar (HF & Hsy & HY). apply Forall_cons in HF as [Hr HF]. split; [done|].
  destruct (session_outbound isny isnx D cfg _ _ _ _ _ ltac:(lia) ltac:(lia) ltac:(lia)
    (eq_refl : zlen (@nil byte) < LIMIT) Hse) as [_ Hq].
  destruct HY as [[Hfc HY]|[HC Hrep Hset [Ya Ys Yo Yf Yl Yw Yc Yout]]].
  { destruct (_active c) eqn:Hac.
    - destruct (segment_received_shaped seg c c' Ec Hac Hq Hsy Hr) as (_ & s2 & b & Sh).
      destruct (shaped_receiver _ _ _ _ _ Sh) as [Hsy' Hfr]. split; [auto|left]. split; [auto|].
      apply (y_over_stepped seg segs c c' sent rd g g' a E m ed Ec Hse St Ar HY).
    - unfold segment_received in Ec. rewrite Hac in Ec. apply Ok_inj in Ec as <-. split; [done|left]. split; [done|].
      split; [apply HY|congruence]. }
  destruct (segment_received_shaped seg c c' Ec Ya Hq Hsy Hr) as (_ & s2 & b & Sh).
  destruct (shaped_receiver _ _ _ _ _ Sh) as [Hsy' Hfr]. split; [auto|].
  destruct (y_heard g g' a E m ed sent rd seg segs c c' s2 b) as (Es & Hf2 & Hc2 & (new & Eo & Hnew) & Hset2); try done.
  assert (Ho2 : Forall modest (segments_out c')) by (rewrite Eo; apply Forall_app; split; [done|by apply prompt_modest]).
  pose proof Ar as [A M W Ha Hk]. destruct (receiver_FIN_recv c') eqn:Hfc; [left|right].
  - split; [done|]. split; [done|]. intros _.
    assert (Hcl : closing true c c').
    { destruct (sp_closing _ _ _ _ _ Sh Yo Hfc) as [Hoo|Hcl]; [|by rewrite Es, Hf2 in Hcl]. exfalso.
      destruct HC as (out & ps & e & I & _). unfold out_of_order, ackno in Hoo. rewrite Ys in Hoo.
      apply andb_true_iff in Hoo as [[Hne Hlen]%andb_true_iff Hsyn%negb_true_iff].
      destruct (sp_receiver _ _ _ _ _ Sh) as [Er|[Er _]]; [|unfold receiver_FIN_recv in *; congruence].
      assert (Hopen : input_ended (stream_out (_receiver c')) = false).
      { eapply (out_of_order_open D cap isnx cap_range short isnx_valid g'); try done; [lia|].
        intros Heq. unfold WrappingIntegers.neqb in Hne. rewrite Heq in Hne. by rewrite (proj2 (eqb_spec _ _)) in Hne. }
      unfold receiver_FIN_recv in Hfc. congruence. }
    destruct Hcl as [Hl Ht]. split; rewrite ?Es; try done; [auto|congruence].
  - assert (Hfl : _time_wait c' = false /\ _linger_after_streams_finish c' = true).
    { destruct (sp_flags _ _ _ _ _ Sh (or_intror Hfc)) as [-> ->]. done. }
    split.
    + eapply (cover_segment D cap isnx cap_range short isnx_valid g'); try done.
      destruct (sp_receiver _ _ _ _ _ Sh) as [?|[? [?|[?|?]]]]; [by left|right; split; [done|by left]
        |right; split; [done|by right]|congruence].
    + intros Hsd. destruct (Hrep Hsd) as [Ho|Hx].
      * left. rewrite Eo. intros [? _]%app_eq_nil. done.
      * apply Exists_cons in Hx as [[Hs Hlen]|Hx]; [|by right]. left. by eapply sp_replies.
    + by rewrite Es.
    + split; rewrite ?Es; try done; [by apply (sp_active _ _ _ _ _ Sh)|auto|apply Hfl|apply Hfl].
Qed.

(** The window is full or there is nothing left to send. *)
Definition filled s : Prop := remainSpace s = 0 \/ hasContentToPush s = false.

(** [x] has [y]'s FIN and has not sent its own. *)
Record x_ready c : Prop := mk_x_ready {
  xr_active : _active c = true;
  xr_fin : receiver_FIN_recv c = true;
  xr_linger : _linger_after_streams_finish c = false;
  xr_wait : _time_wait c = false;
  xr_acked : _synAcked (unAckQueue (_sender c)) = true;
  xr_open : _finSent (unAckQueue (_sender c)) = false;
  xr_filled : filled (_sender c);
  xr_room : 0 < ByteStream._capacity (_stream (_sender c));
  xr_clock : clock_ok (timer (_sender c));
  xr_count : retries c <= MAX_RETX_ATTEMPTS;
  xr_guard : guarded (_sender c) }.

(** [x] has sent FIN after it had [y]'s: it is done when FIN is acknowledged, or waits for the end of
    TIME_WAIT. *)
Record x_done c : Prop := mk_x_done {
  xd_sent : _finSent (unAckQueue (_sender c)) = true;
  xd_fin : receiver_FIN_recv c = true;
  xd_ends : _active c = true ->
    _time_wait c = true \/ _linger_after_streams_finish c = false /\ _finAcked (unAckQueue (_sender c)) = false;
  xd_guard : _active c = true -> _finAcked (unAckQueue (_sender c)) = false -> _isTimerRunning (timer (_sender c)) = true;
  xd_clock : _finAcked (unAckQueue (_sender c)) = false -> clock_ok (timer (_sender c));
  xd_count : _active c = true -> retries c <= MAX_RETX_ATTEMPTS }.

(** From [c] to [c'] by segments and input. *)
Record advances c c' : Prop := mk_advances {
  ad_moved : moved (_sender c) (_sender c');
  ad_out : exists segs, segments_out c' = segments_out c ++ segs /\ Forall plainly segs /\
    delivers isnx (unAckQueue (_sender c)) (unAckQueue (_sender c')) segs }.

Lemma advances_refl c : advances c c.
Proof. split; [apply moved_refl|]. exists []. rewrite app_nil_r. split; [done|]. split; [done|apply delivers_none]. Qed.

Lemma advances_trans c1 c2 c3 : advances c1 c2 -> advances c2 c3 -> advances c1 c3.
Proof.
  intros [m1 (l1 & o1 & p1 & d1)] [m2 (l2 & o2 & p2 & d2)]. split; [by eapply moved_trans|].
  exists (l1 ++ l2). rewrite o2, o1, app_assoc. split; [done|]. split; [by apply Forall_app|by eapply delivers_trans].
Qed.

(** Everything but the window of a sender that may send: [x_ready], or FIN is sent. *)
Lemma fill_ready s f g :
  sender_inv s f -> pacing g s -> zlen (hist f) < 0x7fffffff -> TCPSender._segments_out s = [] ->
  _synAcked (unAckQueue s) = true -> clock_ok (timer s) -> guarded s ->
  let s' := fill_window s in
  moved s s' /\ Forall plain (TCPSender._segments_out s') /\
  delivers (TCPSender._isn s) (unAckQueue s) (unAckQueue s') (TCPSender._segments_out s') /\
  _synAcked (unAckQueue s') = true /\ filled s' /\ clock_ok (timer s') /\ guarded s' /\
  ByteStream._capacity (_stream s') = ByteStream._capacity (_stream s) /\ same_conn s s' /\
  (_finSent (unAckQueue s) = false -> _finSent (unAckQueue s') = true -> _isTimerRunning (timer s') = true).
Proof.
  intros I P Hl Ho Ha K G s'. pose proof (pc_syn _ _ (proj1 P)) as Hs.
  destruct (fill_window_moved s) as [M G']. destruct (fill_window_delivers s f I Hs Ha Hl) as (segs & O & Dl).
  rewrite Ho in O. cbn [app] in O. fold s' in O. destruct (fill_window_sends s f I) as (f' & segs' & Sn & X).
  split; [exact M|]. split; [apply fill_window_plain; rewrite Ho; constructor|]. split; [rewrite O; exact Dl|].
  destruct Sn as (I' & (_ & _ & Hbd & _) & _ & _ & C & _). pose proof C as (_ & _ & _ & Ha' & _).
  split; [unfold s'; congruence|]. split; [exact (X Hs Ha)|]. split; [by apply (mv_clock _ _ M)|]. split; [by apply G'|].
  split; [unfold s'; rewrite (ref_cap _ _ (se_stream _ _ I')), (ref_cap _ _ (se_stream _ _ I)); done|]. split; [exact C|].
  intros Hf Hf'. destruct (fill_window_pushed s) as (_ & _ & [[_ Hn]|Ht]); [|unfold s'; rewrite Ht; apply started_running].
  destruct Dl as (Hd & _). unfold s' in Hf'. unfold sent_bytes in Hd. rewrite Hf, Hf', Hn in Hd. cbn [b2n] in Hd. clear -Hd. lia.
Qed.

(** [x] while it takes [y]'s segments, [segs] left; [A] is what they acknowledge at least. *)
Record x_taking (x0 : TCPConnection) (A : Z) (replied : Prop) segs c : Prop := mk_x_taking {
  xt_advances : advances x0 c;
  xt_syn : _synRecv (_receiver c) = true;
  xt_segs : Forall modest segs;
  xt_state : x_done c \/ x_ready c /\ (replied -> A <= _baseSqn (unAckQueue (_sender c)) \/ segs <> []) }.

(** [x] has all of [y]'s stream, FIN. *)
Lemma x_ackno w g g' c :
  steady isnx isny [] cap w g g' 0 0 c -> _active c = true -> _synRecv (_receiver c) = true ->
  receiver_FIN_recv c = true -> ackno (_receiver c) = Some (wrap 2 isny).
Proof.
  intros [_ _ _ _ _ (r & [Er|[? _]] & G & _)] Ha Hs Hf; [|congruence]. unfold receiver_FIN_recv in Hf. rewrite Er in Hs, Hf |- *.
  destruct (peer_sizes isny [] cap cap_range nil_short g' r G) as (Hr & _).
  destruct (peer_good isny [] cap cap_range nil_short g' r G) as [_ Hn].
  unfold ackno in *. rewrite Hs in *. rewrite (Hn _ eq_refl). unfold acked. rewrite Hf. change (zlen []) with 0 in Hr.
  cbn [b2n]. do 2 f_equal. lia.
Qed.

(** An acknowledgment by a modest segment. *)
Lemma x_heard w g g' n ed e sent seg c c' s2 (b : bool) :
  shaped seg c c' s2 b -> zlen w < 0x7fffffff -> conn_session isnx isny [] cfg w e sent [] c ->
  steady isnx isny [] cap w g g' 0 0 c -> arrives isnx isny [] g g' n ed seg c -> modest seg ->
  exists fi, hist fi = w /\ moved (_sender c) s2 /\ (guarded (_sender c) -> guarded s2) /\
    _finSent (unAckQueue s2) = _finSent (unAckQueue (_sender c)) /\
    sent_bytes (unAckQueue s2) = sent_bytes (unAckQueue (_sender c)) /\
    _synAcked (unAckQueue s2) = true /\ _baseSqn (unAckQueue s2) = Z.max n (_baseSqn (unAckQueue (_sender c))) /\
    sender_inv s2 fi /\ pacing g s2 /\ TCPSender._isn s2 = isnx /\ _stream s2 = _stream (_sender c) /\
    TCPSender._segments_out s2 = [] /\ 0 < n /\
    (_finAcked (unAckQueue (_sender c)) = true \/ TCPHeader.ackno (_header seg) = wrap 1 isnx /\ 1 <= base c ->
      _finAcked (unAckQueue s2) = _finAcked (unAckQueue (_sender c))) /\
    ((_finAcked (unAckQueue (_sender c)) = false -> _isTimerRunning (timer (_sender c)) = true) ->
      _finSent (unAckQueue s2) = true -> _finAcked (unAckQueue s2) = false -> _isTimerRunning (timer s2) = true).
Proof.
  intros Sh Hl Hse St Ar (Hk & Hs & _)%modest_replyable.
  destruct (session_outbound isnx isny [] cfg w e sent [] c ltac:(lia) ltac:(cbn; lia) ltac:(lia)
    ltac:(unfold LIMIT; lia) Hse) as [_ Hq].
  pose proof St as [(fi & I & Hw) Hi HP _ _ _]. pose proof Ar as [_ _ W Ha _].
  destruct (Ha Hk) as [[Hn G] _]. pose proof (sp_heard _ _ _ _ _ Sh) as Hh. pose proof (heard_queue _ _ _ Hh) as Hq2.
  change (TCPSender._segments_out (_sender c)) with (segQueueFromSender c) in Hq2. rewrite Hq in Hq2.
  unfold heard in Hh. rewrite Hs, Hk, Hn, <- Hi in Hh.
  destruct (ack_received_moved _ fi g n _ s2 I HP G ltac:(by rewrite Hw) W Hh)
    as (M & G2 & Hf2 & Hs2 & Ha2 & Hb2 & I2 & HP2).
  destruct (ack_received_guard _ fi g n _ s2 I HP G ltac:(by rewrite Hw) W Hh) as [Hfa Hrun].
  destruct (ack_received_spec _ fi _ n _ I (good_ack_ok _ fi g n I (proj1 HP) G ltac:(by rewrite Hw)) W)
    as (s3 & E3 & _ & _ & Hi3 & Hst3 & _). rewrite Hh in E3. apply Ok_inj in E3 as <-.
  pose proof (good_pos fi g _ n (se_queue _ _ I) (proj1 HP) G) as Hpos.
  exists fi. split_and!; try done; [congruence|lia|]. intros [H1|[H1 Hb1]]; apply Hfa; [by left|right].
  rewrite Hn in H1. apply wrap_eq_iff in H1. destruct (in_flight_eq _ _ I) as [_ Hnx].
  pose proof (ref_popped _ _ (se_stream _ _ I)) as Hp. rewrite Hw in Hp.
  pose proof (qi_next _ _ (se_queue _ _ I)) as Hqn. rewrite (pc_syn _ _ (proj1 HP)) in Hqn.
  pose proof (b2n_range (_finSent (unAckQueue (_sender c)))). cbn [b2n] in Hqn. unfold LIMIT in *.
  assert (n = 1) as -> by ulia. exact Hb1.
Qed.

Lemma x_done_stepped seg c c' w e sent g g' n ed :
  segment_received seg c = Ok c' -> zlen w < 0x7fffffff -> conn_session isnx isny [] cfg w e sent [] c ->
  steady isnx isny [] cap w g g' 0 0 c -> arrives isnx isny [] g g' n ed seg c ->
  _synRecv (_receiver c) = true -> 1 <= base c -> modest seg -> x_done c ->
  x_done c' /\ advances c c' /\ _synRecv (_receiver c') = true /\ (_active c = false -> c' = c) /\
  (_finAcked (unAckQueue (_sender c)) = true -> _finAcked (unAckQueue (_sender c')) = true) /\
  (prompt seg -> segments_out c' = segments_out c).
Proof.
  intros Ec Hl Hse St Ar Hsy Hb Hm X. destruct (_active c) eqn:Hac.
  2: { unfold segment_received in Ec. rewrite Hac in Ec. apply Ok_inj in Ec as <-. split_and!; try done. apply advances_refl. }
  destruct (session_outbound isnx isny [] cfg w e sent [] c ltac:(lia) ltac:(cbn; lia) ltac:(lia)
    ltac:(unfold LIMIT; lia) Hse) as [_ Hq].
  pose proof (modest_replyable _ Hm) as (Hk & Hs & Hr).
  destruct (segment_received_shaped seg c c' Ec Hac Hq Hsy Hr) as (_ & s2 & b & Sh).
  destruct (shaped_receiver _ _ _ _ _ Sh) as [Hsy' Hfr].
  destruct (x_heard w g g' n ed e sent seg c c' s2 b Sh Hl Hse St Ar Hm)
    as (fi & Hw & M & _ & Hf2 & Hs2 & Ha2 & Hb2 & I2 & HP2 & Hi2 & Hst2 & Hq2 & _ & Hfa & Hrun).
  destruct (sp_sends _ _ _ _ _ Sh) as (Es & _ & segs' & Eo & Hmade & Hall).
  pose proof X as [Xs Xf Xe Xg Xc Xn].
  assert (E4 : fill_window s2 = s2) by (apply fill_window_fin; congruence).
  assert (E3 : (if b then fill_window s2 else s2) = s2) by (destruct b; done).
  rewrite E3 in Es, Hmade. rewrite silent_eq in Es by done.
  assert (Hfalse : _finAcked (unAckQueue s2) = false -> _finAcked (unAckQueue (_sender c)) = false).
  { intros H1. destruct (_finAcked (unAckQueue (_sender c))) eqn:E; [|done]. rewrite Hfa in H1 by by left. done. }
  assert (Hord : seqno (_header seg) = wrap 2 isny -> out_of_order seg c = false).
  { intros H1. unfold out_of_order. rewrite (x_ackno w g g' c St Hac Hsy Xf), H1.
    unfold WrappingIntegers.neqb. by rewrite (proj2 (eqb_spec _ _)). }
  split; [|split; [|split; [auto|split; [congruence|split; [intros H1; rewrite Es, Hfa; [done|by left]|]]]]].
  - destruct (sp_flags _ _ _ _ _ Sh (or_introl Xf)) as [Hl1 Hl2]. split; rewrite ?Es; try congruence; [auto| | | |].
    + rewrite Hl1, Hl2. intros Ha'. destruct (Xe Hac) as [?|[Hli Hna]]; [by left|right]. split; [done|].
      destruct (_finAcked (unAckQueue s2)) eqn:Hfa2; [exfalso|done].
      destruct (out_of_order seg c) eqn:Hoo.
      * destruct Hm as [(_ & H1 & _)|[_ H1]]; [specialize (Hord H1); congruence|]. pose proof (Hfa (or_intror (conj H1 Hb))). congruence.
      * rewrite (sp_over _ _ _ _ _ Sh Xf Hoo Hs Hk Hli Hfa2) in Ha'. done.
    + intros _ H1. apply Hrun; [auto|congruence|done].
    + intros H1. apply (mv_clock _ _ M), Xc. auto.
    + intros _. specialize (Xn Hac). by eapply moved_few.
  - split; [rewrite Es; exact M|]. exists segs'. split; [done|]. split.
    + eapply Forall_impl; [exact Hmade|]. intros sg. apply made_plainly. rewrite Hq2. constructor.
    + rewrite Es. apply (stamp_delivers _ _ _ (_receiver c) []); [by apply delivers_same|constructor].
  - intros (_ & H1 & H2). apply (sp_mute _ _ _ _ _ Sh); [done|by apply Hord| |by rewrite E4].
    pose proof Ar as [A _ _ _ _]. destruct A as [(_ & _ & ?)|(i & ? & ? & _ & Hmax & _)]; [done|].
    unfold MAX_PAYLOAD_SIZE in Hmax. rewrite length_data in H2 by (done || lia).
    destruct (fin _); [cbn [b2n] in H2; lia|done].
Qed.

Lemma x_stepped x0 A replied seg segs c c' w e sent g g' n ed :
  segment_received seg c = Ok c' -> zlen w < 0x7fffffff -> conn_session isnx isny [] cfg w e sent [] c ->
  steady isnx isny [] cap w g g' 0 0 c -> arrives isnx isny [] g g' n ed seg c ->
  (ack (_header seg) = true -> A <= n) -> 1 <= base x0 ->
  x_taking x0 A replied (seg :: segs) c -> x_taking x0 A replied segs c'.
Proof.
  intros Ec Hl Hse St Ar HA Hb0 [Adv Hsy HF HX]. apply Forall_cons in HF as [Hm HF].
  assert (Hb : 1 <= base c) by (pose proof (mv_base _ _ (ad_moved _ _ Adv)); lia).
  destruct HX as [X|[X HXA]].
  { destruct (x_done_stepped seg c c' w e sent g g' n ed Ec Hl Hse St Ar Hsy Hb Hm X) as (X' & Adv' & Hsy' & _).
    split; [by eapply advances_trans|done|done|by left]. }
  pose proof X as [Xa Xf Xl Xw Xk Xo Xfi Xr Xc Xn Xg]. pose proof (modest_replyable _ Hm) as (Hk & Hs & Hr).
  destruct (session_outbound isnx isny [] cfg w e sent [] c ltac:(lia) ltac:(cbn; lia) ltac:(lia)
    ltac:(unfold LIMIT; lia) Hse) as [_ Hq].
  destruct (segment_received_shaped seg c c' Ec Xa Hq Hsy Hr) as (_ & s2 & b & Sh).
  destruct (shaped_receiver _ _ _ _ _ Sh) as [Hsy' Hfr].
  destruct (x_heard w g g' n ed e sent seg c c' s2 b Sh Hl Hse St Ar Hm)
    as (fi & Hw & M & G2 & Hf2 & Hs2 & Ha2 & Hb2 & I2 & HP2 & Hi2 & Hst2 & Hq2 & _).
  destruct (sp_sends _ _ _ _ _ Sh) as (Es & _ & segs' & Eo & Hmade & Hall).
  assert (Hnf : finAcked s2 = false).
  { unfold finAcked. destruct (_finAcked (unAckQueue s2)) eqn:E; [|done].
    destruct (qi_finAcked _ _ (se_queue _ _ I2) E). congruence. }
  destruct (sp_fills _ _ _ _ _ Sh Hs Hk (fun _ => conj Xl Hnf)) as [-> Hac'].
  destruct (fill_ready s2 fi g I2 HP2 ltac:(by rewrite Hw) Hq2 Ha2 (mv_clock _ _ M Xc) (G2 Xg))
    as (M3 & Hpl & D3 & Ha3 & F3 & K3 & G3 & R3 & C3 & N3).
  assert (M4 : moved (_sender c) (_sender c')).
  { rewrite Es. eapply moved_trans; [exact M|]. eapply moved_trans; [exact M3|]. by apply moved_core. }
  assert (Hn4 : retries c' <= MAX_RETX_ATTEMPTS) by by eapply moved_few.
  destruct (sp_flags _ _ _ _ _ Sh (or_introl Xf)) as [Hfl1 Hfl2]. split; [|auto|done|].
  - eapply advances_trans; [exact Adv|]. split; [exact M4|]. exists segs'. split; [done|]. split.
    + eapply Forall_impl; [exact Hmade|]. intros sg. by apply made_plainly.
    + rewrite Es. rewrite Hi2 in D3. eapply stamp_delivers; [|exact Hall].
      apply (delivers_trans _ _ _ _ [] _ (delivers_same isnx _ _ Hs2 Hf2) D3).
  - destruct (_finSent (unAckQueue (_sender c'))) eqn:Hf'; [left|right].
    + rewrite Es in Hf', Hn4. split; rewrite ?Es; try done; [auto| |].
      * intros _. right. split; [congruence|]. destruct C3 as (_ & _ & _ & _ & Hc5).
        change (_finAcked (unAckQueue (fill_window s2)) = false). by rewrite Hc5.
      * intros _ _. apply N3; [congruence|exact Hf'].
    + split.
      * split; try congruence; try (rewrite Es; done); [auto|]. rewrite Es.
        change (_stream (silent (fill_window s2))) with (_stream (fill_window s2)). by rewrite R3, Hst2.
      * intros _. left. pose proof (mv_base _ _ M3) as Hb3. rewrite Es.
        change (unAckQueue (silent (fill_window s2))) with (unAckQueue (fill_window s2)). specialize (HA Hk). lia.
Qed.

(** ** The clock *)

(** Time goes by, and TIME_WAIT with it. *)
Definition aged n c c' : Prop :=
  _time_since_last_segment_received c' = u64 (_time_since_last_segment_received c + n) /\
  (_time_wait c = true -> _active c' = true -> _time_since_last_segment_received c' < 10 * rt_timeout (_cfg c)).

(** A tick of a connection that is far from giving up. *)
Lemma tick_eq n c s :
  _active c = true -> TCPSender.tick n (_sender c) = Ok s -> consecutive_retransmissions s <= MAX_RETX_ATTEMPTS ->
  exists c', tick n c = Ok c' /\ _sender c' = silent s /\ _receiver c' = _receiver c /\
    segments_out c' = segments_out c ++ (stamp (_receiver c) <$> TCPSender._segments_out s) /\ same_flags c c' /\
    (_time_wait c = false -> _active c' = true) /\ aged n c c'.
Proof.
  intros Ha E Hc. unfold tick. rewrite Ha. cbn [negb _sender upd eta eta_TCPConnection].
  set (c0 := c <| _time_since_last_segment_received := u64 (_time_since_last_segment_received c + n) |>). change (_sender c0) with (_sender c). rewrite E.
  cbn [mbind outcome_bind]. set (c1 := updateOutput _). change (_sender c1) with (silent s).
  change (consecutive_retransmissions (silent s)) with (consecutive_retransmissions s).
  rewrite (proj2 (Z.ltb_ge _ _)) by done. change (_time_wait c1) with (_time_wait c).
  change (_cfg c1) with (_cfg c).
  change (_time_since_last_segment_received c1) with (u64 (_time_since_last_segment_received c + n)).
  destruct (_time_wait c) eqn:Ew; cbn [andb]; [destruct (Z.leb_spec (10 * rt_timeout (_cfg c)) (u64 (_time_since_last_segment_received c + n)))|];
    eexists; (split_and!; try done); (split; [done|]); intros; (congruence || done).
Qed.

Lemma stamp_countable r seg : syn (_header seg) = false -> 0 < zlen (str (_payload seg)) <= MAX_PAYLOAD_SIZE ->
  countable (stamp r seg).
Proof.
  intros Hs Hp. destruct (stamp_header r seg) as (Ep & Ey & _). split; [congruence|]. unfold MAX_PAYLOAD_SIZE in *.
  rewrite length_data; rewrite ?Ep; [|congruence|lia]. pose proof (b2n_range (fin (_header (stamp r seg)))). lia.
Qed.

(** A tick that gives up resets the connection. *)
Lemma tick_gives_up n c s c' :
  _active c = true -> TCPSender.tick n (_sender c) = Ok s -> MAX_RETX_ATTEMPTS < consecutive_retransmissions s ->
  tick n c = Ok c' ->
  _active c' = false /\ unAckQueue (_sender c') = unAckQueue s /\ timer (_sender c') = timer s /\
  _synRecv (_receiver c') = _synRecv (_receiver c) /\ receiver_FIN_recv c' = receiver_FIN_recv c /\ same_flags c c'.
Proof.
  intros Hac Es Hcs Et. unfold tick in Et. rewrite Hac in Et. cbn [negb _sender upd eta eta_TCPConnection] in Et.
  set (c0 := c <| _time_since_last_segment_received := u64 (_time_since_last_segment_received c + n) |>) in Et.
  change (_sender c0) with (_sender c) in Et. rewrite Es in Et. cbn [mbind outcome_bind] in Et. set (c1 := updateOutput _) in Et.
  change (consecutive_retransmissions (_sender c1)) with (consecutive_retransmissions s) in Et.
  rewrite (proj2 (Z.ltb_lt _ _)) in Et by lia. rewrite sendRSTSeg_eq in Et. cbn [mbind outcome_bind] in Et.
  injection Et as <-. done.
Qed.

(** What a tick keeps of [x]. *)
Section kept.
Variables c c' : TCPConnection.
Hypothesis same_queue : unAckQueue (_sender c') = unAckQueue (_sender c).
Hypothesis same_receiver : _receiver c' = _receiver c.
Hypothesis flags : same_flags c c'.
Hypothesis same_running : _isTimerRunning (timer (_sender c')) = _isTimerRunning (timer (_sender c)).
Hypothesis clock_kept : _finAcked (unAckQueue (_sender c)) = false -> clock_ok (timer (_sender c')).
Hypothesis few : retries c' <= MAX_RETX_ATTEMPTS.

Lemma x_done_kept : _active c = true -> x_done c -> x_done c'.
Proof.
  intros Ha [Xs Xf Xe Xg Xc Xn]. destruct flags as [Hf1 Hf2]. split.
  - by rewrite same_queue.
  - unfold receiver_FIN_recv in *. by rewrite same_receiver.
  - intros _. rewrite Hf1, Hf2, same_queue. by apply Xe.
  - intros _ Hn. rewrite same_queue in Hn. rewrite same_running. by apply Xg.
  - intros Hn. rewrite same_queue in Hn. by apply clock_kept.
  - done.
Qed.

Lemma x_ready_kept :
  _stream (_sender c') = _stream (_sender c) -> _active c' = true -> _finAcked (unAckQueue (_sender c)) = false ->
  x_ready c -> x_ready c'.
Proof.
  intros Est Ha Hnf [Xa Xf Xl Xw Xk Xo Xfi Xr Xc Xn Xg]. destruct flags as [Hf1 Hf2].
  split; try (by auto); try congruence.
  - unfold receiver_FIN_recv in *. by rewrite same_receiver.
  - unfold filled, remainSpace, hasContentToPush in *. by rewrite same_queue, Est.
  - intros Hf0 Hlt. rewrite same_running. rewrite same_queue in *. by apply Xg.
Qed.
End kept.

(** [x]'s tick. *)
Lemma x_ticked w e sent g g' c :
  zlen w < 0x7fffffff -> conn_session isnx isny [] cfg w e sent [] c -> steady isnx isny [] cap w g g' 0 0 c ->
  clock_ok (timer (_sender c)) -> _consecutive_retransmissions (timer (_sender c)) <= 2 ->
  exists c' segs, tick 1000 c = Ok c' /\ unAckQueue (_sender c') = unAckQueue (_sender c) /\
    _receiver c' = _receiver c /\ segments_out c' = segments_out c ++ segs /\ Forall plainly segs /\
    (x_done c -> x_done c') /\
    (x_ready c -> x_ready c' /\
      _consecutive_retransmissions (timer (_sender c')) <= _consecutive_retransmissions (timer (_sender c)) + 1 /\
      (_baseSqn (unAckQueue (_sender c)) < _next_seqno (unAckQueue (_sender c)) ->
       Exists countable segs \/
       _consecutive_retransmissions (timer (_sender c')) = _consecutive_retransmissions (timer (_sender c)) /\
       0 < time_left (_sender c') /\ time_left (_sender c') = time_left (_sender c) - 1000)).
Proof.
  intros Hl Hse St K Hc. destruct (_active c) eqn:Hac.
  2: { exists c, []. unfold tick. rewrite Hac, app_nil_r. split_and!; try done.
       intros X. pose proof (xr_active _ X). congruence. }
  destruct (session_outbound isnx isny [] cfg w e sent [] c ltac:(lia) ltac:(cbn; lia) ltac:(lia)
    ltac:(unfold LIMIT; lia) Hse) as [_ Hq].
  pose proof St as [(fi & I & Hw) Hi HP Hpl _ _].
  destruct (tick_spec 1000 (_sender c) fi I) as (s & _ & Es & (Is & _) & _).
  destruct (tick_clock _ fi g 1000 s I HP ltac:(lia) K ltac:(lia) Es) as ([Hqq Hst] & Hk & Hrun & _ & segs & Ho & Hcnt & Hold).
  unfold segQueueFromSender in Hq. rewrite Hq in Ho. cbn [app] in Ho.
  assert (Hcs : consecutive_retransmissions s <= MAX_RETX_ATTEMPTS).
  { unfold consecutive_retransmissions, MAX_RETX_ATTEMPTS. destruct (_finAcked _); lia. }
  destruct (tick_eq 1000 c s Hac Es Hcs) as (c' & -> & Es' & Er & Eo & [Hf1 Hf2] & Hact & _). rewrite Ho in Eo.
  assert (Hplain : Forall plain segs).
  { rewrite <- Ho. eapply tick_plain; [|exact Es]. exact Hpl. }
  exists c', (stamp (_receiver c) <$> segs). split_and!; try done; [by rewrite Es'| | |].
  { apply Forall_fmap. eapply Forall_impl; [exact Hplain|]. intros sg (_ & Hr & _). unfold plainly. cbn.
    by destruct (stamp_header (_receiver c) sg) as (_ & _ & _ & -> & _). }
  { apply x_done_kept; try done; by rewrite Es'. }
  intros X. pose proof X as [Xa Xf Xl Xw Xk Xo Xfi Xr Xc Xn Xg].
  assert (Hnf : _finAcked (unAckQueue (_sender c)) = false).
  { destruct (_finAcked (unAckQueue (_sender c))) eqn:E; [|done].
    destruct (qi_finAcked _ _ (se_queue _ _ I) E). congruence. }
  rewrite Hnf in *. split_and!.
  - apply (x_ready_kept c); try done; rewrite ?Es'; auto.
  - rewrite Es'. exact Hcnt.
  - intros Hlt. rewrite Es'. destruct (Hold Xk Xo Hlt (Xg Xo Hlt)) as [(seg & -> & Hp)|Ht]; [left|by right].
    pose proof (tick_syn 1000 _ s Xk Es Hq) as Hsy. rewrite Ho in Hsy. apply Forall_cons in Hsy as [Hsy _].
    cbn [fmap list_fmap]. by apply Exists_cons_hd, stamp_countable.
Qed.

(** [y]'s tick, its FIN acknowledged. *)
Lemma y_ticked sent rd g g' a E c :
  conn_session isny isnx D cfg [] true sent rd c -> steady isny isnx D cap [] g g' a E c ->
  y_ready c -> _finAcked (unAckQueue (_sender c)) = true ->
  exists c', tick 1000 c = Ok c' /\ unAckQueue (_sender c') = unAckQueue (_sender c) /\
    _receiver c' = _receiver c /\ segments_out c' = segments_out c /\ y_ready c'.
Proof.
  intros Hse St Y Hfa. pose proof Y as [Ya Ys Yo Yf Yl Yw Yc Yout].
  destruct (session_outbound isny isnx D cfg _ _ _ _ _ ltac:(lia) ltac:(lia) ltac:(lia)
    (eq_refl : zlen (@nil byte) < LIMIT) Hse) as [_ Hq].
  pose proof St as [(fi & I & Hw) Hi HP _ _ _].
  unfold segQueueFromSender in Hq. destruct (acked_tick (_sender c) fi g 1000 I HP Hq Hfa) as (s & Es & Ho & Hqq & Hc).
  assert (Hcs : consecutive_retransmissions s <= MAX_RETX_ATTEMPTS).
  { unfold consecutive_retransmissions, MAX_RETX_ATTEMPTS. lia. }
  destruct (tick_eq 1000 c s Ya Es Hcs) as (c' & E1 & Es' & Er & Eo & [Hf1 Hf2] & Hact & _). rewrite Ho, app_nil_r in Eo.
  exists c'. split; [exact E1|]. split; [by rewrite Es'|]. split; [done|]. split; [done|].
  split; rewrite ?Es', ?Er; try done; try (by auto); try congruence.
  - unfold receiver_FIN_recv. by rewrite Er.
  - change (_finSent (unAckQueue s) = true). congruence.
  - change (timer (silent s)) with (timer s). lia.
Qed.

(** The same in TIME_WAIT. *)
Lemma y_over_ticked sent rd g g' a E c c' :
  conn_session isny isnx D cfg [] true sent rd c -> steady isny isnx D cap [] g g' a E c ->
  y_over [] c -> segments_out c = [] -> tick 1000 c = Ok c' ->
  y_over [] c' /\ segments_out c' = [] /\
  (_active c' = true -> _active c = true /\ _time_wait c = true /\ aged 1000 c c') /\ (_active c = false -> c' = c).
Proof.
  intros Hse St HY Hout Et. destruct (_active c) eqn:Hac.
  2: { unfold tick in Et. rewrite Hac in Et. injection Et as <-. split_and!; try done. congruence. }
  pose proof HY as [_ HY2]. destruct (HY2 Hac) as [Ys Yf Yl Yw Yfi Yse Yc].
  assert (Hfa : _finAcked (unAckQueue (_sender c)) = true).
  { destruct Yse as [?|[_ Hx]]; [done|]. by apply Exists_nil in Hx. }
  destruct (session_outbound isny isnx D cfg _ _ _ _ _ ltac:(lia) ltac:(lia) ltac:(lia)
    (eq_refl : zlen (@nil byte) < LIMIT) Hse) as [_ Hq].
  pose proof St as [(fi & I & Hw) Hi HP _ _ _]. unfold segQueueFromSender in Hq.
  destruct (acked_tick (_sender c) fi g 1000 I HP Hq Hfa) as (s & Es & Ho & Hqq & Hc).
  assert (Hcs : consecutive_retransmissions s <= MAX_RETX_ATTEMPTS).
  { unfold consecutive_retransmissions, MAX_RETX_ATTEMPTS. lia. }
  destruct (tick_eq 1000 c s Hac Es Hcs) as (c2 & E1 & Es' & Er & Eo & [Hf1 Hf2] & _ & Hag). rewrite Et in E1.
  apply Ok_inj in E1 as <-. rewrite Ho, app_nil_r, Hout in Eo. split; [|done]. split; [by rewrite Eo|]. intros _.
  split; rewrite ?Es', ?Er; try done; try congruence.
  - unfold receiver_FIN_recv. by rewrite Er.
  - change (_finSent (unAckQueue s) = true). congruence.
  - left. change (_finAcked (unAckQueue s) = true). congruence.
  - change (timer (silent s)) with (timer s). lia.
Qed.

(** [x]'s, FIN sent: while FIN is not acknowledged, it sends something again or the timer comes closer, or
    it gives up. *)
Lemma x_done_ticked w e sent g g' c c' :
  zlen w < 0x7fffffff -> conn_session isnx isny [] cfg w e sent [] c -> steady isnx isny [] cap w g g' 0 0 c ->
  x_done c -> tick 1000 c = Ok c' ->
  x_done c' /\ _synRecv (_receiver c') = _synRecv (_receiver c) /\ base c' = base c /\
  _finAcked (unAckQueue (_sender c')) = _finAcked (unAckQueue (_sender c)) /\ (_active c = false -> c' = c) /\
  (_active c' = true -> _active c = true /\
    if _finAcked (unAckQueue (_sender c)) then segments_out c' = segments_out c /\ _time_wait c = true /\ aged 1000 c c'
    else retries c' = retries c + 1 \/
      retries c' = retries c /\ 0 < time_left (_sender c') /\ time_left (_sender c') = time_left (_sender c) - 1000).
Proof.
  intros Hl Hse St X Et. destruct (_active c) eqn:Hac.
  2: { unfold tick in Et. rewrite Hac in Et. injection Et as <-. split_and!; try done. congruence. }
  destruct (session_outbound isnx isny [] cfg w e sent [] c ltac:(lia) ltac:(cbn; lia) ltac:(lia)
    ltac:(unfold LIMIT; lia) Hse) as [_ Hq].
  pose proof St as [(fi & I & Hw) Hi HP Hpl _ _]. pose proof X as [Xs Xf Xe Xg Xc Xn]. specialize (Xe Hac). specialize (Xg Hac).
  specialize (Xn Hac). unfold segQueueFromSender in Hq.
  destruct (_finAcked (unAckQueue (_sender c))) eqn:Hfa.
  - destruct (acked_tick (_sender c) fi g 1000 I HP Hq Hfa) as (s & Es & Ho & Hqq & Hc).
    assert (Hcs : consecutive_retransmissions s <= MAX_RETX_ATTEMPTS) by (unfold consecutive_retransmissions; lia).
    destruct (tick_eq 1000 c s Hac Es Hcs) as (c2 & E1 & Es' & Er & Eo & [Hf1 Hf2] & _ & Hag). rewrite Et in E1.
    apply Ok_inj in E1 as <-. rewrite Ho, app_nil_r in Eo.
    assert (Htw : _time_wait c = true) by (destruct Xe as [?|[_ ?]]; [done|congruence]).
    assert (Hqs : unAckQueue (_sender c') = unAckQueue (_sender c)) by (rewrite Es'; exact Hqq).
    split_and!; try done; try (by rewrite Hqs || by rewrite Er).
    split.
    + by rewrite Hqs.
    + unfold receiver_FIN_recv in *. by rewrite Er.
    + intros _. left. by rewrite Hf2.
    + intros _. rewrite Hqs. congruence.
    + rewrite Hqs. congruence.
    + intros _. rewrite Es'. change (timer (silent s)) with (timer s). lia.
  - specialize (Xg eq_refl). specialize (Xc eq_refl). pose proof (ck_count _ Xc) as Hc0.
    destruct (tick_spec 1000 (_sender c) fi I) as (s & _ & Es & _).
    destruct (tick_clock _ fi g 1000 s I HP ltac:(lia) Xc ltac:(unfold MAX_RETX_ATTEMPTS in Xn; lia) Es)
      as ([Hqq Hst] & Hk & Hrun & Hnear & _). specialize (Hnear Hfa Xg). specialize (Hk Hfa).
    assert (Hdone : forall c', unAckQueue (_sender c') = unAckQueue (_sender c) -> timer (_sender c') = timer s ->
      input_ended (stream_out (_receiver c')) = true -> _time_wait c' = _time_wait c ->
      _linger_after_streams_finish c' = _linger_after_streams_finish c ->
      (_active c' = true -> consecutive_retransmissions s <= MAX_RETX_ATTEMPTS) -> x_done c').
    { intros c2 H1 H2 H3 H4 H5 H6. split; rewrite ?H1, ?H2; try done.
      - rewrite H4, H5. intros _. destruct Xe as [?|[? _]]; [by left|by right].
      - intros _ _. congruence. }
    destruct (Z_le_gt_dec (consecutive_retransmissions s) MAX_RETX_ATTEMPTS) as [Hcs|Hcs].
    + destruct (tick_eq 1000 c s Hac Es Hcs) as (c2 & E1 & Es' & Er & Eo & [Hf1 Hf2] & _). rewrite Et in E1. apply Ok_inj in E1 as <-.
      assert (Hqs : unAckQueue (_sender c') = unAckQueue (_sender c)) by (rewrite Es'; exact Hqq).
      split; [apply Hdone; try done; [by rewrite Es'|by rewrite Er]|]. rewrite Er, Hqs. split_and!; try done.
      intros _. split; [done|]. rewrite Es'. exact Hnear.
    + destruct (tick_gives_up 1000 c s c' Hac Es ltac:(lia) Et) as (Hac' & Eq & Ett & Ey & Efr & Hf1 & Hf2).
      split; [apply Hdone; try done; [congruence|by unfold receiver_FIN_recv in *; congruence|congruence]|]. rewrite Eq, Hqq.
      split_and!; try done. congruence.
Qed.

(** ** The output *)

Lemma acts_eof c c' : rtc act c c' -> eof (inbound_stream c') = eof (inbound_stream c).
Proof.
  induction 1 as [c|c c1 c2 A _ ->]; [done|]. unfold inbound_stream.
  destruct A as [| | | |c c' _ -> _ _| |c c' E]; try done. rewrite sendRSTSeg_eq in E. by injection E as <-.
Qed.

Lemma read_output_eof b :
  ByteStream.wf (inbound_stream (y b)) -> receiver_FIN_recv (y b) = true ->
  eof (inbound_stream (y (read_output b))) = true.
Proof.
  intros Hwf Hf. unfold read_output. destruct (Z.ltb_spec 0 (buffer_size (inbound_stream (y b)))) as [Hn|Hn].
  - destruct (bs_pop_output_buf (buffer_size (inbound_stream (y b))) _ Hwf ltac:(lia)) as [_ Hs].
    unfold eof. apply andb_true_iff. split; [|exact Hf]. apply Z.eqb_eq. etransitivity; [exact Hs|].
    unfold buffer_size. lia.
  - unfold eof. apply andb_true_iff. split; [|exact Hf]. apply Z.eqb_eq. pose proof (wf_size _ Hwf).
    unfold buffer_size in Hn. lia.
Qed.

(** ** Rounds

    What holds between two rounds once the connections are established.  [x] has sent FIN, or may
    still send; what it has sent and [y] has not is in its outbound segments. *)

Record lively (gx gy : progress) (E : Z) b : Prop := mk_lively {
  lv_inv : bench_inv cfg D isnx isny gx gy b;
  lv_drained : drained cfg b;
  lv_y : steady isny isnx D cap [] gy gx (reached b) E (y b);
  lv_within : within (reached b) E (_sender (x b));
  lv_ready : y_ready (y b);
  lv_settles : settles (segments_out (x b)) (_sender (y b));
  lv_cover : cover D cap isnx (_receiver (y b)) (segments_out (x b))
    (sent_bytes (unAckQueue (_sender (x b)))) (_finSent (unAckQueue (_sender (x b))));
  lv_plain : Forall plainly (segments_out (x b));
  lv_syn : _synRecv (_receiver (x b)) = true;
  lv_base : 1 <= base (x b);
  lv_state : x_done (x b) \/
    x_ready (x b) /\ retries (x b) <= 2 /\ (base (x b) = reached b -> retries (x b) <= 1) /\
    (Exists countable (segments_out (x b)) \/ retries (x b) <= 1) }.

Lemma order_in reorder segs seg : seg ∈ order reorder segs <-> seg ∈ segs.
Proof. unfold order. destruct reorder; [|done]. rewrite !list_elem_of_In. symmetry. apply in_rev. Qed.

Lemma order_Forall reorder (P : TCPSegment -> Prop) segs : Forall P segs -> Forall P (order reorder segs).
Proof. rewrite !Forall_forall. intros H seg Hin. by apply H, (order_in reorder). Qed.

Lemma order_Exists reorder (P : TCPSegment -> Prop) segs : Exists P segs -> Exists P (order reorder segs).
Proof. rewrite !Exists_exists. intros (seg & Hin & H). exists seg. by rewrite order_in. Qed.

(** What [x] has sent. *)
Abbreviation sent c := (sent_bytes (unAckQueue (_sender c))).
Abbreviation fin_sent c := (_finSent (unAckQueue (_sender c))).

Lemma exchange_lively reorder gx gy E b : lively gx gy E b ->
  exists cx cy gx' gy', receive_all (order reorder (segments_out (x b))) (y b) = Ok cy /\
    receive_all (segments_out cy) (drain (x b)) = Ok cx /\
    bench_inv cfg D isnx isny gx' gy' (b <| x := cx |> <| y := drain cy |>) /\
    steady isny isnx D cap [] gy' gx' (acked (_receiver cy)) (edge (_receiver cy)) (drain cy) /\
    within (acked (_receiver cy)) (edge (_receiver cy)) (_sender cx) /\
    y_step (sent (x b)) (fin_sent (x b)) (Exists countable (segments_out (x b))) [] cy /\
    x_taking (drain (x b)) (reached b) (segments_out cy <> []) [] cx.
Proof.
  intros [HI Hdr Sy Wi Y Hse HC Hpl Hsy Hb HX]. pose proof HI as [_ _ _ (senty & Hy & _) _].
  set (n := sent (x b)) in *. set (f := fin_sent (x b)) in *. set (sending := Exists countable (segments_out (x b))).
  destruct (exchange_with cfg D isnx isny ltac:(lia) ltac:(lia) short isnx_valid isny_valid reorder gx gy b
    (reached b) E (y_step n f sending)
    (fun cy segs c => x_taking (drain (x b)) (reached b) (segments_out cy <> []) segs c)
    HI Hdr Wi (ex_intro _ senty Hy) Sy) as (cx & cy & gx' & gy' & E1 & E2 & HI' & HP & HQ & Sy' & Wi').
  - intros. by eapply y_stepped.
  - intros cy seg segs c c' w s g g' k ed H1 H2 H3 H4 H5 H6. by eapply x_stepped.
  - split; [by apply order_Forall|]. split; [apply Y|]. right. split; [|intros Hs; right; by apply order_Exists| |done].
    + eapply cover_order; [|exact HC]. intros seg. apply order_in.
    + destruct Hse as [?|(? & ?)]; [by left|right]. split; [done|]. by apply order_Exists.
  - intros cy (_ & _ & HY). assert (Ho : Forall modest (segments_out cy)).
    { destruct HY as [(_ & ? & _)|[_ _ _ Yc]]; [done|apply Yc]. }
    split; [apply advances_refl|done|done|].
    destruct HX as [[Xs Xf Xe Xg Xc Xn]|[X _]]; [by left|right]. split; [by destruct X|]. intros Hn. by right.
  - exists cx, cy, gx', gy'. by split_and!.
Qed.

(** ** The input *)

(** [x] with a longer stream, or an ended one. *)
Lemma input_advances g f' c st :
  segQueueFromSender c = [] -> sender_inv ((_sender c) <| _stream := st |>) f' -> pacing g (_sender c) ->
  zlen (hist f') < 0x7fffffff -> TCPSender._isn (_sender c) = isnx ->
  ByteStream._capacity st = ByteStream._capacity (_stream (_sender c)) -> x_done c \/ x_ready c ->
  let c' := updateOutput (fill (on_sender_stream (fun _ => st) c)) in
  advances c c' /\ _receiver c' = _receiver c /\ (x_ready c -> x_done c' \/ x_ready c') /\
  (x_done c -> x_done c') /\
  base c' = base c /\ _win_size (unAckQueue (_sender c')) = _win_size (unAckQueue (_sender c)).
Proof.
  intros Hq I P Hl Hi Hcap HX c'. set (s := (_sender c) <| _stream := st |>) in *.
  set (c0 := on_sender_stream (fun _ => st) c) in *. assert (Es : _sender c' = silent (fill_window s)) by done.
  assert (Eo : segments_out c' = segments_out c ++ (stamp (_receiver c) <$> TCPSender._segments_out (fill_window s))) by done.
  assert (Hqs : TCPSender._segments_out s = []) by exact Hq.
  assert (Hall : Forall (fun sg => stamp (_receiver c) sg ∈ stamp (_receiver c) <$> TCPSender._segments_out (fill_window s))
    (TCPSender._segments_out (fill_window s))).
  { apply Forall_forall. intros sg Hin. by apply list_elem_of_fmap_2. }
  assert (Hpl : Forall plainly (stamp (_receiver c) <$> TCPSender._segments_out (fill_window s))).
  { apply Forall_fmap. eapply Forall_impl; [apply fill_window_plain; rewrite Hqs; constructor|].
    intros sg (_ & Hr & _). unfold plainly. cbn. by destruct (stamp_header (_receiver c) sg) as (_ & _ & _ & -> & _). }
  destruct (fin_sent c) eqn:Hf.
  - assert (E3 : fill_window s = s) by by apply fill_window_fin. rewrite E3 in Es. rewrite E3, Hqs in Eo, Hpl. rewrite Es.
    split; [|split_and!; try done].
    2: { intros X. pose proof (xr_open _ X). congruence. }
    2: { intros []. split; by rewrite ?Es. }
    split; [rewrite Es; by apply moved_core|].
    exists []. rewrite Eo, Es. split; [done|]. split; [done|by apply delivers_same].
  - destruct HX as [X|X]; [pose proof (xd_sent _ X); congruence|]. pose proof X as [Xa Xf Xl Xw Xk Xo Xfi Xr Xc Xn Xg].
    destruct (fill_ready s f' g I P Hl Hqs Xk Xc Xg) as (M & _ & Dl & Ha & F & K & G & R & C & N).
    split; [|split; [done|split; [|split; [intros Y; pose proof (xd_sent _ Y); congruence|rewrite Es; by destruct C as (_ & ? & ? & _)]]]].
    + split; [rewrite Es; eapply moved_trans; [|eapply moved_trans; [exact M|by apply moved_core]]; by apply moved_core|].
      eexists. split; [exact Eo|]. split; [done|]. rewrite Es. change (TCPSender._isn s) with (TCPSender._isn (_sender c)) in Dl.
      rewrite Hi in Dl. eapply stamp_delivers; [exact Dl|exact Hall].
    + intros _. assert (Hn' : retries c' <= MAX_RETX_ATTEMPTS) by (rewrite Es; exact (moved_few _ _ MAX_RETX_ATTEMPTS M ltac:(done) Xn)).
      destruct (fin_sent c') eqn:Hf'; [left|right].
      { rewrite Es in Hf'. split; rewrite ?Es in Hn' |- *; try done.
        - intros _. right. split; [done|]. destruct C as (_ & _ & _ & _ & Hc5).
          change (_finAcked (unAckQueue (fill_window s)) = false). rewrite Hc5.
          destruct (_finAcked (unAckQueue s)) eqn:Efa; [|done]. destruct (qi_finAcked _ _ (se_queue _ _ I) Efa).
          change (unAckQueue s) with (unAckQueue (_sender c)) in *. congruence.
        - intros _ _. apply N; [exact Hf|exact Hf']. }
      split; try done; try (rewrite Es; done).
      rewrite Es. change (_stream (silent (fill_window s))) with (_stream (fill_window s)). rewrite R.
      change (_stream s) with st. by rewrite Hcap.
Qed.

(** [x] of a benchmark, opened. *)
Lemma bench_x gx gy b : bench_inv cfg D isnx isny gx gy b ->
  exists w sent f, D = w ++ str (bytes_to_send b) /\ zlen w < 0x7fffffff /\ hist f = w /\ ended f = x_closed b /\
    sender_inv (_sender (x b)) f /\ pacing gx (_sender (x b)) /\ TCPSender._isn (_sender (x b)) = isnx /\
    segQueueFromSender (x b) = [] /\ conn_session isnx isny [] cfg w (x_closed b) sent [] (x b) /\
    steady isnx isny [] cap w gx gy 0 0 (x b).
Proof.
  intros [_ _ (w & sent & HD & Hs & St) _ _]. pose proof (prefix_short D short _ _ HD) as Hl.
  destruct (session_ok cfg D ltac:(lia) ltac:(lia) isnx isny [] nil_short _ _ _ _ _ Hs Hl)
    as [(f & r & ps & pe & [I Hi Hh He _ _ _]) Hq].
  exists w, sent, f. split_and!; try done; apply St.
Qed.

Lemma lively_input gx gx' gy E b c rest closed :
  lively gx gy E b -> later gx gx' ->
  bench_inv cfg D isnx isny gx' gy (b <| x := c |> <| bytes_to_send := rest |> <| x_closed := closed |>) ->
  advances (x b) c -> _receiver c = _receiver (x b) -> (x_ready (x b) -> x_done c \/ x_ready c) ->
  (x_done (x b) -> x_done c) -> base c = base (x b) ->
  _win_size (unAckQueue (_sender c)) = _win_size (unAckQueue (_sender (x b))) ->
  lively gx' gy E (b <| x := c |> <| bytes_to_send := rest |> <| x_closed := closed |>).
Proof.
  intros [HI Hdr Sy Wi Y Hse HC Hpl Hsy Hb1 HX] L HI' [M (segs & Eo & Hp & Dl)] Er Hx Hf Hb Hw.
  split; cbn [x y upd eta eta_bench]; try done.
  - by eapply steady_later.
  - destruct Wi as (_ & ? & ?). split; [apply HI'|]. rewrite Hb, Hw. done.
  - destruct Hse as [?|[? ?]]; [by left|right]. split; [done|]. rewrite Eo. apply Exists_app. by left.
  - rewrite Eo. by eapply cover_more.
  - rewrite Eo. by apply Forall_app.
  - by rewrite Er.
  - by rewrite Hb.
  - destruct HX as [?|(X & Hc1 & Hc2 & Hc3)]; [left; auto|]. destruct (Hx X) as [?|X']; [by left|right].
    pose proof (mv_count _ _ M) as Hc. pose proof (ck_count _ (xr_clock _ X)).
    split; [done|]. split; [lia|]. split; [rewrite Hb; intros ?; specialize (Hc2 ltac:(done)); lia|].
    destruct Hc3 as [?|?]; [left|right; lia]. rewrite Eo. apply Exists_app. by left.
Qed.

(** One write into [x]. *)
Lemma lively_write gx gy E b :
  lively gx gy E b -> 0 < zlen (str (bytes_to_send b)) -> 0 < remaining_outbound_capacity (x b) ->
  let want := Z.min (remaining_outbound_capacity (x b)) (Buffer.size (bytes_to_send b)) in
  exists c rest gx', write (ztake want (str (bytes_to_send b))) (x b) = (want, c) /\
    Buffer.remove_prefix want (bytes_to_send b) = Ok rest /\
    zlen (str rest) < zlen (str (bytes_to_send b)) /\ advances (x b) c /\ base c = base (x b) /\
    lively gx' gy E (b <| x := c |> <| bytes_to_send := rest |>).
Proof.
  intros Lv Hz Hc want. pose proof (lv_inv _ _ _ _ Lv) as HI.
  destruct (input_step cfg D isnx isny ltac:(lia) ltac:(lia) short gx gy b HI Hz Hc)
    as (c & rest & gx' & Ew & Er & Hlt & L & HI'). fold want in Ew, Er.
  destruct (bench_x gx gy b HI) as (w & sent & f & HD & Hw & Hh & He & I & P & Hi & Hq & _ & _).
  exists c, rest, gx'. split; [done|]. split; [done|]. split; [done|].
  unfold write in Ew. assert (Hwant : zlen (ztake want (str (bytes_to_send b))) = want).
  { unfold Buffer.size in want. rewrite zlen_ztake; lia. }
  unfold Buffer.size in want. rewrite Hwant, (proj2 (Z.eqb_neq _ _)) in Ew by lia.
  set (data := ztake want _) in *.
  destruct (bs_refines_write data _ f (se_stream _ _ I)) as [Hn R'].
  destruct (ByteStream.write data (_stream (_sender (x b)))) as [n st]. cbn [fst snd] in Hn, R'.
  injection Ew as -> Ec. set (f' := mk_fifo _ _ _ _ _) in R'.
  assert (Hdata : ztake want data = data) by (apply ztake_ge; lia).
  assert (Hl' : zlen (hist f') < 0x7fffffff).
  { cbn. rewrite Hdata, Hh. eapply (prefix_short D short _ (zdrop want (str (bytes_to_send b)))).
    rewrite HD, <- app_assoc. unfold data. by rewrite ztake_zdrop. }
  assert (I' : sender_inv ((_sender (x b)) <| _stream := st |>) f').
  { apply (sender_inv_stream _ f); try done; [|unfold LIMIT; lia].
    exists (ztake want data). split; [done|]. intros Hend. split; [done|]. rewrite Hend in Hn. by rewrite Hn. }
  assert (Hcap : ByteStream._capacity st = ByteStream._capacity (_stream (_sender (x b)))).
  { rewrite (ref_cap _ _ R'), (ref_cap _ _ (se_stream _ _ I)). done. }
  assert (HX : x_done (x b) \/ x_ready (x b)).
  { destruct (lv_state _ _ _ _ Lv) as [?|[? _]]; [by left|by right]. }
  destruct (input_advances gx f' (x b) st Hq I' P Hl' Hi Hcap HX) as (Adv & Hr & Hx & Hf & Hb & Hwin).
  rewrite Ec in Adv, Hr, Hx, Hf, Hb, Hwin. split; [done|]. split; [done|].
  assert (Eb : b <| x := c |> <| bytes_to_send := rest |> = b <| x := c |> <| bytes_to_send := rest |> <| x_closed := x_closed b |>) by done.
  rewrite Eb in HI' |- *. by eapply lively_input.
Qed.

(** From [b] to [b'] by input to [x]. *)
Record fed b b' : Prop := mk_fed {
  fd_advances : advances (x b) (x b');
  fd_base : base (x b') = base (x b);
  fd_y : y b' = y b;
  fd_received : string_received b' = string_received b }.

Lemma fed_refl b : fed b b.
Proof. split; try done. apply advances_refl. Qed.
Lemma fed_trans b1 b2 b3 : fed b1 b2 -> fed b2 b3 -> fed b1 b3.
Proof. intros [] []. split; try congruence. by eapply advances_trans. Qed.

Lemma lively_write_input gy E fuel : forall gx b,
  lively gx gy E b -> zlen (str (bytes_to_send b)) <= Z.of_nat fuel ->
  exists b' gx', write_input fuel b = Ok b' /\ lively gx' gy E b' /\ fed b b' /\
    (0 < zlen (str (bytes_to_send b')) -> remaining_outbound_capacity (x b') <= 0).
Proof.
  induction fuel as [|fuel IH]; intros gx b Lv Hf; cbn [write_input]; unfold Buffer.size at 1;
    (destruct (Z.ltb_spec 0 (zlen (str (bytes_to_send b)))) as [Hz|Hz];
      [|exists b, gx; split; [done|]; split; [done|]; split; [apply fed_refl|lia]]); [lia|].
  destruct (Z.ltb_spec 0 (remaining_outbound_capacity (x b))) as [Hc|Hc].
  2: { exists b, gx. split; [done|]. split; [done|]. split; [apply fed_refl|done]. }
  cbn [negb orb].
  destruct (lively_write gx gy E b Lv Hz Hc) as (c & rest & gx1 & -> & E2 & Hlt & Adv & Hb & Lv1).
  rewrite Z.eqb_refl. cbn [negb]. rewrite E2. cbn [mbind outcome_bind].
  destruct (IH gx1 _ Lv1) as (b' & gx2 & E3 & Lv2 & Fd & He); [cbn [bytes_to_send upd eta eta_bench]; lia|].
  exists b', gx2. split; [done|]. split; [done|]. split; [|done]. eapply fed_trans; [|exact Fd]. by split.
Qed.

Lemma lively_close_input gx gy E b : lively gx gy E b ->
  exists gx', lively gx' gy E (close_input b) /\ fed b (close_input b) /\
    bytes_to_send (close_input b) = bytes_to_send b /\
    (zlen (str (bytes_to_send b)) = 0 -> x_closed (close_input b) = true) /\
    (0 < zlen (str (bytes_to_send b)) -> x (close_input b) = x b).
Proof.
  intros Lv. pose proof (lv_inv _ _ _ _ Lv) as HI.
  destruct (close_input_ok cfg D isnx isny ltac:(lia) gx gy b HI) as (gx' & L & HI' & _).
  exists gx'. unfold close_input in *. unfold Buffer.size in *.
  destruct (Z.eqb_spec (zlen (str (bytes_to_send b))) 0) as [Hz|Hz]; cbn [andb] in *.
  2: { split; [|split; [apply fed_refl|]; by split_and!]. destruct Lv; split; try done. by eapply steady_later. }
  destruct (x_closed b) eqn:Hxc; cbn [negb andb] in *.
  { split; [|split; [apply fed_refl|]; by split_and!]. destruct Lv; split; try done. by eapply steady_later. }
  destruct (bench_x gx gy b HI) as (w & sent & f & HD & Hw & Hh & He & I & P & Hi & Hq & _ & _).
  pose proof (bs_refines_end _ _ (se_stream _ _ I)) as R'. set (f' := mk_fifo _ _ _ _ _) in R'.
  assert (I' : sender_inv ((_sender (x b)) <| _stream := end_input (_stream (_sender (x b))) |>) f').
  { apply (sender_inv_stream _ f); try done; [|apply I]. exists []. by rewrite app_nil_r. }
  assert (HX : x_done (x b) \/ x_ready (x b)).
  { destruct (lv_state _ _ _ _ Lv) as [?|[? _]]; [by left|by right]. }
  destruct (input_advances gx f' (x b) _ Hq I' P ltac:(cbn; by rewrite Hh) Hi eq_refl HX) as (Adv & Hr & Hx & Hf & Hb & Hwin).
  change (updateOutput (fill _)) with (end_input_stream (x b)) in *.
  assert (Eb : b <| x := end_input_stream (x b) |> <| x_closed := true |> =
    b <| x := end_input_stream (x b) |> <| bytes_to_send := bytes_to_send b |> <| x_closed := true |>) by (by destruct b).
  split; [|split; [by split|]; split_and!; try done; cbn; lia]. rewrite Eb in HI' |- *. by eapply lively_input.
Qed.

(** Between the input and the exchange: what [x] has to send, it has sent. *)
Definition pointed b : Prop := fin_sent (x b) = true \/ base (x b) < _next_seqno (unAckQueue (_sender (x b))).

Lemma input_lively gx gy E b : lively gx gy E b ->
  exists b1 gx', write_input (input_fuel b) b = Ok b1 /\ lively gx' gy E (close_input b1) /\
    fed b (close_input b1) /\ pointed (close_input b1).
Proof.
  intros Lv. destruct (lively_write_input gy E (input_fuel b) gx b Lv) as (b1 & gx1 & E1 & Lv1 & Fd1 & Hfull).
  { unfold input_fuel, Buffer.size. lia. }
  destruct (lively_close_input gx1 gy E b1 Lv1) as (gx2 & Lv2 & Fd2 & Hbs & Hcl & Hsame).
  exists b1, gx2. split; [done|]. split; [done|]. split; [by eapply fed_trans|].
  set (p := close_input b1) in *. destruct (lv_state _ _ _ _ Lv2) as [X|[X _]]; [left; by apply xd_sent|right].
  pose proof X as [Xa Xf Xl Xw Xk Xo Xfi Xr Xc Xn Xg].
  destruct (bench_x gx2 gy p (lv_inv _ _ _ _ Lv2)) as (w & sent & f & HD & Hw & Hh & He & I & P & Hi & Hq & _ & _).
  destruct (in_flight_eq _ _ I) as [Hfl Hnx]. pose proof (qi_win _ _ (se_queue _ _ I)) as Hwin.
  pose proof (qi_base _ _ (se_queue _ _ I)) as Hbr. destruct (lv_within _ _ _ _ Lv2) as (Hfits & _).
  unfold fits in Hfits.
  assert (Hrem : remainSpace (_sender (x p)) = 0 -> base (x p) < _next_seqno (unAckQueue (_sender (x p)))).
  { unfold remainSpace. change (UnAckQueue.bytesInFlight (unAckQueue (_sender (x p)))) with (TCPSender.bytes_in_flight (_sender (x p))).
    rewrite Hfl, u64_id by lia. lia. }
  destruct Xfi as [?|Hn]; [auto|exfalso]. unfold hasContentToPush in Hn. apply orb_false_iff in Hn as [Hn1%Z.ltb_ge Hn2].
  destruct (stream_facts _ _ (se_stream _ _ I)) as (Hbs' & Hp & Heof).
  destruct (Z.ltb_spec 0 (zlen (str (bytes_to_send b1)))) as [Hpos|Hz].
  - specialize (Hfull Hpos). rewrite <- (Hsame Hpos) in Hfull. unfold remaining_outbound_capacity, stream_in in Hfull.
    rewrite (bs_remaining_capacity_spec _ (ref_wf _ _ (se_stream _ _ I))) in Hfull. unfold buffer_size in *. lia.
  - rewrite Heof, He, Hcl, Xo, bool_decide_eq_true_2 in Hn2 by lia. done.
Qed.

(** ** The rest of a round *)

Definition rest_of_loop reorder b : outcome bench :=
  '(cx, cy, segments) ← move_segments (x b) (y b) [] reorder;
  '(cy, cx, _) ← move_segments cy cx segments false;
  let b := read_output (b <| x := cx |> <| y := cy |>) in
  cx ← tick 1000 (x b);
  cy ← tick 1000 (y b);
  Ok (b <| x := cx |> <| y := cy |>).

Lemma loop_eq reorder b :
  loop reorder b = b ← write_input (input_fuel b) b; rest_of_loop reorder (close_input b).
Proof. reflexivity. Qed.

Lemma read_output_y b :
  y (read_output b) = y b \/ exists k, 0 <= k /\ y (read_output b) = read_inbound k (y b).
Proof.
  unfold read_output. destruct (Z.ltb_spec 0 (buffer_size (inbound_stream (y b)))); [right|by left].
  eexists. split; [|done]. lia.
Qed.

(** [y]'s side is the same after the reader has been there. *)
Lemma read_output_ready b n f :
  y_ready (y b) -> cover D cap isnx (_receiver (y b)) [] n f ->
  let c := y (read_output b) in
  y_ready c /\ _sender c = _sender (y b) /\ acked (_receiver c) = reached b /\ cover D cap isnx (_receiver c) [] n f /\
  segments_out c = segments_out (y b).
Proof.
  intros Y HC c. unfold c. destruct (read_output_y b) as [->|(k & Hk & ->)]; [done|].
  split; [by destruct Y|]. split; [done|]. split; [done|]. split; [|done]. by apply (cover_read D cap isnx).
Qed.

(** How far [x] is from the next acknowledgment. *)
Definition progresses b b' : Prop :=
  fin_sent (x b') = true \/ base (x b) < base (x b') \/
  base (x b') = base (x b) /\ base (x b') < reached b' /\
    base (x b') < _next_seqno (unAckQueue (_sender (x b'))) /\
    (Exists countable (segments_out (x b)) -> base (x b) = reached b) /\
    (Exists countable (segments_out (x b)) \/ Exists countable (segments_out (x b')) \/
     0 < time_left (_sender (x b')) /\ time_left (_sender (x b')) = time_left (_sender (x b)) - 1000).

Lemma read_output_x b : x (read_output b) = x b /\ x_closed (read_output b) = x_closed b.
Proof. unfold read_output. by destruct (_ <? _). Qed.

(** [x] after the exchange and before its tick, and then after it. *)
Lemma settled_x gx gy E b cx cx' w e sent0 g g' (replied : Prop) :
  lively gx gy E b -> pointed b -> x_ready (x b) ->
  x_taking (drain (x b)) (reached b) replied [] cx ->
  (Exists countable (segments_out (x b)) -> replied) ->
  zlen w < 0x7fffffff -> conn_session isnx isny [] cfg w e sent0 [] cx -> steady isnx isny [] cap w g g' 0 0 cx ->
  tick 1000 cx = Ok cx' ->
  exists segs, unAckQueue (_sender cx') = unAckQueue (_sender cx) /\ _receiver cx' = _receiver cx /\
    segments_out cx' = segs /\ Forall plainly segs /\
    delivers isnx (unAckQueue (_sender (x b))) (unAckQueue (_sender cx')) segs /\
    base (x b) <= base cx' /\
    (x_done cx' \/ x_ready cx' /\
      (Exists countable (segments_out (x b)) -> reached b <= base cx') /\
      retries cx' <= 2 /\ (base (x b) < base cx' -> retries cx' <= 1) /\
      (Exists countable segs \/ retries cx' <= 1) /\
      (base cx' = base (x b) -> Exists countable (segments_out (x b)) \/ Exists countable segs \/
        0 < time_left (_sender cx') /\ time_left (_sender cx') = time_left (_sender (x b)) - 1000)).
Proof.
  intros Lv Hp X [[M (segs & Eo & Hpl & Dl)] Hsy _ Hst] Hrep Hw Hse St Et.
  destruct (lv_state _ _ _ _ Lv) as [Hf|(_ & Hc1 & Hc2 & Hc3)]; [pose proof (xr_open _ X); pose proof (xd_sent _ Hf); congruence|].
  pose proof X as [Xa Xf Xl Xw Xk Xo Xfi Xr Xc Xn Xg].
  change (_sender (drain (x b))) with (_sender (x b)) in *. cbn [segments_out drain] in Eo.
  change (segments_out (drain (x b))) with (@nil TCPSegment) in Eo. cbn [app] in Eo.
  pose proof (mv_count _ _ M) as Hcnt. pose proof (ck_count _ Xc) as Hc0. pose proof (mv_base _ _ M) as Hb.
  destruct (x_ticked w e sent0 g g' cx Hw Hse St (mv_clock _ _ M Xc) ltac:(lia))
    as (c & segs' & E1 & Eq & Er & Eo' & Hpl' & Hd & Hx). rewrite Et in E1. apply Ok_inj in E1 as <-.
  exists (segs ++ segs'). rewrite Eq, Eo', Eo. split_and!; try done.
  - by apply Forall_app.
  - eapply delivers_trans; [exact Dl|apply delivers_again].
  - destruct Hst as [?|[X1 HA]]; [left; auto|right]. destruct (Hx X1) as (X2 & Hc & Ht).
    assert (Hbn : base (x b) < _next_seqno (unAckQueue (_sender (x b)))) by (destruct Hp as [?|?]; [congruence|done]).
    assert (Hnx : base cx = base (x b) -> base cx < _next_seqno (unAckQueue (_sender cx))).
    { intros Hbe. destruct Dl as (Hs & _). unfold sent_bytes in Hs. rewrite Xo, (xr_open _ X1) in Hs. lia. }
    split; [done|]. split; [intros Hs; destruct (HA (Hrep Hs)); [done|congruence]|].
    destruct (Z.eq_dec (base cx) (base (x b))) as [Hbe|Hbne].
    + assert (Hre : retries (x b) <= 1).
      { destruct Hc3 as [Hs|?]; [|done]. destruct (HA (Hrep Hs)) as [HA'|]; [|done].
        destruct (lv_within _ _ _ _ Lv) as (_ & Hw1 & _). apply Hc2. lia. }
      split; [lia|]. split; [lia|]. destruct (Ht (Hnx Hbe)) as [Hs|(Hr & Ht1 & Ht2)].
      * assert (Exists countable (segs ++ segs')) by (apply Exists_app; by right). split; [by left|]. intros _. right. by left.
      * split; [right; lia|]. intros _. right. right. split; [done|]. rewrite Ht2. unfold time_left.
        rewrite (mv_same _ _ M Hbe (Xg Xo Hbn)). done.
    + destruct (mv_fresh _ _ M ltac:(lia)) as (_ & _ & Hz). split; [lia|]. split; [lia|]. split; [right; lia|lia].
Qed.

(** A receiver with all [x] sends has FIN. *)
Lemma cover_fin gx gy b r : bench_inv cfg D isnx isny gx gy b -> fin_sent (x b) = true ->
  cover D cap isnx r [] (sent (x b)) (fin_sent (x b)) -> input_ended (stream_out r) = true.
Proof.
  intros HI Hf HC. destruct (bench_x gx gy b HI) as (w & st & f & HD & Hw & Hh & He & I & [P _] & _).
  destruct (qi_fin _ _ (se_queue _ _ I) Hf) as [Hend Hpop].
  pose proof (sent_popped f _ (se_queue _ _ I) (pc_syn _ _ P)) as Hs.
  rewrite He in Hend. rewrite (bi_closed _ _ _ _ _ _ _ HI Hend), app_nil_r in HD.
  assert (Hn : sent (x b) = zlen D) by (rewrite Hs, Hpop, Hh; by subst).
  destruct (cover_done D cap isnx cap_range short _ _ _ HC ltac:(lia)) as [_ H2]. by apply H2.
Qed.

Lemma sent_range gx gy b : bench_inv cfg D isnx isny gx gy b -> 0 <= sent (x b) <= zlen D /\
  _next_seqno (unAckQueue (_sender (x b))) = sent (x b) + 1 + b2n (fin_sent (x b)).
Proof.
  intros HI. destruct (bench_x gx gy b HI) as (w & st & f & HD & Hw & Hh & He & I & [P _] & _).
  pose proof (sent_popped f _ (se_queue _ _ I) (pc_syn _ _ P)) as Hs. pose proof (ref_popped _ _ (se_stream _ _ I)) as Hp.
  rewrite Hs. rewrite Hh in Hp. apply (f_equal (fun l => zlen l)) in HD. rewrite zlen_app in HD.
  split; [lia|]. rewrite <- Hs. unfold sent_bytes. lia.
Qed.

(** The bench between two rounds once the connections are established. *)
Definition going b : Prop := exists gx gy E, lively gx gy E b.

(** The bench between two rounds once [y] has everything. *)
Definition over b : Prop :=
  exists gx gy, bench_inv cfg D isnx isny gx gy b /\ drained cfg b /\ x_done (x b) /\ _synRecv (_receiver (x b)) = true /\
    1 <= base (x b) /\ y_over [] (y b) /\ segments_out (y b) = [].

(** FIN comes from [x]. *)
Lemma ended_x gx gy b : bench_inv cfg D isnx isny gx gy b -> receiver_FIN_recv (y b) = true -> fin_sent (x b) = true.
Proof.
  intros HI Hf. destruct (bench_x gx gy b HI) as (w & st & f & _ & _ & _ & _ & _ & [P _] & _).
  destruct (bi_y _ _ _ _ _ _ _ HI) as (senty & _ & [_ _ _ _ _ (r & Hr & G & _)]).
  assert (Er : input_ended (stream_out r) = true) by (by destruct Hr as [Hr|[_ Hr]]; unfold receiver_FIN_recv in Hf; rewrite Hr in Hf).
  pose proof (gathered_ended D cap isnx ltac:(lia) ltac:(lia) short gx r G Er) as Hend.
  rewrite (pc_fin _ _ P) in Hend. by destruct (_finSent _).
Qed.

Lemma over_read b segs : y_over segs (y b) -> segments_out (y b) = [] ->
  y_over segs (y (read_output b)) /\ segments_out (y (read_output b)) = [] /\
  _time_since_last_segment_received (y (read_output b)) = _time_since_last_segment_received (y b).
Proof.
  intros [Ho HY] Hout. destruct (read_output_y b) as [->|(k & Hk & ->)]; [done|].
  split; [|done]. split; [exact Ho|]. intros Ha. destruct (HY Ha). by split.
Qed.

(** The end of a round of which [y] comes out with everything. *)
Lemma settled_over gx gy A E cx cy b cx' cy' :
  let b2 := read_output (b <| x := cx |> <| y := drain cy |>) in
  bench_inv cfg D isnx isny gx gy (b <| x := cx |> <| y := drain cy |>) ->
  steady isny isnx D cap [] gy gx A E (drain cy) -> within A E (_sender cx) ->
  x_done cx -> _synRecv (_receiver cx) = true -> 1 <= base cx -> y_over [] cy ->
  tick 1000 (x b2) = Ok cx' -> tick 1000 (y b2) = Ok cy' -> over (b2 <| x := cx' |> <| y := cy' |>).
Proof.
  intros b2 HI Sy Wi X Hs Hb [Ho HY] Ex Ey. unfold b2 in *. set (b1 := b <| x := cx |> <| y := drain cy |>) in *.
  destruct (read_output_inv cfg D isnx isny ltac:(lia) ltac:(lia) short gx gy b1 HI) as (t & _ & HI2 & Hdr2 & Hx2 & Hst2).
  specialize (Hst2 _ _ Sy). rewrite Hx2 in Ex. change (x b1) with cx in *.
  assert (Wi2 : within A E (_sender (x (read_output b1)))) by by rewrite Hx2.
  destruct (ticks_ok cfg D isnx isny ltac:(lia) ltac:(lia) short _ _ _ _ _ HI2 Hdr2 Wi2 Hst2)
    as (cx2 & cy2 & gx3 & gy3 & Ex2 & Ey2 & HI3 & Hdr3 & _).
  rewrite Hx2 in Ex2. change (x b1) with cx in Ex2. rewrite Ex in Ex2. rewrite Ey in Ey2. injection Ex2 as <-. injection Ey2 as <-.
  destruct (bench_x _ _ _ HI2) as (w & st & f & _ & Hw & _ & _ & _ & _ & _ & _ & Hse & St).
  rewrite Hx2 in Hse, St. change (x b1) with cx in Hse, St.
  destruct (x_done_ticked w _ st gx gy cx cx' Hw Hse St X Ex) as (X' & Hs' & Hb' & _).
  destruct (over_read b1 []) as (HY2 & Ho2 & _); [split; [constructor|]; intros Ha; destruct (HY Ha); by split|done|].
  destruct (bi_y _ _ _ _ _ _ _ HI2) as (senty & Hsy & Sty).
  destruct (y_over_ticked senty _ _ _ _ _ _ _ Hsy Sty HY2 Ho2 Ey) as (HY' & Ho' & _).
  exists gx3, gy3. cbn [x y upd eta eta_bench]. rewrite Hs', Hb'. by split_and!.
Qed.

(** The end of a round after which the transfer goes on. *)
Section settled.
Context (gx gy gx1 gy1 : progress) (E : Z) (b : bench) (cx cy cx' cy' : TCPConnection).
Abbreviation b1 := (b <| x := cx |> <| y := drain cy |>).
Abbreviation b2 := (read_output b1).
Abbreviation b3 := (b2 <| x := cx' |> <| y := cy' |>).
Abbreviation sending := (Exists countable (segments_out (x b))).
Hypothesis before : lively gx gy E b.
Hypothesis is_pointed : pointed b.
Hypothesis exchanged : bench_inv cfg D isnx isny gx1 gy1 b1.
Hypothesis fed_back : steady isny isnx D cap [] gy1 gx1 (acked (_receiver cy)) (edge (_receiver cy)) (drain cy).
Hypothesis in_window : within (acked (_receiver cy)) (edge (_receiver cy)) (_sender cx).
Hypothesis y_took : y_taking (sent (x b)) (fin_sent (x b)) sending [] cy.
Hypothesis x_took : x_taking (drain (x b)) (reached b) (segments_out cy <> []) [] cx.
Hypothesis x_ticks : tick 1000 (x b2) = Ok cx'.
Hypothesis y_ticks : tick 1000 (y b2) = Ok cy'.

Lemma settled_ready : x_ready (x b).
Proof.
  destruct (lv_state _ _ _ _ before) as [Hf|[X _]]; [|done]. destruct y_took as [HC _ _ Yc].
  pose proof (cover_fin gx gy b _ (lv_inv _ _ _ _ before) (xd_sent _ Hf) HC) as He. pose proof (yr_open _ Yc) as Ho.
  unfold receiver_FIN_recv in Ho. congruence.
Qed.

(** [y] got what [x] had sent. *)
Lemma settled_reached : base (x b) < acked (_receiver cy) /\ _next_seqno (unAckQueue (_sender (x b))) <= acked (_receiver cy).
Proof.
  pose proof settled_ready as X. destruct y_took as [HC _ _ _].
  destruct (sent_range gx gy b (lv_inv _ _ _ _ before)) as [Hr Hn].
  assert (Hge : _next_seqno (unAckQueue (_sender (x b))) <= acked (_receiver cy)).
  { rewrite Hn, (xr_open _ X). destruct (cover_done D cap isnx cap_range short _ _ _ HC Hr) as [Hle _].
    unfold acked. pose proof (b2n_range (input_ended (stream_out (_receiver cy)))). cbn [b2n]. lia. }
  split; [|done]. destruct is_pointed as [Hf|?]; [|lia]. pose proof (xr_open _ X). congruence.
Qed.

Lemma settled_going : going b3 /\ progresses b b3.
Proof.
  pose proof settled_ready as X. destruct settled_reached as [Hlt Hge]. destruct y_took as [HC Hrep Hset Yc].
  destruct (read_output_inv cfg D isnx isny ltac:(lia) ltac:(lia) short gx1 gy1 b1 exchanged) as (t & _ & HI2 & Hdr2 & Hx2 & Hst2).
  assert (Wi2 : within (acked (_receiver cy)) (edge (_receiver cy)) (_sender (x b2))) by by rewrite Hx2.
  destruct (ticks_ok cfg D isnx isny ltac:(lia) ltac:(lia) short _ _ _ _ _ HI2 Hdr2 Wi2 (Hst2 _ _ fed_back))
    as (cx2 & cy2 & gx3 & gy3 & Ex & Ey & HI3 & Hdr3 & Sy3).
  rewrite x_ticks in Ex. rewrite y_ticks in Ey. injection Ex as <-. injection Ey as <-.
  assert (Hrep' : sending -> segments_out cy <> []).
  { intros Hs. destruct (Hrep Hs) as [?|Hx]; [done|]. by apply Exists_nil in Hx. }
  destruct (bench_x _ _ _ HI2) as (w & sent2 & f2 & _ & Hw & _ & _ & _ & _ & _ & _ & Hse & St).
  pose proof x_ticks as Ex'. rewrite Hx2 in Hse, St, Ex'. change (x b1) with cx in Hse, St, Ex'.
  destruct (settled_x gx gy E b cx cx' w _ sent2 gx1 gy1 _ before is_pointed X x_took Hrep' Hw Hse St Ex')
    as (segs & Eq & Er & Eo & Hpl & Dl & Hb & Hst).
  assert (Yd : y_ready (y b1)) by by destruct Yc.
  destruct (read_output_ready b1 _ _ Yd HC) as (Y2 & Es2 & Ea2 & HC2 & Eo2).
  change (_sender (y b1)) with (_sender cy) in Es2. change (segments_out (y b1)) with (@nil TCPSegment) in Eo2.
  change (acked (_receiver (y b1))) with (acked (_receiver cy)) in Ea2.
  assert (Hfa : _finAcked (unAckQueue (_sender cy)) = true).
  { destruct Hset as [?|[_ Hx]]; [done|]. by apply Exists_nil in Hx. }
  destruct (bi_y _ _ _ _ _ _ _ HI2) as (senty & Hsy & Sty).
  destruct (y_ticked senty _ _ _ _ _ _ Hsy Sty Y2 ltac:(by rewrite Es2)) as (c & E1 & Eq' & Er' & Eo' & Y').
  rewrite y_ticks in E1. apply Ok_inj in E1 as <-.
  assert (Hre : reached b3 = acked (_receiver cy)) by (change (y b3) with cy'; rewrite Er'; exact Ea2).
  split.
  - exists gx3, gy3, (edge (_receiver cy)). split; try done.
    + by rewrite Hre.
    + rewrite Hre. change (x b3) with cx'. unfold within, FlowControl.fits in *. rewrite Eq. by rewrite Hx2 in Wi2.
    + left. change (y b3) with cy'. by rewrite Eq', Es2.
    + change (x b3) with cx'. change (y b3) with cy'. rewrite Er', Eo.
      refine (cover_more D cap isnx _ _ [] _ _ _ HC2 Dl); done.
    + change (x b3) with cx'. by rewrite Eo.
    + change (x b3) with cx'. rewrite Er. by apply x_took.
    + change (x b3) with cx'. pose proof (lv_base _ _ _ _ before). lia.
    + change (x b3) with cx'. rewrite Eo. destruct Hst as [?|(X' & H1 & H2 & H3 & H4 & _)]; [by left|right].
      split_and!; try done. intros Hbr. apply H3. lia.
  - unfold progresses. change (x b3) with cx'. rewrite Eo.
    destruct Hst as [Xd|(X' & H1 & H2 & H3 & H4 & H5)]; [left; by apply xd_sent|right].
    destruct (Z.eq_dec (base cx') (base (x b))) as [He|?]; [right|left; lia]. rewrite He. split; [done|].
    split; [lia|]. split.
    { destruct Dl as (Hd & _). unfold sent_bytes in Hd. rewrite (xr_open _ X), (xr_open _ X') in Hd.
      destruct is_pointed as [?|?]; [pose proof (xr_open _ X); congruence|lia]. }
    split; [|by apply H5]. intros Hs. destruct (lv_within _ _ _ _ before) as (_ & ? & _).
    specialize (H1 Hs). lia.
Qed.
End settled.

Lemma round_lively reorder b : going b -> pointed b ->
  exists b', rest_of_loop reorder b = Ok b' /\
    (receiving b' = false /\ over b' \/ x_ready (x b) /\ going b' /\ progresses b b').
Proof.
  intros (gx & gy & E & Lv) Hp.
  destruct (exchange_lively reorder gx gy E b Lv) as (cx & cy & gx1 & gy1 & Ey & Ex & HI1 & Sy1 & Wi1 & (_ & _ & HY) & HX).
  unfold rest_of_loop, move_segments. cbn [app]. rewrite Ey. cbn [mbind outcome_bind order app]. rewrite Ex.
  cbn [mbind outcome_bind]. set (b1 := b <| x := cx |> <| y := drain cy |>) in *.
  destruct (read_output_inv cfg D isnx isny ltac:(lia) ltac:(lia) short gx1 gy1 b1 HI1) as (t & _ & HI2 & Hdr2 & Hx2 & Hst2).
  assert (Wi2 : within (acked (_receiver cy)) (edge (_receiver cy)) (_sender (x (read_output b1)))) by by rewrite Hx2.
  destruct (ticks_ok cfg D isnx isny ltac:(lia) ltac:(lia) short _ _ _ _ _ HI2 Hdr2 Wi2 (Hst2 _ _ Sy1))
    as (cx' & cy' & _ & _ & Ex' & Ey' & _).
  rewrite Ex', Ey'. cbn [mbind outcome_bind]. eexists. split; [done|].
  destruct HY as [[Hfc HY]|HY]; [left|right; split; [by eapply settled_ready|by eapply settled_going]].
  split.
  - unfold receiving. cbn [y upd eta eta_bench]. rewrite (acts_eof _ _ (tick_acts _ _ _ Ey')).
    rewrite read_output_eof; [done| |exact Hfc]. destruct (bi_y _ _ _ _ _ _ _ HI1) as (senty & Hsy & _).
    eapply (session_inbound isny isnx D cfg); [| | | |exact Hsy]; lia || done.
  - pose proof (ended_x gx1 gy1 b1 HI1 Hfc) as Hfin. change (x b1) with cx in Hfin.
    assert (X : x_done cx).
    { destruct (xt_state _ _ _ _ _ HX) as [?|[X _]]; [done|]. pose proof (xr_open _ X). congruence. }
    assert (Hbx : 1 <= base cx).
    { pose proof (mv_base _ _ (ad_moved _ _ (xt_advances _ _ _ _ _ HX))). pose proof (lv_base _ _ _ _ Lv).
      change (base (drain (x b))) with (base (x b)) in *. lia. }
    eapply settled_over; [exact HI1|exact Sy1|exact Wi1|exact X|apply HX|exact Hbx|exact HY|exact Ex'|exact Ey'].
Qed.

(** ** The end

    [x]'s base rises to what [y] has got, which is all it has sent before.  When no segment is under
    way that [y] would answer, the timer runs out first. *)

Lemma more_rounds condition reorder n : forall b b', loop_while condition reorder n b = Ok (true, b') ->
  forall k, loop_while condition reorder (n + k) b = Ok (true, b').
Proof.
  induction n as [|n IH]; intros b b'; cbn [loop_while Nat.add].
  - destruct (condition b) eqn:E; [done|]. intros H k. destruct k; cbn [loop_while]; by rewrite E.
  - destruct (negb (condition b)); [done|]. intros H k. apply bind_Ok in H as (b1 & -> & H).
    cbn [mbind outcome_bind]. by apply IH.
Qed.

Lemma enough_rounds condition reorder n m b b' :
  (n <= m)%nat -> loop_while condition reorder n b = Ok (true, b') -> loop_while condition reorder m b = Ok (true, b').
Proof.
  intros Hn E. pose proof (more_rounds condition reorder n _ _ E (m - n)) as H. by rewrite Nat.add_comm, Nat.sub_add in H.
Qed.

(** The first loop ends, with [y] in possession of everything. *)
Definition finishes reorder b : Prop :=
  exists n b', loop_while receiving reorder n b = Ok (true, b') /\ over b'.
(** The same in the middle of a round. *)
Definition soon reorder b : Prop :=
  exists b', rest_of_loop reorder b = Ok b' /\ (receiving b' = false /\ over b' \/ finishes reorder b').

Lemma finishes_loop reorder b b' : receiving b = true -> loop reorder b = Ok b' -> finishes reorder b' -> finishes reorder b.
Proof. intros Hr E1 (n & b2 & E2 & Hov). exists (S n), b2. cbn [loop_while]. by rewrite Hr, E1. Qed.

Lemma going_receives b : going b -> receiving b = true.
Proof.
  intros (gx & gy & E & Lv). pose proof (yr_open _ (lv_ready _ _ _ _ Lv)) as Ho. unfold receiving, eof.
  unfold receiver_FIN_recv in Ho. unfold inbound_stream, input_ended in *. by rewrite Ho, andb_false_r.
Qed.

Lemma finishes_input reorder b : going b ->
  (exists b1, write_input (input_fuel b) b = Ok b1 /\ soon reorder (close_input b1)) -> finishes reorder b.
Proof.
  intros Hg (b1 & E1 & b2 & E2 & F). eapply (finishes_loop reorder b b2); [by apply going_receives|by rewrite loop_eq, E1|].
  destruct F as [[Hr Hov]|F]; [|exact F]. exists O, b2. cbn [loop_while]. by rewrite Hr.
Qed.

(** After the input as well. *)
Lemma progresses_input b b1 b2 : going b1 -> progresses b b1 -> fed b1 b2 -> progresses b b2.
Proof.
  intros (gx & gy & E & Lv) HP [[M (segs & Eo & _ & Dl)] Hb Hy _]. destruct HP as [Hf|[Hlt|(He & Hlt & Hn & Hs & Ht)]].
  - left. by apply Dl.
  - right. left. lia.
  - destruct (fin_sent (x b1)) eqn:Hf; [left; by apply Dl|].
    destruct (fin_sent (x b2)) eqn:Hf2; [by left|]. right. right. rewrite Hb, Hy. split_and!; try done.
    { destruct Dl as (Hd & _). unfold sent_bytes in Hd. rewrite Hf, Hf2 in Hd. lia. }
    destruct Ht as [?|[?|[Ht1 Ht2]]]; [by left|right; left; rewrite Eo; apply Exists_app; by left|right; right].
    assert (Hsame : time_left (_sender (x b2)) = time_left (_sender (x b1))); [|lia].
    destruct (lv_state _ _ _ _ Lv) as [Xd|[X1 _]]; [pose proof (xd_sent _ Xd); congruence|].
    unfold time_left. rewrite (mv_same _ _ M Hb); [done|]. apply (xr_guard _ X1 Hf). lia.
Qed.

Lemma soon_round reorder b : going b -> pointed b ->
  (forall b', going b' -> pointed b' -> x_ready (x b) -> progresses b b' -> soon reorder b') -> soon reorder b.
Proof.
  intros Hg Hp Hnext. destruct (round_lively reorder b Hg Hp) as (b1 & E1 & H1). exists b1. split; [done|].
  destruct H1 as [?|(X & Hg1 & HP)]; [by left|right].
  - apply finishes_input; [done|]. destruct Hg1 as (gx & gy & E & Lv).
    destruct (input_lively gx gy E b1 Lv) as (b2 & gx' & Ei & Lv2 & Fd & Hp2). exists b2. split; [done|].
    apply Hnext; try done; [by exists gx', gy, E|]. eapply progresses_input; [|exact HP|exact Fd]. by exists gx, gy, E.
Qed.

Lemma soon_fin reorder b : going b -> fin_sent (x b) = true -> soon reorder b.
Proof.
  intros Hg Hf. apply soon_round; [done|by left|]. intros b' _ _ X. pose proof (xr_open _ X). congruence.
Qed.

(** One step of the induction on how far the base is from the end. *)
Section step.
Context (reorder : bool) (B : Z).
Hypothesis further : forall b, going b -> pointed b -> B < base (x b) -> soon reorder b.

Lemma soon_sending b : going b -> pointed b -> base (x b) = B -> base (x b) < reached b ->
  Exists countable (segments_out (x b)) -> soon reorder b.
Proof.
  intros Hg Hp Hb Hlt Hs. apply soon_round; [done|done|]. intros b' Hg' Hp' X [Hf|[Hlt'|(_ & _ & _ & He & _)]].
  - by apply soon_fin.
  - apply further; try done. lia.
  - specialize (He Hs). lia.
Qed.

Lemma soon_behind k : forall b, going b -> pointed b -> base (x b) = B -> base (x b) < reached b ->
  time_left (_sender (x b)) <= 1000 * Z.of_nat k -> soon reorder b.
Proof.
  induction k as [|k IH]; intros b Hg Hp Hb Hlt Ht; (apply soon_round; [done|done|]);
    intros b' Hg' Hp' X [Hf|[Hlt'|(He & Hr & _ & Hs & [Hc|[Hc|[Ht1 Ht2]]])]];
    try (by apply soon_fin); try (by apply further; [done|done|lia]); try (specialize (Hs Hc); lia);
    try (by apply soon_sending; try done; lia).
  apply IH; try done; lia.
Qed.

Lemma soon_here b : going b -> pointed b -> base (x b) = B -> soon reorder b.
Proof.
  intros Hg Hp Hb. destruct (Z_lt_le_dec (base (x b)) (reached b)) as [Hlt|Hge].
  { apply (soon_behind (Z.to_nat (time_left (_sender (x b))))); try done. lia. }
  apply soon_round; [done|done|]. intros b' Hg' Hp' X [Hf|[Hlt|(He & Hr & _)]].
  - by apply soon_fin.
  - apply further; try done. lia.
  - apply (soon_behind (Z.to_nat (time_left (_sender (x b'))))); try done; lia.
Qed.
End step.

Lemma base_bound b : going b -> base (x b) <= zlen D + 2.
Proof.
  intros (gx & gy & E & Lv). destruct (sent_range gx gy b (lv_inv _ _ _ _ Lv)) as [Hs Hn].
  destruct (bench_x gx gy b (lv_inv _ _ _ _ Lv)) as (w & st & f & _ & _ & _ & _ & I & _).
  pose proof (qi_base _ _ (se_queue _ _ I)). pose proof (b2n_range (fin_sent (x b))). lia.
Qed.

Lemma going_soon reorder n : forall b, going b -> pointed b -> zlen D + 2 - base (x b) < Z.of_nat n -> soon reorder b.
Proof.
  induction n as [|n IH]; intros b Hg Hp Hn; [pose proof (base_bound b Hg); lia|].
  apply (soon_here reorder (base (x b))); try done. intros b' Hg' Hp' Hlt. apply IH; try done. lia.
Qed.

(** The first loop ends. *)
Lemma going_finishes reorder b : going b -> finishes reorder b.
Proof.
  intros Hg0. apply finishes_input; [done|]. destruct Hg0 as (gx & gy & E & Lv).
  destruct (input_lively gx gy E b Lv) as (b2 & gx' & Ei & Lv2 & Fd & Hp2). exists b2. split; [done|].
  assert (Hg : going (close_input b2)) by by exists gx', gy, E.
  apply (going_soon reorder (Z.to_nat (zlen D + 3 - base (x (close_input b2))))); try done. pose proof (base_bound _ Hg). lia.
Qed.
End ends.
