(* ===== verification/Closing.v ===== *)
(** * Closing: the benchmark's second loop

    Once [y] has everything, [over] holds between two rounds.  What is left goes in three stages, of which
    each ends: [x]'s FIN is not acknowledged yet (the base rises, or one more retransmission, or the
    timer comes closer); [x] is in TIME_WAIT (a round without segments adds a tick to its age); [x]
    is over and [y] in TIME_WAIT (the same).  So both connections end ([over_ends]). *)

From S2P Require Import Prelude WrappingIntegers ByteStream Buffer.
From S2P Require Import TCPHeader TCPSegment TCPConfig TCPState StreamReassembler TCPReceiver TCPSender Pace Progress.
From S2P Require Import Transfer TCPConnection Handlers FlowControl Benchmark Rounds.
Implicit Types (b : bench) (c : TCPConnection) (s : TCPSender) (seg : TCPSegment) (segs : list TCPSegment).

Section closing.
Context (cfg : TCPConfig) (D : bytes) (isnx isny : WrappingInt32).
Abbreviation cap := (recv_capacity cfg).
Hypothesis cap_range : 0 < cap < 0x10000.
Hypothesis send_bound : 0 < send_capacity cfg < 0x10000000000000000.
Hypothesis timeout_range : is_u16 (rt_timeout cfg).
Hypothesis short : zlen D < 0x7fffffff.
Hypothesis isnx_valid : valid isnx.
Hypothesis isny_valid : valid isny.
Abbreviation base c := (_baseSqn (unAckQueue (_sender c))).
Abbreviation retries c := (_consecutive_retransmissions (timer (_sender c))).
Abbreviation fin_acked c := (_finAcked (unAckQueue (_sender c))).
Abbreviation age c := (_time_since_last_segment_received c).
Abbreviation over := (over cfg D isnx isny).
Abbreviation y_over := (y_over isnx isny).

(** ** A round *)

(** Nothing is left to write. *)
Lemma over_input b : over b -> write_input (input_fuel b) b = Ok b /\ close_input b = b.
Proof.
  intros (gx & gy & HI & _ & X & _).
  destruct (bench_x cfg D isnx isny cap_range send_bound short gx gy b HI) as (w & st & f & _ & _ & _ & He & I & _).
  destruct (qi_fin _ _ (se_queue _ _ I) (xd_sent _ X)) as [Hend _]. rewrite He in Hend.
  pose proof (bi_closed _ _ _ _ _ _ _ HI Hend) as Hs. unfold close_input, Buffer.size. rewrite Hs, Hend. split; [|done].
  unfold input_fuel, Buffer.size. rewrite Hs. change (Z.to_nat (zlen [])) with O. cbn [write_input].
  unfold Buffer.size. by rewrite Hs.
Qed.

(** [x] while it takes [y]'s answers, [segs] left: it says nothing. *)
Record x_closing b segs c : Prop := mk_x_closing {
  xc_done : x_done c;
  xc_syn : _synRecv (_receiver c) = true;
  xc_segs : Forall (prompt isny) segs;
  xc_moved : moved (_sender (x b)) (_sender c);
  xc_base : 1 <= base c;
  xc_quiet : segments_out c = [];
  xc_idle : _active (x b) = false -> c = drain (x b);
  xc_acked : fin_acked (x b) = true -> fin_acked c = true }.

Lemma x_closing_stepped b seg segs c c' w e sent g g' n ed :
  segment_received seg c = Ok c' -> zlen w < 0x7fffffff -> conn_session isnx isny [] cfg w e sent [] c ->
  steady isnx isny [] cap w g g' 0 0 c -> arrives isnx isny [] g g' n ed seg c ->
  x_closing b (seg :: segs) c -> x_closing b segs c'.
Proof.
  intros Ec Hl Hse St Ar [X Hs HF M Hb Ho Hi Ha]. apply Forall_cons in HF as [Hp HF].
  destruct (x_done_stepped cfg D isnx isny cap_range send_bound seg c c' w e sent g g' n ed Ec Hl Hse St Ar Hs Hb
    (or_introl Hp) X) as (X' & [M' _] & Hs' & Hi' & Ha' & Ho'). split; try done; auto.
  - by eapply moved_trans.
  - pose proof (mv_base _ _ M'). lia.
  - rewrite Ho'; done.
  - intros H. rewrite Hi'; [auto|]. by rewrite (Hi H).
Qed.

(** The exchange of a round. *)
Lemma exchange_over reorder b : over b ->
  exists cx cy gx gy, receive_all (order reorder (segments_out (x b))) (y b) = Ok cy /\
    receive_all (segments_out cy) (drain (x b)) = Ok cx /\
    bench_inv cfg D isnx isny gx gy (b <| x := cx |> <| y := drain cy |>) /\ y_over [] cy /\ x_closing b [] cx /\
    steady isny isnx D cap [] gy gx (acked (_receiver cy)) (edge (_receiver cy)) (drain cy) /\
    within (acked (_receiver cy)) (edge (_receiver cy)) (_sender cx).
Proof.
  intros (gx & gy & HI & Hdr & X & Hs & Hb & HY & Ho). pose proof HI as [_ _ _ (senty & Hy & Sy) Hf].
  destruct (exchange_with cfg D isnx isny cap_range ltac:(lia) short isnx_valid isny_valid reorder gx gy b _ _
    (fun segs c => y_over segs c /\ Forall (prompt isny) (segments_out c)) (fun _ => x_closing b)
    HI Hdr (conj Hf (conj (Z.le_refl _) (Z.le_refl _))) (ex_intro _ senty Hy) Sy)
    as (cx & cy & gx' & gy' & E1 & E2 & HI' & [HP _] & HQ & Sy' & Wi').
  - intros seg segs c c' sent g n ed Ec Hse St Ar [HP Hout].
    destruct (y_over_stepped cfg D isnx isny cap_range send_bound short _ _ _ _ _ _ _ _ _ _ _ _ Ec Hse St Ar HP)
      as (HP' & new & -> & Hnew). split; [exact HP'|by apply Forall_app].
  - intros _ seg segs c c' w sent g g' n ed Ec Hl Hse St Ar _. by eapply x_closing_stepped.
  - rewrite Ho. split; [|constructor]. destruct HY as [Hm HY]. split; [done|]. intros Ha.
    destruct (HY Ha) as [? ? ? ? ? [Hfa|[_ Hx%Exists_nil]] ?]; [|done]. split; try done. by left.
  - intros cy [_ Hout]. split; try done; try apply moved_refl.
    by destruct X.
  - by exists cx, cy, gx', gy'.
Qed.

(** A connection in TIME_WAIT after a round: its age counts from the last segment. *)
Definition waits (quiet : Prop) c c' : Prop :=
  0 <= age c' < 10 * rt_timeout cfg /\ (quiet -> age c' = u64 (age c + 1000)).

Lemma aged_waits (quiet : Prop) c1 c c' :
  _cfg c = cfg -> _time_wait c = true -> _active c' = true -> aged 1000 c c' -> (quiet -> age c = age c1) ->
  waits quiet c1 c'.
Proof.
  intros Hc Hw Ha [Ht Hb] Hq. specialize (Hb Hw Ha). rewrite Hc in Hb. split.
  - split; [|exact Hb]. rewrite Ht. clear. ulia.
  - intros H. by rewrite Ht, Hq.
Qed.

(** What a round does. *)
Record passed b b' : Prop := mk_passed {
  ps_idle : _active (x b) = false -> _active (x b') = false /\ segments_out (x b') = [];
  ps_unacked : _active (x b') = true -> fin_acked (x b) = false -> fin_acked (x b') = true \/
    base (x b) < base (x b') \/ base (x b') = base (x b) /\ (retries (x b') = retries (x b) + 1 \/
      retries (x b') = retries (x b) /\ 0 < time_left (_sender (x b')) /\
      time_left (_sender (x b')) = time_left (_sender (x b)) - 1000);
  ps_acked : _active (x b') = true -> fin_acked (x b) = true ->
    fin_acked (x b') = true /\ segments_out (x b') = [] /\ waits (segments_out (x b) = []) (x b) (x b');
  ps_y : _active (y b') = true ->
    (segments_out (x b) = [] -> _active (y b) = true) /\ waits (segments_out (x b) = []) (y b) (y b') }.

Lemma closed_x_ticked b c c' w e sent g g' :
  zlen w < 0x7fffffff -> conn_session isnx isny [] cfg w e sent [] c -> steady isnx isny [] cap w g g' 0 0 c ->
  x_done (x b) -> x_closing b [] c -> (segments_out (x b) = [] -> c = drain (x b)) -> tick 1000 c = Ok c' ->
  (_active (x b) = false -> _active c' = false /\ segments_out c' = []) /\
  (_active c' = true -> fin_acked (x b) = false -> fin_acked c' = true \/ base (x b) < base c' \/
    base c' = base (x b) /\ (retries c' = retries (x b) + 1 \/ retries c' = retries (x b) /\
      0 < time_left (_sender c') /\ time_left (_sender c') = time_left (_sender (x b)) - 1000)) /\
  (_active c' = true -> fin_acked (x b) = true ->
    fin_acked c' = true /\ segments_out c' = [] /\ waits (segments_out (x b) = []) (x b) c').
Proof.
  intros Hl Hse St X0 [X Hs _ M Hb Ho Hi Ha] Hq Et.
  destruct (x_done_ticked cfg D isnx isny cap_range send_bound w e sent g g' c c' Hl Hse St X Et)
    as (_ & _ & Eb & Ef & Eidle & Eact). split; [|split].
  - intros H. rewrite (Hi H) in *. by rewrite Eidle.
  - intros Hac Hna. rewrite Ef. destruct (fin_acked c) eqn:Hfa; [by left|right].
    destruct (Eact Hac) as [Hac' [Hr|(Hr & Ht1 & Ht2)]];
    (destruct (Z.eq_dec (base c) (base (x b))) as [He|?]; [right|left; pose proof (mv_base _ _ M); lia]).
    all: assert (Hax : _active (x b) = true) by (destruct (_active (x b)) eqn:E; [done|rewrite (Hi eq_refl) in Hac'; by rewrite <- E]);
      pose proof (mv_same _ _ M He (xd_guard _ X0 Hax Hna)) as Hc; split; [congruence|].
    + left. rewrite Hr. by rewrite Hc.
    + right. rewrite Hr. split; [by rewrite Hc|]. split; [exact Ht1|]. rewrite Ht2. unfold time_left. by rewrite Hc.
  - intros Hac Hfa. specialize (Ha Hfa). rewrite Ef, Ha in *. destruct (Eact Hac) as (_ & Eo & Hw & Hag).
    split; [done|]. split; [congruence|]. eapply aged_waits; [by eapply session_cfg|done|done|exact Hag|].
    intros H. by rewrite (Hq H).
Qed.

Lemma over_loop reorder b : over b -> exists b', loop reorder b = Ok b' /\ over b' /\ passed b b'.
Proof.
  intros Hov. destruct (over_input b Hov) as [Ei Ec]. rewrite loop_eq, Ei. cbn [mbind outcome_bind]. rewrite Ec.
  destruct (exchange_over reorder b Hov) as (cx & cy & gx & gy & E1 & E2 & HI & HY & XC & Sy & Wi).
  unfold rest_of_loop, move_segments. cbn [app]. rewrite E1. cbn [mbind outcome_bind order app]. rewrite E2.
  cbn [mbind outcome_bind]. set (b1 := b <| x := cx |> <| y := drain cy |>) in *.
  destruct (read_output_inv cfg D isnx isny cap_range ltac:(lia) short gx gy b1 HI) as (t & _ & HI2 & Hdr2 & Hx2 & Hst2).
  assert (Wi2 : within (acked (_receiver cy)) (edge (_receiver cy)) (_sender (x (read_output b1)))) by by rewrite Hx2.
  specialize (Hst2 _ _ Sy).
  destruct (ticks_ok cfg D isnx isny cap_range ltac:(lia) short _ _ _ _ _ HI2 Hdr2 Wi2 Hst2) as (cx' & cy' & gx3 & gy3 & Ex & Ey & _).
  rewrite Ex, Ey. cbn [mbind outcome_bind]. eexists. split; [done|].
  split.
  { eapply settled_over; [exact cap_range|exact send_bound|exact short|exact HI|exact Sy|exact Wi|apply XC|apply XC|apply XC|exact HY|exact Ex|exact Ey]. }
  assert (Hquiet : segments_out (x b) = [] -> cy = y b /\ cx = drain (x b)).
  { intros Ho. rewrite Ho in E1. assert (cy = y b) as -> by (destruct reorder; cbn in E1; congruence). split; [done|].
    destruct Hov as (_ & _ & _ & _ & _ & _ & _ & _ & Hoy). rewrite Hoy in E2. cbn in E2. congruence. }
  destruct (bench_x cfg D isnx isny cap_range send_bound short _ _ _ HI2) as (w & sent & f & _ & Hw & _ & _ & _ & _ & _ & _ & Hse & St).
  rewrite Hx2 in Hse, St, Ex. change (x b1) with cx in Hse, St, Ex.
  assert (X0 : x_done (x b)) by by destruct Hov as (_ & _ & _ & _ & X & _).
  destruct (closed_x_ticked b cx cx' w _ sent gx gy Hw Hse St X0 XC ltac:(intros H; apply Hquiet, H) Ex) as (P1 & P2 & P3).
  split; [exact P1|exact P2|exact P3|]. cbn [y upd eta eta_bench]. intros Hac.
  destruct (over_read D isnx isny b1 []) as (HY2 & Ho2 & Ht2); [split; [exact (Forall_nil_2 _)|intros Ha; destruct (proj2 HY Ha); by split]|done|].
  destruct (bi_y _ _ _ _ _ _ _ HI2) as (senty & Hsy & Sty).
  destruct (y_over_ticked cfg D isnx isny cap_range send_bound short senty _ _ _ _ _ _ _ Hsy Sty HY2 Ho2 Ey) as (_ & _ & Hact & _).
  destruct (Hact Hac) as (Ha2 & Hw2 & Hag). split.
  - intros H. destruct (Hquiet H) as [Ecy _].
    destruct (read_output_y D b1) as [E|(k & _ & E)]; rewrite E in Ha2; unfold b1 in Ha2; cbn in Ha2; congruence.
  - eapply aged_waits; [by eapply session_cfg|done|done|exact Hag|]. intros H. rewrite Ht2. cbn.
    by destruct (Hquiet H) as [-> _].
Qed.
(** ** The end *)

Definition ends reorder b : Prop := exists n b', loop_while running reorder n b = Ok (true, b').

Lemma ends_loop reorder b : over b -> (forall b', over b' -> passed b b' -> ends reorder b') -> ends reorder b.
Proof.
  intros Hov Hnext. destruct (running b) eqn:Hr; [|exists O, b; cbn [loop_while]; by rewrite Hr].
  destruct (over_loop reorder b Hov) as (b1 & E1 & Hov1 & HP). destruct (Hnext b1 Hov1 HP) as (n & b2 & E2).
  exists (S n), b2. cbn [loop_while]. by rewrite Hr, E1.
Qed.

(** Still in TIME_WAIT, with [k] ticks left at most. *)
Definition ripens (k : nat) c : Prop :=
  _active c = true -> 0 <= age c < 10 * rt_timeout cfg /\ 10 * rt_timeout cfg <= age c + 1000 * Z.of_nat k.

Lemma ripens_start (quiet : Prop) c c' :
  (_active c' = true -> waits quiet c c') -> ripens (Z.to_nat (10 * rt_timeout cfg)) c'.
Proof. intros H Ha. destruct (H Ha) as [Hr _]. split; [done|]. lia. Qed.

Lemma ripens_next (quiet : Prop) k c c' :
  quiet -> ripens (S k) c -> (_active c' = true -> _active c = true /\ waits quiet c c') -> ripens k c'.
Proof.
  intros Hq Hc H Ha. destruct (H Ha) as [Ha0 [Hr Ht]]. destruct (Hc Ha0). split; [done|].
  rewrite (Ht Hq), u64_id in * by lia. lia.
Qed.

Lemma ripens_over c : ripens O c -> _active c = false.
Proof. intros H. destruct (_active c) eqn:E; [|done]. destruct (H E). lia. Qed.

(** [x] is over, and nothing comes from it any more. *)
Lemma ends_y_quiet reorder k : forall b, over b -> _active (x b) = false -> segments_out (x b) = [] ->
  ripens k (y b) -> ends reorder b.
Proof.
  induction k as [|k IH]; intros b Hov Hx Hq Hy.
  - exists O, b. cbn [loop_while]. unfold running, active. by rewrite Hx, (ripens_over _ Hy).
  - apply ends_loop; [done|]. intros b' Hov' [Hi _ _ Py]. destruct (Hi Hx) as [Hx' Hq'].
    apply IH; try done. eapply ripens_next; [exact Hq|exact Hy|]. intros Ha. destruct (Py Ha). auto.
Qed.

Lemma ends_y reorder b : over b -> _active (x b) = false -> ends reorder b.
Proof.
  intros Hov Hx. apply ends_loop; [done|]. intros b' Hov' [Hi _ _ Py]. destruct (Hi Hx) as [Hx' Hq'].
  eapply ends_y_quiet; try done. eapply ripens_start. intros Ha. apply (Py Ha).
Qed.

(** [x] in TIME_WAIT. *)
Lemma ends_x_quiet reorder k : forall b, over b -> fin_acked (x b) = true -> segments_out (x b) = [] ->
  ripens k (x b) -> ends reorder b.
Proof.
  induction k as [|k IH]; intros b Hov Hf Hq Hx; [by apply ends_y, ripens_over|].
  apply ends_loop; [done|]. intros b' Hov' [Hi _ Pa _].
  destruct (_active (x b')) eqn:Ha; [|by apply ends_y]. destruct (Pa eq_refl Hf) as (Hf' & Hq' & Hw).
  apply IH; try done. eapply ripens_next; [exact Hq|exact Hx|]. intros _. split; [|exact Hw].
  destruct (_active (x b)); [done|]. destruct (Hi eq_refl). congruence.
Qed.

Lemma ends_x reorder b : over b -> fin_acked (x b) = true -> ends reorder b.
Proof.
  intros Hov Hf. apply ends_loop; [done|]. intros b' Hov' [_ _ Pa _].
  destruct (_active (x b')) eqn:Ha; [|by apply ends_y]. destruct (Pa eq_refl Hf) as (Hf' & Hq' & Hw).
  eapply ends_x_quiet; try done. by eapply ripens_start.
Qed.

(** [x]'s FIN is not acknowledged: by the base, the retransmissions and the timer. *)
Lemma ends_step reorder b : over b ->
  (forall b', over b' -> base (x b) < base (x b') \/ base (x b') = base (x b) /\
    (retries (x b') = retries (x b) + 1 \/ retries (x b') = retries (x b) /\
      0 < time_left (_sender (x b')) /\ time_left (_sender (x b')) = time_left (_sender (x b)) - 1000) ->
    ends reorder b') -> ends reorder b.
Proof.
  intros Hov Hnext. destruct (fin_acked (x b)) eqn:Hf; [by apply ends_x|]. apply ends_loop; [done|].
  intros b' Hov' [_ Pu _ _]. destruct (_active (x b')) eqn:Ha; [|by apply ends_y].
  destruct (Pu eq_refl Hf) as [?|?]; [by apply ends_x|auto].
Qed.

Section unacked.
Context (reorder : bool) (B : Z).
Hypothesis further : forall b, over b -> B < base (x b) -> ends reorder b.

Lemma ends_later R k : (forall b, over b -> base (x b) = B -> R < retries (x b) -> ends reorder b) ->
  forall b, over b -> base (x b) = B -> retries (x b) = R ->
  time_left (_sender (x b)) <= 1000 * Z.of_nat k -> ends reorder b.
Proof.
  intros again. induction k as [|k IH]; intros b Hov Hb Hr Ht; apply ends_step; try done;
    intros b' Hov' [Hlt|[He [Hr'|(Hr' & Ht1 & Ht2)]]];
    first [by apply further; [|lia] | by apply again; [| |lia]; [|congruence] | exfalso; lia | by apply IH; try done; try congruence; lia].
Qed.

Lemma ends_here n : forall b, over b -> base (x b) = B -> MAX_RETX_ATTEMPTS - retries (x b) < Z.of_nat n -> ends reorder b.
Proof.
  induction n as [|n IH]; intros b Hov Hb Hn.
  - apply ends_y; [done|]. destruct (_active (x b)) eqn:Ha; [|done].
    destruct Hov as (_ & _ & _ & _ & X & _). pose proof (xd_count _ X Ha). lia.
  - apply (ends_later (retries (x b)) (Z.to_nat (time_left (_sender (x b))))); try done; [|lia].
    intros b' Hov' Hb' Hr'. apply IH; try done. lia.
Qed.
End unacked.

Lemma over_base b : over b -> base (x b) <= zlen D + 2.
Proof.
  intros (gx & gy & HI & _). destruct (sent_range cfg D isnx isny cap_range send_bound short gx gy b HI) as [Hs Hn].
  destruct (bench_x cfg D isnx isny cap_range send_bound short gx gy b HI) as (w & st & f & _ & _ & _ & _ & I & _).
  pose proof (qi_base _ _ (se_queue _ _ I)). pose proof (b2n_range (_finSent (unAckQueue (_sender (x b))))). lia.
Qed.

Lemma over_ends_from reorder n : forall b, over b -> zlen D + 2 - base (x b) < Z.of_nat n -> ends reorder b.
Proof.
  induction n as [|n IH]; intros b Hov Hn; [pose proof (over_base b Hov); lia|].
  apply (ends_here reorder (base (x b))) with (n := Z.to_nat (MAX_RETX_ATTEMPTS - retries (x b) + 1)); try done; [|lia].
  intros b' Hov' Hlt. apply IH; [done|lia].
Qed.

(** The second loop ends. *)
Lemma over_ends reorder b : over b -> ends reorder b.
Proof. intros Hov. apply (over_ends_from reorder (Z.to_nat (zlen D + 3 - base (x b)))); [done|]. pose proof (over_base b Hov). lia. Qed.
End closing.
