(* ===== verification/Liveness.v ===== *)
(** * Liveness: the benchmark completes

    The first two rounds of [main_loop] open the connections, by simultaneous SYNs; then the
    lemmas of [Rounds] and [Closing] apply. *)

From S2P Require Import Prelude WrappingIntegers ByteStream Buffer.
From S2P Require Import TCPHeader TCPSegment TCPConfig TCPState StreamReassembler TCPReceiver TCPSender Pace Progress.
From S2P Require Import Transfer TCPConnection Handlers FlowControl Benchmark.
From S2P Require Import Rounds Closing.
Implicit Types (b : bench) (c : TCPConnection) (s : TCPSender) (seg : TCPSegment) (segs : list TCPSegment).

Section start.
Context (cfg : TCPConfig) (D : bytes) (random_x random_y : Z).
Abbreviation cap := (recv_capacity cfg).
Abbreviation isnx := (isn_of random_x cfg).
Abbreviation isny := (isn_of random_y cfg).
Hypothesis config_wf : TCPConfig.wf cfg.
Hypothesis cap_range : 0 < cap < 0x10000.
Hypothesis send_pos : 0 < send_capacity cfg.
Hypothesis short : zlen D < 0x7fffffff.

(** An endpoint that has sent SYN only, which is not acknowledged. *)
Definition greets (i : WrappingInt32) (r : TCPReceiver) (t : Timer) (st : ByteStream)
    (out : list TCPSegment) (ms : Z) : TCPConnection :=
  mkTCPConnection cfg r
    (mkTCPSender t i st [] (mkUnAckQueue [] [] true false false false 0 1 1)) out true true ms false.

Lemma fill_greets i r t st out ms : fill (greets i r t st out ms) = greets i r t st out ms.
Proof.
  unfold fill, on_sender. cbn [_sender greets]. set (s := mkTCPSender _ _ _ _ _).
  assert (fill_window s = s) as ->; [|done].
  unfold fill_window. change (1 <? remainSpace s) with false. by rewrite andb_false_r.
Qed.

Lemma update_greets i r t st out ms : updateOutput (greets i r t st out ms) = greets i r t st out ms.
Proof. by apply update_idle. Qed.

Lemma start_x : x (bench_start random_x random_y cfg D) =
  greets isnx (TCPReceiver.new cap) (syn_timer cfg) (ByteStream.new (send_capacity cfg)) [syn_segment isnx] 0.
Proof. reflexivity. Qed.

Lemma start_y : y (bench_start random_x random_y cfg D) =
  greets isny (TCPReceiver.new cap) (syn_timer cfg) (end_input (ByteStream.new (send_capacity cfg))) [syn_segment isny] 0.
Proof. reflexivity. Qed.

(** SYN and, when nothing else waits, its acknowledgment. *)
Lemma greets_syn i j t st out ms :
  segment_received (syn_segment j) (greets i (TCPReceiver.new cap) t st out ms) =
    Ok (greets i (syn_received cfg j) t st
      (if bool_decide (out = []) then [stamp (syn_received cfg j) (ack_segment i)] else out) 0).
Proof.
  set (c := greets _ _ _ _ _ _). transitivity (handle_listen (syn_segment j) (greets i (TCPReceiver.new cap) t st out 0)); [reflexivity|].
  unfold handle_listen. change (syn (_header (syn_segment j))) with true. cbv iota.
  change (recv_segment _ _) with (Ok (greets i (syn_received cfg j) t st out 0)).
  cbn [mbind outcome_bind]. change (ack (_header (syn_segment j))) with false. cbv iota. cbn [mbind outcome_bind].
  rewrite fill_greets, update_greets. unfold out_empty. cbn [_segments_out greets].
  case_bool_decide as Hb; [|done]. subst. reflexivity.
Qed.

(** Later SYNs are ignored. *)
Lemma syn_ignored seg c :
  _active c = true -> _synRecv (_receiver c) = true -> receiver_FIN_recv c = false ->
  syn (_header seg) = true -> rst (_header seg) = false ->
  segment_received seg c = Ok (c <| _time_since_last_segment_received := 0 |>).
Proof.
  intros Ha Hy Hf Hs Hr. unfold segment_received. rewrite Ha. cbn [negb]. set (c0 := c <| _ := 0 |>).
  assert (Ho : out_of_order seg c0 = false) by (unfold out_of_order; destruct (ackno _); [by rewrite Hs, andb_false_r|done]).
  assert (Hl : receiver_in_listen c0 = false).
  { unfold receiver_in_listen, ackno. change (_receiver c0) with (_receiver c). by rewrite Hy. }
  change (receiver_FIN_recv c0) with (receiver_FIN_recv c). rewrite Ho, Hr, Hf, Hl.
  unfold handle_SYN_recv. by rewrite Hs.
Qed.

(** A tick that only changes the timer and queues segments. *)
Lemma tick_sender c t' segs :
  _active c = true -> _time_wait c = false ->
  TCPSender.tick 1000 (_sender c) = Ok ((_sender c) <| timer := t' |> <| TCPSender._segments_out := segs |>) ->
  _consecutive_retransmissions t' <= 1 ->
  tick 1000 c = Ok (c <| _time_since_last_segment_received := u64 (_time_since_last_segment_received c + 1000) |>
    <| _segments_out := _segments_out c ++ (stamp (_receiver c) <$> segs) |>
    <| _sender := (_sender c) <| timer := t' |> <| TCPSender._segments_out := [] |> |>).
Proof.
  intros Ha Hw E Hc. unfold tick. rewrite Ha. cbn [negb].
  change (_sender (c <| _time_since_last_segment_received := _ |>)) with (_sender c). rewrite E.
  cbn [mbind outcome_bind]. set (c1 := updateOutput _).
  change (consecutive_retransmissions (_sender c1)) with (_consecutive_retransmissions t').
  rewrite (proj2 (Z.ltb_ge _ _)) by (unfold MAX_RETX_ATTEMPTS; lia).
  change (_time_wait c1) with (_time_wait c). rewrite Hw. reflexivity.
Qed.

Lemma greets_tick i r t st out ms :
  _consecutive_retransmissions t = 0 -> 
  exists t' (l : list TCPSegment), tick 1000 (greets i r t st out ms) = Ok (greets i r t' st (out ++ l) (u64 (ms + 1000))) /\
    _initial_retransmission_timeout t' = _initial_retransmission_timeout t /\
    (_isTimerRunning t = true -> _isTimerRunning t' = true) /\
    (l = [] \/ l = [stamp r (syn_segment i)]).
Proof.
  intros Hc. set (c := greets _ _ _ _ _ _).
  assert (exists t' (b : bool), TCPSender.tick 1000 (_sender c) = Ok ((_sender c) <| timer := t' |> <| TCPSender._segments_out := if b then [syn_segment i] else [] |>) /\
    _initial_retransmission_timeout t' = _initial_retransmission_timeout t /\ (_isTimerRunning t = true -> _isTimerRunning t' = true) /\
    _consecutive_retransmissions t' <= 1) as (t' & b & E & Ei & Hrun & Hc').
  { unfold TCPSender.tick. change (timer (_sender c)) with t.
    destruct (_isTimerRunning t) eqn:Hrt; [|exists t, false; split; [done|]; split_and!; [done|done|lia]].
    set (s := (_sender c) <| timer := _ |>). destruct (_ <=? _).
    2: { exists (timer s), false. split; [reflexivity|]. split_and!; [done|done|cbn; lia]. }
    unfold timeoutRetransmit. change (_finAcked (unAckQueue s)) with false. cbv iota.
    assert (retransmitSeg s = Ok (syn_segment i, s)) as ->.
    { unfold retransmitSeg. cbn [_finSent _synSent _synAcked unAckQueue s upd eta eta_TCPSender _sender c greets andb negb].
      unfold makeSynSeg. change (2 <=? remainSpace _) with false. rewrite andb_false_r. reflexivity. }
    cbn [mbind outcome_bind].
    match goal with |- context [@Ok TCPSender ?s'] => exists (timer s'), true end. split; [reflexivity|]. cbn. rewrite Hc.
    destruct (_doubleTimeout t); by split_and!. }
 
  exists t', (if b then [stamp r (syn_segment i)] else []). split; [|split; [done|]; split; [done|by destruct b; [right|left]]].
  rewrite (tick_sender c t' _ eq_refl eq_refl E) by lia. by destruct b.
Qed.

(** Both endpoints, with these receivers, timers and outbound segments. *)
Definition opening (rx ry : TCPReceiver) (tx ty : Timer) (outx outy : list TCPSegment) b : Prop :=
  exists st msx msy, ByteStream._capacity st = send_capacity cfg /\ x b = greets isnx rx tx st outx msx /\
    y b = greets isny ry ty (end_input (ByteStream.new (send_capacity cfg))) outy msy.

Lemma opening_start :
  opening (TCPReceiver.new cap) (TCPReceiver.new cap) (syn_timer cfg) (syn_timer cfg)
    [syn_segment isnx] [syn_segment isny] (bench_start random_x random_y cfg D).
Proof. exists (ByteStream.new (send_capacity cfg)), 0, 0. by rewrite start_x, start_y. Qed.

Lemma opening_stream rx ry tx ty outx outy b st c rest closed :
  opening rx ry tx ty outx outy b -> ByteStream._capacity st = send_capacity cfg ->
  c = updateOutput (fill (on_sender_stream (fun _ => st) (x b))) ->
  opening rx ry tx ty outx outy (b <| x := c |> <| bytes_to_send := rest |> <| x_closed := closed |>).
Proof.
  intros (st0 & msx & msy & _ & Ex & Ey) Hc ->. exists st, msx, msy. split; [done|]. split; [|exact Ey].
  cbn [x upd eta eta_bench]. rewrite Ex.
  change (on_sender_stream _ _) with (greets isnx rx tx st outx msx). by rewrite fill_greets, update_greets.
Qed.

Lemma write_capacity data st : ByteStream._capacity (snd (ByteStream.write data st)) = ByteStream._capacity st.
Proof. unfold ByteStream.write. by destruct (_ || _). Qed.

Lemma opening_write_input rx ry tx ty outx outy fuel : forall b b',
  opening rx ry tx ty outx outy b -> write_input fuel b = Ok b' -> opening rx ry tx ty outx outy b'.
Proof.
  induction fuel as [|fuel IH]; intros b b' O; cbn [write_input]; (destruct (_ || _); [by intros [= <-]|]); [done|].
  unfold write. set (data := ztake _ _). destruct (zlen data =? 0).
  - destruct (negb _); [done|]. intros H. apply bind_Ok in H as (rest & _ & H). eapply IH; [|exact H].
    destruct O as (st & msx & msy & O). by exists st, msx, msy.
  - destruct (ByteStream.write data (_stream (_sender (x b)))) as [n st] eqn:E. destruct (negb _); [done|].
    intros H. apply bind_Ok in H as (rest & _ & H). eapply IH; [|exact H].
    pose proof (write_capacity data (_stream (_sender (x b)))) as Hc. rewrite E in Hc. cbn [snd] in Hc.
    pose proof O as (st0 & msx & msy & Hc0 & Ex & _). rewrite Ex in Hc. cbn in Hc.
    exact (opening_stream _ _ _ _ _ _ b st _ rest (x_closed b) O ltac:(congruence) eq_refl).
Qed.

Lemma opening_close_input rx ry tx ty outx outy b :
  opening rx ry tx ty outx outy b -> opening rx ry tx ty outx outy (close_input b).
Proof.
  intros O. unfold close_input. destruct (_ && _); [|done].
  pose proof O as (st0 & msx & msy & Hc0 & Ex & _).
  refine (opening_stream _ _ _ _ _ _ b (end_input st0) _ (bytes_to_send b) true O Hc0 _). rewrite Ex. reflexivity.
Qed.

Lemma receive_one_in_order reorder seg c : receive_all (order reorder [seg]) c = segment_received seg c.
Proof. destruct reorder; cbn; by destruct (segment_received seg c). Qed.

Lemma read_output_nothing b : buffer_size (inbound_stream (y b)) = 0 -> read_output b = b.
Proof. unfold read_output. by intros ->. Qed.

(** The first round: both have the other's SYN, and [x] acknowledges it. *)
Lemma first_round reorder b b' :
  opening (TCPReceiver.new cap) (TCPReceiver.new cap) (syn_timer cfg) (syn_timer cfg) [syn_segment isnx] [syn_segment isny] b ->
  rest_of_loop reorder b = Ok b' ->
  exists tx ty lx ly, _initial_retransmission_timeout tx = rt_timeout cfg /\
    _initial_retransmission_timeout ty = rt_timeout cfg /\ _isTimerRunning tx = true /\
    (lx = [] \/ lx = [stamp (syn_received cfg isny) (syn_segment isnx)]) /\
    (ly = [] \/ ly = [stamp (syn_received cfg isnx) (syn_segment isny)]) /\
    opening (syn_received cfg isny) (syn_received cfg isnx) tx ty
      (stamp (syn_received cfg isny) (ack_segment isnx) :: lx) ly b'.
Proof.
  intros (st & msx & msy & Hc & Ex & Ey). unfold rest_of_loop, move_segments. rewrite Ex, Ey. cbn [segments_out _segments_out greets app].
  rewrite receive_one_in_order, greets_syn. cbn [mbind outcome_bind]. rewrite bool_decide_eq_false_2 by done.
  cbn [segments_out _segments_out greets app order].
  change (drain (greets isnx (TCPReceiver.new cap) (syn_timer cfg) st [syn_segment isnx] msx)) with
    (greets isnx (TCPReceiver.new cap) (syn_timer cfg) st [] msx).
  cbn [receive_all]. rewrite greets_syn. cbn [mbind outcome_bind]. rewrite bool_decide_eq_true_2 by done.
  rewrite read_output_nothing by reflexivity. cbn [x y upd eta eta_bench].
  destruct (greets_tick isnx (syn_received cfg isny) (syn_timer cfg) st [stamp (syn_received cfg isny) (ack_segment isnx)] 0)
    as (tx & lx & -> & Hix & Hrun & Hlx); [done|]. cbn [mbind outcome_bind].
  match goal with |- context [drain ?c] => change (drain c) with
    (greets isny (syn_received cfg isnx) (syn_timer cfg) (end_input (ByteStream.new (send_capacity cfg))) [] 0) end.
  destruct (greets_tick isny (syn_received cfg isnx) (syn_timer cfg) (end_input (ByteStream.new (send_capacity cfg))) [] 0)
    as (ty & ly & -> & Hiy & _ & Hly); [done|]. cbn [mbind outcome_bind]. intros [= <-].
  exists tx, ty, lx, ly. split_and!; try done; [by apply Hrun|]. by eexists st, _, _.
Qed.

(** ** The second round *)

Abbreviation first_window := (Z.max 1 (first_win cfg)).

(** [y] with SYN acknowledged and FIN sent. *)
Definition closes (t : Timer) (sizes : list Z) (st : ByteStream) (out : list TCPSegment) (ms : Z) : TCPConnection :=
  mkTCPConnection cfg (syn_received cfg isnx)
    (mkTCPSender t isny st [] (mkUnAckQueue [] sizes true true true false 1 2 first_window)) out true true ms false.

(** FIN, as [fill_window] sends it for an empty stream: by the first branch, or by the loop when the
    window is 1. *)
Lemma fill_fin t : _isTimerRunning t = false ->
  exists t' sizes st seg,
    fill_window (mkTCPSender t isny (end_input (ByteStream.new (send_capacity cfg))) []
      (mkUnAckQueue [] [] true true false false 1 1 first_window)) =
      mkTCPSender t' isny st [seg] (mkUnAckQueue [] sizes true true true false 1 2 first_window) /\
    _consecutive_retransmissions t' = 0 /\ plain seg /\ syn (_header seg) = false /\ fin (_header seg) = true.
Proof.
  intros Ht. set (s := mkTCPSender _ _ _ _ _).
  assert (Hw : 1 <= first_window < 0x10000) by (unfold first_win; pose proof (u16_range (u64 cap)); lia).
  assert (Hrem : remainSpace s = first_window).
  { unfold remainSpace. change (UnAckQueue.bytesInFlight (unAckQueue s)) with 0. rewrite Z.sub_0_r.
    change (_win_size (unAckQueue s)) with first_window. apply u64_id. lia. }
  unfold fill_window. change (_ || _) with false. cbv iota. change (negb (_synSent (unAckQueue s))) with false. cbv iota.
  rewrite Hrem. change (negb (_finSent (unAckQueue s)) && eof (_stream s)) with true. cbn [andb].
  destruct (Z.ltb_spec 1 first_window) as [H1|H1].
  - set (seg := headerSeg (TCPHeader.default <| seqno := wrap 1 isny |> <| fin := true |>)).
    set (s1 := mkTCPSender (Timer.startTimer t) isny (end_input (ByteStream.new (send_capacity cfg))) [seg]
      (mkUnAckQueue [] [] true true true false 1 2 first_window)).
    exists (Timer.startTimer t), [], (end_input (ByteStream.new (send_capacity cfg))), seg. split; [|done].
    assert (makeFirstFinSeg s = (seg, s1 <| timer := t |> <| TCPSender._segments_out := [] |>)) as -> by reflexivity.
    cbv iota zeta. unfold firstPush. cbn [upd eta eta_TCPSender timer]. rewrite Ht. cbn [negb].
    transitivity (fill_loop 2 s1); [reflexivity|]. rewrite fill_loop_S.
    change (hasContentToPush s1) with false. by rewrite andb_false_r.
  - assert (E1 : first_window = 1) by lia. unfold s. rewrite E1. clear s Hw Hrem H1 E1.
    set (st := end_input (ByteStream.new (send_capacity cfg))). set (st' := snd (read 1 st)).
    set (seg := mkTCPSegment (TCPHeader.default <| seqno := wrap 1 isny |> <| fin := true |>) (of_string [])).
    set (s0 := mkTCPSender t isny st [] (mkUnAckQueue [] [] true true false false 1 1 1)).
    set (s1 := mkTCPSender (Timer.startTimer t) isny st' [seg] (mkUnAckQueue [] [0] true true true false 1 2 1)).
    exists (Timer.startTimer t), [0], st', seg. split; [|done]. transitivity (fill_loop 2 s0); [reflexivity|].
    rewrite fill_loop_S. change ((0 <? remainSpace s0) && hasContentToPush s0) with true. cbv iota.
    assert (fill_round s0 = s1) as ->.
    { unfold fill_round.
      assert (makePayLoadSeg s0 = (seg, s1 <| timer := t |> <| TCPSender._segments_out := [] |>
        <| unAckQueue := mkUnAckQueue [] [] true true true false 1 2 1 |>)) as -> by reflexivity.
      cbv iota zeta. unfold firstPush. cbn [upd eta eta_TCPSender timer]. rewrite Ht. reflexivity. }
    rewrite fill_loop_S. change (hasContentToPush s1) with false. by rewrite andb_false_r.
Qed.

Lemma greets_acked i r t st out ms h :
  TCPHeader.ackno h = wrap 1 i -> win h = first_win cfg ->
  exists t', _isTimerRunning t' = false /\ recv_ack h (greets i r t st out ms) =
    Ok (mkTCPConnection cfg r (mkTCPSender t' i st [] (mkUnAckQueue [] [] true true false false 1 1 first_window))
      out true true ms false).
Proof.
  intros Ea Ew. exists (Timer.stopTimer (t <| _doubleTimeout := negb (first_win cfg =? 0) |>)). split; [done|].
  unfold recv_ack, ack_received. rewrite Ea, Ew. cbn [_sender greets].
  cbn [TCPSender._isn unAckQueue setWindowSize upd eta eta_TCPSender eta_UnAckQueue _baseSqn].
  rewrite unwrap_first by lia.
  assert (E : (if 0 <? first_win cfg then first_win cfg else 1) = first_window).
  { destruct (Z.ltb_spec 0 (first_win cfg)); lia. }
  rewrite E. reflexivity.
Qed.

Abbreviation ack_x := (stamp (syn_received cfg isny) (ack_segment isnx)).

(** [y] at the acknowledgment of its SYN. *)
Lemma closes_ack t out ms :
  exists t' sizes st seg,
    segment_received ack_x (greets isny (syn_received cfg isnx) t (end_input (ByteStream.new (send_capacity cfg))) out ms) =
      Ok (closes t' sizes st (out ++ [stamp (syn_received cfg isnx) seg]) 0) /\
    _consecutive_retransmissions t' = 0 /\ plain seg /\ syn (_header seg) = false /\ fin (_header seg) = true.
Proof.
  set (st0 := end_input _). set (c := greets isny (syn_received cfg isnx) t st0 out 0).
  assert (Ho : out_of_order ack_x c = false).
  { unfold out_of_order, ackno. cbn [_receiver c greets syn_received _synRecv _ackno].
    assert (seqno (_header ack_x) = wrap 1 isnx) as -> by done.
    rewrite wrap_wrap_0. unfold WrappingIntegers.neqb, WrappingIntegers.eqb. by rewrite Z.eqb_refl. }
  destruct (greets_acked isny (syn_received cfg isnx) t st0 out 0 (_header ack_x)) as (t1 & Ht1 & E1);
    [change (TCPHeader.ackno (_header ack_x)) with (wrap 1 (wrap 0 isny)); apply wrap_wrap_0|apply first_win_eq|].
  destruct (fill_fin t1 Ht1) as (t' & sizes & st & seg & E2 & Hc & Hp & Hs & Hf). exists t', sizes, st, seg.
  split; [|done]. transitivity (if out_of_order ack_x c then handle_out_of_order ack_x c else handle_SYN_recv ack_x c); [reflexivity|].
  rewrite Ho. set (c1 := mkTCPConnection _ _ _ _ _ _ _ _) in E1.
  assert (E3 : updateOutput (fill c1) = closes t' sizes st (out ++ [stamp (syn_received cfg isnx) seg]) 0).
  { unfold fill, on_sender. cbn [_sender c1]. fold st0 in E2. rewrite E2. reflexivity. }
  rewrite <- E3. apply (handle_SYN_recv_bare ack_x c c1); done || by rewrite E3.
Qed.

Lemma second_y reorder t out ms lx : lx = [] \/ lx = [stamp (syn_received cfg isny) (syn_segment isnx)] ->
  exists t' sizes st seg,
    receive_all (order reorder (ack_x :: lx))
      (greets isny (syn_received cfg isnx) t (end_input (ByteStream.new (send_capacity cfg))) out ms) =
      Ok (closes t' sizes st (out ++ [stamp (syn_received cfg isnx) seg]) 0) /\
    _consecutive_retransmissions t' = 0 /\ plain seg /\ syn (_header seg) = false /\ fin (_header seg) = true.
Proof.
  intros Hlx. set (st0 := end_input _).
  destruct Hlx as [->| ->].
  { rewrite receive_one_in_order. apply closes_ack. }
  set (sg := stamp _ (syn_segment _)). destruct reorder; cbn [order rev app receive_all].
  - rewrite syn_ignored by done. cbn [mbind outcome_bind].
    change (_ <| _time_since_last_segment_received := 0 |>) with (greets isny (syn_received cfg isnx) t st0 out 0).
    destruct (closes_ack t out 0) as (t' & sizes & st & seg & E & H). exists t', sizes, st, seg. split; [|exact H].
    unfold st0. by rewrite E.
  - destruct (closes_ack t out ms) as (t' & sizes & st & seg & E & H). exists t', sizes, st, seg. split; [|exact H].
    unfold st0. rewrite E. cbn [mbind outcome_bind]. by rewrite syn_ignored.
Qed.

Lemma closes_tick t sizes st ms : _consecutive_retransmissions t = 0 ->
  exists t' out ms', tick 1000 (closes t sizes st [] ms) = Ok (closes t' sizes st out ms') /\
    0 <= _consecutive_retransmissions t' <= 1 /\ Forall (modest isnx isny) out.
Proof.
  intros Hc. set (c := closes _ _ _ _ _). set (sg := makeNotFirstFinSeg (_sender c)).
  assert (exists t' (b : bool), TCPSender.tick 1000 (_sender c) =
      Ok ((_sender c) <| timer := t' |> <| TCPSender._segments_out := if b then [sg] else [] |>) /\
    0 <= _consecutive_retransmissions t' <= 1) as (t' & b & E & Hc').
  { unfold TCPSender.tick. change (timer (_sender c)) with t.
    destruct (_isTimerRunning t); [|exists t, false; split; [done|lia]].
    set (s := (_sender c) <| timer := _ |>). destruct (_ <=? _).
    2: { exists (timer s), false. split; [reflexivity|cbn; lia]. }
    unfold timeoutRetransmit. change (_finAcked (unAckQueue s)) with false. cbv iota.
    assert (retransmitSeg s = Ok (sg, s)) as -> by reflexivity. cbn [mbind outcome_bind].
    match goal with |- context [@Ok TCPSender ?s'] => exists (timer s'), true end. split; [reflexivity|]. cbn. rewrite Hc.
    destruct (_doubleTimeout t); by cbn. }
  rewrite (tick_sender c t' _ eq_refl eq_refl E) by lia.
  exists t', (stamp (syn_received cfg isnx) <$> if b then [sg] else []), (u64 (ms + 1000)).
  split; [reflexivity|]. split; [done|]. destruct b; [|constructor]. apply Forall_singleton. right. split; [done|].
  exact (wrap_wrap_0 1 isnx).
Qed.

(** [x] with [y]'s FIN: its own SYN is acknowledged, and it may send. *)
Record opened c : Prop := mk_opened {
  od_delivers : delivers isnx (mkUnAckQueue [] [] true false false false 0 1 1) (unAckQueue (_sender c)) (segments_out c);
  od_plain : Forall plainly (segments_out c);
  od_syn : _synRecv (_receiver c) = true;
  od_clock : fresh (timer (_sender c)) /\ clock_ok (timer (_sender c));
  od_base : 1 <= _baseSqn (unAckQueue (_sender c));
  od_state : x_done c \/ x_ready c;
  od_acks : Exists (acks_fin isny) (segments_out c) }.

Section opens.
Context (t : Timer) (st : ByteStream) (ms : Z) (seg : TCPSegment) (c' : TCPConnection).
Context (w : bytes) (e : bool) (sent : list TCPSegment) (g g' : progress) (n ed : Z).
Abbreviation c := (greets isnx (syn_received cfg isny) t st [] ms).
Hypothesis t_initial : _initial_retransmission_timeout t = rt_timeout cfg.
Hypothesis t_running : _isTimerRunning t = true.
Hypothesis st_capacity : ByteStream._capacity st = send_capacity cfg.
Hypothesis w_short : zlen w < 0x7fffffff.
Hypothesis c_session : conn_session isnx isny [] cfg w e sent [] c.
Hypothesis c_steady : steady isnx isny [] cap w g g' 0 0 c.
Hypothesis seg_arrives : arrives isnx isny [] g g' n ed seg c.
Hypothesis seg_syn : syn (_header seg) = false.
Hypothesis seg_fin : fin (_header seg) = true.
Hypothesis seg_ack : ack (_header seg) = true.

(** The segment ends the stream of [y], which is empty. *)
Lemma opens_length : 0 < length_in_sequence_space seg.
Proof.
  rewrite length_data; [|done|].
  - rewrite seg_fin. cbn [b2n]. lia.
  - destruct seg_arrives as [[(-> & _)|(i & ? & ? & _ & Hm & _)] _ _ _ _]; [done|]. unfold MAX_PAYLOAD_SIZE in Hm. lia.
Qed.

Lemma opens_in_order : out_of_order seg c = false.
Proof.
  destruct seg_arrives as [[(_ & _ & ?)|(i & ? & Hi0 & _ & _ & Hsq & _)] _ _ _ _]; [congruence|]. rewrite seg_syn in Hsq.
  assert (i = 0) as -> by (change (zlen []) with 0 in Hi0; lia).
  unfold out_of_order, ackno. cbn [_receiver greets syn_received _synRecv _ackno].
  rewrite Hsq, wrap_wrap_0. unfold WrappingIntegers.neqb, WrappingIntegers.eqb. by rewrite Z.eqb_refl.
Qed.

Lemma opens_receiver s2 (b : bool) : shaped seg c c' s2 b ->
  _synRecv (_receiver c') = true /\ receiver_FIN_recv c' = true /\ ackno (_receiver c') = Some (wrap 2 isny).
Proof.
  intros Sh. pose proof (wf_send_capacity _ config_wf) as Hsc.
  pose proof (new_isn_valid cfg random_y config_wf) as Vy. pose proof seg_arrives as [A M _ _ Hcuts].
  destruct (session_ok cfg D ltac:(lia) Hsc isnx isny [] nil_short _ _ _ _ _ c_session w_short)
    as [(f0 & r0 & ps & pe & [_ _ _ _ _ Ir [Er|[Er _]]]) _]; [|discriminate Er].
  assert (HC : cover [] cap isny (_receiver c') [] 0 true).
  { eapply (cover_segment [] cap isny cap_range nil_short Vy g' (_receiver c)); try done.
    - rewrite Er. exists [], ps, pe. split; [exact Ir|]. split; [intros j; lia|]. intros _. right. exists seg. split; [by left|done].
    - destruct (sp_receiver _ _ _ _ _ Sh) as [?|[? [?|[?|?]]]]; [by left|congruence|right; split; [done|by right]|done]. }
  destruct (shaped_receiver _ _ _ _ _ Sh) as [Hsy _]. specialize (Hsy eq_refl).
  by destruct (cover_ackno [] cap isny cap_range nil_short _ HC Hsy) as [Hfin Hackno].
Qed.

(** [x]'s sender when it has heard that SYN arrived. *)
Lemma opens_sender s2 : heard seg (_sender c) s2 -> exists fi, sender_inv s2 fi /\ zlen (hist fi) < 0x7fffffff /\ pacing g s2 /\
  _finSent (unAckQueue s2) = false /\ sent_bytes (unAckQueue s2) = sent_bytes (unAckQueue (_sender c)) /\
  _synAcked (unAckQueue s2) = true /\ 1 <= _baseSqn (unAckQueue s2) /\ fresh (timer s2) /\ clock_ok (timer s2) /\ guarded s2 /\
  TCPSender._isn s2 = isnx /\ ByteStream._capacity (_stream s2) = send_capacity cfg /\ TCPSender._segments_out s2 = [].
Proof.
  intros Hh. set (c1 := greets _ _ _ _ _ _) in *. pose proof c_steady as [(fi & I & Hw) Hisn HP _ _ _]. pose proof seg_arrives as [_ _ W Ha _].
  destruct (Ha seg_ack) as [[Hn G] _]. pose proof (heard_queue _ _ _ Hh) as Hq2.
  unfold heard in Hh. rewrite seg_syn, seg_ack, Hn, <- Hisn in Hh.
  destruct (ack_received_moved _ fi g n _ s2 I HP G ltac:(by rewrite Hw) W Hh)
    as (M1 & G2 & Hf2 & Hs2 & Ha2 & Hb2 & I2 & HP2).
  pose proof (good_pos fi g _ n (se_queue _ _ I) (proj1 HP) G) as Hpos.
  change (_baseSqn (unAckQueue (_sender c1))) with 0 in Hb2.
  assert (Hfr : fresh (timer s2)) by (apply (mv_fresh _ _ M1); change (_baseSqn (unAckQueue (_sender c1))) with 0; lia).
  destruct (ack_received_spec _ fi _ n _ I (good_ack_ok _ fi g n I (proj1 HP) G ltac:(by rewrite Hw)) W)
    as (s3 & E3 & _ & _ & Hi3 & Hst3 & _). rewrite Hh in E3. apply Ok_inj in E3 as <-.
  exists fi. split_and!; try done; try lia; [by rewrite Hw| |by apply G2; intros _ _|by rewrite Hst3].
  apply clock_ok_fresh; [|exact Hfr]. rewrite (mv_initial _ _ M1). change (timer (_sender c1)) with t. rewrite t_initial.
  pose proof (wf_rt_timeout _ config_wf). lia.
Qed.

(** What it sends acknowledges FIN. *)
Lemma opens_acks s : Forall (made (_receiver c') (_sender c) s) (segments_out c') -> segments_out c' <> [] ->
  ackno (_receiver c') = Some (wrap 2 isny) ->
  Forall (fun sg => syn (_header sg) = false) (TCPSender._segments_out s) -> Forall plain (TCPSender._segments_out s) ->
  Exists (acks_fin isny) (segments_out c').
Proof.
  intros Hmade Hne Hackno Hsyns Hpl. destruct (segments_out c') as [|sg l]; [done|]. apply Exists_cons_hd.
  apply Forall_cons in Hmade as [Hm _].
  assert (exists sg0, syn (_header sg0) = false /\ rst (_header sg0) = false /\ sg = stamp (_receiver c') sg0)
    as (sg0 & Hs0 & Hr0 & ->).
  { destruct Hm as [Hm|[Hm|(sg0 & Hin & ->)]]; try (by eexists; split; [|split; [|exact Hm]]). exists sg0. rewrite Forall_forall in Hsyns, Hpl.
    split; [by apply Hsyns|]. split; [|done]. by destruct (Hpl _ Hin) as (_ & ? & _). }
  unfold acks_fin, stamp. rewrite Hackno, Hr0. by split_and!.
Qed.

Lemma x_opens : segment_received seg c = Ok c' -> rst (_header seg) = false -> opened c'.
Proof.
  intros Ec Hr. pose proof (wf_send_capacity _ config_wf) as Hsc.
  destruct (segment_received_shaped seg c c' Ec eq_refl eq_refl eq_refl Hr) as (_ & s2 & b & Sh).
  destruct (opens_receiver s2 b Sh) as (Hsy & Hfin & Hackno).
  destruct (opens_sender s2 (sp_heard _ _ _ _ _ Sh)) as (fi & I2 & Hlen & HP2 & Hf2 & Hs2 & Ha2 & Hb2 & Hfr & Hck & Hg2 & Hi2 & Hst2 & Hq2).
  destruct (sp_fills _ _ _ _ _ Sh seg_syn seg_ack ltac:(done)) as [-> Hac'].
  destruct (fill_ready s2 fi g I2 HP2 Hlen Hq2 Ha2 Hck Hg2) as (M3 & Hpl & D3 & Ha3 & F3 & K3 & G3 & R3 & C3 & N3).
  destruct (sp_sends _ _ _ _ _ Sh) as (Es & _ & segs' & Eo & Hmade & Hall).
  change (segments_out c) with (@nil TCPSegment) in Eo. cbn [app] in Eo. subst segs'.
  destruct (mv_still _ _ M3 Hfr) as (_ & _ & Hz). destruct (sp_closing _ _ _ _ _ Sh eq_refl Hfin) as [Hoo|Hcl].
  { rewrite opens_in_order in Hoo. discriminate Hoo. }
  split.
  - rewrite Es. change (unAckQueue (silent (fill_window s2))) with (unAckQueue (fill_window s2)). rewrite Hi2 in D3.
    eapply stamp_delivers; [|exact Hall].
    exact (delivers_trans _ _ _ _ [] _ (delivers_same isnx (unAckQueue (_sender c)) _ Hs2 Hf2) D3).
  - eapply Forall_impl; [exact Hmade|]. intros sg. by apply made_plainly.
  - exact Hsy.
  - rewrite Es. split; [by apply (mv_still _ _ M3)|exact K3].
  - rewrite Es. change (unAckQueue (silent (fill_window s2))) with (unAckQueue (fill_window s2)).
    pose proof (mv_base _ _ M3). lia.
  - assert (Hcnt : _consecutive_retransmissions (timer (_sender c')) <= MAX_RETX_ATTEMPTS).
    { rewrite Es. change (timer (silent (fill_window s2))) with (timer (fill_window s2)). rewrite Hz. done. }
    destruct (_finSent (unAckQueue (_sender c'))) eqn:Hfs; [left|right]; destruct Hcl as [Hl1 Hl2].
    + rewrite Es in Hfs, Hcnt. split; rewrite ?Es; try done; [by left|]. intros _ _. by apply N3.
    + rewrite Es in Hcnt. split; try done; rewrite Es; try done.
      change (_stream (silent (fill_window s2))) with (_stream (fill_window s2)). lia.
  - pose proof opens_length as Hpos.
    eapply opens_acks; [exact Hmade|by apply (sp_replies _ _ _ _ _ Sh)|exact Hackno| |exact Hpl].
    apply fill_window_syn; [apply (pc_syn _ _ (proj1 HP2))|]. rewrite Hq2. constructor.
Qed.
End opens.

(** Its exchange: [y] has sent FIN and [x] is [opened]. *)
Lemma second_exchange reorder gx gy b tx ty lx ly :
  bench_inv cfg D isnx isny gx gy b -> drained cfg b ->
  opening (syn_received cfg isny) (syn_received cfg isnx) tx ty (ack_x :: lx) ly b ->
  _initial_retransmission_timeout tx = rt_timeout cfg -> _isTimerRunning tx = true ->
  lx = [] \/ lx = [stamp (syn_received cfg isny) (syn_segment isnx)] ->
  ly = [] \/ ly = [stamp (syn_received cfg isnx) (syn_segment isny)] ->
  exists t' sizes st out cx gx' gy', let cy := closes t' sizes st out 0 in
    receive_all (order reorder (segments_out (x b))) (y b) = Ok cy /\ receive_all (segments_out cy) (drain (x b)) = Ok cx /\
    bench_inv cfg D isnx isny gx' gy' (b <| x := cx |> <| y := drain cy |>) /\ opened cx /\
    _consecutive_retransmissions t' = 0 /\
    steady isny isnx D cap [] gy' gx' (acked (_receiver cy)) (edge (_receiver cy)) (drain cy) /\
    within (acked (_receiver cy)) (edge (_receiver cy)) (_sender cx).
Proof.
  intros HI Hdr (st & msx & msy & Hcap & Ex & Ey) Hi Hrun Hlx Hly. pose proof (wf_send_capacity _ config_wf) as Hsc.
  pose proof (new_isn_valid cfg random_x config_wf) as Vx. pose proof (new_isn_valid cfg random_y config_wf) as Vy.
  destruct (second_y reorder ty ly msy lx Hlx) as (ty' & sizes & sty & sg0 & Ey1 & Hcy & (_ & Hr0 & _) & Hs0 & Hf0).
  set (cy := closes _ _ _ _ _) in Ey1. set (sg := stamp (syn_received cfg isnx) sg0) in *.
  assert (Hsg : syn (_header sg) = false /\ fin (_header sg) = true /\ ack (_header sg) = true /\ rst (_header sg) = false).
  { unfold sg, stamp. change (ackno _) with (Some (wrap 1 (wrap 0 isnx))). rewrite Hr0. by split_and!. }
  destruct Hsg as (Hg1 & Hg2 & Hg3 & Hg4). clearbody sg. pose proof HI as [_ _ _ (senty & Hsy & Sty) Hfits].
  destruct (exchange_with cfg D isnx isny cap_range Hsc short Vx Vy reorder gx gy b _ _
    (fun segs c => receive_all segs c = Ok cy)
    (fun _ segs c => (exists l ms, segs = l ++ [sg] /\ (l = [] \/ l = [stamp (syn_received cfg isnx) (syn_segment isny)]) /\
        c = greets isnx (syn_received cfg isny) tx st [] ms) \/ segs = [] /\ opened c)
    HI Hdr (conj Hfits (conj (Z.le_refl _) (Z.le_refl _))) (ex_intro _ senty Hsy) Sty)
    as (cx & cy' & gx1 & gy1 & E1 & E2 & HI1 & HP & HQ & Sy1 & Wi1).
  - intros seg segs c c' sent g n ed E _ _ _. cbn [receive_all]. by rewrite E.
  - intros _ seg segs c c' w sent g g' n ed E Hl Hse St Ar _ [(l & ms & El & Hl' & Ec)|[? _]]; [|done]. subst c.
    destruct Hl' as [->| ->]; cbn [app] in El; injection El as -> ->.
    + right. split; [done|]. by eapply (x_opens tx st ms sg).
    + rewrite syn_ignored in E by done. injection E as <-. left. exists [], 0. split; [done|]. split; [by left|done].
  - rewrite Ex, Ey. exact Ey1.
  - intros c Ec. cbn [receive_all] in Ec. injection Ec as ->. left. exists ly, msx. rewrite Ex. by split_and!.
  - injection HP as ->. destruct HQ as [(l & ms & El & _)|[_ Od]]; [by destruct l|].
    exists ty', sizes, sty, (ly ++ [sg]), cx, gx1, gy1. by split_and!.
Qed.

(** [y] has nothing of the data yet. *)
Lemma closes_cover gx gy b t sizes st ms :
  bench_inv cfg D isnx isny gx gy b -> y b = closes t sizes st [] ms -> cover D cap isnx (syn_received cfg isnx) [] 0 false.
Proof.
  intros HI Ey. pose proof (wf_send_capacity _ config_wf) as Hsc. destruct (bi_y _ _ _ _ _ _ _ HI) as (sent & Hs & _).
  destruct (session_ok cfg D cap_range Hsc isny isnx D short _ _ _ _ _ Hs nil_short)
    as [(f & r & ps & pe & [_ _ _ _ _ Ir Hr]) _]. rewrite Ey in Hr.
  destruct Hr as [Er|[Er _]]; [|discriminate Er]. change (_receiver _) with (syn_received cfg isnx) in Er.
  rewrite Er. eexists _, ps, pe. split; [exact Ir|]. split; [|done]. intros j Hj. lia.
Qed.

Lemma second_round reorder gx gy b b' tx ty lx ly :
  bench_inv cfg D isnx isny gx gy b -> drained cfg b ->
  opening (syn_received cfg isny) (syn_received cfg isnx) tx ty (ack_x :: lx) ly b ->
  _initial_retransmission_timeout tx = rt_timeout cfg -> _isTimerRunning tx = true ->
  lx = [] \/ lx = [stamp (syn_received cfg isny) (syn_segment isnx)] ->
  ly = [] \/ ly = [stamp (syn_received cfg isnx) (syn_segment isny)] ->
  rest_of_loop reorder b = Ok b' -> going cfg D isnx isny b'.
Proof.
  intros HI Hdr O Hi Hrun Hlx Hly. pose proof (wf_send_capacity _ config_wf) as Hsc.
  destruct (second_exchange reorder gx gy b tx ty lx ly HI Hdr O Hi Hrun Hlx Hly)
    as (t & sizes & st & out & cx & gx1 & gy1 & E1 & E2 & HI1 & Od & Hcy & Sy1 & Wi1).
  set (cy := closes _ _ _ _ _) in *. clear gx gy HI Hdr O.
  unfold rest_of_loop, move_segments. cbn [app]. rewrite E1. cbn [mbind outcome_bind order app]. rewrite E2.
  cbn [mbind outcome_bind]. set (b1 := b <| x := cx |> <| y := drain cy |>) in *.
  assert (Hb1 : buffer_size (inbound_stream (y b1)) = 0) by reflexivity.
  destruct (read_output_inv cfg D isnx isny cap_range Hsc short gx1 gy1 b1 HI1) as (_ & _ & _ & Hdr1 & _).
  rewrite (read_output_nothing b1 Hb1) in *.
  destruct (ticks_ok cfg D isnx isny cap_range Hsc short _ _ b1 _ _ HI1 Hdr1 Wi1 Sy1)
    as (cx' & cy' & gx2 & gy2 & Ex' & Ey' & HI2 & Hdr2 & Sy2).
  rewrite Ex', Ey'. cbn [mbind outcome_bind]. intros [= <-].
  change (y b1) with (closes t sizes st [] 0) in Ey'. change (x b1) with cx in Ex'.
  destruct (closes_tick t sizes st 0 Hcy) as (ty2 & out2 & ms' & Ey2 & Hcnt & Hout).
  rewrite Ey' in Ey2. injection Ey2 as ->. destruct Od as [Dl Hpl Hsyn [Hfr Hck] Hbx Hst Hacks].
  destruct (bench_x cfg D isnx isny cap_range ltac:(lia) short gx1 gy1 b1 HI1) as (w & sent & f & _ & Hw & _ & _ & _ & _ & _ & _ & Hse & St).
  change (x b1) with cx in Hse, St. destruct Hfr as (_ & _ & Hz).
  destruct (x_ticked cfg D isnx isny cap_range ltac:(lia) short w _ sent gx1 gy1 cx Hw Hse St Hck ltac:(lia))
    as (c & segs & Ec & Eq & Er & Eo & Hpl2 & Hd & Hx). rewrite Ex' in Ec. apply Ok_inj in Ec as <-.
  exists gx2, gy2, (edge (_receiver cy)). split; cbn [x y upd eta eta_bench]; try done.
  - unfold within, FlowControl.fits in *. by rewrite Eq.
  - right. split; [done|]. rewrite Eo. apply Exists_app. by left.
  - rewrite Eo, Eq.
    assert (Dl2 : delivers isnx (mkUnAckQueue [] [] true false false false 0 1 1) (unAckQueue (_sender cx)) (segments_out cx ++ segs)).
    { eapply delivers_trans; [exact Dl|apply delivers_again]. }
    refine (cover_more D cap isnx cap_range _ [] _ _ _ _ Dl2). exact (closes_cover gx1 gy1 b1 t sizes st 0 HI1 eq_refl).
  - rewrite Eo. by apply Forall_app.
  - by rewrite Er.
  - by rewrite Eq.
  - rewrite Eq. destruct Hst as [?|X]; [left; auto|right]. destruct (Hx X) as (X' & Hle & _).
    split; [done|]. split; [lia|]. split; [lia|right; lia].
Qed.

(** The first loop ends. *)
Lemma bench_finishes reorder : finishes cfg D isnx isny reorder (bench_start random_x random_y cfg D).
Proof.
  pose proof (wf_send_capacity _ config_wf) as Hsc.
  pose proof (new_isn_valid cfg random_x config_wf) as Vx. pose proof (new_isn_valid cfg random_y config_wf) as Vy.
  assert (Hround : forall gx gy b, bench_inv cfg D isnx isny gx gy b -> drained cfg b ->
    exists b1 b2 gx1 gx2 gy2, write_input (input_fuel b) b = Ok b1 /\
      bench_inv cfg D isnx isny gx1 gy (close_input b1) /\ drained cfg (close_input b1) /\
      rest_of_loop reorder (close_input b1) = Ok b2 /\ loop reorder b = Ok b2 /\
      bench_inv cfg D isnx isny gx2 gy2 b2 /\ drained cfg b2).
  { intros gx gy b HI Hdr.
    destruct (write_input_ok cfg D isnx isny cap_range Hsc short gy (input_fuel b) gx b HI)
      as (b1 & gx1 & E1 & HI1 & Hy1 & _); [unfold input_fuel, Buffer.size; lia|].
    destruct (close_input_ok cfg D isnx isny cap_range gx1 gy b1 HI1) as (gx2 & _ & HI2 & Hy2 & _).
    destruct (loop_ok cfg D isnx isny cap_range Hsc short Vx Vy reorder gx gy b HI Hdr)
      as (b2 & _ & gx3 & gy3 & E2 & HI3 & Hdr3 & _).
    exists b1, b2, gx2, gx3, gy3. split_and!; try done.
    - unfold drained. by rewrite Hy2, Hy1.
    - rewrite loop_eq, E1 in E2. exact E2. }
  destruct (start_inv cfg D random_x random_y config_wf cap_range short) as [HI Hdr].
  destruct (Hround _ _ _ HI Hdr) as (b1 & b2 & _ & gx2 & gy2 & E1 & _ & _ & R1 & L1 & HI2 & Hdr2).
  destruct (first_round reorder (close_input b1) b2) as (tx & ty & lx & ly & Hix & _ & Hrun & Hlx & Hly & O2);
    [eapply opening_close_input, opening_write_input; [apply opening_start|exact E1]|exact R1|].
  destruct (Hround _ _ _ HI2 Hdr2) as (b3 & b4 & gx3 & _ & _ & E3 & HI3 & Hdr3 & R3 & L3 & _).
  assert (Hr2 : receiving b2 = true).
  { destruct O2 as (st & msx & msy & _ & _ & Ey). unfold receiving. rewrite Ey. reflexivity. }
  eapply finishes_loop; [reflexivity|exact L1|]. eapply finishes_loop; [exact Hr2|exact L3|].
  apply (going_finishes cfg D isnx isny cap_range ltac:(lia) short Vx Vy).
  eapply (second_round reorder gx3 gy2 (close_input b3)); [exact HI3|exact Hdr3| |exact Hix|exact Hrun|exact Hlx|exact Hly|exact R3].
  eapply opening_close_input, opening_write_input; [exact O2|exact E3].
Qed.
End start.

(** Both loops end. *)
Lemma main_loop_completes random_x random_y config string_to_send reorder :
  TCPConfig.wf config -> 0 < recv_capacity config < 0x10000 -> 0 < send_capacity config ->
  zlen string_to_send < 0x7fffffff ->
  exists n n', forall rounds rounds', (n <= rounds)%nat -> (n' <= rounds')%nat ->
    exists b, main_loop random_x random_y config string_to_send reorder rounds rounds' = Ok (true, b) /\
      string_received b = string_to_send /\ active (x b) = false /\ active (y b) = false.
Proof.
  intros W Hc Hs Hl. pose proof (wf_send_capacity _ W) as Hs2.
  destruct (bench_finishes config string_to_send random_x random_y W Hc Hs Hl reorder) as (n & b1 & E1 & Hov).
  destruct (over_ends config string_to_send (isn_of random_x config) (isn_of random_y config) Hc ltac:(lia)
    (wf_rt_timeout _ W) Hl (new_isn_valid _ _ W) (new_isn_valid _ _ W) reorder b1 Hov) as (n' & b2 & E2).
  exists n, n'. intros rounds rounds' Hn Hn'.
  pose proof (enough_rounds _ _ _ rounds _ _ Hn E1) as R1. pose proof (enough_rounds _ _ _ rounds' _ _ Hn' E2) as R2.
  destruct (main_loop_received _ _ _ _ _ _ rounds' _ W Hc Hl R1) as (d & b & E & Hr & Hd).
  assert (d = true) as ->; [|exists b; destruct (Hd eq_refl); by split_and!].
  unfold main_loop in E. rewrite R1 in E. cbn [mbind outcome_bind negb] in E.
  destruct (negb _) in E; [done|]. rewrite R2 in E. by injection E.
Qed.

(** ** Properties *)

(** C2. The benchmark completes. For any configuration with a receive capacity between 1 and 65535 and a
    send capacity that is not zero, any random numbers, data of less than 2^31 - 1 bytes, in order or
    reordered, both loops of [main_loop] end after finitely many rounds: the whole string is in
    the hands of [y]'s reader and neither connection is active.  No window closes for good, no lost
    turn stalls the transfer, and TIME_WAIT runs out. *)
Theorem benchmark_completes random_x random_y config string_to_send reorder :
  TCPConfig.wf config -> 0 < recv_capacity config < 0x10000 -> 0 < send_capacity config ->
  zlen string_to_send < 0x7fffffff ->
  exists n n', forall rounds rounds', (n <= rounds)%nat -> (n' <= rounds')%nat ->
    exists b, main_loop random_x random_y config string_to_send reorder rounds rounds' = Ok (true, b) /\
      string_received b = string_to_send /\ active (x b) = false /\ active (y b) = false.
Proof. intros W Hc Hs Hl. by apply main_loop_completes. Qed.

Lemma benchmark_completes_witness : exists n n' b,
  main_loop 5 7 demo_config demo_data true n n' = Ok (true, b) /\ string_received b = demo_data.
Proof.
  destruct (benchmark_completes 5 7 demo_config demo_data true) as (n & n' & H); [by split|done|done|done|].
  destruct (H n n' ltac:(lia) ltac:(lia)) as (b & E & Hr & _). by exists n, n', b.
Defined.
