(* ===== verification/Random.v ===== *)
(** * Random: the random generator and the clock (util/util.cc)

    [get_random_generator] seeds a [std::mt19937] by a [std::seed_seq] of 624 words from the
    entropy device, which are an argument.  The engine and the seeding are the Standard C++ Library's,
    with 32-bit words.  [LossyFdAdapter] draws from it. *)

From S2P Require Import Prelude.

(** ** std::mt19937 *)

Definition word_size : Z := 32.
Definition state_size : nat := 624.
Definition shift_size : nat := 397.
Definition upper_mask : Z := 0x80000000.
Definition lower_mask : Z := 0x7fffffff.
Definition xor_mask : Z := 0x9908b0df.

(** The last [state_size] values of the sequence, the oldest first. *)
Record mt19937 := mk_mt19937 { _x : list Z }.

Definition twist (x0 x1 xm : Z) : Z :=
  let y := Z.lor (Z.land x0 upper_mask) (Z.land x1 lower_mask) in
  Z.lxor (Z.lxor xm (Z.shiftr y 1)) (if Z.odd y then xor_mask else 0).

Definition temper (x : Z) : Z :=
  let z := Z.lxor x (Z.shiftr x 11) in
  let z := Z.lxor z (Z.land (Z.shiftl z 7) 0x9d2c5680) in
  let z := Z.lxor z (Z.land (Z.shiftl z 15) 0xefc60000) in
  Z.lxor z (Z.shiftr z 18).

Definition word (l : list Z) (i : nat) : Z := default 0 (l !! i).

(** [_rand()]. *)
Definition mt19937_next (g : mt19937) : Z * mt19937 :=
  let l := _x g in
  let x := twist (word l 0) (word l 1) (word l shift_size) in
  (temper x, mk_mt19937 (tail l ++ [x])).

(** ** std::seed_seq *)

Section generate.
Context (v : list Z) (n : nat).
Abbreviation s := (length v).

Definition mix (x : Z) : Z := Z.lxor x (Z.shiftr x 27).
Definition lag : nat :=
  if (623 <=? n)%nat then 11 else if (68 <=? n)%nat then 7 else if (39 <=? n)%nat then 5
  else if (7 <=? n)%nat then 3 else (n - 1) / 2.
Definition seed_p : nat := (n - lag) / 2.
Definition seed_q : nat := seed_p + lag.
Definition seed_m : nat := Nat.max (s + 1) n.

(** [begin[k % n]], and an update of it. *)
Definition slot (k : nat) : nat := k mod n.
Definition before (k : nat) : nat := (k + n - 1) mod n.
Definition update (f : Z -> Z) (k : nat) (a : list Z) : list Z := alter f (slot k) a.

Definition added (k : nat) : Z :=
  if (k =? 0)%nat then Z.of_nat s
  else if (k <=? s)%nat then Z.of_nat (slot k) + word v (k - 1)
  else Z.of_nat (slot k).

Definition first_step (a : list Z) (k : nat) : list Z :=
  let x := Z.lxor (Z.lxor (word a (slot k)) (word a (slot (k + seed_p)))) (word a (before k)) in
  let r1 := u32 (1664525 * mix x) in
  let r2 := u32 (r1 + added k) in
  let a := update (fun z => u32 (z + r1)) (k + seed_p) a in
  let a := update (fun z => u32 (z + r2)) (k + seed_q) a in
  update (fun _ => r2) k a.

Definition second_step (a : list Z) (k : nat) : list Z :=
  let x := u32 (word a (slot k) + word a (slot (k + seed_p)) + word a (before k)) in
  let r3 := u32 (1566083941 * mix x) in
  let r4 := u32 (r3 - Z.of_nat (slot k)) in
  let a := update (fun z => Z.lxor z r3) (k + seed_p) a in
  let a := update (fun z => Z.lxor z r4) (k + seed_q) a in
  update (fun _ => r4) k a.

(** [seed_seq::generate] into [n] words. *)
Definition generate : list Z :=
  let a := replicate n 0x8b8b8b8b in
  let a := foldl first_step a (seq 0 seed_m) in
  foldl second_step a (seq seed_m n).
End generate.

(** [mt19937(seed)]: a state of zeros but for the lower bits of the oldest word is avoided. *)
Definition mt19937_of_seed (v : list Z) : mt19937 :=
  let a := generate v state_size in
  mk_mt19937
    (if (Z.land (word a 0) upper_mask =? 0) && forallb (fun x => x =? 0) (tail a)
     then upper_mask :: tail a else a).

(** [get_random_generator()]; [rd] are the answers of the device. *)
Definition get_random_generator (rd : nat -> Z) : mt19937 :=
  let seed_data := rd <$> seq 0 state_size in
  mt19937_of_seed seed_data.

(** ** The clock

    [now] is what [steady_clock::now()] gives, in nanoseconds: the first call reads it twice, for the static
    [program_start], here the state. *)

Definition timestamp_ms (program_start : option Z) (first now : Z) : Z * option Z :=
  let start := default first program_start in
  (u64 (Z.quot (now - start) 1000000), Some start).

(** ** Words *)

Lemma u32_bits z : is_u32 z <-> 0 <= z /\ forall i, 32 <= i -> Z.testbit z i = false.
Proof.
  change 0x100000000 with (2 ^ 32). split.
  - intros [H0 H]. split; [done|]. intros i Hi. destruct (Z.eq_dec z 0) as [->|]; [apply Z.bits_0|].
    apply Z.bits_above_log2; [done|]. apply Z.log2_lt_pow2; [lia|].
    eapply Z.lt_le_trans; [exact H|]. apply Z.pow_le_mono_r; lia.
  - intros [H0 H]. split; [done|]. destruct (Z.eq_dec z 0) as [->|]; [lia|]. apply Z.log2_lt_pow2; [lia|].
    destruct (Z.lt_ge_cases (Z.log2 z) 32) as [|Hge]; [done|]. specialize (H _ Hge). rewrite Z.bit_log2 in H by lia. done.
Qed.

(** [bits]: an operation on words gives a word. *)
Ltac bits := rewrite ?u32_bits in *; split; [|intros i Hi].

Lemma u32_lxor a b : is_u32 a -> is_u32 b -> is_u32 (Z.lxor a b).
Proof.
  intros Ha Hb. bits; [apply Z.lxor_nonneg; tauto|].
  rewrite Z.lxor_spec. by rewrite (proj2 Ha i Hi), (proj2 Hb i Hi).
Qed.
Lemma u32_lor a b : is_u32 a -> is_u32 b -> is_u32 (Z.lor a b).
Proof.
  intros Ha Hb. bits; [apply Z.lor_nonneg; tauto|].
  rewrite Z.lor_spec. by rewrite (proj2 Ha i Hi), (proj2 Hb i Hi).
Qed.
Lemma u32_land a b : 0 <= a -> is_u32 b -> is_u32 (Z.land a b).
Proof.
  intros Ha Hb. bits; [apply Z.land_nonneg; by left|].
  rewrite Z.land_spec, (proj2 Hb i Hi). apply andb_false_r.
Qed.
Lemma u32_shiftr a n : 0 <= n -> is_u32 a -> is_u32 (Z.shiftr a n).
Proof.
  intros Hn Ha. bits; [apply Z.shiftr_nonneg; tauto|]. rewrite Z.shiftr_spec by lia. apply Ha. lia.
Qed.

Create HintDb words.
#[export] Hint Resolve u32_lxor u32_lor u32_land u32_shiftr u32_range : words.

Lemma word_range l i : Forall (fun z => is_u32 z) l -> is_u32 (word l i).
Proof.
  intros HF. unfold word. destruct (l !! i) as [z|] eqn:E; cbn; [|lia].
  rewrite Forall_forall in HF. apply HF. by eapply list_elem_of_lookup_2.
Qed.
#[export] Hint Resolve word_range : words.

(** ** The state *)

Record mt19937_wf (g : mt19937) : Prop := mk_mt19937_wf {
  mt_size : length (_x g) = state_size;
  mt_words : Forall (fun z => is_u32 z) (_x g) }.

Lemma twist_range x0 x1 xm : is_u32 x0 -> is_u32 x1 -> is_u32 xm -> is_u32 (twist x0 x1 xm).
Proof.
  intros H0 H1 Hm. unfold twist. assert (Hu : is_u32 upper_mask) by done. assert (Hl : is_u32 lower_mask) by done.
  assert (is_u32 (if Z.odd (Z.lor (Z.land x0 upper_mask) (Z.land x1 lower_mask)) then xor_mask else 0)) by (by destruct (Z.odd _)).
  apply u32_lxor; [|done]. apply u32_lxor; [done|]. apply u32_shiftr; [done|]. apply u32_lor; apply u32_land; (done || lia).
Qed.

Lemma temper_range x : is_u32 x -> is_u32 (temper x).
Proof.
  intros Hx. unfold temper. set (z1 := Z.lxor x _). assert (H1 : is_u32 z1) by (apply u32_lxor; [|apply u32_shiftr]; done).
  set (z2 := Z.lxor z1 _). assert (H2 : is_u32 z2).
  { apply u32_lxor; [done|]. apply u32_land; [|done]. apply Z.shiftl_nonneg. lia. }
  set (z3 := Z.lxor z2 _). assert (H3 : is_u32 z3).
  { apply u32_lxor; [done|]. apply u32_land; [|done]. apply Z.shiftl_nonneg. lia. }
  apply u32_lxor; [|apply u32_shiftr]; done.
Qed.

Lemma word_list_update f k n l : (forall z, is_u32 z -> is_u32 (f z)) ->
  Forall (fun z => is_u32 z) l -> Forall (fun z => is_u32 z) (update n f k l).
Proof. intros Hf Hl. apply Forall_alter; [done|]. intros z _ Hz. by apply Hf. Qed.

(** A list of [n] words, from before a step to after it. *)
Definition words (n : nat) (l : list Z) : Prop := length l = n /\ Forall (fun z => is_u32 z) l.

Lemma words_update n m f k l : (forall z, is_u32 z -> is_u32 (f z)) -> words m l -> words m (update n f k l).
Proof. intros Hf [Hl HF]. split; [by unfold update; rewrite length_alter|by apply word_list_update]. Qed.

Lemma words_fold n (step : list Z -> nat -> list Z) ks : (forall l k, words n l -> words n (step l k)) ->
  forall l, words n l -> words n (foldl step l ks).
Proof. intros H. induction ks as [|k ks IH]; [done|]. intros l Hl. cbn. by apply IH, H. Qed.

Lemma first_step_words v n l k : words n l -> words n (first_step v n l k).
Proof. intros Hl. unfold first_step. repeat apply words_update; try done; intros; apply u32_range. Qed.

Lemma second_step_words n l k : words n l -> words n (second_step n l k).
Proof.
  intros Hl. unfold second_step. repeat apply words_update; try done; intros; try apply u32_range;
    apply u32_lxor; try done; apply u32_range.
Qed.

(** Whatever seeds it. *)
Lemma generate_words v n : words n (generate v n).
Proof.
  unfold generate. apply words_fold; [apply second_step_words|]. apply words_fold; [apply first_step_words|].
  split; [apply length_replicate|]. apply Forall_replicate. lia.
Qed.

Lemma upper_mask_range : is_u32 upper_mask.
Proof. unfold upper_mask. lia. Qed.
Lemma state_size_pos : (0 < state_size)%nat.
Proof. by apply Nat.ltb_lt. Qed.
#[local] Opaque state_size.

(** The generator the program makes, whatever the entropy device answers, has a proper state that is not the
    fixed point zero, and every draw is a 32-bit word and keeps the state proper. *)
Lemma get_random_generator_wf rd :
  mt19937_wf (get_random_generator rd) /\ Exists (fun z => z <> 0) (_x (get_random_generator rd)).
Proof.
  unfold get_random_generator, mt19937_of_seed. set (v := rd <$> _).
  destruct (generate_words v state_size) as [Hn Hw]. destruct (generate v state_size) as [|x a] eqn:E; [pose proof state_size_pos; cbn in Hn; lia|]. cbn [tail word].
  apply Forall_cons in Hw as [Hx Ha]. destruct (_ && _) eqn:Hz; cbn [_x].
  - pose proof upper_mask_range as Hm. split; [split; [exact Hn|apply Forall_cons; split; [exact Hm|exact Ha]]|].
    apply Exists_cons_hd. unfold upper_mask. lia.
  - split; [split; [exact Hn|apply Forall_cons; split; [exact Hx|exact Ha]]|]. apply andb_false_iff in Hz as [Hz|Hz].
    + apply Exists_cons_hd. intros ->. done.
    + apply Exists_cons_tl, not_Forall_Exists; [intros z; apply _|]. intros HF. apply not_true_iff_false in Hz.
      apply Hz, forallb_forall. intros z Hin. rewrite Forall_forall in HF. apply Z.eqb_eq, HF. by apply list_elem_of_In.
Qed.

Lemma mt19937_next_wf g : mt19937_wf g ->
  is_u32 (fst (mt19937_next g)) /\ mt19937_wf (snd (mt19937_next g)).
Proof.
  intros [Hn Hw]. assert (Ht : is_u32 (twist (word (_x g) 0) (word (_x g) 1) (word (_x g) shift_size))).
  { apply twist_range; by apply word_range. }
  split; [by apply temper_range|]. destruct g as [[|x l]]; [pose proof state_size_pos; cbn in Hn; lia|]. split; cbn [mt19937_next snd _x tail].
  - rewrite length_app. rewrite <- Hn. cbn [_x length]. lia.
  - apply Forall_app. apply Forall_cons in Hw as [_ Hw]. split; [done|]. by apply Forall_singleton.
Qed.

(** The clock starts at zero and does not run backwards. *)
Lemma timestamp_ms_monotone first now0 first1 now1 :
  first <= now0 <= now1 -> now1 - first < 0x8000000000000000 ->
  let '(t0, start) := timestamp_ms None first now0 in
  let '(t1, start1) := timestamp_ms start first1 now1 in
  0 <= t0 <= t1 /\ start1 = start /\ timestamp_ms None first first = (0, Some first).
Proof.
  intros H Hl. unfold timestamp_ms. change (default first None) with first. cbv beta iota zeta.
  change (default first1 (Some first)) with first. rewrite Z.sub_diag. split; [|done].
  assert (0 <= (now0 - first) ÷ 1000000 <= (now1 - first) ÷ 1000000).
  { split; [apply Z.quot_pos; lia|]. apply Z.quot_le_mono; lia. }
  assert ((now1 - first) ÷ 1000000 <= now1 - first).
  { rewrite Z.quot_div_nonneg by lia. apply Z.div_le_upper_bound; lia. }
  rewrite !u64_id by lia. lia.
Qed.

(** The engine's default state, whose first value is known. *)
Fixpoint default_words (n : nat) (i x : Z) : list Z :=
  match n with
  | O => []
  | S n => x :: default_words n (i + 1) (u32 (1812433253 * Z.lxor x (Z.shiftr x 30) + (i + 1)))
  end.

Example mt19937_first : fst (mt19937_next (mk_mt19937 (default_words state_size 0 5489))) = 3499211612.
Proof. by vm_compute. Qed.
