(* ===== verification/SpongeSocket.v ===== *)
(** * SpongeSocket (tcp_helpers/tcp_sponge_socket.hh, tcp_helpers/tcp_sponge_socket.cc)

    A [TCPConnection] driven by an event loop: datagrams come and go through an adapter,
    the application's bytes through a local stream socket (the pipe) whose other end the owner has.
    The owner's thread is outside: it uses its end of the pipe and sets [_abort].  Messages on
    [cerr] are left out, but the addresses they print are converted as in the source,
    which can throw. *)

From stdpp Require Import relations.
From S2P Require Import Prelude ByteStream WrappingIntegers Buffer Address Kernel FileDescriptor.
From S2P Require Import TCPHeader TCPSegment TCPConfig TCPState TCPReceiver TCPSender TCPConnection.
From S2P Require Import Adapters Socket EventLoop.

Definition TCP_TICK_MS : Z := 10.
Definition max_amount : Z := 65536.

Record TCPSpongeSocket (A : Type) := mk_socket {
  local : FDWrapper;
  _thread_data : FDWrapper;
  _datagram_adapter : A;
  adapter_fd : FDWrapper;
  _tcp : option TCPConnection;
  _abort : bool;
  _inbound_shutdown : bool;
  _outbound_shutdown : bool;
  _fully_acked : bool;
  calls : history }.
Arguments mk_socket {A} _ _ _ _ _ _ _ _ _ _.
Arguments local {A} _.
Arguments _thread_data {A} _.
Arguments _datagram_adapter {A} _.
Arguments adapter_fd {A} _.
Arguments _tcp {A} _.
Arguments _abort {A} _.
Arguments _inbound_shutdown {A} _.
Arguments _outbound_shutdown {A} _.
Arguments _fully_acked {A} _.
Arguments calls {A} _.

#[export] Instance eta_TCPSpongeSocket A : Eta (TCPSpongeSocket A) := fun s =>
  mk_socket (local s) (_thread_data s) (_datagram_adapter s) (adapter_fd s) (_tcp s) (_abort s)
    (_inbound_shutdown s) (_outbound_shutdown s) (_fully_acked s) (calls s).

(** The descriptors of the rules: 0 is the adapter's, 1 is [_thread_data]. *)
#[export] Instance socket_fds A : HasFds (TCPSpongeSocket A) := fun i s =>
  match i with O => adapter_fd s | _ => _thread_data s end.

(** [_tcp->] when it holds a connection. *)
Definition tcp {A} (s : TCPSpongeSocket A) : outcome TCPConnection :=
  match _tcp s with Some c => Ok c | None => Fault PastTheEnd end.
Definition tcp_is {A} (p : TCPConnection -> bool) (s : TCPSpongeSocket A) : bool :=
  match _tcp s with Some c => p c | None => false end.

(** [_tcp->inbound_stream().error()]: the peer's stream has ended other than cleanly. *)
Definition inbound_failed {A} (s : TCPSpongeSocket A) : bool := tcp_is (fun c => error (inbound_stream c)) s.

Section socket.
Context `{Kernel} `{Resolver} {A In Out : Type} `{FdAdapter A In Out} `{Device In Out}.
Abbreviation socket := (TCPSpongeSocket A).
Implicit Types (s : socket) (c : TCPConnection).

(** The address in a message. *)
Definition print_destination s : outcome socket :=
  _ ← address_string (destination (adapter_config (_datagram_adapter s))); Ok s.

(** ** The four rules of [_initialize_TCP] *)

(** [_datagram_adapter.read()]. *)
Definition adapter_receive s : outcome (option TCPSegment * socket) :=
  '(d, f, h) ← device_read (adapter_fd s) (calls s);
  '(seg, a) ← adapter_read d (_datagram_adapter s);
  Ok (seg, s <| _datagram_adapter := a |> <| adapter_fd := f |> <| calls := h |>).

(** Rule 1: a datagram for the connection. *)
Definition callback1 s : outcome socket :=
  '(seg, s) ← adapter_receive s;
  c ← tcp s;
  c ← match seg with Some seg => segment_received seg c | None => Ok c end;
  let s := s <| _tcp := Some c |> in
  if FileDescriptor.eof (_thread_data s) && (bytes_in_flight c =? 0) && negb (_fully_acked s) then
    s ← print_destination s; Ok (s <| _fully_acked := true |>)
  else Ok s.
Definition interest1 s : bool := tcp_is active s.

(** Rule 2: bytes from the application. *)
Definition callback2 s : outcome socket :=
  c ← tcp s;
  '(data, f, h) ← FileDescriptor.read (remaining_outbound_capacity c) (_thread_data s) (calls s);
  let len := zlen data in
  let '(amount_written, c) := TCPConnection.write data c in
  if negb (amount_written =? len) then Fault RuntimeError
  else
    let s := s <| _thread_data := f |> <| calls := h |> in
    if FileDescriptor.eof f then
      print_destination (s <| _tcp := Some (end_input_stream c) |> <| _outbound_shutdown := true |>)
    else Ok (s <| _tcp := Some c |>).
Definition interest2 s : bool :=
  tcp_is active s && negb (_outbound_shutdown s) &&
  tcp_is (fun c => 0 <? remaining_outbound_capacity c) s.
Definition cancel2 s : outcome socket :=
  c ← tcp s;
  Ok (s <| _tcp := Some (end_input_stream c) |> <| _outbound_shutdown := true |>).

(** Rule 3: bytes for the application. *)
Definition callback3 s : outcome socket :=
  c ← tcp s;
  let inbound := inbound_stream c in
  let amount_to_write := Z.min max_amount (buffer_size inbound) in
  let buffer := peek_output amount_to_write inbound in
  '(bytes_written, f, h) ← write_string buffer false (_thread_data s) (calls s);
  let c := on_receiver_stream (pop_output bytes_written) c in
  let s := s <| _thread_data := f |> <| calls := h |> <| _tcp := Some c |> in
  if ByteStream.eof (inbound_stream c) || error (inbound_stream c) then
    '(f, h) ← shutdown SHUT_WR (_thread_data s) (calls s);
    print_destination (s <| _thread_data := f |> <| calls := h |> <| _inbound_shutdown := true |>)
  else Ok s.
Definition interest3 s : bool :=
  tcp_is (fun c => negb (buffer_empty (inbound_stream c)) ||
    (ByteStream.eof (inbound_stream c) || error (inbound_stream c)) && negb (_inbound_shutdown s)) s.

(** Rule 4: segments for the peer; the loop pops each after writing it. *)
Fixpoint write_segments (segs : list TCPSegment) (a : A) (f : FDWrapper) (h : history)
  : outcome (A * FDWrapper * history) :=
  match segs with
  | [] => Ok (a, f, h)
  | seg :: segs =>
    '(out, a) ← adapter_write seg a;
    '(f, h) ← match out with Some d => device_write d f h | None => Ok (f, h) end;
    write_segments segs a f h
  end.
Definition callback4 s : outcome socket :=
  c ← tcp s;
  '(a, f, h) ← write_segments (segments_out c) (_datagram_adapter s) (adapter_fd s) (calls s);
  Ok (s <| _datagram_adapter := a |> <| adapter_fd := f |> <| calls := h |> <| _tcp := Some (drain c) |>).
Definition interest4 s : bool := tcp_is (fun c => negb (bool_decide (segments_out c = []))) s.

Definition rule1 : Rule socket := mkRule 0 EventLoop.In callback1 interest1 Ok.
Definition rule2 : Rule socket := mkRule 1 EventLoop.In callback2 interest2 cancel2.
Definition rule3 : Rule socket := mkRule 1 EventLoop.Out callback3 interest3 Ok.
Definition rule4 : Rule socket := mkRule 0 EventLoop.Out callback4 interest4 Ok.

(** [_initialize_TCP(config)]; [random_isn] is for the connection's sender. *)
Definition _initialize_TCP (random_isn : Z) (config : TCPConfig) s : socket * list (Rule socket) :=
  (s <| _tcp := Some (TCPConnection.new random_isn config) |>,
   add_rule 0 EventLoop.Out callback4 interest4 Ok
     (add_rule 1 EventLoop.Out callback3 interest3 Ok
       (add_rule 1 EventLoop.In callback2 interest2 cancel2
         (add_rule 0 EventLoop.In callback1 interest1 Ok [])))).

(** ** The loops

    A round of the environment: what [poll] answers, whether the owner has set
    [_abort] meanwhile, and the clock after it. *)
Record round := mk_round {
  r_poll : list pollfd -> Z -> poll_answer; r_abort : bool; r_time : Z }.

(** What [_tcp_loop] does after an event. *)
Definition loop_tick (base_time next_time : Z) s : outcome (Z * socket) :=
  c ← tcp s;
  if active c then
    let ms := u64 (next_time - base_time) in
    c ← TCPConnection.tick ms c;
    Ok (next_time, s <| _tcp := Some c |> <| _datagram_adapter := adapter_tick ms (_datagram_adapter s) |>)
  else Ok (base_time, s).

(** [_tcp_loop(condition)], as many rounds of it as the environment has; the flag tells whether it has
    returned. *)
Fixpoint _tcp_loop (condition : socket -> bool) (rounds : list round) (base_time : Z)
    (rules : list (Rule socket)) s : outcome (bool * list (Rule socket) * socket) :=
  if negb (condition s) then Ok (true, rules, s)
  else
    match rounds with
    | [] => Ok (false, rules, s)
    | r :: rounds =>
      '(ret, rules, s) ← wait_next_event (r_poll r) TCP_TICK_MS rules s;
      let s := s <| _abort := _abort s || r_abort r |> in
      if match ret with Exit => true | _ => false end || _abort s then Ok (true, rules, s)
      else '(base_time, s) ← loop_tick base_time (r_time r) s;
           _tcp_loop condition rounds base_time rules s
    end.

Definition in_state (st : State) s : bool := tcp_is (fun c => TCPState.eqb (state c) (of_state st)) s.

(** [connect] up to the start of the thread. *)
Definition socket_connect (random_isn : Z) (c_tcp : TCPConfig) (c_ad : FdAdapterConfig)
    (rounds : list round) (now : Z) s : outcome (bool * list (Rule socket) * socket) :=
  match _tcp s with
  | Some _ => Fault RuntimeError
  | None =>
    let '(s, rules) := _initialize_TCP random_isn c_tcp s in
    let s := s <| _datagram_adapter := adapter_set_config c_ad (_datagram_adapter s) |> in
    _ ← address_string (destination c_ad);
    c ← tcp s;
    let s := s <| _tcp := Some (TCPConnection.connect c) |> in
    if negb (in_state SYN_SENT s) then Fault RuntimeError
    else _tcp_loop (in_state SYN_SENT) rounds now rules s
  end.

Definition accepting s : bool := in_state LISTEN s || in_state SYN_RCVD s || in_state SYN_SENT s.

Definition listen_and_accept (random_isn : Z) (c_tcp : TCPConfig) (c_ad : FdAdapterConfig)
    (rounds : list round) (now : Z) s : outcome (bool * list (Rule socket) * socket) :=
  match _tcp s with
  | Some _ => Fault RuntimeError
  | None =>
    let '(s, rules) := _initialize_TCP random_isn c_tcp s in
    let s := s <| _datagram_adapter := adapter_set_config c_ad (_datagram_adapter s) |> in
    let s := s <| _datagram_adapter := adapter_set_listening true (_datagram_adapter s) |> in
    '(returned, rules, s) ← _tcp_loop accepting rounds now rules s;
    s ← (if (returned : bool) then print_destination s else Ok s);
    Ok (returned, rules, s)
  end.

(** [_tcp_main]: the thread.  When the loop ends, [shutdown] is called on the
    owner's end and the connection is destroyed. *)
Definition _tcp_main (rounds : list round) (now : Z) (rules : list (Rule socket)) s
  : outcome (bool * socket) :=
  match _tcp s with
  | None => Fault RuntimeError
  | Some _ =>
    '(returned, _, s) ← _tcp_loop (fun _ => true) rounds now rules s;
    if (returned : bool) then
      '(f, h) ← shutdown SHUT_RDWR (local s) (calls s);
      c ← tcp s;
      _ ← destroy c;
      Ok (true, s <| local := f |> <| calls := h |> <| _tcp := None |>)
    else Ok (false, s)
  end.

(** Either way of opening the socket, and the state in which its loop starts. *)
Definition open_socket (listen : bool) (random_isn : Z) (c_tcp : TCPConfig) (c_ad : FdAdapterConfig)
    (rounds : list round) (now : Z) s : outcome (bool * list (Rule socket) * socket) :=
  if listen then listen_and_accept random_isn c_tcp c_ad rounds now s
  else socket_connect random_isn c_tcp c_ad rounds now s.
Definition opened (listen : bool) (random_isn : Z) (c_tcp : TCPConfig) (c_ad : FdAdapterConfig) s
  : socket :=
  let c := TCPConnection.new random_isn c_tcp in
  let a := adapter_set_config c_ad (_datagram_adapter s) in
  s <| _tcp := Some (if listen then c else TCPConnection.connect c) |>
    <| _datagram_adapter := if listen then adapter_set_listening true a else a |>.

(** ** Construction and the owner's calls *)

Definition socket_pair_helper (type : Z) (h : history)
  : outcome (FDWrapper * FDWrapper * history) :=
  let r := k_socketpair AF_UNIX type h in
  '(fd0, fd1) ← system_call r;
  f0 ← FileDescriptor.new fd0;
  f1 ← FileDescriptor.new fd1;
  Ok (f0, f1, h ++ [SocketPair AF_UNIX type r]).

(** [TCPSpongeSocket(datagram_interface)]: both constructors. *)
Definition new_sponge (datagram_interface : A) (fd : FDWrapper) (h : history) : outcome socket :=
  '(f0, f1, h) ← socket_pair_helper SOCK_STREAM h;
  '(f0, h) ← socket_of_fd AF_UNIX SOCK_STREAM f0 h;
  '(f1, h) ← socket_of_fd AF_UNIX SOCK_STREAM f1 h;
  h ← set_blocking false f1 h;
  Ok (mk_socket f0 f1 datagram_interface fd None false false false false h).

(** [wait_until_closed] up to the join of the thread. *)
Definition wait_until_closed s : outcome socket :=
  '(f, h) ← shutdown SHUT_RDWR (local s) (calls s);
  Ok (s <| local := f |> <| calls := h |>).

(** [~TCPSpongeSocket] up to the join of the thread, if there is one to join. *)
Definition destroy_sponge (joinable : bool) s : socket :=
  if joinable then s <| _abort := true |> else s.

Lemma tcp_loop_aborts rounds : forall base rules s ret rules' s',
  Exists (fun r => r_abort r = true) rounds ->
  _tcp_loop (fun _ => true) rounds base rules s = Ok (ret, rules', s') -> ret = true.
Proof.
  induction rounds as [|r rounds IH]; intros base rules s ret rules' s' Hex E; [by inversion Hex|].
  cbn [_tcp_loop negb] in E. apply bind_Ok in E as ([[res rules1] s1] & _ & E).
  destruct (_ || _) eqn:Eb; [apply Ok_inj in E; by injection E as <-|].
  apply Exists_cons in Hex as [Hr|Hex].
  - apply orb_false_iff in Eb as [_ Eb]. change (_abort s1 || r_abort r = false) in Eb.
    by rewrite Hr, orb_true_r in Eb.
  - apply bind_Ok in E as ([base2 s2] & _ & E). by eapply IH.
Qed.
End socket.

(** ** What the rules keep

    The socket is a session of its connection in which the application has written what was read
    from the pipe and read what was written to it. *)

Section sound.
Context `{Kernel} `{Resolver} {A In Out : Type} `{FdAdapter A In Out} `{D : Device In Out}
  `{!DeviceLaws D}.
Context (isn pisn : WrappingInt32) (S : bytes) (cfg : TCPConfig).
Context (tfd afd : Z) (s0 : TCPSpongeSocket A).
Hypothesis fd_other : tfd <> afd.
Abbreviation socket := (TCPSpongeSocket A).
Implicit Types (s : socket) (c : TCPConnection) (live : list (Rule socket)).

Definition socket_rules : list (Rule socket) := [rule1; rule2; rule3; rule4].

(** One step of the socket: a handler, a tick, or the owner's [_abort]. *)
Inductive socket_step : socket -> socket -> Prop :=
| step_call r s s' : r ∈ socket_rules -> callback r s = Ok s' -> socket_step s s'
| step_cancel s s' : cancel2 s = Ok s' -> socket_step s s'
| step_tick base next base' s s' : loop_tick base next s = Ok (base', s') -> socket_step s s'
| step_abort s b : socket_step s (s <| _abort := b |>).

(** The network: each segment that arrives while the socket runs is one the connection can be sure of,
    as a peer that sends [S] from [pisn] sends it. *)
Definition network_ok : Prop := forall s, rtc socket_step s0 s ->
  forall seg s', adapter_receive s = Ok (Some seg, s') ->
  forall c, _tcp s = Some c -> active c = true -> seg_ok pisn S c seg.

Definition in_session (e : bool) s : Prop := exists c sent, _tcp s = Some c /\
  conn_session isn pisn S cfg (read_from tfd (calls s)) e sent (written_to tfd (calls s)) c.

(** The application has been told the end of its input: it has everything, or the stream failed. *)
Definition told_end s : Prop :=
  _inbound_shutdown s = true -> zlen (read_from tfd (calls s)) < LIMIT ->
  written_to tfd (calls s) = S \/ inbound_failed s = true.

Record socket_inv (e : bool) s : Prop := mk_socket_inv {
  so_reach : rtc socket_step s0 s;
  so_pipe : fd_num (_thread_data s) = tfd;
  so_adapter : fd_num (adapter_fd s) = afd;
  so_session : in_session e s;
  so_told : told_end s }.

Lemma tcp_Ok s c : tcp s = Ok c -> _tcp s = Some c.
Proof. unfold tcp. destruct (_tcp s); [by intros [= ->]|done]. Qed.

Lemma print_Ok s s' : print_destination s = Ok s' -> s' = s.
Proof. unfold print_destination. intros (x & _ & E)%bind_Ok. by apply Ok_inj in E. Qed.

(** Steps after which nothing has moved through the pipe. *)
Lemma told_keep s s' :
  told_end s -> _inbound_shutdown s' = _inbound_shutdown s ->
  written_to tfd (calls s') = written_to tfd (calls s) ->
  zlen (read_from tfd (calls s)) <= zlen (read_from tfd (calls s')) ->
  (zlen (read_from tfd (calls s)) < LIMIT -> inbound_failed s = true -> inbound_failed s' = true) -> told_end s'.
Proof.
  intros T E1 E2 E3 E4 Hs Hl. rewrite E1 in Hs. rewrite E2. destruct (T Hs) as [?|?]; [lia|by left|].
  right. apply E4; [lia|done].
Qed.

Lemma failed_tcp s c : _tcp s = Some c -> inbound_failed s = error (inbound_stream c).
Proof. intros E. unfold inbound_failed, tcp_is. by rewrite E. Qed.

(** A connection that is over does nothing with segments and ticks. *)
Lemma segment_received_over seg c c' : segment_received seg c = Ok c' -> active c = false -> c' = c.
Proof. unfold segment_received, active. intros E Ha. rewrite Ha in E. by apply Ok_inj in E. Qed.

Lemma write_inbound data c : inbound_stream (snd (TCPConnection.write data c)) = inbound_stream c.
Proof.
  unfold TCPConnection.write. destruct (_ =? 0); [done|]. by destruct (ByteStream.write _ _).
Qed.

Lemma receive_frame s seg s' : adapter_receive s = Ok (seg, s') ->
  fd_num (adapter_fd s') = fd_num (adapter_fd s) /\ closed (adapter_fd s') = closed (adapter_fd s) /\
  _tcp s' = _tcp s /\ _thread_data s' = _thread_data s /\ _inbound_shutdown s' = _inbound_shutdown s /\
  (fd_num (adapter_fd s) <> tfd -> read_from tfd (calls s') = read_from tfd (calls s) /\
     written_to tfd (calls s') = written_to tfd (calls s)).
Proof.
  unfold adapter_receive. intros ([[d f] h] & E1 & E)%bind_Ok.
  apply bind_Ok in E as ([g a] & _ & E). apply Ok_inj in E. injection E as _ <-.
  apply device_read_frame in E1 as (Hf & Hc & Hfr). split_and!; try done.
  intros Hne. apply Hfr. by apply not_eq_sym.
Qed.

Hypothesis cap_nonneg : 0 <= recv_capacity cfg.
Hypothesis stream_bound : zlen S + recv_capacity cfg < 0x7fffffff00000000.
Hypothesis send_bound : is_u64 (send_capacity cfg).
Hypothesis network : network_ok.

Lemma call1_inv e s s' :
  socket_inv e s -> callback1 s = Ok s' -> socket_inv e s'.
Proof.
  intros [Hre Hp Ha (c & sent & Hc & Hse) Ht] E.
  assert (Hstep : socket_step s s') by (apply (step_call rule1); [by left|exact E]).
  assert (Hre' : rtc socket_step s0 s') by by eapply rtc_r.
  unfold callback1 in E. apply bind_Ok in E as ([seg s1] & E1 & E).
  destruct (receive_frame _ _ _ E1) as (Hfd & _ & Ht1 & Hp1 & Hi1 & Hfr).
  destruct Hfr as [Hr Hw]; [rewrite Ha; by apply not_eq_sym|].
  apply bind_Ok in E as (c1 & Hc1%tcp_Ok & E). rewrite Ht1, Hc in Hc1. injection Hc1 as <-.
  apply bind_Ok in E as (c2 & E2 & E).
  assert (Hse2 : conn_session isn pisn S cfg (read_from tfd (calls s)) e sent (written_to tfd (calls s)) c2).
  { destruct seg as [seg|]; [|by apply Ok_inj in E2 as <-].
    eapply conn_segment; [exact Hse| |exact E2]. exact (network s Hre seg s1 E1 c Hc). }
  assert (Hact : active c = false -> c2 = c).
  { destruct seg as [seg|]; [by eapply segment_received_over|by apply Ok_inj in E2 as <-]. }
  assert (Hs2 : exists b, s' = s1 <| _tcp := Some c2 |> <| _fully_acked := b |>).
  { cbn [_thread_data _fully_acked upd] in E. destruct (_ && _).
    - apply bind_Ok in E as (s2 & ->%print_Ok & E). apply Ok_inj in E as <-. by exists true.
    - apply Ok_inj in E as <-. by exists (_fully_acked s1). }
  destruct Hs2 as [fa ->]. split; [exact Hre'|exact (eq_trans (f_equal fd_num Hp1) Hp)|exact (eq_trans Hfd Ha)| |].
  - exists c2, sent. split; [done|]. rewrite <- Hr, <- Hw in Hse2. exact Hse2.
  - eapply told_keep; [exact Ht|exact Hi1|exact Hw|exact (Z.eq_le_incl _ _ (f_equal (fun l => zlen l) (eq_sym Hr)))|].
    intros Hl. rewrite (failed_tcp s c Hc). intros He. cbn. rewrite Hact; [exact He|].
    destruct (session_inbound _ _ _ _ _ _ _ _ _ cap_nonneg stream_bound send_bound Hl Hse) as (_ & _ & Herr & _).
    by apply Herr.
Qed.

Lemma call2_inv e s s' :
  socket_inv e s -> callback2 s = Ok s' ->
  exists e', socket_inv e' s' /\ (e' = true -> e = true \/ FileDescriptor.eof (_thread_data s') = true).
Proof.
  intros [Hre Hp Ha (c & sent & Hc & Hse) Ht] E.
  assert (Hstep : socket_step s s') by (apply (step_call rule2); [by right; left|exact E]).
  assert (Hre' : rtc socket_step s0 s') by by eapply rtc_r.
  unfold callback2 in E. apply bind_Ok in E as (c1 & Hc1%tcp_Ok & E). rewrite Hc in Hc1. injection Hc1 as <-.
  apply bind_Ok in E as ([[data f] h] & E1 & E).
  apply read_inv in E1 as (_ & (Hr & _ & Hw) & Hfd & _ & _). rewrite Hp in Hr, Hfd.
  pose proof (conn_write _ _ _ _ _ _ _ _ _ data Hse) as Hse1.
  pose proof (write_inbound data c) as Hin.
  destruct (TCPConnection.write data c) as [n c1] eqn:Ew. cbn [fst snd] in Hse1, Hin.
  destruct (Z.eqb_spec n (zlen data)) as [->|]; [|done]. rewrite ztake_ge, <- Hr, <- Hw in Hse1 by lia.
  cbn [negb] in E.
  assert (Hs2 : exists c2 e2 b, s' = s <| _thread_data := f |> <| calls := h |> <| _tcp := Some c2 |>
      <| _outbound_shutdown := b |> /\ inbound_stream c2 = inbound_stream c /\
      conn_session isn pisn S cfg (read_from tfd h) e2 sent (written_to tfd h) c2 /\
      (e2 = true -> e = true \/ FileDescriptor.eof f = true)).
  { destruct (FileDescriptor.eof f).
    - apply print_Ok in E. exists (end_input_stream c1), true, true. split; [exact E|].
      split; [exact Hin|]. split; [by apply (conn_end _ _ _ _ _ e)|by right].
    - apply Ok_inj in E. exists c1, e, (_outbound_shutdown s). rewrite <- E. split_and!; [done..|by left]. }
  destruct Hs2 as (c2 & e2 & b & -> & Hin2 & Hse2 & He2). exists e2. split; [|exact He2].
  split; [exact Hre'|exact Hfd|exact Ha|by exists c2, sent|].
  eapply told_keep; [exact Ht|done|apply Hw| |].
  { change (zlen (read_from tfd (calls s)) <= zlen (read_from tfd h)). rewrite Hr, zlen_app. lia. }
  rewrite (failed_tcp s c Hc), <- Hin2. done.
Qed.

Lemma peek_shorter n m b :
  0 <= n <= zlen (peek_output m b) -> ztake n (peek_output m b) = peek_output n b.
Proof.
  intros Hn. unfold peek_output in *. destruct (Z.eq_dec n 0) as [->|Hn0].
  { unfold ztake. by replace (Z.to_nat (Z.min (ByteStream._size b) 0)) with 0%nat by lia. }
  unfold ztake in *. rewrite length_take in Hn. rewrite take_take. f_equal. lia.
Qed.

Lemma call3_inv e s s' :
  socket_inv e s -> callback3 s = Ok s' -> socket_inv e s'.
Proof.
  intros [Hre Hp Ha (c & sent & Hc & Hse) Ht] E.
  assert (Hstep : socket_step s s') by (apply (step_call rule3); [by right; right; left|exact E]).
  assert (Hre' : rtc socket_step s0 s') by by eapply rtc_r.
  unfold callback3 in E. apply bind_Ok in E as (c1 & Hc1%tcp_Ok & E). rewrite Hc in Hc1. injection Hc1 as <-.
  set (m := Z.min max_amount _) in E. apply bind_Ok in E as ([[n f] h] & E1 & E).
  apply write_string_inv in E1 as ([Hn _] & (Hw & _ & Hr) & ->).
  2: { unfold peek_output, ztake. rewrite length_take. unfold m, max_amount. lia. }
  rewrite peek_shorter, Hp in Hw by done.
  pose proof (conn_read _ _ _ _ _ _ _ _ _ n Hse (proj1 Hn)) as Hse1.
  change (fst (ByteStream.read n (inbound_stream c))) with (peek_output n (inbound_stream c)) in Hse1.
  rewrite <- Hw, <- (Hr tfd) in Hse1. set (c1 := on_receiver_stream (pop_output n) c) in *.
  change (read_inbound n c) with c1 in Hse1.
  assert (Hs2 : exists f2 h2 b, s' = s <| _thread_data := f2 |> <| calls := h2 |> <| _tcp := Some c1 |>
      <| _inbound_shutdown := b |> /\ fd_num f2 = fd_num (_thread_data s) /\ no_transfer h h2 /\
      (b = true -> _inbound_shutdown s = true \/
         ByteStream.eof (inbound_stream c1) || error (inbound_stream c1) = true)).
  { destruct (_ || _) eqn:Eend.
    - apply bind_Ok in E as ([f2 h2] & E2 & E). unfold shutdown in E2.
      apply bind_Ok in E2 as ([k h3] & Hnt%sys_call_no_transfer & E2). apply Ok_inj in E2. injection E2 as <- <-.
      apply print_Ok in E. eexists _, _, true. split; [exact E|]. by split_and!; [..|by right].
    - apply Ok_inj in E. exists (register_write (_thread_data s)), h, (_inbound_shutdown s).
      rewrite <- E. split_and!; [done|done|done|by left]. }
  destruct Hs2 as (f2 & h2 & b & -> & Hf2 & Hnt & Hb). destruct (Hnt tfd) as [Hr2 Hw2].
  split; [exact Hre'|exact (eq_trans Hf2 Hp)|exact Ha|exists c1, sent; split; [done|]; rewrite <- Hr2, <- Hw2 in Hse1; exact Hse1|].
  intros Hs Hl. cbn [calls upd _inbound_shutdown] in *. rewrite Hr2 in Hl.
  destruct (session_inbound _ _ _ _ _ _ _ _ _ cap_nonneg stream_bound send_bound Hl Hse1)
    as ((k & Hk & Hpre) & Hend & Herr & Hwf).
  assert (Hall : written_to tfd h = S \/ error (inbound_stream c1) = true).
  { destruct (Hb Hs) as [Hs1|[Heof|He]%orb_true_iff]; [..|by right].
    - destruct (Ht Hs1) as [Hws|Hina]; [rewrite <- (Hr tfd); exact Hl|..].
      + left. rewrite Hw, Hws in *. apply (f_equal length) in Hpre as Hlen.
        rewrite !length_app in Hlen. assert (Hkl : (length (ztake k S) <= length S)%nat).
        { unfold ztake. rewrite length_take. lia. }
        assert (peek_output n (inbound_stream c) = []) as -> by (apply length_zero_iff_nil; lia).
        by rewrite app_nil_r.
      + right. rewrite (failed_tcp s c Hc) in Hina. exact Hina.
    - left. apply andb_true_iff in Heof as [Hz%Z.eqb_eq Hie]. rewrite (wf_size _ Hwf) in Hz.
      apply zlen_nil_inv in Hz. specialize (Hend Hie). by rewrite Hz, app_nil_r in Hend. }
  rewrite Hw2. destruct Hall as [?|?]; [by left|by right].
Qed.

Lemma write_segments_frame segs : forall a f h a' f' h',
  write_segments segs a f h = Ok (a', f', h') ->
  fd_num f' = fd_num f /\ closed f' = closed f /\ FileDescriptor.eof f' = FileDescriptor.eof f /\
  forall fd, fd <> fd_num f -> read_from fd h' = read_from fd h /\ written_to fd h' = written_to fd h.
Proof.
  induction segs as [|seg segs IH]; intros a f h a' f' h' E; cbn [write_segments] in E.
  { apply Ok_inj in E. by injection E as _ <- <-. }
  apply bind_Ok in E as ([out a1] & _ & E). apply bind_Ok in E as ([f1 h1] & E1 & E).
  apply IH in E as (G5 & G6 & G7 & G8).
  destruct out as [d|]; [|by apply Ok_inj in E1; injection E1 as <- <-].
  apply device_write_frame in E1 as (G1 & G2 & G3 & G4). split_and!; [congruence..|].
  intros fd Hf. rewrite <- G1 in Hf at 1. destruct (G8 fd Hf) as [-> ->]. apply G4. by rewrite <- G1.
Qed.

Lemma call4_inv e s s' :
  socket_inv e s -> callback4 s = Ok s' -> socket_inv e s'.
Proof.
  intros [Hre Hp Ha (c & sent & Hc & Hse) Ht] E.
  assert (Hstep : socket_step s s') by (apply (step_call rule4); [by right; right; right; left|exact E]).
  assert (Hre' : rtc socket_step s0 s') by by eapply rtc_r.
  unfold callback4 in E. apply bind_Ok in E as (c1 & Hc1%tcp_Ok & E). rewrite Hc in Hc1. injection Hc1 as <-.
  apply bind_Ok in E as ([[a f] h] & E1 & E). apply Ok_inj in E.
  apply write_segments_frame in E1 as (Hfd & _ & _ & Hfr).
  destruct (Hfr tfd) as [Hr Hw]; [by rewrite Ha|].
  pose proof (conn_drain _ _ _ _ _ _ _ _ _ Hse) as Hse1. rewrite <- Hr, <- Hw in Hse1.
  subst s'. split; [exact Hre'|exact Hp|exact (eq_trans Hfd Ha)|by exists (drain c), (sent ++ segments_out c)|].
  eapply told_keep; [exact Ht|done|exact Hw|exact (Z.eq_le_incl _ _ (f_equal (fun l => zlen l) (eq_sym Hr)))|]. by rewrite (failed_tcp s c Hc).
Qed.

Lemma cancel2_inv e s s' : socket_inv e s -> cancel2 s = Ok s' -> socket_inv true s'.
Proof.
  intros [Hre Hp Ha (c & sent & Hc & Hse) Ht] E.
  assert (Hre' : rtc socket_step s0 s') by (eapply rtc_r; [exact Hre|by apply step_cancel]).
  unfold cancel2 in E. apply bind_Ok in E as (c1 & Hc1%tcp_Ok & E). rewrite Hc in Hc1. injection Hc1 as <-.
  apply Ok_inj in E. subst s'.
  split; [exact Hre'|exact Hp|exact Ha|eexists _, sent; split; [done|by eapply conn_end]|].
  eapply told_keep; [exact Ht|done|done|done|]. by rewrite (failed_tcp s c Hc).
Qed.

Lemma tick_inv e base next s base' s' :
  socket_inv e s -> loop_tick base next s = Ok (base', s') -> socket_inv e s'.
Proof.
  intros [Hre Hp Ha (c & sent & Hc & Hse) Ht] E.
  assert (Hre' : rtc socket_step s0 s') by (eapply rtc_r; [exact Hre|by eapply step_tick]).
  unfold loop_tick in E. apply bind_Ok in E as (c1 & Hc1%tcp_Ok & E). rewrite Hc in Hc1. injection Hc1 as <-.
  destruct (active c) eqn:Hact.
  - apply bind_Ok in E as (c1 & E1 & E). apply Ok_inj in E. injection E as _ <-.
    split; [exact Hre'|exact Hp|exact Ha|exists c1, sent; split; [done|by eapply conn_tick]|].
    eapply told_keep; [exact Ht|done|done|done|]. intros Hl. rewrite (failed_tcp s c Hc). intros He.
    destruct (session_inbound _ _ _ _ _ _ _ _ _ cap_nonneg stream_bound send_bound Hl Hse) as (_ & _ & Herr & _).
    specialize (Herr He). congruence.
  - apply Ok_inj in E. injection E as _ <-. split; try done. by exists c, sent.
Qed.

Lemma abort_inv e s b : socket_inv e s -> socket_inv e (s <| _abort := b |>).
Proof.
  intros [Hre Hp Ha Hse Ht]. split; try done. eapply rtc_r; [exact Hre|apply step_abort].
Qed.

(** What each handler leaves of the descriptors. *)
Lemma call1_frame s s' : callback1 s = Ok s' ->
  closed (adapter_fd s') = closed (adapter_fd s) /\ _thread_data s' = _thread_data s.
Proof.
  unfold callback1. intros ([seg s1] & E1 & E)%bind_Ok.
  destruct (receive_frame _ _ _ E1) as (_ & Hcl & _ & Hp1 & _).
  apply bind_Ok in E as (c1 & _ & E). apply bind_Ok in E as (c2 & _ & E). destruct (_ && _).
  - apply bind_Ok in E as (s2 & ->%print_Ok & E). apply Ok_inj in E as <-. by split.
  - apply Ok_inj in E as <-. by split.
Qed.

Lemma call2_frame s s' : callback2 s = Ok s' ->
  closed (_thread_data s') = closed (_thread_data s) /\ adapter_fd s' = adapter_fd s.
Proof.
  unfold callback2. intros (c & _ & E)%bind_Ok.
  apply bind_Ok in E as ([[data f] h] & (_ & _ & _ & Hcl & _)%read_inv & E).
  destruct (TCPConnection.write data c) as [n c1]. destruct (negb _); [done|].
  destruct (FileDescriptor.eof f); [apply print_Ok in E|apply Ok_inj in E]; subst s'; by split.
Qed.

Lemma call3_frame s s' : callback3 s = Ok s' ->
  closed (_thread_data s') = closed (_thread_data s) /\
  FileDescriptor.eof (_thread_data s') = FileDescriptor.eof (_thread_data s) /\ adapter_fd s' = adapter_fd s.
Proof.
  unfold callback3. intros (c & _ & E)%bind_Ok.
  apply bind_Ok in E as ([[n f] h] & [(_ & He & Hcl & _) _]%write_loop_frame & E). destruct (_ || _).
  - apply bind_Ok in E as ([f2 h2] & E2 & E). unfold shutdown in E2.
    apply bind_Ok in E2 as ([k h3] & _ & E2). apply Ok_inj in E2. injection E2 as <- _.
    apply print_Ok in E. subst s'. by split_and!.
  - apply Ok_inj in E. subst s'. by split_and!.
Qed.

Lemma call4_frame s s' : callback4 s = Ok s' ->
  closed (adapter_fd s') = closed (adapter_fd s) /\
  FileDescriptor.eof (adapter_fd s') = FileDescriptor.eof (adapter_fd s) /\ _thread_data s' = _thread_data s.
Proof.
  unfold callback4. intros (c & _ & E)%bind_Ok.
  apply bind_Ok in E as ([[a f] h] & (_ & Hcl & He & _)%write_segments_frame & E).
  apply Ok_inj in E. subst s'. by split_and!.
Qed.

Lemma socket_rule live r : live `sublist_of` socket_rules -> r ∈ live ->
  r = rule1 \/ r = rule2 \/ r = rule3 \/ r = rule4.
Proof.
  intros Hs Hin. assert (Hr : r ∈ socket_rules).
  { eapply elem_of_submseteq; [exact Hin|by apply sublist_submseteq]. }
  unfold socket_rules in Hr. rewrite !elem_of_cons in Hr.
  destruct Hr as [-> | [-> | [-> | [-> | Hr]]]]; auto. by apply not_elem_of_nil in Hr.
Qed.

Lemma socket_rules_nodup : NoDup socket_rules.
Proof. apply (NoDup_fmap_1 (fun r => (fd r, direction r))). by apply (bool_decide_unpack _). Qed.

Definition live_inv live s : Prop := live `sublist_of` socket_rules /\
  exists e, socket_inv e s /\
    (e = true -> FileDescriptor.eof (_thread_data s) = true \/ rule2 ∉ live).

(** The rules after a call. *)
Lemma unfinished_after (r : Rule socket) live s s' :
  live `sublist_of` socket_rules ->
  (forall q, q <> r -> q = rule1 \/ q = rule2 \/ q = rule3 \/ q = rule4 -> finished q s' = finished q s) ->
  forall r', r' ∈ live -> r' <> r -> unfinished s r' -> unfinished s' r'.
Proof.
  intros Hl Hq r' Hin Hne. unfold unfinished. rewrite Hq; [done|exact Hne|by apply (socket_rule live)].
Qed.

#[export] Instance socket_live : LiveInvariant live_inv (fun _ => True).
Proof.
  split.
  - intros l s [Hl _]. exact (sublist_nodup _ _ Hl socket_rules_nodup).
  - intros r l s s' (Hl & e & HI & He) Hr Hu E.
    destruct (socket_rule l r Hl Hr) as [-> | [-> | [-> | ->]]]; cbn [callback rule1 rule2 rule3 rule4] in E.
    + pose proof (call1_inv _ _ _ HI E) as HI'. apply call1_frame in E as [E1 E2]. split.
      * split; [exact Hl|]. exists e. by rewrite E2.
      * apply unfinished_after; [exact Hl|].
        intros q Hne [-> | [-> | [-> | ->]]]; [done|..]; unfold finished; cbn; by rewrite ?E1, ?E2.
    + destruct (call2_inv _ _ _ HI E) as (e' & HI' & He'). apply call2_frame in E as [E1 E2]. split.
      * split; [exact Hl|]. exists e'. split; [exact HI'|]. intros Ht.
        destruct (He' Ht) as [Ht'|?]; [|by left]. destruct (He Ht') as [Hf|Hf]; [|by right].
        exfalso. apply orb_false_iff in Hu as [Hu _]. cbn in Hu. congruence.
      * apply unfinished_after; [exact Hl|].
        intros q Hne [-> | [-> | [-> | ->]]]; [|done|..]; unfold finished; cbn; by rewrite ?E1, ?E2.
    + pose proof (call3_inv _ _ _ HI E) as HI'. apply call3_frame in E as (E1 & E2 & E3). split.
      * split; [exact Hl|]. exists e. by rewrite E2.
      * apply unfinished_after; [exact Hl|].
        intros q Hne [-> | [-> | [-> | ->]]]; unfold finished; cbn; by rewrite ?E1, ?E2, ?E3.
    + pose proof (call4_inv _ _ _ HI E) as HI'. apply call4_frame in E as (E1 & E2 & E3). split.
      * split; [exact Hl|]. exists e. by rewrite E3.
      * apply unfinished_after; [exact Hl|].
        intros q Hne [-> | [-> | [-> | ->]]]; unfold finished; cbn; by rewrite ?E1, ?E2, ?E3.
  - intros l1 r l2 s s' (Hl & e & HI & He) _ E.
    assert (Hr : r ∈ l1 ++ r :: l2) by (apply elem_of_app; right; by left).
    assert (Hl' := sublist_removed _ _ _ _ Hl).
    pose proof (nodup_removed _ _ _ rule2 (sublist_nodup _ _ Hl socket_rules_nodup)) as H2.
    assert (Hsame : s' = s -> live_inv (l1 ++ l2) s' /\
      (forall r', r' ∈ l1 ++ l2 -> unfinished s r' -> unfinished s' r')).
    { intros ->. split; [|done]. split; [exact Hl'|]. exists e. split; [exact HI|].
      intros Ht. destruct (He Ht) as [?|Hn]; [by left|right]. by rewrite H2; intros [? _]. }
    destruct (socket_rule _ r Hl Hr) as [-> | [-> | [-> | ->]]]; cbn [cancel rule1 rule2 rule3 rule4] in E;
      [by apply Ok_inj in E as <-; apply Hsame| |by apply Ok_inj in E as <-; apply Hsame..].
    pose proof (cancel2_inv _ _ _ HI E) as HI'. split.
    + split; [exact Hl'|]. exists true. split; [exact HI'|]. intros _. right. rewrite H2. by intros [_ ?].
    + unfold cancel2 in E. apply bind_Ok in E as (c & _ & E). apply Ok_inj in E. subst s'. intros r' _.
      unfold unfinished, finished. by destruct (direction r'), (fd r').
Qed.

Lemma tcp_loop_inv condition rounds : forall base rules s ret rules' s',
  live_inv rules s -> _tcp_loop condition rounds base rules s = Ok (ret, rules', s') -> live_inv rules' s'.
Proof.
  induction rounds as [|r rounds IH]; intros base rules s ret rules' s' HI E; cbn [_tcp_loop] in E;
    (destruct (negb _); [apply Ok_inj in E; by injection E as _ <- <-|]).
  { apply Ok_inj in E. by injection E as _ <- <-. }
  apply bind_Ok in E as ([[res rules1] s1] & E1 & E).
  destruct (wait_live live_inv (fun _ => True) (r_poll r) _ _ _ _ _ _ ltac:(done) HI E1) as [(Hl1 & e & HI1 & He1) _].
  apply (abort_inv _ _ (_abort s1 || r_abort r)) in HI1.
  destruct (_ || _); [apply Ok_inj in E; injection E as _ <- <-; split; [exact Hl1|by exists e]|].
  apply bind_Ok in E as ([base2 s2] & E2 & E). eapply IH; [|exact E].
  split; [exact Hl1|]. exists e. split; [by eapply tick_inv|].
  assert (_thread_data s2 = _thread_data s1) as ->; [|done].
  unfold loop_tick in E2. apply bind_Ok in E2 as (c & _ & E2). destruct (active c).
  - apply bind_Ok in E2 as (c2 & _ & E2). apply Ok_inj in E2. by injection E2 as _ <-.
  - apply Ok_inj in E2. by injection E2 as _ <-.
Qed.

Lemma opened_inv listen rnd c_ad s :
  fd_num (_thread_data s) = tfd -> fd_num (adapter_fd s) = afd ->
  read_from tfd (calls s) = [] -> written_to tfd (calls s) = [] ->
  _inbound_shutdown s = false -> TCPSender._isn (_sender (TCPConnection.new rnd cfg)) = isn ->
  s0 = opened listen rnd cfg c_ad s -> live_inv socket_rules s0.
Proof.
  intros Hp Ha Hr Hw Hi Hisn E. split; [done|]. exists false. split; [|done].
  pose proof (conn_new isn pisn S cfg rnd Hisn) as Hse.
  split; [apply rtc_refl|by rewrite E|by rewrite E| |].
  - unfold in_session. rewrite E. unfold opened.
    destruct listen; eexists _, []; (split; [done|]); change (calls _) with (calls s);
      rewrite Hr, Hw; [exact Hse|by apply conn_connect].
  - rewrite E. intros Hs. change (_inbound_shutdown s = true) in Hs. congruence.
Qed.

(** The loop that opens the socket starts in [s0] with all four rules. *)
Lemma open_socket_loop listen rnd c_ad rounds now s ret rules s1 :
  open_socket listen rnd cfg c_ad rounds now s = Ok (ret, rules, s1) ->
  exists condition, _tcp_loop condition rounds now socket_rules (opened listen rnd cfg c_ad s) =
    Ok (ret, rules, s1).
Proof.
  unfold open_socket, listen_and_accept, socket_connect. intros E.
  destruct listen, (_tcp s); try done; cbn [_initialize_TCP] in E.
  - exists accepting. apply bind_Ok in E as ([[r1 rs1] s2] & E1 & E).
    apply bind_Ok in E as (s3 & E2 & E). apply Ok_inj in E. injection E as <- <- <-.
    assert (s3 = s2) as ->; [|exact E1].
    destruct r1; [by apply print_Ok|by apply Ok_inj in E2].
  - apply bind_Ok in E as (x & _ & E). apply bind_Ok in E as (c & Hc%tcp_Ok & E).
    injection Hc as <-. destruct (negb _); [done|]. eexists. exact E.
Qed.

(** ** With an environment that does not fail *)

Definition prints s : Prop :=
  exists x, address_string (destination (adapter_config (_datagram_adapter s))) = Ok x.

(** Wherever the socket gets: the adapter and its device work, addresses can be printed, and the application has
    written less than the connection can count. *)
Record environment_ok : Prop := mk_environment_ok {
  env_receive s : rtc socket_step s0 s -> exists seg s', adapter_receive s = Ok (seg, s') /\
    read_count (adapter_fd s') <> read_count (adapter_fd s) /\ prints s';
  env_write s c : rtc socket_step s0 s -> _tcp s = Some c ->
    is_Ok (write_segments (segments_out c) (_datagram_adapter s) (adapter_fd s) (calls s));
  env_print s : rtc socket_step s0 s -> prints s;
  env_bound s : rtc socket_step s0 s -> zlen (read_from tfd (calls s)) < LIMIT }.

Hypothesis kernel_obliging : obliging.
Hypothesis environment : environment_ok.

Lemma print_runs s : prints s -> print_destination s = Ok s.
Proof. intros [x E]. unfold print_destination. by rewrite E. Qed.

Lemma session_of e s : socket_inv e s -> exists c sent, _tcp s = Some c /\
  conn_session isn pisn S cfg (read_from tfd (calls s)) e sent (written_to tfd (calls s)) c /\
  conn_ok isn pisn S (recv_capacity cfg) (read_from tfd (calls s)) e sent (written_to tfd (calls s)) c.
Proof.
  intros [Hre Hp Ha (c & sent & Hc & Hse) Ht]. exists c, sent. split; [done|]. split; [done|].
  eapply conn_session_ok; [exact cap_nonneg|exact stream_bound|done|exact send_bound|exact Hse|].
  by apply (env_bound environment).
Qed.

Lemma tcp_Some s c : _tcp s = Some c -> tcp s = Ok c.
Proof. unfold tcp. by intros ->. Qed.

Lemma call1_runs e s : socket_inv e s -> exists s', callback1 s = Ok s' /\
  read_count (adapter_fd s') <> read_count (adapter_fd s).
Proof.
  intros HI. destruct (session_of e s HI) as (c & sent & Hc & Hse & Hok).
  destruct (env_receive environment s (so_reach _ _ HI)) as (seg & s1 & E1 & Hcount & Hprint).
  destruct (receive_frame _ _ _ E1) as (_ & _ & Ht1 & _). unfold callback1. rewrite E1.
  cbn [mbind outcome_bind]. rewrite (tcp_Some s1 c) by by rewrite Ht1. cbn [mbind outcome_bind].
  assert (exists c2, match seg with Some seg => segment_received seg c | None => Ok c end = Ok c2) as [c2 ->].
  { destruct seg as [seg|]; [|by eauto].
    destruct (segment_received_ok isn pisn S (recv_capacity cfg) cap_nonneg stream_bound _ _ _ _ c seg Hok)
      as (c2 & E2 & _); [|by eauto]. intros Hact. exact (network s (so_reach _ _ HI) seg s1 E1 c Hc Hact). }
  cbn [mbind outcome_bind]. destruct (_ && _); [rewrite print_runs by exact Hprint; cbn [mbind outcome_bind]|];
    by eauto.
Qed.

Lemma call2_runs s : socket_inv false s -> exists s', callback2 s = Ok s' /\
  read_count (_thread_data s') <> read_count (_thread_data s).
Proof.
  intros HI. destruct (session_of _ s HI) as (c & sent & Hc & Hse & Hok).
  unfold callback2. rewrite (tcp_Some s c Hc). cbn [mbind outcome_bind].
  destruct (read_runs (remaining_outbound_capacity c) (_thread_data s) (calls s) kernel_obliging)
    as (data & f & h & E & Hcount).
  { eapply proj1, u64_range. }
  rewrite E. cbn [mbind outcome_bind]. apply read_inv in E as (Hlen & _).
  pose proof (write_accepts _ _ _ _ _ _ _ _ data Hok ltac:(lia)) as Hn.
  destruct (TCPConnection.write data c) as [n c1]. cbn [fst] in Hn. subst n.
  rewrite Z.eqb_refl. cbn [negb]. assert (Hne : read_count f <> read_count (_thread_data s)).
  { rewrite Hcount. ulia. }
  destruct (FileDescriptor.eof f); [|by eauto]. rewrite print_runs; [by eauto|].
  exact (env_print environment s (so_reach _ _ HI)).
Qed.

Lemma call3_runs e s : socket_inv e s -> exists s', callback3 s = Ok s' /\
  write_count (_thread_data s') <> write_count (_thread_data s).
Proof.
  intros HI. destruct (session_of _ s HI) as (c & sent & Hc & Hse & Hok).
  unfold callback3. rewrite (tcp_Some s c Hc). cbn [mbind outcome_bind].
  set (m := Z.min max_amount _).
  assert (Hl : zlen (peek_output m (inbound_stream c)) < 0x10000000000000000).
  { unfold peek_output, ztake. rewrite length_take. unfold m, max_amount. lia. }
  destruct (write_string_runs _ false (_thread_data s) (calls s) kernel_obliging Hl) as (n & f & h & E).
  rewrite E. cbn [mbind outcome_bind]. apply write_string_inv in E as (_ & _ & ->); [|exact Hl].
  destruct (_ || _).
  - unfold shutdown. match goal with |- context [sys_call ?c ?h1] =>
      destruct (sys_call_runs c h1 kernel_obliging) as (k & h2 & ->) end.
    cbn [mbind outcome_bind Z.eqb SHUT_WR SHUT_RD Pos.eqb].
    rewrite print_runs by exact (env_print environment s (so_reach _ _ HI)). eexists. split; [done|].
    change (u32 (u32 (write_count (_thread_data s) + 1) + 1) <> write_count (_thread_data s)). ulia.
  - eexists. split; [done|]. change (u32 (write_count (_thread_data s) + 1) <> write_count (_thread_data s)). ulia.
Qed.

Lemma call4_runs e s : socket_inv e s -> exists s', callback4 s = Ok s' /\ interest4 s' = false.
Proof.
  intros HI. destruct (session_of _ s HI) as (c & sent & Hc & Hse & Hok).
  unfold callback4. rewrite (tcp_Some s c Hc). cbn [mbind outcome_bind].
  destruct (env_write environment s c (so_reach _ _ HI) Hc) as [[[a f] h] ->]. cbn [mbind outcome_bind].
  by eauto.
Qed.

Lemma socket_handlers_run : handlers_run live_inv.
Proof.
  split.
  - intros r l s (Hl & e & HI & He) Hr Hu.
    destruct (socket_rule l r Hl Hr) as [-> | [-> | [-> | ->]]]; cbn [callback rule1 rule2 rule3 rule4].
    + destruct (call1_runs e s HI) as (s' & E & Hc). exists s'. split; [exact E|]. left. by apply not_eq_sym.
    + destruct e.
      { exfalso. destruct (He eq_refl) as [Hf|Hf]; [|done]. apply orb_false_iff in Hu as [Hu _]. cbn in Hu. congruence. }
      destruct (call2_runs s HI) as (s' & E & Hc). exists s'. split; [exact E|]. left. by apply not_eq_sym.
    + destruct (call3_runs e s HI) as (s' & E & Hc). exists s'. split; [exact E|]. left. by apply not_eq_sym.
    + destruct (call4_runs e s HI) as (s' & E & Hc). exists s'. split; [exact E|]. by right.
  - intros r l s (Hl & e & HI & He) Hr.
    destruct (socket_rule l r Hl Hr) as [-> | [-> | [-> | ->]]]; [by eexists| |by eexists..].
    destruct (session_of _ s HI) as (c & sent & Hc & _). cbn. unfold cancel2.
    rewrite (tcp_Some s c Hc). by eexists.
Qed.

Lemma tcp_loop_runs condition rounds : Forall (fun r => reports_no_error (r_poll r)) rounds ->
  forall base rules s, live_inv rules s ->
  is_Ok (_tcp_loop condition rounds base rules s).
Proof.
  induction 1 as [|r rounds Hr _ IH]; intros base rules s HI; cbn [_tcp_loop];
    (destruct (negb _); [by eexists|]); [by eexists|].
  destruct (wait_runs live_inv (fun _ => True) (r_poll r) TCP_TICK_MS rules s) as (res & rules1 & s1 & E1);
    [exact socket_handlers_run|done|exact Hr|exact HI|].
  rewrite E1. cbn [mbind outcome_bind].
  destruct (wait_live live_inv (fun _ => True) (r_poll r) _ _ _ _ _ _ ltac:(done) HI E1) as [(Hl1 & e & HI1 & He1) _].
  apply (abort_inv _ _ (_abort s1 || r_abort r)) in HI1.
  set (s2 := s1 <| _abort := _ |>) in *. destruct (_ || _abort s2); [by eexists|].
  assert (exists b s3, loop_tick base (r_time r) s2 = Ok (b, s3) /\ _thread_data s3 = _thread_data s2)
    as (b & s3 & E2 & Ht).
  { destruct (session_of _ s2 HI1) as (c & sent & Hc & Hse & Hok). unfold loop_tick.
    rewrite (tcp_Some _ c Hc). cbn [mbind outcome_bind]. destruct (active c); [|by eauto].
    destruct (tick_ok isn pisn S (recv_capacity cfg) _ _ _ _ _ (u64 (r_time r - base)) Hok) as (c2 & -> & _).
    cbn [mbind outcome_bind]. by eauto. }
  rewrite E2. cbn [mbind outcome_bind]. apply IH. split; [exact Hl1|]. exists e.
  split; [by eapply tick_inv|]. by rewrite Ht.
Qed.

Lemma open_socket_runs listen rnd c_ad rounds now s :
  fd_num (_thread_data s) = tfd -> fd_num (adapter_fd s) = afd ->
  read_from tfd (calls s) = [] -> written_to tfd (calls s) = [] ->
  _inbound_shutdown s = false -> TCPSender._isn (_sender (TCPConnection.new rnd cfg)) = isn ->
  _tcp s = None -> (listen = false -> is_Ok (address_string (destination c_ad))) ->
  s0 = opened listen rnd cfg c_ad s -> Forall (fun r => reports_no_error (r_poll r)) rounds ->
  is_Ok (open_socket listen rnd cfg c_ad rounds now s).
Proof.
  intros Hp Ha Hr Hw Hi Hisn Hnone Had E Hpolls.
  pose proof (opened_inv listen rnd c_ad s Hp Ha Hr Hw Hi Hisn E) as HI. rewrite E in HI.
  unfold open_socket, listen_and_accept, socket_connect. rewrite Hnone. destruct listen.
  - cbn [_initialize_TCP].
    destruct (tcp_loop_runs accepting rounds Hpolls now socket_rules _ HI) as [[[ret rules] s1] E1].
    pose proof (tcp_loop_inv _ _ _ _ _ _ _ _ HI E1) as (_ & e & [Hre _ _ _ _] & _).
    change (is_Ok ('(returned, rules, s) ← _tcp_loop accepting rounds now socket_rules (opened true rnd cfg c_ad s);
      s ← (if (returned : bool) then print_destination s else Ok s); Ok (returned, rules, s))).
    rewrite E1. cbn [mbind outcome_bind]. destruct ret; [|by eexists].
    rewrite print_runs by exact (env_print environment s1 Hre). by eexists.
  - destruct (Had eq_refl) as [x Hx].
    change (is_Ok (_ ← address_string (destination c_ad);
      _tcp_loop (in_state SYN_SENT) rounds now socket_rules (opened false rnd cfg c_ad s))).
    rewrite Hx. cbn [mbind outcome_bind]. by apply tcp_loop_runs.
Qed.
End sound.

(** Any run of the opening and of the loop leaves a session. *)
Lemma socket_run_session `{Kernel} `{Resolver} {A In Out : Type} `{FdAdapter A In Out} `{D : Device In Out}
    `{!DeviceLaws D} isn pisn S cfg tfd afd (s : TCPSpongeSocket A) listen rnd c_ad
    rounds now ret rules s1 rounds' now' ret' rules' s2 :
  0 <= recv_capacity cfg -> zlen S + recv_capacity cfg < 0x7fffffff00000000 ->
  is_u64 (send_capacity cfg) -> TCPSender._isn (_sender (TCPConnection.new rnd cfg)) = isn ->
  tfd <> afd -> fd_num (_thread_data s) = tfd -> fd_num (adapter_fd s) = afd ->
  read_from tfd (calls s) = [] -> written_to tfd (calls s) = [] -> _inbound_shutdown s = false ->
  network_ok pisn S (opened listen rnd cfg c_ad s) ->
  open_socket listen rnd cfg c_ad rounds now s = Ok (ret, rules, s1) ->
  _tcp_loop (fun _ => true) rounds' now' rules s1 = Ok (ret', rules', s2) ->
  exists e, in_session isn pisn S cfg tfd e s2 /\ told_end S tfd s2.
Proof.
  intros Hc Hb Hs Hisn Hfd Hp Ha Hr Hw Hi Hnet E1 E2.
  pose proof (opened_inv isn pisn S cfg tfd afd _ listen rnd c_ad s Hp Ha Hr Hw Hi Hisn eq_refl) as HI.
  apply open_socket_loop in E1 as [condition E1].
  eapply tcp_loop_inv in HI; [|done..|exact E1]. eapply tcp_loop_inv in HI; [|done..|exact E2].
  destruct HI as (_ & e & [_ _ _ Hse Htold] & _). by exists e.
Qed.

(** What the application has been given is a prefix. *)
Lemma in_session_prefix isn pisn S cfg tfd {A} e (s : TCPSpongeSocket A) :
  0 <= recv_capacity cfg -> zlen S + recv_capacity cfg < 0x7fffffff00000000 -> is_u64 (send_capacity cfg) ->
  zlen (read_from tfd (calls s)) < LIMIT -> in_session isn pisn S cfg tfd e s ->
  written_to tfd (calls s) `prefix_of` S.
Proof.
  intros Hc Hb Hs Hl (c & sent & _ & Hse).
  destruct (session_inbound _ _ _ _ _ _ _ _ _ Hc Hb Hs Hl Hse) as ((k & Hk & Hpre) & _).
  etrans; [by apply prefix_app_r|]. rewrite Hpre. apply prefix_take.
Qed.

(** ** Properties *)

(** C5. The socket is sound.  Open it as a client or as a server, then run the thread's loop, for any
    events, clock and kernel, as long as the segments that arrive are those of a peer that sends
    [S]: the bytes the application can read from the pipe are a prefix of [S]; when the socket has shut
    down that direction they are all of [S], unless the inbound stream failed (a reset, or too many retransmissions); and the socket is a session of
    its connection in which every segment for the peer is accurate for the bytes the application
    has written to the pipe. *)
Theorem socket_sound `{Kernel} `{Resolver} {A In Out : Type} `{FdAdapter A In Out} `{D : Device In Out}
    `{!DeviceLaws D} isn pisn S cfg tfd afd (s : TCPSpongeSocket A) listen rnd c_ad
    rounds now ret rules s1 rounds' now' ret' rules' s2 :
  0 <= recv_capacity cfg -> zlen S + recv_capacity cfg < 0x7fffffff00000000 ->
  is_u64 (send_capacity cfg) -> TCPSender._isn (_sender (TCPConnection.new rnd cfg)) = isn ->
  tfd <> afd -> fd_num (_thread_data s) = tfd -> fd_num (adapter_fd s) = afd ->
  read_from tfd (calls s) = [] -> written_to tfd (calls s) = [] -> _inbound_shutdown s = false ->
  network_ok pisn S (opened listen rnd cfg c_ad s) ->
  open_socket listen rnd cfg c_ad rounds now s = Ok (ret, rules, s1) ->
  _tcp_loop (fun _ => true) rounds' now' rules s1 = Ok (ret', rules', s2) ->
  zlen (read_from tfd (calls s2)) < LIMIT ->
  written_to tfd (calls s2) `prefix_of` S /\
  (_inbound_shutdown s2 = true -> written_to tfd (calls s2) = S \/ inbound_failed s2 = true) /\
  exists c e sent, _tcp s2 = Some c /\
    conn_session isn pisn S cfg (read_from tfd (calls s2)) e sent (written_to tfd (calls s2)) c /\
    Forall (accurate isn (read_from tfd (calls s2)) e) (sent ++ segments_out c).
Proof.
  intros Hc Hb Hs Hisn Hfd Hp Ha Hr Hw Hi Hnet E1 E2 Hl.
  destruct (socket_run_session isn pisn S cfg tfd afd s listen rnd c_ad rounds now ret rules s1 rounds' now' ret' rules' s2
    Hc Hb Hs Hisn Hfd Hp Ha Hr Hw Hi Hnet E1 E2) as (e & Hin & Htold).
  split_and!; [by eapply in_session_prefix|intros Hsh; by apply Htold|].
  - destruct Hin as (c & sent & Htcp & Hse). exists c, e, sent. split_and!; [done|done|]. by eapply session_outbound.
Qed.

(** C12. The socket does not fail: in the same setting, when the kernel allows every call on the pipe, the
    adapter and its device work, and [poll] reports no error, neither opening the socket
    nor the thread's loop throws. In particular the connection always accepts what
    rule 2 has read for it, it handles every segment, and the event loop never finds a busy wait. *)
Theorem socket_runs `{Kernel} `{Resolver} {A In Out : Type} `{FdAdapter A In Out} `{D : Device In Out}
    `{!DeviceLaws D} isn pisn S cfg tfd afd (s : TCPSpongeSocket A) listen rnd c_ad
    rounds now rounds' now' :
  0 <= recv_capacity cfg -> zlen S + recv_capacity cfg < 0x7fffffff00000000 ->
  is_u64 (send_capacity cfg) -> TCPSender._isn (_sender (TCPConnection.new rnd cfg)) = isn ->
  tfd <> afd -> fd_num (_thread_data s) = tfd -> fd_num (adapter_fd s) = afd ->
  read_from tfd (calls s) = [] -> written_to tfd (calls s) = [] -> _inbound_shutdown s = false ->
  _tcp s = None -> (listen = false -> is_Ok (address_string (destination c_ad))) ->
  network_ok pisn S (opened listen rnd cfg c_ad s) ->
  obliging -> environment_ok tfd (opened listen rnd cfg c_ad s) ->
  Forall (fun r => reports_no_error (r_poll r)) (rounds ++ rounds') ->
  exists ret rules s1, open_socket listen rnd cfg c_ad rounds now s = Ok (ret, rules, s1) /\
    is_Ok (_tcp_loop (fun _ => true) rounds' now' rules s1).
Proof.
  intros Hc Hb Hs Hisn Hfd Hp Ha Hr Hw Hi Hnone Had Hnet Hk Henv [Hpolls Hpolls']%Forall_app.
  destruct (open_socket_runs isn pisn S cfg tfd afd _ Hfd Hc Hb Hs Hnet Hk Henv listen rnd c_ad rounds now s
    Hp Ha Hr Hw Hi Hisn Hnone Had eq_refl Hpolls) as [[[ret rules] s1] E].
  exists ret, rules, s1. split; [exact E|].
  pose proof (opened_inv isn pisn S cfg tfd afd _ listen rnd c_ad s Hp Ha Hr Hw Hi Hisn eq_refl) as HI.
  apply open_socket_loop in E as [condition E]. eapply tcp_loop_inv in HI; [|done..|exact E].
  by eapply tcp_loop_runs.
Qed.

(** C14. The thread ends when the owner wants it to: in the same setting, if the owner sets [_abort] (as the
    destructor does) at some round of the thread's loop, [_tcp_main] returns, without an exception, and the
    connection is gone.  So the destructor's join ends. *)
Theorem abort_ends_thread `{Kernel} `{Resolver} {A In Out : Type} `{FdAdapter A In Out} `{D : Device In Out}
    `{!DeviceLaws D} isn pisn S cfg tfd afd (s : TCPSpongeSocket A) listen rnd c_ad
    rounds now rounds' now' :
  0 <= recv_capacity cfg -> zlen S + recv_capacity cfg < 0x7fffffff00000000 ->
  is_u64 (send_capacity cfg) -> TCPSender._isn (_sender (TCPConnection.new rnd cfg)) = isn ->
  tfd <> afd -> fd_num (_thread_data s) = tfd -> fd_num (adapter_fd s) = afd ->
  read_from tfd (calls s) = [] -> written_to tfd (calls s) = [] -> _inbound_shutdown s = false ->
  _tcp s = None -> (listen = false -> is_Ok (address_string (destination c_ad))) ->
  network_ok pisn S (opened listen rnd cfg c_ad s) ->
  obliging -> environment_ok tfd (opened listen rnd cfg c_ad s) ->
  Forall (fun r => reports_no_error (r_poll r)) (rounds ++ rounds') ->
  Exists (fun r => r_abort r = true) rounds' ->
  exists ret rules s1 s2, open_socket listen rnd cfg c_ad rounds now s = Ok (ret, rules, s1) /\
    _tcp_main rounds' now' rules s1 = Ok (true, s2) /\ _tcp s2 = None.
Proof.
  intros Hc Hb Hs Hisn Hfd Hp Ha Hr Hw Hi Hnone Had Hnet Hk Henv [Hpolls Hpolls']%Forall_app Hab.
  destruct (open_socket_runs isn pisn S cfg tfd afd _ Hfd Hc Hb Hs Hnet Hk Henv listen rnd c_ad rounds now s
    Hp Ha Hr Hw Hi Hisn Hnone Had eq_refl Hpolls) as [[[ret rules] s1] E].
  pose proof (opened_inv isn pisn S cfg tfd afd _ listen rnd c_ad s Hp Ha Hr Hw Hi Hisn eq_refl) as HI.
  pose proof E as E0. apply open_socket_loop in E0 as [condition E0]. eapply tcp_loop_inv in HI; [|done..|exact E0].
  destruct (tcp_loop_runs isn pisn S cfg tfd afd _ Hfd Hc Hb Hs Hnet Hk Henv (fun _ => true) rounds' Hpolls' now' rules s1 HI)
    as [[[ret' rules'] s2] E2].
  pose proof (tcp_loop_aborts _ _ _ _ _ _ _ Hab E2) as ->.
  assert (exists c1, _tcp s1 = Some c1) as [c1 Hc1].
  { destruct HI as (_ & e & [_ _ _ (c & sent & Htcp & _) _] & _). by eexists. }
  eapply tcp_loop_inv in HI; [|done..|exact E2].
  destruct HI as (_ & e & [_ _ _ (c & sent & Htcp & _) _] & _).
  destruct (sys_call_runs (SysShutdown (fd_num (local s2)) SHUT_RDWR) (calls s2) Hk) as (n & h & Es).
  assert (is_Ok (destroy c)) as [c2 Hd].
  { unfold destroy. destruct (active c); [rewrite sendRSTSeg_eq|]; by eexists. }
  exists ret, rules, s1. eexists. split; [exact E|]. unfold _tcp_main. rewrite Hc1, E2.
  cbn [mbind outcome_bind]. unfold shutdown. rewrite Es. cbn [mbind outcome_bind Z.eqb SHUT_RDWR SHUT_RD SHUT_WR Pos.eqb].
  rewrite (tcp_Some _ c Htcp). cbn [mbind outcome_bind]. by rewrite Hd.
Qed.

(** ** An example: an adapter that sends everything and receives an empty segment each time, and an
    application that writes [abc] *)

Definition demo_config : FdAdapterConfig := mkFdAdapterConfig (inet 0x0a000001 80) (inet 0x0a000002 81) 0 0.
Definition demo_empty : TCPSegment := headerSeg TCPHeader.default.
#[local] Instance demo_adapter : FdAdapter unit unit TCPSegment := {|
  adapter_read _ a := Ok (Some demo_empty, a);
  adapter_write seg a := Ok (Some seg, a);
  adapter_config _ := demo_config;
  adapter_set_config _ a := a;
  adapter_set_listening _ a := a;
  adapter_tick _ a := a |}.
#[local] Instance demo_device : Device unit TCPSegment := {|
  device_read f h := Ok (tt, register_read f, h);
  device_write _ f h := Ok (register_write f, h) |}.
#[local] Instance demo_device_laws `{Kernel} : DeviceLaws demo_device.
Proof.
  split; [intros f h d f' h' E|intros d f h f' h' E]; apply Ok_inj in E; by simplify_eq.
Qed.

Definition demo_abc : Kernel := {|
  k_call _ _ := Sys 0;
  k_read fd n h := Sys (if has_read fd h then [] else ztake n [x61; x62; x63]);
  k_writev _ iov _ := Sys (zlen (iov_bytes iov));
  k_recvfrom _ _ _ := Sys (mk_datagram [] []);
  k_sendmsg _ _ iov _ := Sys (zlen (iov_bytes iov));
  k_getsockopt _ _ _ _ := Sys (0, 4);
  k_getname _ _ _ := Sys ([], 0);
  k_socketpair _ _ _ := Sys (3, 4) |}.

Definition demo_socket : TCPSpongeSocket unit :=
  mk_socket (mkFDWrapper 3 false false 0 0) (mkFDWrapper 4 false false 0 0) tt
    (mkFDWrapper 5 false false 0 0) None false false false false [].
Definition demo_rounds : list round := [mk_round demo_poll false 10; mk_round demo_poll false 20].

Lemma demo_network `{Kernel} : network_ok demo_pisn demo_peer (opened false 0 demo_cfg demo_config demo_socket).
Proof.
  intros s _ seg s' E c _ _. unfold adapter_receive in E. apply Ok_inj in E. injection E as <- _.
  split; [by right; left|]. split; [done|]. intros [=].
Qed.

Definition demo_run := _tcp_loop (fun _ => true) demo_rounds 0 (socket_rules (H := demo_abc))
  (opened false 0 demo_cfg demo_config demo_socket).
Definition demo_end : TCPSpongeSocket unit := match demo_run with Ok (_, _, s) => s | Fault _ => demo_socket end.
Definition demo_rules : list (Rule (TCPSpongeSocket unit)) :=
  match demo_run with Ok (_, rs, _) => rs | Fault _ => [] end.

Lemma demo_runs :
  _tcp_loop (fun _ => true) demo_rounds 0 (socket_rules (H := demo_abc))
    (opened false 0 demo_cfg demo_config demo_socket) = Ok (false, demo_rules, demo_end).
Proof.
  assert (E : match demo_run with Ok (b, _, _) => b | Fault _ => true end = false) by by vm_compute.
  unfold demo_rules, demo_end, demo_run in *.
  destruct (_tcp_loop _ _ _ _ _) as [[[b rs] s]|e]; [|done]. by rewrite E.
Qed.

Lemma demo_opens :
  open_socket (H := demo_abc) false 0 demo_cfg demo_config [] 0 demo_socket =
    Ok (false, socket_rules (H := demo_abc), opened false 0 demo_cfg demo_config demo_socket).
Proof.
  assert (E : in_state SYN_SENT (opened false 0 demo_cfg demo_config demo_socket) = true) by by vm_compute.
  change (open_socket (H := demo_abc) false 0 demo_cfg demo_config [] 0 demo_socket) with
    (if negb (in_state SYN_SENT (opened false 0 demo_cfg demo_config demo_socket)) then Fault RuntimeError
     else _tcp_loop (in_state SYN_SENT) [] 0 (socket_rules (H := demo_abc))
       (opened false 0 demo_cfg demo_config demo_socket)).
  rewrite E. cbn [negb _tcp_loop]. rewrite E. reflexivity.
Qed.

Lemma socket_sound_witness : exists c e sent, _tcp demo_end = Some c /\
  read_from 4 (calls demo_end) = [x61; x62; x63] /\
  Forall (accurate demo_isn [x61; x62; x63] e) (sent ++ segments_out c).
Proof.
  edestruct (socket_sound (H := demo_abc) demo_isn demo_pisn demo_peer demo_cfg 4 5 demo_socket)
    as (_ & _ & c & e & sent & Hc & _ & HF); cycle 11; [exact demo_opens|exact demo_runs|..].
  1: by vm_compute.
  2-11: by vm_compute.
  2: exact demo_network.
  assert (Hr : read_from 4 (calls demo_end) = [x61; x62; x63]) by by vm_compute.
  exists c, e, sent. rewrite Hr in HF. split; [exact Hc|]. split; [exact Hr|exact HF].
Defined.

(** With a kernel whose reads are at the end of file, whatever the socket does. *)
Lemma demo_write_segments segs : forall a f h,
  exists f', write_segments segs a f h = Ok (a, f', h).
Proof. induction segs as [|seg segs IH]; intros a f h; [by eexists|]. cbn. apply IH. Qed.

Lemma demo_reads_nothing s s' : socket_step (H := demo_kernel) s s' ->
  read_from 4 (calls s) = [] -> read_from 4 (calls s') = [].
Proof.
  assert (Hnt : forall h h', no_transfer h h' -> read_from 4 h = [] -> read_from 4 h' = []).
  { intros h h' Hnt <-. apply Hnt. }
  intros Hstep Hr. destruct Hstep as [r s s' Hin E|s s' E|base next base' s s' E|s b]; [| | |done].
  - apply (socket_rule socket_rules) in Hin as [-> | [-> | [-> | ->]]]; [..|done];
      cbn [callback rule1 rule2 rule3 rule4] in E.
    + unfold callback1 in E. apply bind_Ok in E as ([seg s1] & E1 & E). apply Ok_inj in E1.
      injection E1 as _ <-. apply bind_Ok in E as (c1 & _ & E). apply bind_Ok in E as (c2 & _ & E).
      destruct (_ && _); [apply bind_Ok in E as (s2 & ->%print_Ok & E)|]; apply Ok_inj in E; by subst s'.
    + unfold callback2 in E. apply bind_Ok in E as (c & _ & E).
      apply bind_Ok in E as ([[data f] h] & E1 & E). unfold FileDescriptor.read in E1.
      cbn [k_read demo_kernel system_call mbind outcome_bind] in E1. destruct (_ <? _); [done|].
      apply Ok_inj in E1. injection E1 as <- <- <-.
      set (h := calls s ++ _) in E. assert (Hh : read_from 4 h = []).
      { unfold h. rewrite read_from_app, Hr. unfold read_from. cbn -[Z.eqb]. by destruct (4 =? _). }
      destruct (TCPConnection.write _ _) as [n c2]. destruct (negb _); [done|].
      destruct (FileDescriptor.eof _); [apply print_Ok in E|apply Ok_inj in E]; by subst s'.
    + unfold callback3 in E. apply bind_Ok in E as (c & _ & E).
      apply bind_Ok in E as ([[n f] h] & E1 & E).
      apply write_string_inv in E1 as (_ & (_ & _ & Hk) & _).
      2: { unfold peek_output, ztake. rewrite length_take. unfold max_amount. lia. }
      rewrite <- (Hk 4) in Hr. destruct (_ || _).
      * apply bind_Ok in E as ([f2 h2] & E2 & E). unfold shutdown in E2.
        apply bind_Ok in E2 as ([k h3] & E3%sys_call_no_transfer & E2). apply Ok_inj in E2.
        injection E2 as _ <-. apply print_Ok in E. subst s'. by apply (Hnt h).
      * apply Ok_inj in E. by subst s'.
    + unfold callback4 in E. apply bind_Ok in E as (c & _ & E).
      destruct (demo_write_segments (segments_out c) (_datagram_adapter s) (adapter_fd s) (calls s)) as [f Ef].
      rewrite Ef in E. apply Ok_inj in E. by subst s'.
  - unfold cancel2 in E. apply bind_Ok in E as (c & _ & E). apply Ok_inj in E. by subst s'.
  - unfold loop_tick in E. apply bind_Ok in E as (c & _ & E). destruct (active c).
    + apply bind_Ok in E as (c2 & _ & E). apply Ok_inj in E. by injection E as _ <-.
    + apply Ok_inj in E. by injection E as _ <-.
Qed.

Lemma demo_prints (s : TCPSpongeSocket unit) : prints s.
Proof. unfold prints. cbn [adapter_config demo_adapter]. by eexists. Qed.

Lemma demo_environment :
  environment_ok (H := demo_kernel) 4 (opened false 0 demo_cfg demo_config demo_socket).
Proof.
  split.
  - intros s _. eexists _, _. split; [done|]. split; [|apply demo_prints]. 
    change (u32 (read_count (adapter_fd s) + 1) <> read_count (adapter_fd s)). ulia.
  - intros s c _ _. destruct (demo_write_segments (segments_out c) (_datagram_adapter s) (adapter_fd s)
      (calls s)) as [f ->]. by eexists.
  - intros s _. apply demo_prints.
  - intros s Hs. assert (read_from 4 (calls s) = []) as ->; [|done].
    revert Hs. generalize (eq_refl : read_from 4 (calls (opened false 0 demo_cfg demo_config demo_socket)) = []).
    intros Hr Hs. revert Hr. induction Hs as [|s1 s2 s3 Hst _ IH]; [done|]. intros Hr. apply IH.
    by eapply demo_reads_nothing.
Qed.

Lemma demo_obliging : obliging (H := demo_kernel).
Proof.
  split.
  - by exists 0.
  - intros fd n h Hn. by exists [].
  - intros fd iov h. eexists. split; [done|]. split; [lia|]. intros E. apply zlen_nil_inv. lia.
Qed.

Lemma socket_runs_witness : exists ret rules s1,
  open_socket false 0 demo_cfg demo_config demo_rounds 0 demo_socket = Ok (ret, rules, s1) /\
  is_Ok (_tcp_loop (fun _ => true) demo_rounds 20 rules s1).
Proof.
  apply (socket_runs (H := demo_kernel) demo_isn demo_pisn demo_peer demo_cfg 4 5 demo_socket false 0
    demo_config demo_rounds 0 demo_rounds 20).
  1-11: by vm_compute.
  - intros _. by eexists.
  - exact demo_network.
  - exact demo_obliging.
  - exact demo_environment.
  - repeat constructor; exact demo_no_error.
Defined.

Lemma abort_ends_thread_witness : exists ret rules s1 s2,
  open_socket false 0 demo_cfg demo_config demo_rounds 0 demo_socket = Ok (ret, rules, s1) /\
  _tcp_main (demo_rounds ++ [mk_round demo_poll true 30]) 20 rules s1 = Ok (true, s2) /\ _tcp s2 = None.
Proof.
  apply (abort_ends_thread (H := demo_kernel) demo_isn demo_pisn demo_peer demo_cfg 4 5 demo_socket false 0
    demo_config demo_rounds 0 (demo_rounds ++ [mk_round demo_poll true 30]) 20).
  1-11: by vm_compute.
  - intros _. by eexists.
  - exact demo_network.
  - exact demo_obliging.
  - exact demo_environment.
  - repeat constructor; exact demo_no_error.
  - apply Exists_app. right. by constructor.
Defined.
