(* ===== verification/CommandLine.v ===== *)
(** * CommandLine (apps/tcp_udp.cc, apps/tcp_ipv4.cc)

    [get_config] of both programs, with the functions of the C library it calls: options and
    their arguments become the configurations of the connection and of the adapter. *)

From Stdlib Require Import Strings.String Strings.Ascii Floats.SpecFloat.
From S2P Require Import Prelude Address TCPConfig Adapters.

(** ** The C library *)

Definition code (c : ascii) : Z := Z.of_nat (nat_of_ascii c).
(** The character a pointer shows, and the string after it. *)
Definition first_char (s : string) : Z * string :=
  match s with EmptyString => (0, EmptyString) | String c s => (code c, s) end.

Fixpoint strncmp (a b : string) (n : nat) : Z :=
  match n with
  | O => 0
  | S n =>
    let '(x, a) := first_char a in
    let '(y, b) := first_char b in
    if negb (x =? y) then x - y else if x =? 0 then 0 else strncmp a b n
  end.

Definition take_sign (s : string) : Z * string :=
  match s with
  | String "-" s => (-1, s)
  | String "+" s => (1, s)
  | _ => (1, s)
  end.

(** A digit in a base up to 36. *)
Definition digit_in (base : Z) (c : ascii) : option Z :=
  let n := code c in
  let d := if (48 <=? n) && (n <=? 57) then n - 48
           else if (97 <=? n) && (n <=? 122) then n - 87
           else if (65 <=? n) && (n <=? 90) then n - 55
           else base in
  if d <? base then Some d else None.

(** The value of the digits at the start of a string after [acc], their number and the rest. *)
Fixpoint scan_run (base : Z) (s : string) (acc count : Z) : Z * Z * string :=
  match s with
  | EmptyString => (acc, count, s)
  | String c s' =>
    match digit_in base c with
    | Some d => scan_run base s' (acc * base + d) (count + 1)
    | None => (acc, count, s)
    end
  end.
Definition scan_value (base : Z) (s : string) : Z := fst (fst (scan_run base s 0 0)).

Definition lower (c : ascii) : Z := if (65 <=? code c) && (code c <=? 90) then code c + 32 else code c.
(** After "0x", in either case. *)
Definition after_0x (s : string) : option string :=
  match s with
  | String "0" (String x s) => if lower x =? 120 then Some s else None
  | _ => None
  end.

Definition LONG_MAX : Z := 0x7fffffffffffffff.
Definition LONG_MIN : Z := -0x8000000000000000.

(** [strtol(s, nullptr, 0)]. *)
Definition strtol (s : string) : Z :=
  let '(sign, s) := take_sign (skip_space s) in
  let n :=
    match after_0x s with
    | Some t => scan_value 16 t
    | None => match s with String "0" t => scan_value 8 t | _ => scan_value 10 s end
    end in
  Z.max LONG_MIN (Z.min LONG_MAX (sign * n)).

(** *** [strtof]: the nearest [float] *)

Abbreviation float := spec_float.
Definition float_of (m e : Z) : float := binary_normalize 24 128 m e false.

(** Digits with a point among them: the value without the point, the digits after it, all of
    them, and the rest. *)
Definition scan_mantissa (base : Z) (s : string) : Z * Z * Z * string :=
  let '(m, count, s) := scan_run base s 0 0 in
  match s with
  | String "." t => let '(m, after, t) := scan_run base t m 0 in (m, after, count + after, t)
  | _ => (m, 0, count, s)
  end.
Definition scan_exponent (mark : Z) (s : string) : Z :=
  match s with
  | String c t =>
    if lower c =? mark then
      let '(sign, t) := take_sign t in
      let '(n, count, _) := scan_run 10 t 0 0 in
      if count =? 0 then 0 else sign * n
    else 0
  | EmptyString => 0
  end.

(** Whether [s] begins with [word], in either case. *)
Fixpoint begins (word s : string) : bool :=
  match word, s with
  | EmptyString, _ => true
  | String c word, String d s => (code c =? lower d) && begins word s
  | _, _ => false
  end.

Definition float_of_decimal (m e : Z) : float :=
  if m =? 0 then S754_zero false
  else if 0 <=? e then float_of (m * 10 ^ e) 0
  else SFdiv 24 128 (S754_finite false (Z.to_pos m) 0) (S754_finite false (Z.to_pos (10 ^ (- e))) 0).

Definition strtof (s : string) : float :=
  let '(sign, s) := take_sign (skip_space s) in
  let f :=
    if begins "inf" s then S754_infinity false
    else if begins "nan" s then S754_nan
    else
      match after_0x s with
      | Some t =>
        let '(m, after, count, t) := scan_mantissa 16 t in
        if count =? 0 then S754_zero false else float_of m (scan_exponent 112 t - 4 * after)
      | None =>
        let '(m, after, count, t) := scan_mantissa 10 s in
        if count =? 0 then S754_zero false else float_of_decimal m (scan_exponent 101 t - after)
      end in
  if sign =? -1 then SFopp f else f.

(** [static_cast<uint16_t>] of a [float]: undefined when the type cannot hold it. *)
Definition to_uint16 (f : float) : outcome Z :=
  match f with
  | S754_zero _ => Ok 0
  | S754_finite s m e =>
    let n := if 0 <=? e then Z.pos m * 2 ^ e else Z.pos m / 2 ^ (- e) in
    let n := if s then - n else n in
    if (0 <=? n) && (n <? 0x10000) then Ok n else Fault BadConversion
  | _ => Fault BadConversion
  end.

(** ** Both programs *)

(** The loss rate of an argument. *)
Definition loss_rate (arg : string) : outcome Z :=
  to_uint16 (SFmul 24 128 (float_of 65535 0) (strtof arg)).

Definition argv_at (argv : list string) (i : Z) : outcome string :=
  match zget argv i with Some s => Ok s | None => Fault PastTheEnd end.
Definition option_is (name arg : string) : bool := strncmp name arg 3 =? 0.

(** What handling one option gives: new options and the next index, or the exit code. *)
Abbreviation handled O := (outcome (O * Z + Z)).

(** [check_argc], and then the use of the option's argument. *)
Definition with_argument {O} (argv : list string) (curr : Z) (use : string -> outcome O) : handled O :=
  if zlen argv <=? curr + 3 then Ok (inr 1)
  else v ← argv_at argv (curr + 1); o ← use v; Ok (inl (o, curr + 2)).

(** The loop over the options. *)
Fixpoint options_loop {O} (handle : list string -> Z -> O -> handled O) (fuel : nat)
    (argv : list string) (curr : Z) (o : O) : handled O :=
  if 2 <? zlen argv - curr then
    match fuel with
    | O => Fault OutOfFuel
    | S fuel =>
      r ← handle argv curr o;
      match r with
      | inl (o, curr) => options_loop handle fuel argv curr o
      | inr code => Ok (inr code)
      end
    end
  else Ok (inl (o, curr)).
Definition options_fuel (argv : list string) : nat := length argv.

(** [c_fsm.recv_capacity] and [c_fsm.rt_timeout] take the number modulo their width. *)
Definition set_window (arg : string) (c : TCPConfig) : TCPConfig := c <| recv_capacity := u64 (strtol arg) |>.
Definition set_timeout (arg : string) (c : TCPConfig) : TCPConfig := c <| rt_timeout := u16 (strtol arg) |>.

Section programs.
Context `{Resolver}.

(** [FdAdapterConfig{}]. *)
Definition default_filter : outcome FdAdapterConfig :=
  source ← of_ip "0" 0; destination ← of_ip "0" 0; Ok (mkFdAdapterConfig source destination 0 0).

(** ** tcp_udp *)

Record udp_options := mk_udp_options { u_fsm : TCPConfig; u_filt : FdAdapterConfig; u_listen : bool }.
#[export] Instance eta_udp_options : Eta udp_options := fun o =>
  mk_udp_options (u_fsm o) (u_filt o) (u_listen o).

Definition udp_option (argv : list string) (curr : Z) (o : udp_options) : handled udp_options :=
  arg ← argv_at argv curr;
  if option_is "-l" arg then Ok (inl (o <| u_listen := true |>, curr + 1))
  else if option_is "-w" arg then
    with_argument argv curr (fun v => Ok (o <| u_fsm := set_window v (u_fsm o) |>))
  else if option_is "-t" arg then
    with_argument argv curr (fun v => Ok (o <| u_fsm := set_timeout v (u_fsm o) |>))
  else if option_is "-Lu" arg then
    with_argument argv curr (fun v => r ← loss_rate v; Ok (o <| u_filt := (u_filt o) <| loss_rate_up := r |> |>))
  else if option_is "-Ld" arg then
    with_argument argv curr (fun v => r ← loss_rate v; Ok (o <| u_filt := (u_filt o) <| loss_rate_dn := r |> |>))
  else if option_is "-h" arg then Ok (inr 0)
  else Ok (inr 1).

Definition udp_get_config (argv : list string) : outcome (TCPConfig * FdAdapterConfig * bool + Z) :=
  c_filt ← default_filter;
  r ← options_loop udp_option (options_fuel argv) argv 1 (mk_udp_options TCPConfig.default c_filt false);
  match r with
  | inr code => Ok (inr code)
  | inl (o, _) =>
    port ← argv_at argv (zlen argv - 1);
    c_filt ←
      (if u_listen o then
         a ← of_host "0" port; Ok ((u_filt o) <| source := a |>)
       else
         host ← argv_at argv (zlen argv - 2);
         a ← of_host host port; Ok ((u_filt o) <| destination := a |>));
    Ok (inl (u_fsm o, c_filt, u_listen o))
  end.

(** ** tcp_ipv4 *)

Definition LOCAL_ADDRESS_DFLT : string := "169.254.144.9".
Definition TUN_DFLT : string := "tun144".

Record ipv4_options := mk_ipv4_options {
  i_fsm : TCPConfig; i_filt : FdAdapterConfig; tundev : option string; i_listen : bool;
  source_address : string; source_port : string }.
#[export] Instance eta_ipv4_options : Eta ipv4_options := fun o =>
  mk_ipv4_options (i_fsm o) (i_filt o) (tundev o) (i_listen o) (source_address o) (source_port o).

Definition ipv4_option (argv : list string) (curr : Z) (o : ipv4_options) : handled ipv4_options :=
  arg ← argv_at argv curr;
  if option_is "-l" arg then Ok (inl (o <| i_listen := true |>, curr + 1))
  else if option_is "-a" arg then with_argument argv curr (fun v => Ok (o <| source_address := v |>))
  else if option_is "-s" arg then with_argument argv curr (fun v => Ok (o <| source_port := v |>))
  else if option_is "-w" arg then
    with_argument argv curr (fun v => Ok (o <| i_fsm := set_window v (i_fsm o) |>))
  else if option_is "-t" arg then
    with_argument argv curr (fun v => Ok (o <| i_fsm := set_timeout v (i_fsm o) |>))
  else if option_is "-d" arg then with_argument argv curr (fun v => Ok (o <| tundev := Some v |>))
  else if option_is "-Lu" arg then
    with_argument argv curr (fun v => r ← loss_rate v; Ok (o <| i_filt := (i_filt o) <| loss_rate_up := r |> |>))
  else if option_is "-Ld" arg then
    with_argument argv curr (fun v => r ← loss_rate v; Ok (o <| i_filt := (i_filt o) <| loss_rate_dn := r |> |>))
  else if option_is "-h" arg then Ok (inr 0)
  else Ok (inr 1).

(** [random] is what [random_device()()] returns. *)
Definition ipv4_get_config (random : Z) (argv : list string)
  : outcome (TCPConfig * FdAdapterConfig * bool * option string + Z) :=
  c_filt ← default_filter;
  r ← options_loop ipv4_option (options_fuel argv) argv 1
        (mk_ipv4_options TCPConfig.default c_filt None false LOCAL_ADDRESS_DFLT (to_string (u16 random)));
  match r with
  | inr code => Ok (inr code)
  | inl (o, curr) =>
    port ← argv_at argv (curr + 1);
    if i_listen o then
      a ← of_host "0" port;
      p ← Address.port a;
      if p =? 0 then Ok (inr 1)
      else Ok (inl (i_fsm o, (i_filt o) <| source := a |>, i_listen o, tundev o))
    else
      host ← argv_at argv curr;
      a ← of_host host port;
      b ← of_host (source_address o) (source_port o);
      Ok (inl (i_fsm o, (i_filt o) <| destination := a |> <| source := b |>, i_listen o, tundev o))
  end.
End programs.

Example strtol_examples : strtol " -12x" = -12 /\ strtol "0x1F" = 31 /\ strtol "010" = 8 /\ strtol "0x" = 0.
Proof. by vm_compute. Qed.
Example loss_examples : loss_rate "0.5" = Ok 32767 /\ loss_rate "1" = Ok 65535 /\ loss_rate ".1e-1x" = Ok 655 /\
  loss_rate "0x.8p0" = Ok 32767 /\ loss_rate "2" = Fault BadConversion /\ loss_rate "-0.5" = Fault BadConversion.
Proof. by vm_compute. Qed.

(** ** What the options are *)

(** Numbers as [strtol] reads them. *)
Lemma digit_in_10 c : digit_in 10 c = digit_value c.
Proof.
  unfold digit_in, digit_value, code.
  destruct (Z.leb_spec 48 (Z.of_nat (nat_of_ascii c))), (Z.leb_spec (Z.of_nat (nat_of_ascii c)) 57);
    cbn [andb]; repeat case_match; try done; try lia.
Qed.

Lemma scan_run_digits s : forall acc count,
  fst (fst (scan_run 10 s acc count)) = from_option id 0 (scan_digits s (Some acc)).
Proof.
  induction s as [|c s IH]; intros acc count; [done|].
  cbn [scan_run scan_digits]. rewrite digit_in_10. destruct (digit_value c); [apply IH|done].
Qed.

Lemma to_digits_nonzero fuel : forall n acc,
  0 < n < 10 ^ Z.of_nat fuel -> exists d s, 0 < d < 10 /\ to_digits fuel n acc = String (digit d) s.
Proof.
  induction fuel as [|fuel IH]; intros n acc Hn; [lia|].
  cbn [to_digits]. destruct (Z.ltb_spec n 10).
  - exists (n mod 10), acc. rewrite Z.mod_small by lia. split; [lia|done].
  - apply IH. rewrite Nat2Z.inj_succ, Z.pow_succ_r in Hn by lia. split.
    + apply Z.div_str_pos. lia.
    + apply Z.div_lt_upper_bound; lia.
Qed.

Lemma strtol_to_string n : 0 <= n <= LONG_MAX -> strtol (to_string n) = n.
Proof.
  unfold LONG_MAX. intros Hn. destruct (decide (n = 0)) as [->|Hnz]; [done|].
  assert (scan_value 10 (to_string n) = n) as E.
  { unfold scan_value. rewrite scan_run_digits. unfold to_string.
    destruct (scan_to_digits 20 n EmptyString (Some 0)) as [k ->]; [|lia|done].
    change (10 ^ Z.of_nat 20) with 100000000000000000000. lia. }
  destruct (to_digits_nonzero 20 n EmptyString) as (d & s & Hd & Hs).
  { change (10 ^ Z.of_nat 20) with 100000000000000000000. lia. }
  unfold strtol. change (to_digits 20 n "") with (to_string n) in Hs. rewrite Hs in *.
  assert (d = 1 \/ d = 2 \/ d = 3 \/ d = 4 \/ d = 5 \/ d = 6 \/ d = 7 \/ d = 8 \/ d = 9)
    as Hc by lia.
  assert (take_sign (skip_space (String (digit d) s)) = (1, String (digit d) s) /\
    after_0x (String (digit d) s) = None /\
    match String (digit d) s with
    | String "0" t => scan_value 8 t
    | _ => scan_value 10 (String (digit d) s)
    end = scan_value 10 (String (digit d) s)) as (-> & -> & ->)
    by (by repeat destruct Hc as [->|Hc]; [..|rewrite Hc]).
  rewrite E. unfold LONG_MAX, LONG_MIN. lia.
Qed.

(** ** The loop over well-formed options *)

(** An option with its argument, as the usage text lists it, and those only tcp_ipv4 has. *)
Inductive flag :=
| Listen
| Window (winsz : Z)
| Timeout (tmout : Z)
| LossUp (loss : string)
| LossDown (loss : string).
Inductive ipv4_flag :=
| Common (f : flag)
| SourceAddress (addr : string)
| SourcePort (port : string)
| TunDevice (tundev : string).

(** The words of the command line. *)
Definition words (f : flag) : list string :=
  match f with
  | Listen => ["-l"]
  | Window n => ["-w"; to_string n]
  | Timeout n => ["-t"; to_string n]
  | LossUp r => ["-Lu"; r]
  | LossDown r => ["-Ld"; r]
  end%string.
Definition ipv4_words (f : ipv4_flag) : list string :=
  match f with
  | Common f => words f
  | SourceAddress a => ["-a"; a]
  | SourcePort p => ["-s"; p]
  | TunDevice d => ["-d"; d]
  end%string.

(** Numbers the options can hold. *)
Definition flag_ok (f : flag) : Prop :=
  match f with Window n => 0 <= n <= LONG_MAX | Timeout n => is_u16 n | _ => True end.
Definition ipv4_flag_ok (f : ipv4_flag) : Prop := match f with Common f => flag_ok f | _ => True end.

(** What each means. *)
Definition set_config (f : flag) (c : TCPConfig) (a : FdAdapterConfig) (listen : bool)
  : outcome (TCPConfig * FdAdapterConfig * bool) :=
  match f with
  | Listen => Ok (c, a, true)
  | Window n => Ok (c <| recv_capacity := n |>, a, listen)
  | Timeout n => Ok (c <| rt_timeout := n |>, a, listen)
  | LossUp l => r ← loss_rate l; Ok (c, a <| loss_rate_up := r |>, listen)
  | LossDown l => r ← loss_rate l; Ok (c, a <| loss_rate_dn := r |>, listen)
  end.
Definition udp_set (f : flag) (o : udp_options) : outcome udp_options :=
  '(c, a, l) ← set_config f (u_fsm o) (u_filt o) (u_listen o); Ok (mk_udp_options c a l).
Definition ipv4_set (f : ipv4_flag) (o : ipv4_options) : outcome ipv4_options :=
  match f with
  | Common f =>
    '(c, a, l) ← set_config f (i_fsm o) (i_filt o) (i_listen o);
    Ok (o <| i_fsm := c |> <| i_filt := a |> <| i_listen := l |>)
  | SourceAddress a => Ok (o <| source_address := a |>)
  | SourcePort p => Ok (o <| source_port := p |>)
  | TunDevice d => Ok (o <| tundev := Some d |>)
  end.
Fixpoint set_all {F O} (set : F -> O -> outcome O) (fs : list F) (o : O) : outcome O :=
  match fs with [] => Ok o | f :: fs => o ← set f o; set_all set fs o end.

Lemma argv_at_app pre w post : argv_at (pre ++ w :: post) (zlen pre) = Ok w.
Proof.
  unfold argv_at. rewrite zget_app, decide_False, Z.sub_diag by lia. done.
Qed.

Lemma argv_at_app' (pre : list string) i w post : i = zlen pre -> argv_at (pre ++ w :: post) i = Ok w.
Proof. intros ->. apply argv_at_app. Qed.

Lemma with_argument_app {O} pre w v post (use : string -> outcome O) :
  2 <= zlen post ->
  with_argument (pre ++ w :: v :: post) (zlen pre) use = o ← use v; Ok (inl (o, zlen pre + 2)).
Proof.
  intros Hp. unfold with_argument. rewrite zlen_app. cbn [length].
  rewrite (proj2 (Z.leb_gt _ _)) by lia. rewrite cons_middle, app_assoc.
  by rewrite argv_at_app' by (rewrite zlen_app; done).
Qed.

(** [named] decides which option a literal word is. *)
Ltac named :=
  repeat match goal with
  | |- context [option_is ?a ?b] =>
    let r := eval vm_compute in (option_is a b) in change (option_is a b) with r
  end; cbv iota.

Section loop.
Context {F O : Type} (handle : list string -> Z -> O -> handled O).
Context (words_of : F -> list string) (ok : F -> Prop) (set : F -> O -> outcome O).

(** [handle] recognizes the words of an option that is followed by two more words. *)
Definition recognizes : Prop := forall pre f post o, ok f -> 2 <= zlen post ->
  words_of f <> [] /\
  handle (pre ++ words_of f ++ post) (zlen pre) o =
    o ← set f o; Ok (inl (o, zlen pre + zlen (words_of f))).

Lemma options_loop_words fs : recognizes -> forall pre k post o,
  Forall ok fs -> 2 <= zlen post ->
  options_loop handle (length fs + k) (pre ++ concat (words_of <$> fs) ++ post) (zlen pre) o =
    o ← set_all set fs o;
    options_loop handle k (pre ++ concat (words_of <$> fs) ++ post)
      (zlen pre + zlen (concat (words_of <$> fs))) o.
Proof.
  intros Hrec. induction fs as [|f fs IH]; intros pre k post o Hok Hp.
  - cbn [fmap list_fmap concat app set_all mbind outcome_bind length Nat.add]. by rewrite Z.add_0_r.
  - inversion Hok as [|? ? Hf1 Hfs]; subst. rewrite fmap_cons. cbn [concat].
    rewrite <- app_assoc. set (rest := concat (words_of <$> fs) ++ post).
    assert (2 <= zlen rest) as Hr by (unfold rest; rewrite zlen_app; lia).
    destruct (Hrec pre f rest o Hf1 Hr) as [Hne Hh].
    assert (0 < zlen (words_of f)) by (destruct (words_of f); [done|cbn [length]; lia]).
    cbn [length Nat.add options_loop]. rewrite (proj2 (Z.ltb_lt _ _)) by (rewrite !zlen_app; lia).
    rewrite Hh. cbn [set_all]. destruct (set f o) as [o'|]; [|done]. cbn [mbind outcome_bind].
    rewrite <- zlen_app, app_assoc. unfold rest. rewrite IH by done.
    by rewrite !zlen_app, Z.add_assoc.
Qed.

Lemma options_loop_end k argv curr o :
  zlen argv - curr <= 2 -> options_loop handle k argv curr o = Ok (inl (o, curr)).
Proof. intros Hl. destruct k; cbn [options_loop]; by rewrite (proj2 (Z.ltb_ge _ _)) by lia. Qed.
Lemma options_loop_exit k argv curr o code : 2 < zlen argv - curr ->
  handle argv curr o = Ok (inr code) -> options_loop handle (S k) argv curr o = Ok (inr code).
Proof. intros Hl Hh. cbn [options_loop]. by rewrite (proj2 (Z.ltb_lt _ _)), Hh by lia. Qed.
End loop.

Lemma set_window_number n c : flag_ok (Window n) -> set_window (to_string n) c = c <| recv_capacity := n |>.
Proof.
  intros Hn. cbn [flag_ok] in Hn. unfold set_window. rewrite strtol_to_string by done.
  unfold LONG_MAX in Hn. by rewrite u64_id by lia.
Qed.
Lemma set_timeout_number n c : flag_ok (Timeout n) -> set_timeout (to_string n) c = c <| rt_timeout := n |>.
Proof.
  intros Hn. cbn [flag_ok] in Hn. unfold set_timeout. rewrite strtol_to_string by (unfold LONG_MAX; lia).
  by rewrite u16_id.
Qed.

(** [recognize] evaluates the handling of one option whose words are at the index. *)
Ltac recognize :=
  rewrite argv_at_app; cbn [mbind outcome_bind]; named; rewrite ?with_argument_app by done;
  rewrite ?set_window_number, ?set_timeout_number by done; try done;
  match goal with |- context [loss_rate ?l] => by destruct (loss_rate l) end.

Lemma udp_recognizes : recognizes udp_option words flag_ok udp_set.
Proof.
  intros pre f post o Hok Hp. split; [by destruct f|].
  unfold udp_set. destruct f; cbn [words app length set_config]; unfold udp_option; recognize.
Qed.

Lemma ipv4_recognizes : recognizes ipv4_option ipv4_words ipv4_flag_ok ipv4_set.
Proof.
  intros pre f post o Hok Hp. split; [by destruct f as [[]| | |]|].
  destruct f as [[]| | |]; cbn [ipv4_words words app length ipv4_set set_config];
    unfold ipv4_option; recognize.
Qed.


(** A word at which the program exits, with its code: one that is no option, -h, or an option without
    its argument. *)
Definition stops (valued : list string) (w : string) (rest : list string) : option Z :=
  if option_is "-l" w then None
  else if existsb (fun name => option_is name w) valued then if zlen rest =? 2 then Some 1 else None
  else if option_is "-h" w then Some 0 else Some 1.
Definition udp_valued : list string := ["-w"; "-t"; "-Lu"; "-Ld"]%string.
Definition ipv4_valued : list string := ["-a"; "-s"; "-w"; "-t"; "-d"; "-Lu"; "-Ld"]%string.

Lemma with_argument_missing {O} pre w rest (use : string -> outcome O) :
  zlen rest = 2 -> with_argument (pre ++ w :: rest) (zlen pre) use = Ok (inr 1).
Proof.
  intros Hr. unfold with_argument. rewrite zlen_app. cbn [length].
  by rewrite (proj2 (Z.leb_le _ _)) by lia.
Qed.

(** [stop_here] follows the handling of such a word. *)
Ltac stop_here :=
  rewrite argv_at_app; cbn [mbind outcome_bind]; unfold stops; cbn [existsb udp_valued ipv4_valued];
  repeat match goal with
  | |- _ -> (if option_is ?n ?w then _ else _) = _ =>
    destruct (option_is n w); rewrite ?orb_true_r; cbn [orb]; cbv iota; [try done|]
  end;
  try match goal with |- (if ?n =? 2 then _ else _) = _ -> _ => destruct (Z.eqb_spec n 2); [|done] end;
  intros [= <-]; rewrite ?with_argument_missing by done; done.

Lemma udp_stops pre w rest o code :
  stops udp_valued w rest = Some code -> udp_option (pre ++ w :: rest) (zlen pre) o = Ok (inr code).
Proof. unfold udp_option. stop_here. Qed.
Lemma ipv4_stops pre w rest o code :
  stops ipv4_valued w rest = Some code -> ipv4_option (pre ++ w :: rest) (zlen pre) o = Ok (inr code).
Proof. unfold ipv4_option. stop_here. Qed.

(** ** Any command line *)

(** The undefined conversion of a loss rate that one of the words gives and 16 bits cannot hold. *)
Definition bad_rate (argv : list string) (f : fault) : Prop :=
  f = BadConversion /\ exists v, v ∈ argv /\ loss_rate v = Fault BadConversion.

(** What a handler makes of the options when [P] describes them: it stays before the last two
    words, exits with a code of 0 or 1, or converts a rate that does not fit. *)
Definition handled_ok {O} (P : O -> Prop) (argv : list string) (curr : Z) (r : handled O) : Prop :=
  match r with
  | Ok (inl (o, next)) => P o /\ curr <= next /\ next + 2 <= zlen argv
  | Ok (inr exit_code) => exit_code = 0 \/ exit_code = 1
  | Fault f => bad_rate argv f
  end.

Section any.
Context {O : Type} (P : O -> Prop).
Implicit Types (argv : list string) (curr : Z).

Lemma argv_at_in argv i : 0 <= i < zlen argv -> exists w, argv_at argv i = Ok w.
Proof. intros Hi. unfold argv_at. destruct (zget_is_Some argv i Hi) as [w ->]. by exists w. Qed.
Lemma argv_at_elem argv i w : argv_at argv i = Ok w -> w ∈ argv.
Proof.
  unfold argv_at. destruct (zget argv i) as [v|] eqn:E; [|done]. intros [= ->].
  unfold zget in E. case_decide; [|done]. by eapply list_elem_of_lookup_2.
Qed.

Lemma with_argument_safe argv curr (use : string -> outcome O) :
  0 <= curr -> (forall v, match use v with Ok o => P o | Fault f => f = BadConversion /\ loss_rate v = Fault BadConversion end) ->
  handled_ok P argv (curr + 1) (with_argument argv curr use).
Proof.
  intros Hc Hu. unfold with_argument. destruct (Z.leb_spec (zlen argv) (curr + 3)); [by right|].
  destruct (argv_at_in argv (curr + 1)) as [v Ev]; [lia|]. specialize (Hu v). rewrite Ev.
  cbn [mbind outcome_bind]. destruct (use v); cbn; [split_and!; [done|lia..]|].
  destruct Hu as [-> Hv]. split; [done|]. exists v. split; [by eapply argv_at_elem|done].
Qed.

(** A handler that takes at least a word, and its loop. *)
Definition handles (handle : list string -> Z -> O -> handled O) : Prop := forall argv curr o,
  0 <= curr -> curr + 2 < zlen argv -> P o -> handled_ok P argv (curr + 1) (handle argv curr o).

Lemma options_loop_safe handle : handles handle -> forall fuel argv curr o,
  0 <= curr -> curr + 2 <= zlen argv -> zlen argv - curr <= Z.of_nat fuel + 2 -> P o ->
  match options_loop handle fuel argv curr o with
  | Ok (inl (o', next)) => P o' /\ next + 2 = zlen argv
  | Ok (inr exit_code) => exit_code = 0 \/ exit_code = 1
  | Fault f => bad_rate argv f
  end.
Proof.
  intros Hh. induction fuel as [|fuel IH]; intros argv curr o Hc Hl Hf Ho; cbn [options_loop];
    destruct (Z.ltb_spec 2 (zlen argv - curr)); try lia; [split; [done|lia]..| |split; [done|lia]].
  specialize (Hh argv curr o Hc ltac:(lia) Ho).
  destruct (handle argv curr o) as [[[o' next]|code]|f]; cbn [handled_ok mbind outcome_bind] in *; [|done..].
  destruct Hh as (Ho' & Hn & Hl'). apply IH; [lia..|done].
Qed.
End any.

(** Configurations the programs can produce. *)
Definition config_ok (c : TCPConfig) (a : FdAdapterConfig) : Prop :=
  TCPConfig.wf c /\ is_u16 (loss_rate_up a) /\ is_u16 (loss_rate_dn a).

Lemma loss_rate_range v : match loss_rate v with Ok r => is_u16 r | Fault f => f = BadConversion end.
Proof.
  unfold loss_rate, to_uint16. destruct (SFmul _ _ _ _); try done.
  match goal with |- context [0 <=? ?n] => match n with if s then _ else _ => generalize n; intros n' end end.
  destruct (Z.leb_spec 0 n'), (Z.ltb_spec n' 0x10000); done.
Qed.

Lemma default_config_ok : TCPConfig.wf TCPConfig.default.
Proof. by split. Qed.

Lemma set_window_wf v c : TCPConfig.wf c -> TCPConfig.wf (set_window v c).
Proof. intros []. split; cbn; try done. apply u64_range. Qed.
Lemma set_timeout_wf v c : TCPConfig.wf c -> TCPConfig.wf (set_timeout v c).
Proof. intros []. split; cbn; try done. apply u16_range. Qed.
#[local] Hint Resolve set_window_wf set_timeout_wf : core.

Definition udp_ok (o : udp_options) : Prop := config_ok (u_fsm o) (u_filt o).
Definition ipv4_ok (o : ipv4_options) : Prop := config_ok (i_fsm o) (i_filt o).

(** [handle_safely] follows the branches of a handler. *)
Ltac configs_ok := unfold handled_ok, udp_ok, ipv4_ok, config_ok; cbn; split_and!; (done || lia || auto).
Ltac handle_safely :=
  repeat (case_match; [first
    [ apply with_argument_safe; [done|]; intros v;
      first [ configs_ok | pose proof (loss_rate_range v); destruct (loss_rate v); [configs_ok|by subst] ]
    | configs_ok | by left ]|]);
  by right.

Lemma udp_handles : handles udp_ok udp_option.
Proof.
  intros argv curr o Hc Hl (Hw & Hu & Hd). unfold udp_option.
  destruct (argv_at_in argv curr) as [w ->]; [lia|]. cbn [mbind outcome_bind]. handle_safely.
Qed.
Lemma ipv4_handles : handles ipv4_ok ipv4_option.
Proof.
  intros argv curr o Hc Hl (Hw & Hu & Hd). unfold ipv4_option.
  destruct (argv_at_in argv curr) as [w ->]; [lia|]. cbn [mbind outcome_bind]. handle_safely.
Qed.

(** ** Properties *)

Section theorems.
Context `{HR : Resolver}.

Lemma of_node_faults node service flags f : of_node node service flags = Fault f -> f = RuntimeError.
Proof.
  unfold of_node, of_sockaddr. destruct (getaddrinfo _ _ _); [|by intros [= <-]].
  case_match; [by intros [= <-]|done].
Qed.
Lemma default_filter_spec : match default_filter with
  | Ok a => loss_rate_up a = 0 /\ loss_rate_dn a = 0
  | Fault f => f = RuntimeError end.
Proof.
  unfold default_filter, of_ip. destruct (of_node _ _ _) as [a|f] eqn:E; cbn; [done|].
  by apply of_node_faults in E.
Qed.
Lemma port_faults a f : port a = Fault f -> f = RuntimeError \/ f = InvalidArgument \/ f = OutOfRange.
Proof.
  unfold port, ip_port, stoi. repeat case_match; cbn; try done; intros [= <-]; auto.
Qed.

Lemma options_checked {O} (P : O -> Prop) handle argv o :
  handles P handle -> 3 <= zlen argv -> P o ->
  match options_loop handle (options_fuel argv) argv 1 o with
  | Ok (inl (o', next)) => P o' /\ next + 2 = zlen argv
  | Ok (inr exit_code) => exit_code = 0 \/ exit_code = 1
  | Fault f => bad_rate argv f
  end.
Proof. intros Hh Hl Ho. apply options_loop_safe; (done || unfold options_fuel; lia). Qed.

(** [an_address] follows the making of an address, [a_word] the reading of a word. *)
Ltac an_address host service := let E := fresh in
  destruct (of_host host service) as [?a|?f] eqn:E;
    cbn [mbind outcome_bind]; [clear E|apply of_node_faults in E; subst; auto].
Ltac a_word argv i := destruct (argv_at_in argv i) as [?w ->]; [lia|]; cbn [mbind outcome_bind].

Lemma udp_checked argv : 3 <= zlen argv ->
  match udp_get_config argv with
  | Ok (inl (c, a, _)) => config_ok c a
  | Ok (inr exit_code) => exit_code = 0 \/ exit_code = 1
  | Fault f => bad_rate argv f \/ f = RuntimeError
  end.
Proof.
  intros Hlen. pose proof default_filter_spec as Hd. unfold udp_get_config.
  destruct default_filter as [a|f]; cbn [mbind outcome_bind]; [destruct Hd as [Hu Hdn]|by auto].
  pose proof (options_checked udp_ok udp_option argv (mk_udp_options TCPConfig.default a false)
    udp_handles Hlen) as Hs.
  destruct (options_loop _ _ _ _ _) as [[[o next]|code]|f]; cbn [mbind outcome_bind].
  - destruct Hs as [Ho Hn]; [by split; [exact default_config_ok|cbn; lia]|]. a_word argv (zlen argv - 1).
    destruct (u_listen o); [|a_word argv (zlen argv - 2); by an_address w0 w].
    by an_address "0"%string w.
  - apply Hs. by split; [exact default_config_ok|cbn; lia].
  - left. apply Hs. by split; [exact default_config_ok|cbn; lia].
Qed.

Lemma ipv4_checked argv random : 3 <= zlen argv ->
  match ipv4_get_config random argv with
  | Ok (inl (c, a, listen, _)) =>
    config_ok c a /\ (listen = true -> exists p, port (source a) = Ok p /\ p <> 0)
  | Ok (inr exit_code) => exit_code = 0 \/ exit_code = 1
  | Fault f => bad_rate argv f \/ f = RuntimeError \/ f = InvalidArgument \/ f = OutOfRange
  end.
Proof.
  intros Hlen. pose proof default_filter_spec as Hd. unfold ipv4_get_config.
  destruct default_filter as [a|f]; cbn [mbind outcome_bind]; [destruct Hd as [Hu Hdn]|by auto].
  set (o0 := mk_ipv4_options _ _ _ _ _ _).
  assert (ipv4_ok o0) as H0 by (split; [exact default_config_ok|cbn; lia]).
  pose proof (options_checked ipv4_ok ipv4_option argv o0 ipv4_handles Hlen H0) as Hs.
  destruct (options_loop _ _ _ _ _) as [[[o next]|code]|f]; cbn [mbind outcome_bind]; [|done|by left].
  destruct Hs as [Ho Hn]. a_word argv (next + 1). destruct (i_listen o).
  - an_address "0"%string w. destruct (port _) as [p|f] eqn:E; cbn [mbind outcome_bind];
      [|by right; eapply port_faults].
    destruct (Z.eqb_spec p 0); [by right|]. split; [done|]. intros _. by exists p.
  - a_word argv next. an_address w0 w. by an_address (source_address o) (source_port o).
Qed.

(** C37. Whatever the words after the program's name, both [get_config] stay inside argv (at least
    two words follow the name, as [main] has checked) and their loops end: the outcome is
    well-formed settings with loss rates of 16 bits, the exit code 0 or 1, an exception for an address (or, in
    tcp_ipv4, for the conversion of its port), or undefined behaviour, and that only where a word of the command
    line is a loss rate that 16 bits cannot hold, as "2" or "-1" is.  A listening tcp_ipv4 has a port other
    than 0. *)
Theorem command_lines_are_checked argv random :
  3 <= zlen argv ->
  match udp_get_config argv with
  | Ok (inl (c, a, _)) => config_ok c a
  | Ok (inr exit_code) => exit_code = 0 \/ exit_code = 1
  | Fault f => bad_rate argv f \/ f = RuntimeError
  end /\
  match ipv4_get_config random argv with
  | Ok (inl (c, a, listen, _)) =>
    config_ok c a /\ (listen = true -> exists p, port (source a) = Ok p /\ p <> 0)
  | Ok (inr exit_code) => exit_code = 0 \/ exit_code = 1
  | Fault f => bad_rate argv f \/ f = RuntimeError \/ f = InvalidArgument \/ f = OutOfRange
  end.
Proof. intros Hlen. split; [by apply udp_checked|by apply ipv4_checked]. Qed.
(** What the options leave and the last two words become the settings. *)
Definition udp_result (host port : string) (o : udp_options)
  : outcome (TCPConfig * FdAdapterConfig * bool + Z) :=
  if u_listen o then
    a ← of_host "0" port; Ok (inl (u_fsm o, (u_filt o) <| source := a |>, true))
  else
    a ← of_host host port; Ok (inl (u_fsm o, (u_filt o) <| destination := a |>, false)).
Definition ipv4_result (host port : string) (o : ipv4_options)
  : outcome (TCPConfig * FdAdapterConfig * bool * option string + Z) :=
  if i_listen o then
    a ← of_host "0" port; p ← Address.port a;
    Ok (if p =? 0 then inr 1 else inl (i_fsm o, (i_filt o) <| source := a |>, true, tundev o))
  else
    a ← of_host host port; b ← of_host (source_address o) (source_port o);
    Ok (inl (i_fsm o, (i_filt o) <| destination := a |> <| source := b |>, false, tundev o)).

Section parses.
Context {F O : Type} (handle : list string -> Z -> O -> handled O) (words_of : F -> list string).
Context (ok : F -> Prop) (set : F -> O -> outcome O) (valued : list string).
Hypothesis Hrec : recognizes handle words_of ok set.
Hypothesis Hstop : forall pre w rest o code, stops valued w rest = Some code ->
  handle (pre ++ w :: rest) (zlen pre) o = Ok (inr code).
Context (fs : list F) (prog : string) (o : O).
Hypothesis Hok : Forall ok fs.
Abbreviation before := (prog :: concat (words_of <$> fs)).

Lemma options_loop_parses post : 2 <= zlen post ->
  exists k, options_loop handle (options_fuel (before ++ post)) (before ++ post) 1 o =
    o ← set_all set fs o; options_loop handle (S k) (before ++ post) (zlen before) o.
Proof.
  intros Hp.
  assert (length fs <= length (concat (words_of <$> fs)))%nat as Hl.
  { revert Hok. induction fs as [|f l IH]; [done|]. intros [Hf Hl]%Forall_cons.
    rewrite fmap_cons. cbn [concat length]. rewrite length_app. specialize (IH Hl).
    destruct (Hrec [] f post o Hf Hp).
    destruct (words_of f); [done|cbn [length]; lia]. }
  pose (k := (length (before ++ post) - length fs - 1)%nat). exists k.
  pose proof (options_loop_words handle words_of ok set fs Hrec [prog] (S k) post o Hok Hp) as E.
  replace (length fs + S k)%nat with (options_fuel (before ++ post)) in E.
  - change ([prog] ++ concat (words_of <$> fs) ++ post) with (before ++ post) in E.
    rewrite <- zlen_app in E. exact E.
  - unfold options_fuel, k. cbn [app length]. rewrite length_app. lia.
Qed.

Lemma options_parsed host port :
  options_loop handle (options_fuel (before ++ [host; port])) (before ++ [host; port]) 1 o =
    o ← set_all set fs o; Ok (inl (o, zlen before)).
Proof.
  destruct (options_loop_parses [host; port]) as [k ->]; [done|].
  destruct (set_all set fs o); [|done]. apply options_loop_end. rewrite zlen_app. cbn [length]. lia.
Qed.

Lemma options_refused w rest code : 2 <= zlen rest -> stops valued w rest = Some code ->
  options_loop handle (options_fuel (before ++ w :: rest)) (before ++ w :: rest) 1 o =
    _ ← set_all set fs o; Ok (inr code).
Proof.
  intros Hr Hs. destruct (options_loop_parses (w :: rest)) as [k ->]; [cbn [length]; lia|].
  destruct (set_all set fs o); [|done]. apply options_loop_exit; [|by apply Hstop].
  rewrite zlen_app. cbn [length]. lia.
Qed.
End parses.

Lemma last_words (l : list string) host port :
  argv_at (l ++ [host; port]) (zlen l) = Ok host /\ argv_at (l ++ [host; port]) (zlen l + 1) = Ok port.
Proof.
  split; [apply argv_at_app|]. rewrite (cons_middle host l [port]), app_assoc.
  apply argv_at_app'. rewrite zlen_app. done.
Qed.

(** C36. What command lines mean: well-formed options, followed by a host and a port,
    give the default settings changed by the options in their order; and at a word that is no
    option, -h or an option without its argument, the program exits with 1, 0 or 1. *)
Theorem command_lines_parse prog random :
  (forall fs host port, Forall flag_ok fs ->
     udp_get_config (prog :: concat (words <$> fs) ++ [host; port]) =
       a ← default_filter;
       o ← set_all udp_set fs (mk_udp_options TCPConfig.default a false);
       udp_result host port o) /\
  (forall fs host port, Forall ipv4_flag_ok fs ->
     ipv4_get_config random (prog :: concat (ipv4_words <$> fs) ++ [host; port]) =
       a ← default_filter;
       o ← set_all ipv4_set fs (mk_ipv4_options TCPConfig.default a None false
             LOCAL_ADDRESS_DFLT (to_string (u16 random)));
       ipv4_result host port o) /\
  (forall fs w rest code, Forall flag_ok fs -> 2 <= zlen rest -> stops udp_valued w rest = Some code ->
     udp_get_config (prog :: concat (words <$> fs) ++ w :: rest) =
       a ← default_filter;
       _ ← set_all udp_set fs (mk_udp_options TCPConfig.default a false); Ok (inr code)) /\
  (forall fs w rest code, Forall ipv4_flag_ok fs -> 2 <= zlen rest -> stops ipv4_valued w rest = Some code ->
     ipv4_get_config random (prog :: concat (ipv4_words <$> fs) ++ w :: rest) =
       a ← default_filter;
       _ ← set_all ipv4_set fs (mk_ipv4_options TCPConfig.default a None false
             LOCAL_ADDRESS_DFLT (to_string (u16 random))); Ok (inr code)).
Proof.
  split_and!.
  - intros fs host port Hok. unfold udp_get_config. destruct default_filter as [a|]; [|done].
    cbn [mbind outcome_bind]. rewrite app_comm_cons.
    rewrite (options_parsed _ _ _ _ udp_recognizes) by done.
    destruct (set_all _ _ _) as [o|]; [|done]. cbn [mbind outcome_bind].
    set (l := prog :: _). destruct (last_words l host port) as [Eh Ep].
    replace (zlen (l ++ [host; port]) - 1) with (zlen l + 1) by (rewrite zlen_app; cbn [length]; lia).
    replace (zlen (l ++ [host; port]) - 2) with (zlen l) by (rewrite zlen_app; cbn [length]; lia).
    rewrite Eh, Ep. unfold udp_result. cbn [mbind outcome_bind].
    by destruct (u_listen o); destruct (of_host _ _).
  - intros fs host port Hok. unfold ipv4_get_config. destruct default_filter as [a|]; [|done].
    cbn [mbind outcome_bind]. rewrite app_comm_cons.
    rewrite (options_parsed _ _ _ _ ipv4_recognizes) by done.
    destruct (set_all _ _ _) as [o|]; [|done]. cbn [mbind outcome_bind].
    set (l := prog :: _). destruct (last_words l host port) as [-> ->].
    unfold ipv4_result. cbn [mbind outcome_bind]. destruct (i_listen o); [|done].
    destruct (of_host _ _) as [b|]; [|done]. cbn [mbind outcome_bind].
    destruct (Address.port b) as [p|]; [|done]. cbn [mbind outcome_bind]. by destruct (p =? 0).
  - intros fs w rest code Hok Hr Hs. unfold udp_get_config. destruct default_filter as [a|]; [|done].
    cbn [mbind outcome_bind]. rewrite app_comm_cons.
    rewrite (options_refused _ _ _ _ _ udp_recognizes udp_stops _ _ _ Hok _ _ code) by done.
    by destruct (set_all _ _ _).
  - intros fs w rest code Hok Hr Hs. unfold ipv4_get_config. destruct default_filter as [a|]; [|done].
    cbn [mbind outcome_bind]. rewrite app_comm_cons.
    rewrite (options_refused _ _ _ _ _ ipv4_recognizes ipv4_stops _ _ _ Hok _ _ code) by done.
    by destruct (set_all _ _ _).
Qed.
End theorems.

Lemma command_lines_are_checked_witness :
  match udp_get_config ["tcp_udp"; "-l"; "1"; "80"]%string with
  | Ok (inl (c, a, _)) => config_ok c a
  | Ok (inr exit_code) => exit_code = 0 \/ exit_code = 1
  | Fault f => bad_rate ["tcp_udp"; "-l"; "1"; "80"]%string f \/ f = RuntimeError
  end.
Proof. apply (command_lines_are_checked _ 0). vm_compute. discriminate. Defined.

Lemma command_lines_parse_witness :
  udp_get_config ["tcp_udp"; "-w"; "4000"; "-Lu"; "0.5"; "1"; "80"]%string =
    Ok (inl (TCPConfig.default <| recv_capacity := 4000 |>,
             mkFdAdapterConfig (inet 0 0) (inet 1 80) 0 32767, false)) /\
  udp_get_config ["tcp_udp"; "-l"; "-x"; "1"; "80"]%string = Ok (inr 1).
Proof.
  destruct (command_lines_parse "tcp_udp" 0) as (H1 & _ & H3 & _). split.
  - refine (eq_trans (H1 [Window 4000; LossUp "0.5"] "1" "80" _)%string _); [|by vm_compute].
    by repeat constructor.
  - refine (eq_trans (H3 [Listen] "-x" ["1"; "80"] 1 _ _ _)%string _); by repeat constructor.
Defined.
