(* ===== verification/Usage.v ===== *)
(** * Usage: the usage texts, and the options they list

    [show_usage] of the programs as a string, with the message it ends with.  tcp_udp and tcp_ipv4 accept
    exactly the options their text lists; udp_tcpdump lists one it does not have. *)

From Stdlib Require Import Strings.String Strings.Ascii.
From S2P Require Import Prelude Address TCPConfig Adapters Tcpdump CommandLine.

(** ** The texts *)

Definition ended_by (msg : option string) : string := (from_option id "" msg ++ LF)%string.

Definition udp_usage_text : string :=
  " [options] <host> <port>" ++ LF ++ LF ++
  "   Option                                                          Default" ++ LF ++
  "   --                                                              --" ++ LF ++ LF ++
  "   -l              Server (listen) mode.                           (client mode)" ++ LF ++
  "                   In server mode, <host>:<port> is the address to bind." ++ LF ++ LF ++
  "   -w <winsz>      Use a window of <winsz> bytes                   " ++ to_string MAX_PAYLOAD_SIZE ++ LF ++ LF ++
  "   -t <tmout>      Set rt_timeout to tmout                         " ++ to_string TIMEOUT_DFLT ++ LF ++ LF ++
  "   -Lu <loss>      Set uplink loss to <rate> (float in 0..1)       (no loss)" ++ LF ++
  "   -Ld <loss>      Set downlink loss to <rate> (float in 0..1)     (no loss)" ++ LF ++ LF ++
  "   -h              Show this message and quit." ++ LF ++ LF.
Definition udp_show_usage (argv0 : string) (msg : option string) : string :=
  ("Usage: " ++ argv0 ++ udp_usage_text ++ ended_by msg)%string.

Definition ipv4_usage_text : string :=
  " [options] <host> <port>" ++ LF ++ LF ++
  "   Option                                                          Default" ++ LF ++
  "   --                                                              --" ++ LF ++ LF ++
  "   -l              Server (listen) mode.                           (client mode)" ++ LF ++
  "                   In server mode, <host>:<port> is the address to bind." ++ LF ++ LF ++
  "   -a <addr>       Set source address (client mode only)           " ++ LOCAL_ADDRESS_DFLT ++ LF ++
  "   -s <port>       Set source port (client mode only)              (random)" ++ LF ++ LF ++
  "   -w <winsz>      Use a window of <winsz> bytes                   " ++ to_string MAX_PAYLOAD_SIZE ++ LF ++ LF ++
  "   -t <tmout>      Set rt_timeout to tmout                         " ++ to_string TIMEOUT_DFLT ++ LF ++ LF ++
  "   -d <tundev>     Connect to tun <tundev>                         " ++ TUN_DFLT ++ LF ++ LF ++
  "   -Lu <loss>      Set uplink loss to <rate> (float in 0..1)       (no loss)" ++ LF ++
  "   -Ld <loss>      Set downlink loss to <rate> (float in 0..1)     (no loss)" ++ LF ++ LF ++
  "   -h              Show this message." ++ LF ++ LF.
Definition ipv4_show_usage (argv0 : string) (msg : option string) : string :=
  ("Usage: " ++ argv0 ++ ipv4_usage_text ++ ended_by msg)%string.

Definition tcpdump_usage_text : string :=
  " [-i <intf>] [-F <file>] [-h|--help] <expression>" ++ LF ++ LF ++
  "  -i <intf>    only capture packets from <intf> (default: all)" ++ LF ++ LF ++
  "  -F <file>    reads in a filter expression from <file>" ++ LF ++
  "               <expression> is ignored if -F is supplied." ++ LF ++ LF ++
  "  -h, --help   show this message" ++ LF ++ LF ++
  "  <expression> a filter expression in pcap-filter(7) syntax" ++ LF.
Definition tcpdump_show_usage (arg0 : string) (errmsg : option string) : string :=
  ("Usage: " ++ arg0 ++ tcpdump_usage_text ++
   match errmsg with Some msg => LF ++ msg | None => "" end ++ LF)%string.

Definition native_show_usage (argv0 : string) : string :=
  ("Usage: " ++ argv0 ++ " [-l] <host> <port>" ++ LF ++ LF ++
   "  -l specifies listen mode; <host>:<port> is the listening address." ++ LF)%string.

(** ** The options listed: the words after "-" that lines begin with *)

Definition is_char (n : Z) (c : ascii) : bool := code c =? n.

(** Up to the next character of [stop]. *)
Fixpoint until (stop : ascii -> bool) (s : string) : string :=
  match s with
  | EmptyString => EmptyString
  | String c s => if stop c then EmptyString else String c (until stop s)
  end.

(** [start] is set at the beginning of a line and while it has only spaces. *)
Fixpoint listed (start : bool) (s : string) : list string :=
  match s with
  | EmptyString => []
  | String c s' =>
    if is_char 10 c then listed true s'
    else if is_char 32 c then listed start s'
    else if start && is_char 45 c && negb (String.prefix "--" s)
      then until (fun c => is_char 32 c || is_char 44 c) s :: listed false s'
    else listed false s'
  end.

Definition udp_flags : list string := ["-l"; "-w"; "-t"; "-Lu"; "-Ld"; "-h"]%string.
Definition ipv4_flags : list string := ["-l"; "-a"; "-s"; "-w"; "-t"; "-d"; "-Lu"; "-Ld"; "-h"]%string.

Lemma udp_listed : listed false udp_usage_text = udp_flags.
Proof. by vm_compute. Qed.
Lemma ipv4_listed : listed false ipv4_usage_text = ipv4_flags.
Proof. by vm_compute. Qed.
Lemma tcpdump_listed : listed false tcpdump_usage_text = ["-i"; "-F"; "-h"]%string.
Proof. by vm_compute. Qed.

(** An option with an argument to go with it is not refused. *)
Lemma with_argument_takes {O} argv curr (use : string -> outcome O) : with_argument argv curr use <> Ok (inr 1) \/ zlen argv <= curr + 3.
Proof.
  unfold with_argument. destruct (Z.leb_spec (zlen argv) (curr + 3)); [by right|left]. destruct (argv_at _ _); [|done].
  cbn [mbind outcome_bind]. by destruct (use a).
Qed.

(** Splits on which option [arg] is; the handler tries them in the order the text lists them. *)
Ltac by_options arg :=
  repeat (destruct (option_is _ arg); cbn [orb];
    [split; [|done]; match goal with
     | |- with_argument ?a ?c ?u = _ -> _ => destruct (with_argument_takes a c u); [done|lia]
     | _ => done
     end|]); done.

Section complete.
Context `{Resolver} (argv : list string) (curr : Z) (arg : string).
Hypothesis at_curr : argv_at argv curr = Ok arg.
Hypothesis argument : curr + 3 < zlen argv.

Definition in_usage (text : string) : bool := existsb (fun f => option_is f arg) (listed false text).

(** When an argument follows, an option is refused exactly when the usage text does not list it. *)
Lemma udp_usage_complete o : udp_option argv curr o = Ok (inr 1) <-> in_usage udp_usage_text = false.
Proof.
  unfold in_usage. rewrite udp_listed. unfold udp_option, udp_flags. rewrite at_curr. cbn [mbind outcome_bind existsb].
  by_options arg.
Qed.
Lemma ipv4_usage_complete o : ipv4_option argv curr o = Ok (inr 1) <-> in_usage ipv4_usage_text = false.
Proof.
  unfold in_usage. rewrite ipv4_listed. unfold ipv4_option, ipv4_flags. rewrite at_curr. cbn [mbind outcome_bind existsb].
  by_options arg.
Qed.
End complete.

(** udp_tcpdump takes the -F of its text for the start of the expression. *)
Lemma tcpdump_lists_F file expression :
  "-F"%string ∈ listed false tcpdump_usage_text /\
  parse_arguments ["-F"%string; file; expression] 1 None = Parsed 1 None.
Proof. rewrite tcpdump_listed. split; [by right; left|done]. Qed.
