(* ===== verification/Text.v ===== *)
(** * Text (to_string and summary of tcp_helpers/tcp_header.cc and tcp_helpers/ipv4_header.cc)

    Headers as text: a field to a line in hexadecimal, or a line in all.  What [to_string] shows of a TCP
    header determines it. *)

From Stdlib Require Import Strings.String Strings.Ascii.
From S2P Require Import Prelude WrappingIntegers Address TCPHeader IPv4 Tcpdump CommandLine.

(** A [bool] under [boolalpha]. *)
Definition boolalpha (b : bool) : string := if b then "true" else "false".

Definition tcp_to_string (h : TCPHeader) : string :=
  ("TCP source port: " ++ to_hex (sport h) ++ LF
   ++ "TCP dest port: " ++ to_hex (dport h) ++ LF
   ++ "TCP seqno: " ++ to_hex (raw_value (seqno h)) ++ LF
   ++ "TCP ackno: " ++ to_hex (raw_value (ackno h)) ++ LF
   ++ "TCP doff: " ++ to_hex (doff h) ++ LF
   ++ "Flags: urg: " ++ boolalpha (urg h) ++ " ack: " ++ boolalpha (ack h) ++ " psh: " ++ boolalpha (psh h)
   ++ " rst: " ++ boolalpha (rst h) ++ " syn: " ++ boolalpha (syn h) ++ " fin: " ++ boolalpha (fin h) ++ LF
   ++ "TCP winsize: " ++ to_hex (win h) ++ LF
   ++ "TCP cksum: " ++ to_hex (TCPHeader.cksum h) ++ LF
   ++ "TCP uptr: " ++ to_hex (uptr h) ++ LF)%string.

Definition tcp_summary (h : TCPHeader) : string :=
  ("Header(flags=" ++ Tcpdump.flag (syn h) "S" ++ Tcpdump.flag (ack h) "A" ++ Tcpdump.flag (rst h) "R"
   ++ Tcpdump.flag (fin h) "F" ++ ",seqno=" ++ to_string (raw_value (seqno h))
   ++ ",ack=" ++ to_string (raw_value (ackno h)) ++ ",win=" ++ to_string (win h) ++ ")")%string.

Definition ip_to_string (h : IPv4Header) : string :=
  ("IP version: " ++ to_hex (ver h) ++ LF
   ++ "IP hdr len: " ++ to_hex (hlen h) ++ LF
   ++ "IP tos: " ++ to_hex (tos h) ++ LF
   ++ "IP dgram len: " ++ to_hex (IPv4.len h) ++ LF
   ++ "IP id: " ++ to_hex (id h) ++ LF
   ++ "Flags: df: " ++ boolalpha (df h) ++ " mf: " ++ boolalpha (mf h) ++ LF
   ++ "Offset: " ++ to_hex (offset h) ++ LF
   ++ "TTL: " ++ to_hex (ttl h) ++ LF
   ++ "Protocol: " ++ to_hex (proto h) ++ LF
   ++ "Checksum: " ++ to_hex (cksum h) ++ LF
   ++ "Src addr: " ++ to_hex (src h) ++ LF
   ++ "Dst addr: " ++ to_hex (dst h) ++ LF)%string.

Definition ip_summary `{Resolver} (h : IPv4Header) : string :=
  ("IPv" ++ to_hex (ver h) ++ ", len=" ++ to_hex (IPv4.len h) ++ ", protocol=" ++ to_hex (proto h) ++ ", "
   ++ (if (10 <=? ttl h)%Z then "" else "ttl=" ++ to_string (ttl h) ++ ", ")
   ++ "src=" ++ inet_ntoa (src h) ++ ", dst=" ++ inet_ntoa (dst h))%string.

(** ** Reading the text back *)

Lemma hex_digit_value d : 0 <= d < 16 -> digit_in 16 (hex_digit d) = Some d.
Proof.
  intros Hd. assert (d = 0 \/ d = 1 \/ d = 2 \/ d = 3 \/ d = 4 \/ d = 5 \/ d = 6 \/ d = 7 \/ d = 8 \/ d = 9 \/
    d = 10 \/ d = 11 \/ d = 12 \/ d = 13 \/ d = 14 \/ d = 15) as Hc by lia.
  by repeat destruct Hc as [->|Hc]; [..|rewrite Hc].
Qed.

Lemma append_assoc_str (a b c : string) : ((a ++ b) ++ c = a ++ (b ++ c))%string.
Proof. induction a as [|x a IH]; [done|]. cbn. by rewrite IH. Qed.

Lemma to_hex_digits_app fuel : forall n acc s,
  (to_hex_digits fuel n acc ++ s)%string = to_hex_digits fuel n (acc ++ s).
Proof.
  induction fuel as [|fuel IH]; intros n acc s; [done|]. cbn [to_hex_digits].
  destruct (n <? 16); [done|]. by rewrite IH.
Qed.

Lemma scan_hex_digits fuel : forall n acc v c,
  0 <= n < 16 ^ Z.of_nat fuel -> (0 < fuel)%nat ->
  exists k c', scan_run 16 (to_hex_digits fuel n acc) v c = scan_run 16 acc (v * k + n) c'.
Proof.
  induction fuel as [|fuel IH]; intros n acc v c Hn Hf; [lia|]. cbn [to_hex_digits].
  pose proof (Z.mod_pos_bound n 16 ltac:(lia)) as Hm. pose proof (Z.div_mod n 16 ltac:(lia)) as Hdm.
  destruct (Z.ltb_spec n 16) as [Hlt|Hge].
  - exists 16, (c + 1). cbn [scan_run]. by rewrite hex_digit_value, Z.mod_small by lia.
  - assert (fuel <> 0%nat) by (intros ->; change (16 ^ Z.of_nat 1) with 16 in Hn; lia).
    rewrite Nat2Z.inj_succ, Z.pow_succ_r in Hn by lia.
    destruct (IH (n / 16) (String (hex_digit (n mod 16)) acc) v c) as (k & c' & ->); [|lia|].
    { split; [lia|]. apply Z.div_lt_upper_bound; lia. }
    exists (k * 16), (c' + 1). cbn [scan_run]. rewrite hex_digit_value by done. f_equal. lia.
Qed.

(** A number at the start of a line. *)
Lemma hex_line n n' s s' : is_u32 n -> is_u32 n' ->
  (to_hex n ++ LF ++ s = to_hex n' ++ LF ++ s')%string -> n = n' /\ s = s'.
Proof.
  assert (Hr : forall m t, is_u32 m -> exists c, scan_run 16 (to_hex m ++ LF ++ t) 0 0 = (m, c, LF ++ t)%string).
  { intros m t Hm. unfold to_hex. rewrite to_hex_digits_app.
    destruct (scan_hex_digits 8 m ("" ++ LF ++ t)%string 0 0) as (k & c & ->); [exact Hm|lia|]. by exists c. }
  intros Hn Hn' E. destruct (Hr n s Hn) as [c E1], (Hr n' s' Hn') as [c' E2].
  rewrite E, E2 in E1. by injection E1.
Qed.

Lemma bool_text b b' s s' : (boolalpha b ++ s = boolalpha b' ++ s')%string -> b = b' /\ s = s'.
Proof. destruct b, b'; by intros [=]. Qed.

Lemma cancel_prefix (p s s' : string) : (p ++ s = p ++ s')%string -> s = s'.
Proof. induction p as [|c p IH]; [done|]. intros [=]. by apply IH. Qed.

(** [next_field E] takes one field off both sides of [E]. *)
Ltac next_field E := repeat apply cancel_prefix in E;
  first [apply hex_line in E as [? E]; [|lia|lia] | apply bool_text in E as [? E]].

(** The text shows every field. *)
Theorem tcp_to_string_injective h h' :
  TCPHeader.wf h -> TCPHeader.wf h' -> tcp_to_string h = tcp_to_string h' -> h = h'.
Proof.
  intros [] [] E. unfold tcp_to_string in E. unfold valid in *.
  do 14 next_field E. destruct h as [? ? [] []], h' as [? ? [] []]. cbn in *. congruence.
Qed.
