(* ===== verification/Programs.v ===== *)
(** * Programs (apps/tcp_native.cc, apps/tcp_udp.cc, apps/tcp_ipv4.cc, apps/tun.cc, apps/webget.cc,
    apps/tcp_benchmark.cc, CS144TCPSocket)

    The [main] functions, which put the parts together: command line, socket and copy.  The messages on
    the terminal are left out but for what tun.cc prints of each packet. *)

From Stdlib Require Import Strings.String.
From stdpp Require Import relations.
From S2P Require Import Prelude Benchmark Liveness.
From S2P Require Import Buffer Parser Address Checksum Kernel FileDescriptor Socket Tun EventLoop.
From S2P Require Import WrappingIntegers TCPHeader TCPSegment IPv4 Adapters TCPConfig TCPSender TCPConnection.
From S2P Require Import StreamCopy WebGet Tcpdump SpongeSocket CommandLine Text.

(** ** main

    How [main] ends: with a status and the state it leaves, or not within the rounds granted. *)

Definition EXIT_SUCCESS : Z := 0.
Definition EXIT_FAILURE : Z := 1.

Inductive ended (A : Type) :=
| Returned (status : Z) (final : option A)
| Running (state : A)
| Aborted.
Arguments Returned {A} _ _.
Arguments Running {A} _.
Arguments Aborted {A}.

(** [catch (const exception &)]: the other faults are undefined behaviour. *)
Definition is_exception (f : fault) : bool :=
  match f with OutOfRange | RuntimeError | InvalidArgument | LengthError => true | _ => false end.
Definition catch {A} (body : outcome (ended A)) : outcome (ended A) :=
  match body with
  | Fault f => if is_exception f then Ok (Returned EXIT_FAILURE None) else Fault f
  | r => r
  end.

(** ** tcp_native *)

Section native.
Context `{Kernel} `{Resolver}.

(** The lambda that makes the socket; the listening socket is destroyed when it returns. *)
Definition native_socket (server_mode : bool) (argv : list string) (h : history)
  : outcome (FDWrapper * history) :=
  if server_mode then
    '(listening_socket, h) ← new_socket AF_INET SOCK_STREAM h;
    h ← set_reuseaddr listening_socket h;
    host ← argv_at argv 2;
    service ← argv_at argv 3;
    a ← of_host host service;
    h ← Socket.bind a listening_socket h;
    h ← listen 16 listening_socket h;
    '(accepted, listening_socket, h) ← accept listening_socket h;
    Ok (accepted, snd (FileDescriptor.destroy listening_socket h))
  else
    '(connecting_socket, h) ← new_socket AF_INET SOCK_STREAM h;
    host ← argv_at argv 1;
    service ← argv_at argv 2;
    a ← of_host host service;
    h ← Socket.connect a connecting_socket h;
    Ok (connecting_socket, h).

Definition native_main (polls : list (list pollfd -> Z -> poll_answer)) (argv : list string) (h : history)
  : outcome (ended copy_state) :=
  catch
    (if zlen argv <? 3 then Ok (Returned EXIT_FAILURE None)
     else
       first ← argv_at argv 1;
       let server_mode := option_is "-l" first in
       if server_mode && (zlen argv <? 4) then Ok (Returned EXIT_FAILURE None)
       else
         '(socket, h) ← native_socket server_mode argv h;
         '(returned, _, s) ← bidirectional_stream_copy polls socket h;
         Ok (if (returned : bool) then Returned EXIT_SUCCESS (Some s) else Running s)).

(** ** webget *)

Definition webget_main (rounds : nat) (argv : list string) (h : history)
  : outcome (ended (bytes * FDWrapper * history)) :=
  catch
    (if zlen argv <=? 0 then Ok Aborted
     else if negb (zlen argv =? 3) then Ok (Returned EXIT_FAILURE None)
     else
       host ← argv_at argv 1;
       path ← argv_at argv 2;
       '(returned, printed, socket, h) ← get_URL host path rounds h;
       Ok (if (returned : bool) then Returned EXIT_SUCCESS (Some (printed, socket, h))
           else Running (printed, socket, h))).
End native.

(** ** tcp_udp, tcp_ipv4 and CS144TCPSocket

    [next] and [seed] are the generator of the lossy adapter, [isn] what the connection's sender takes
    from its own. *)

(** What the programs have after the command line: the configurations, the mode and the socket. *)
Record started (A : Type) := mk_started {
  c_fsm : TCPConfig; c_filt : FdAdapterConfig; listening_mode : bool; tcp_socket : TCPSpongeSocket A }.
Arguments mk_started {A} _ _ _ _.
Arguments c_fsm {A} _.
Arguments c_filt {A} _.
Arguments listening_mode {A} _.
Arguments tcp_socket {A} _.

Section sponge.
Context `{Kernel} `{Resolver} {R : Type} (next : R -> Z * R) (seed : R).

(** [FdAdapterBase{}]. *)
Definition new_adapter : outcome FdAdapterBase := c ← default_filter; Ok (mkFdAdapterBase c false).

Definition udp_start (argv : list string) (h : history)
  : outcome (started (LossyFdAdapter R FdAdapterBase) + Z) :=
  if zlen argv <? 3 then Ok (inr 1)
  else
    r ← udp_get_config argv;
    match r with
    | inr code => Ok (inr code)
    | inl (c_fsm, c_filt, listen) =>
      '(udp_sock, h) ← new_socket AF_INET SOCK_DGRAM h;
      h ← (if (listen : bool) then Socket.bind (source c_filt) udp_sock h else Ok h);
      adapter ← new_adapter;
      s ← new_sponge (mkLossyFdAdapter seed adapter) udp_sock h;
      Ok (inl (mk_started c_fsm c_filt listen s))
    end.

Definition ipv4_start (random : Z) (argv : list string) (h : history)
  : outcome (started (LossyFdAdapter R FdAdapterBase) + Z) :=
  if zlen argv <? 3 then Ok (inr EXIT_FAILURE)
  else
    r ← ipv4_get_config random argv;
    match r with
    | inr code => Ok (inr code)
    | inl (c_fsm, c_filt, listen, tun_dev_name) =>
      '(tun, h) ← TunFD (to_bytes (match tun_dev_name with None => TUN_DFLT | Some d => d end)) h;
      adapter ← new_adapter;
      s ← new_sponge (mkLossyFdAdapter seed adapter) tun h;
      Ok (inl (mk_started c_fsm c_filt listen s))
    end.

(** [CS144TCPSocket()] and what [connect] configures it with. *)
Definition cs144_new (h : history) : outcome (TCPSpongeSocket FdAdapterBase) :=
  '(tun, h) ← TunFD (to_bytes "tun144") h;
  adapter ← new_adapter;
  new_sponge adapter tun h.
Definition cs144_config (random : Z) (address : Address) : outcome (TCPConfig * FdAdapterConfig) :=
  let tcp_config := TCPConfig.default <| rt_timeout := 100 |> in
  multiplexer_config ← default_filter;
  a ← of_host "169.254.144.9" (to_string (u16 random));
  Ok (tcp_config, multiplexer_config <| source := a |> <| destination := address |>).
Definition cs144_connect (random isn : Z) (address : Address) (rounds : list round) (now : Z)
    (s : TCPSpongeSocket FdAdapterBase)
  : outcome (bool * list (Rule (TCPSpongeSocket FdAdapterBase)) * TCPSpongeSocket FdAdapterBase) :=
  '(tcp_config, multiplexer_config) ← cs144_config random address;
  socket_connect isn tcp_config multiplexer_config rounds now s.
End sponge.

(** [main] after the start: [listen_and_accept] or [connect].  Then the thread of the connection, [_tcp_main],
    and the owner run side by side, joined by the pipe and [_abort]. *)
Definition open_started `{Kernel} `{Resolver} {A In Out} `{FdAdapter A In Out} `{Device In Out}
    (isn : Z) (rounds : list round) (now : Z) (p : started A)
  : outcome (bool * list (Rule (TCPSpongeSocket A)) * TCPSpongeSocket A) :=
  open_socket (listening_mode p) isn (c_fsm p) (c_filt p) rounds now (tcp_socket p).

(** The owner's part, over its own system calls: the copy, then [wait_until_closed] up to the join. *)
Definition owner_main `{Kernel} (polls : list (list pollfd -> Z -> poll_answer)) (local : FDWrapper)
    (h : history) : outcome (ended copy_state) :=
  catch
    ('(returned, _, s) ← bidirectional_stream_copy polls local h;
     if (returned : bool) then
       '(f, h) ← shutdown SHUT_RDWR (StreamCopy.socket s) (StreamCopy.calls s);
       Ok (Returned EXIT_SUCCESS (Some (s <| StreamCopy.socket := f |> <| StreamCopy.calls := h |>)))
     else Ok (Running s)).

(** ** tun *)

(** What is said of a packet after its dump. *)
Inductive tun_report :=
| NotIPv4
| NotTCP (ip : IPv4Header)
| NotSegment (ip : IPv4Header)
| Segment (ip : IPv4Header) (tcp : TCPHeader) (payload_len : Z).

Definition tun_packet (buffer : bytes) : outcome (string * tun_report) :=
  let dump := hexdump buffer 0 in
  '(r, ip_dgram) ← IPv4Datagram.parse (of_string buffer) IPv4Datagram.default;
  let ip := IPv4._header ip_dgram in
  if negb (bool_decide (r = NoError)) then Ok (dump, NotIPv4)
  else if negb (proto ip =? PROTO_TCP) then Ok (dump, NotTCP ip)
  else
    b ← BufferList.to_buffer (IPv4._payload ip_dgram);
    '(r, tcp_seg) ← TCPSegment.parse b (IPv4Header.pseudo_cksum ip) TCPSegment.default;
    if negb (bool_decide (r = NoError)) then Ok (dump, NotSegment ip)
    else Ok (dump, Segment ip (TCPSegment._header tcp_seg) (Buffer.size (TCPSegment._payload tcp_seg))).

(** All that is printed of a packet. *)
Definition print_tun (r : string * tun_report) : string :=
  let success ip := ("success! totlen=" ++ to_string (IPv4.len ip) ++ ", IPv4 header contents:" ++ LF ++ ip_to_string ip)%string in
  (LF ++ LF ++ "***" ++ LF ++ "*** Got packet:" ++ LF ++ "***" ++ LF ++ fst r
   ++ "attempting to parse as ipv4 datagram... "
   ++ match snd r with
      | NotIPv4 => "failed." ++ LF
      | NotTCP ip => success ip ++ LF ++ "Not TCP, skipping." ++ LF
      | NotSegment ip => success ip ++ LF ++ "Attempting to parse as a TCP segment... " ++ "failed." ++ LF
      | Segment ip tcp payload_len =>
        success ip ++ LF ++ "Attempting to parse as a TCP segment... " ++ "success! payload len=" ++ to_string payload_len
        ++ ", TCP header contents:" ++ LF ++ tcp_to_string tcp ++ LF
      end)%string.

(** [while (true)], as many packets as there are rounds. *)
Fixpoint tun_loop `{Kernel} (rounds : nat) (tun : FDWrapper) (h : history)
  : outcome (list (string * tun_report) * FDWrapper * history) :=
  match rounds with
  | O => Ok ([], tun, h)
  | S rounds =>
    '(buffer, tun, h) ← FileDescriptor.read SIZE_MAX tun h;
    r ← tun_packet buffer;
    '(rs, tun, h) ← tun_loop rounds tun h;
    Ok (r :: rs, tun, h)
  end.
Definition tun_main `{Kernel} (rounds : nat) (h : history)
  : outcome (ended (list (string * tun_report) * FDWrapper * history)) :=
  catch ('(tun, h) ← TunFD (to_bytes "tun144") h; r ← tun_loop rounds tun h; Ok (Running r)).

(** ** tcp_benchmark

    A run's random numbers: for the two senders, and the string. *)

Record benchmark_run := mk_benchmark_run { for_x : Z; for_y : Z; rand : bytes }.
Definition len : Z := 100 * 1024 * 1024.

(** [main_loop(reorder)]: whether it has returned. *)
Definition benchmark_loop (reorder : bool) (rounds rounds' : nat) (r : benchmark_run) : outcome (bool * bench) :=
  Benchmark.main_loop (for_x r) (for_y r) TCPConfig.default (rand r) reorder rounds rounds'.

Definition benchmark_main (rounds rounds' : nat) (r1 r2 : benchmark_run) : outcome (ended bench) :=
  catch
    ('(returned, b) ← benchmark_loop false rounds rounds' r1;
     if negb returned then Ok (Running b)
     else
       '(returned, b) ← benchmark_loop true rounds rounds' r2;
       Ok (if (returned : bool) then Returned EXIT_SUCCESS (Some b) else Running b)).

(** ** The calls of a start transfer nothing *)

Section quiet.
Context `{Kernel}.
Implicit Types (f g : FDWrapper) (h : history).

Lemma new_socket_quiet d t h f h' : new_socket d t h = Ok (f, h') ->
  no_transfer h h' /\ closed f = false /\ k_call (SysSocket d t 0) h = Sys (fd_num f).
Proof.
  unfold new_socket. intros ([fd h1] & E1 & E)%bind_Ok. pose proof (sys_call_no_transfer _ _ _ _ E1) as N.
  apply bind_Ok in E as (g & Eg & E). apply Ok_inj in E. injection E as -> ->.
  unfold FileDescriptor.new in Eg. destruct (_ <? _); [done|]. apply Ok_inj in Eg as <-.
  split_and!; [done|done|]. unfold sys_call in E1. apply bind_Ok in E1 as (n & [Hk _]%int_call_Ok & E1).
  apply Ok_inj in E1. by injection E1 as -> _.
Qed.

Lemma socket_of_fd_quiet d t f h f' h' : socket_of_fd d t f h = Ok (f', h') -> f' = f /\ no_transfer h h'.
Proof.
  assert (forall o e h h', check_option o e f h = Ok h' -> no_transfer h h') as Hc.
  { intros o e h1 h2 E. unfold check_option in E. apply bind_Ok in E as ([v l] & _ & E).
    destruct (_ || _); [done|]. apply Ok_inj in E as <-. by apply no_transfer_snoc. }
  unfold socket_of_fd. intros (h1 & E1%Hc & E)%bind_Ok. apply bind_Ok in E as (h2 & E2%Hc & E).
  apply Ok_inj in E. injection E as <- <-. split; [done|by etrans].
Qed.

Lemma accept_quiet f h g f' h' : accept f h = Ok (g, f', h') ->
  no_transfer h h' /\ closed g = false /\ fd_num f' = fd_num f /\
  k_call (SysAccept (fd_num f)) h = Sys (fd_num g).
Proof.
  unfold accept. intros ([fd h1] & E1 & E)%bind_Ok. pose proof (sys_call_no_transfer _ _ _ _ E1) as N.
  apply bind_Ok in E as (g1 & Eg & E). apply bind_Ok in E as ([g2 h2] & [-> N2]%socket_of_fd_quiet & E).
  apply Ok_inj in E. injection E as <- <- <-.
  unfold FileDescriptor.new in Eg. destruct (_ <? _); [done|]. apply Ok_inj in Eg as <-.
  split_and!; [by etrans|done|done|]. unfold sys_call in E1.
  apply bind_Ok in E1 as (n & [Hk _]%int_call_Ok & E1). apply Ok_inj in E1. by injection E1 as -> _.
Qed.

Lemma destroy_quiet f h : no_transfer h (snd (FileDescriptor.destroy f h)).
Proof.
  unfold FileDescriptor.destroy. destruct (_closed f); [done|]. destruct (close f h) as [[f' h']|e] eqn:E.
  - unfold close in E. apply bind_Ok in E as ([n h1] & E1%sys_call_no_transfer & E). apply Ok_inj in E.
    by injection E as _ <-.
  - by apply no_transfer_snoc.
Qed.

Lemma call_quiet c h h' : ('(_, h) ← sys_call c h; Ok h) = Ok h' -> no_transfer h h'.
Proof. intros ([n h1] & E1%sys_call_no_transfer & E)%bind_Ok. by apply Ok_inj in E as <-. Qed.

Lemma new_tuntap_quiet name is_tun h f h' : new_tuntap name is_tun h = Ok (f, h') ->
  no_transfer h h' /\ closed f = false.
Proof.
  unfold new_tuntap. intros ([fd h1] & E1%sys_call_no_transfer & E)%bind_Ok.
  apply bind_Ok in E as (g & Eg & E). apply bind_Ok in E as ([n h2] & E2%sys_call_no_transfer & E).
  apply Ok_inj in E. injection E as <- <-. split; [by etrans|].
  unfold FileDescriptor.new in Eg. destruct (_ <? _); [done|]. by apply Ok_inj in Eg as <-.
Qed.

Lemma new_sponge_quiet {A} (a : A) fd h s : new_sponge a fd h = Ok s ->
  no_transfer h (calls s) /\ _datagram_adapter s = a /\ adapter_fd s = fd /\ _tcp s = None /\
  SpongeSocket._inbound_shutdown s = false.
Proof.
  unfold new_sponge, socket_pair_helper. intros ([[f0 f1] h1] & E1 & E)%bind_Ok.
  assert (no_transfer h h1) as N1.
  { apply bind_Ok in E1 as ([fd0 fd1] & _ & E1). apply bind_Ok in E1 as (g0 & _ & E1).
    apply bind_Ok in E1 as (g1 & _ & E1). apply Ok_inj in E1. injection E1 as _ _ <-.
    by apply no_transfer_snoc. }
  apply bind_Ok in E as ([g0 h2] & [_ N2]%socket_of_fd_quiet & E).
  apply bind_Ok in E as ([g1 h3] & [_ N3]%socket_of_fd_quiet & E).
  apply bind_Ok in E as (h4 & N4%set_blocking_no_transfer & E). apply Ok_inj in E as <-.
  split_and!; [|done..]. cbn. do 3 (etrans; [eassumption|]). done.
Qed.
End quiet.

(** ** tcp_native copies *)

Section native_copies.
Context `{Kernel} `{Resolver}.

(** The kernel does not hand out the descriptors of the terminal, which are open. *)
Definition fresh_fds : Prop := forall c h fd,
  match c with SysSocket _ _ _ | SysAccept _ => True | _ => False end ->
  k_call c h = Sys fd -> fd <> STDIN_FILENO /\ fd <> STDOUT_FILENO.

Lemma native_socket_quiet server_mode argv h f h' : fresh_fds ->
  native_socket server_mode argv h = Ok (f, h') ->
  no_transfer h h' /\ closed f = false /\ fd_num f <> STDIN_FILENO /\ fd_num f <> STDOUT_FILENO.
Proof.
  intros Hfresh E. unfold native_socket in E.
  destruct server_mode; apply bind_Ok in E as ([l h1] & (N1 & Hcl & Hk1)%new_socket_quiet & E).
  - apply bind_Ok in E as (h2 & N2%call_quiet & E). apply bind_Ok in E as (host & _ & E).
    apply bind_Ok in E as (service & _ & E). apply bind_Ok in E as (a & _ & E).
    apply bind_Ok in E as (h3 & N3%call_quiet & E). apply bind_Ok in E as (h4 & N4%call_quiet & E).
    apply bind_Ok in E as ([[g l2] h5] & (N5 & Hg & _ & Hk)%accept_quiet & E).
    apply Ok_inj in E. injection E as <- <-.
    split; [|split; [done|by eapply Hfresh; [|exact Hk]]]. do 5 (etrans; [eassumption|]). apply destroy_quiet.
  - apply bind_Ok in E as (host & _ & E). apply bind_Ok in E as (service & _ & E).
    apply bind_Ok in E as (a & _ & E). apply bind_Ok in E as (h2 & N2%call_quiet & E).
    apply Ok_inj in E. injection E as <- <-.
    split; [by etrans|]. split; [done|by eapply Hfresh; [|exact Hk1]].
Qed.

(** What went each way so far, for a socket with this descriptor. *)
Definition copies_prefixes (fd : Z) (s : copy_state) : Prop :=
  written_to fd (StreamCopy.calls s) `prefix_of` read_from STDIN_FILENO (StreamCopy.calls s) /\
  written_to STDOUT_FILENO (StreamCopy.calls s) `prefix_of` read_from fd (StreamCopy.calls s).
Definition copied_all (hangup : Rule copy_state -> Prop) (fd : Z) (s : copy_state) : Prop :=
  (~ hangup StreamCopy.rule2 ->
     written_to fd (StreamCopy.calls s) = read_from STDIN_FILENO (StreamCopy.calls s)) /\
  (~ hangup StreamCopy.rule4 ->
     written_to STDOUT_FILENO (StreamCopy.calls s) = read_from fd (StreamCopy.calls s)).

(** C16. tcp_native: when it returns 0 it has made its socket from the command line and copied: prefixes at least, and
    unless a signal interrupted [poll] all of standard input went to the socket and all that came from the socket to standard
    output, but for a side that hung up; while it runs what was copied is a prefix; and any other end is
    EXIT_FAILURE. [native_interrupted] shows that after a signal it returns 0 with bytes not copied. *)
Theorem native_main_copies hangup polls argv m :
  fresh_fds -> Forall (hangs_up hangup) polls ->
  native_main polls argv [] = Ok m ->
  let made sock h := exists first, argv_at argv 1 = Ok first /\
    native_socket (option_is "-l" first) argv [] = Ok (sock, h) in
  match m with
  | Returned status (Some s) => status = EXIT_SUCCESS /\
      exists sock h, made sock h /\ copies_prefixes (fd_num sock) s /\
        (copied_all hangup (fd_num sock) s \/ interrupted polls)
  | Returned status None => status = EXIT_FAILURE
  | Running s => exists sock h, made sock h /\ copies_prefixes (fd_num sock) s
  | Aborted => False
  end.
Proof.
  intros Hfresh Hup. unfold native_main. destruct (Z.ltb_spec (zlen argv) 3); [by intros [= <-]|].
  destruct (argv_at_in argv 1) as [first Ef]; [lia|]. rewrite Ef. cbn [mbind outcome_bind].
  destruct (option_is "-l" first && _); [by intros [= <-]|].
  destruct (native_socket _ argv []) as [[sock h]|f] eqn:Es; cbn [mbind outcome_bind catch];
    [|destruct (is_exception f); [by intros [= <-]|done]].
  pose proof (native_socket_quiet _ _ _ _ _ Hfresh Es) as (Hn & Hcl & Hi & Ho).
  destruct (bidirectional_stream_copy polls sock h) as [[[returned rules] s]|f] eqn:Ec; cbn [mbind outcome_bind catch];
    [|destruct (is_exception f); [by intros [= <-]|done]].
  destruct (copy_run_inv hangup polls sock h returned rules s Hi Ho Hcl Hn Hup Ec) as [HI Hu].
  pose proof (copy_inv_prefixes _ _ _ _ HI) as Hp. intros [= <-]. destruct returned.
  - split; [done|]. exists sock, h. split; [by exists first|]. split; [done|].
    destruct (Hu eq_refl) as [Hun|?]; [left|by right]. destruct (copy_idle _ _ _ _ HI Hun) as [Ha Hb].
    split; intros Hh; [apply Ha|apply Hb]; done.
  - exists sock, h. split; [by exists first|done].
Qed.
End native_copies.

(** ** The programs' sockets are sound *)

Section started_sound.
Context `{Kernel} `{Resolver}.

(** What every start leaves: settings of the code's types and a fresh socket. *)
Definition ready {A} (p : started A) : Prop :=
  config_ok (c_fsm p) (c_filt p) /\ no_transfer [] (calls (tcp_socket p)) /\
  SpongeSocket._tcp (tcp_socket p) = None /\ SpongeSocket._inbound_shutdown (tcp_socket p) = false.

Lemma udp_start_ready {R} (seed : R) argv p : udp_start seed argv [] = Ok (inl p) -> ready p.
Proof.
  unfold udp_start. destruct (Z.ltb_spec (zlen argv) 3); [done|]. pose proof (udp_checked argv) as Hc.
  destruct (udp_get_config argv) as [[[[c a] l]|code]|f]; cbn [mbind outcome_bind]; [|done..].
  intros ([udp_sock h1] & (N1 & _ & _)%new_socket_quiet & E)%bind_Ok.
  apply bind_Ok in E as (h2 & E2 & E).
  assert (no_transfer h1 h2) as N2 by (destruct l; [by eapply call_quiet|by apply Ok_inj in E2 as ->]).
  apply bind_Ok in E as (b & _ & E). apply bind_Ok in E as (s & (N3 & _ & _ & Ht & Hi)%new_sponge_quiet & E).
  apply Ok_inj in E. injection E as <-. split; [apply Hc; lia|]. split; [|done].
  cbn. by do 2 (etrans; [eassumption|]).
Qed.

Lemma ipv4_start_ready {R} (seed : R) random argv p :
  ipv4_start seed random argv [] = Ok (inl p) -> ready p.
Proof.
  unfold ipv4_start. destruct (Z.ltb_spec (zlen argv) 3); [done|].
  pose proof (ipv4_checked argv random) as Hc.
  destruct (ipv4_get_config random argv) as [[[[[c a] l] d]|code]|f]; cbn [mbind outcome_bind]; [|done..].
  intros ([tun h1] & [N1 _]%new_tuntap_quiet & E)%bind_Ok.
  apply bind_Ok in E as (b & _ & E). apply bind_Ok in E as (s & (N3 & _ & _ & Ht & Hi)%new_sponge_quiet & E).
  apply Ok_inj in E. injection E as <-. split; [apply Hc; lia|]. split; [|done]. cbn. by etrans.
Qed.

Lemma cs144_ready random address s c a :
  cs144_new [] = Ok s -> cs144_config random address = Ok (c, a) -> ready (mk_started c a false s).
Proof.
  unfold cs144_new, cs144_config. intros Es Ec. apply bind_Ok in Es as ([tun h1] & [N1 _]%new_tuntap_quiet & E).
  apply bind_Ok in E as (b & _ & (N3 & _ & _ & Ht & Hi)%new_sponge_quiet).
  pose proof default_filter_spec as Hd. apply bind_Ok in Ec as (d & Ed & Ec). rewrite Ed in Hd.
  apply bind_Ok in Ec as (x & _ & Ec). apply Ok_inj in Ec. injection Ec as <- <-.
  split; [|split; [by etrans|done]]. split; [by split|]. cbn. lia.
Qed.

(** The connection of a started program, with a peer that sends [S] from [pisn]: in every run of
    the opening and of the thread, the owner reads from the pipe a prefix of [S], all of it when the socket has shut
    it down unless the inbound stream failed, and every segment is accurate for what the owner
    wrote. *)
Definition sound_runs {A In Out} `{FdAdapter A In Out} `{Device In Out} (isn : Z) (pisn : WrappingInt32)
    (S : bytes) (p : started A) : Prop :=
  let s := tcp_socket p in
  let tfd := fd_num (_thread_data s) in
  tfd <> fd_num (adapter_fd s) -> zlen S + recv_capacity (c_fsm p) < 0x7fffffff00000000 ->
  network_ok pisn S (opened (listening_mode p) isn (c_fsm p) (c_filt p) s) ->
  forall rounds now returned rules s1 rounds' now' returned' rules' s2,
  open_started isn rounds now p = Ok (returned, rules, s1) ->
  _tcp_loop (fun _ => true) rounds' now' rules s1 = Ok (returned', rules', s2) ->
  zlen (read_from tfd (calls s2)) < LIMIT ->
  written_to tfd (calls s2) `prefix_of` S /\
  (SpongeSocket._inbound_shutdown s2 = true -> written_to tfd (calls s2) = S \/ inbound_failed s2 = true) /\
  exists c e sent, SpongeSocket._tcp s2 = Some c /\
    Forall (accurate (TCPSender._isn (_sender (TCPConnection.new isn (c_fsm p)))) (read_from tfd (calls s2)) e)
      (sent ++ segments_out c).

Lemma ready_sound {A In Out} `{FdAdapter A In Out} `{D : Device In Out} `{!DeviceLaws D} isn pisn S
    (p : started A) : ready p -> sound_runs isn pisn S p.
Proof.
  intros ([Hwf _] & Hq & Hnone & Hi) Hfd Hb Hnet rounds now returned rules s1 rounds' now' returned' rules' s2 E1 E2 Hl.
  destruct (Hq (fd_num (_thread_data (tcp_socket p)))) as [Hr Hw].
  pose proof (wf_recv_capacity _ Hwf). pose proof (wf_send_capacity _ Hwf).
  destruct (socket_run_session _ pisn S (c_fsm p) _ _ (tcp_socket p) (listening_mode p) isn (c_filt p) rounds now
    returned rules s1 rounds' now' returned' rules' s2 ltac:(lia) Hb ltac:(lia) eq_refl Hfd eq_refl eq_refl
    Hr Hw Hi Hnet E1 E2) as (e & Hin & Htold).
  split; [eapply in_session_prefix; [..|exact Hin]; (done || lia)|]. split; [intros Hsh; by apply Htold|].
  destruct Hin as (c & sent & Hc & Hse). exists c, e, sent. split; [exact Hc|].
  eapply session_outbound; [..|exact Hse]; (done || lia).
Qed.
End started_sound.

Section lossy_programs.
Context `{Kernel} `{Resolver} {R : Type} (next : R -> Z * R).

#[local] Instance lossy_udp : FdAdapter (LossyFdAdapter R FdAdapterBase) received_datagram (Address * bytes) :=
  lossy_adapter next.
#[local] Instance lossy_tun : FdAdapter (LossyFdAdapter R FdAdapterBase) bytes bytes := lossy_adapter next.

(** C6. Whatever the command lines of tcp_udp and tcp_ipv4 ask for, and for CS144TCPSocket: the
    socket the program starts with is sound. *)
Theorem programs_are_sound seed isn pisn S :
  (forall argv p, udp_start seed argv [] = Ok (inl p) ->
     sound_runs (In := received_datagram) (Out := Address * bytes) isn pisn S p) /\
  (forall random argv p, ipv4_start seed random argv [] = Ok (inl p) ->
     sound_runs (In := bytes) (Out := bytes) isn pisn S p) /\
  (forall random address s c a, cs144_new [] = Ok s -> cs144_config random address = Ok (c, a) ->
     sound_runs (In := bytes) (Out := bytes) isn pisn S (mk_started c a false s)).
Proof.
  split_and!.
  - intros argv p E. eapply ready_sound. by eapply udp_start_ready.
  - intros random argv p E. eapply ready_sound. by eapply ipv4_start_ready.
  - intros random address s c a Es Ec. eapply ready_sound. by eapply cs144_ready.
Qed.
End lossy_programs.

(** ** tun shows the traffic of the adapters *)

(** What a TUN adapter sends for a segment, the tun program takes for a TCP segment: from the adapter's
    address to its peer's, with the segment's header (ports and checksum filled in) and the length
    of its payload, after a dump of the datagram's bytes. *)
Theorem tun_shows_adapter_traffic `{ResolverLaws} a i n j m seg :
  between i n j m (config a) -> sendable seg ->
  exists wire ip tcp, tun_write seg a = Ok wire /\
    tun_packet wire = Ok (hexdump wire 0, Segment ip tcp (zlen (str (TCPSegment._payload seg)))) /\
    src ip = i /\ dst ip = j /\
    tcp = (TCPSegment._header seg) <| sport := n |> <| dport := m |> <| TCPHeader.cksum := TCPHeader.cksum tcp |>.
Proof.
  intros Hb Hs. destruct (tun_wire a i n j m seg Hb Hs)
    as (wire & d & seg' & Hw & Hp & Hi & Hj & Ht & HP & Hh & Hd).
  exists wire, (IPv4._header d), (TCPSegment._header seg'). split; [done|]. split; [|by split_and!].
  unfold tun_packet. rewrite Hp. cbn [mbind outcome_bind]. rewrite bool_decide_eq_true_2 by done.
  cbn [negb]. rewrite Ht, Z.eqb_refl. cbn [negb]. apply bind_Ok in HP as (b & -> & HP).
  cbn [mbind outcome_bind]. rewrite HP. cbn [mbind outcome_bind].
  rewrite bool_decide_eq_true_2 by done. cbn [negb]. unfold Buffer.size. by rewrite Hd.
Qed.

Lemma tun_shows_adapter_traffic_witness : exists wire ip tcp,
  tun_write Adapters.demo_seg demo_a = Ok wire /\
  tun_packet wire = Ok (hexdump wire 0, Segment ip tcp (zlen (str (TCPSegment._payload Adapters.demo_seg)))) /\
  src ip = 0x0a000001 /\ sport tcp = 80.
Proof.
  destruct (tun_shows_adapter_traffic demo_a 0x0a000001 80 0x0a000002 90 Adapters.demo_seg
    (proj1 demo_between) demo_sendable) as (wire & ip & tcp & H1 & H2 & H3 & _ & H4).
  exists wire, ip, tcp. split_and!; [done|done|done|by rewrite H4].
Defined.

(** ** tcp_benchmark succeeds *)

(** C3. The program tcp_benchmark succeeds. Whatever its random numbers and strings of [len] bytes, [main]
    returns EXIT_SUCCESS after finitely many rounds of the four loops, having received the string it sent: 100
    MiB arrive over two connections of the default configuration, in order and reordered. *)
Theorem benchmark_main_succeeds r1 r2 : zlen (rand r1) = len -> zlen (rand r2) = len ->
  exists n n', forall rounds rounds', (n <= rounds)%nat -> (n' <= rounds')%nat ->
    exists b, benchmark_main rounds rounds' r1 r2 = Ok (Returned EXIT_SUCCESS (Some b)) /\ string_received b = rand r2.
Proof.
  intros H1 H2.
  destruct (main_loop_completes (for_x r1) (for_y r1) TCPConfig.default (rand r1) false) as (n1 & n1' & L1); [done|done|done|by rewrite H1|].
  destruct (main_loop_completes (for_x r2) (for_y r2) TCPConfig.default (rand r2) true) as (n2 & n2' & L2); [done|done|done|by rewrite H2|].
  exists (Nat.max n1 n2), (Nat.max n1' n2'). intros rounds rounds' Hn Hn'.
  destruct (L1 rounds rounds' ltac:(lia) ltac:(lia)) as (b1 & E1 & _). destruct (L2 rounds rounds' ltac:(lia) ltac:(lia)) as (b2 & E2 & Hr & _).
  exists b2. unfold benchmark_main, benchmark_loop. rewrite E1. cbn [mbind outcome_bind negb]. rewrite E2. done.
Qed.

Lemma string_of_length n : 0 <= n -> exists s : bytes, zlen s = n.
Proof. intros Hn. exists (replicate (Z.to_nat n) x78). unfold zlen. rewrite length_replicate. by apply Z2Nat.id. Qed.

Lemma benchmark_main_succeeds_witness : exists rounds rounds' r b, zlen (rand r) = len /\
  benchmark_main rounds rounds' r r = Ok (Returned EXIT_SUCCESS (Some b)).
Proof.
  destruct (string_of_length len) as [s Hs]; [by apply Z.leb_le|].
  destruct (benchmark_main_succeeds (mk_benchmark_run 5 7 s) (mk_benchmark_run 5 7 s) Hs Hs) as (n & n' & L).
  destruct (L n n' ltac:(lia) ltac:(lia)) as (b & E & _). by exists n, n', (mk_benchmark_run 5 7 s), b.
Defined.

(** ** Examples: the copy of [StreamCopy]'s example over a socket numbered 5, and tcp_udp as a client *)

Definition demo_call (c : syscall) (h : history) : sys Z :=
  match c with SysSocket _ _ _ | SysAccept _ => Sys 5 | _ => Sys 0 end.
Definition demo_os : Kernel := {|
  k_call := demo_call;
  k_read fd n h := Sys (if has_read fd h then [] else ztake n (demo_data fd));
  k_writev _ iov _ := Sys (Z.min 2 (zlen (iov_bytes iov)));
  k_recvfrom _ _ _ := Sys (mk_datagram [] []);
  k_sendmsg _ _ iov _ := Sys (zlen (iov_bytes iov));
  k_getsockopt _ _ _ _ := Sys (1, 4);
  k_getname _ _ _ := Sys ([], 0);
  k_socketpair _ _ _ := Sys (3, 4) |}.

#[local] Existing Instance demo_os.

Definition demo_native : outcome (ended copy_state) :=
  native_main demo_polls ["tcp_native"; "1"; "80"]%string [].
Definition demo_native_end : copy_state :=
  match demo_native with Ok (Returned _ (Some s)) => s | _ => demo_final end.

Lemma demo_native_returns :
  native_main demo_polls ["tcp_native"; "1"; "80"]%string [] =
    Ok (Returned EXIT_SUCCESS (Some demo_native_end)).
Proof.
  assert (E : match demo_native with Ok (Returned status (Some _)) => status | _ => 1 end = 0) by by vm_compute.
  unfold demo_native_end, demo_native in *. set (m := native_main _ _ _) in *. clearbody m.
  destruct m as [[status [s|]|s|]|f]; try done. by rewrite E.
Qed.

Lemma native_main_copies_witness :
  written_to 5 (StreamCopy.calls demo_native_end) = read_from STDIN_FILENO (StreamCopy.calls demo_native_end) /\
  read_from STDIN_FILENO (StreamCopy.calls demo_native_end) = [x61; x62; x63].
Proof.
  destruct (native_main_copies (fun _ => False) demo_polls ["tcp_native"; "1"; "80"]%string
    (Returned EXIT_SUCCESS (Some demo_native_end))) as (_ & sock & h & (first & Ef & Es) & _ & Hor).
  - intros c h fd Hk E. destruct c; try done; by injection E as <-.
  - apply Forall_forall. intros p ->%elem_of_replicate_inv. exact demo_no_hangup.
  - exact demo_native_returns.
  - injection Ef as <-. vm_compute in Es. injection Es as <- _.
    split; [|by vm_compute]. destruct Hor as [[Hc _]|Hi]; [apply Hc; tauto|].
    apply Exists_exists in Hi as (poll & ->%elem_of_replicate_inv & ps & Hp). done.
Defined.

(** A signal after the first round: standard input was read, the socket got nothing, and the program succeeds. *)
Example native_interrupted :
  match native_main [demo_poll; fun _ _ => PollError EINTR] ["tcp_native"; "1"; "80"]%string [] with
  | Ok (Returned status (Some s)) =>
    status = EXIT_SUCCESS /\ read_from STDIN_FILENO (StreamCopy.calls s) = [x61; x62; x63] /\
    written_to 5 (StreamCopy.calls s) = []
  | _ => False
  end.
Proof. by vm_compute. Qed.

Definition demo_next (r : Z) : Z * Z := (r, r + 1).
#[local] Instance demo_lossy : FdAdapter (LossyFdAdapter Z FdAdapterBase) received_datagram (Address * bytes) :=
  lossy_adapter demo_next.

Abbreviation udp_socket := (TCPSpongeSocket (LossyFdAdapter Z FdAdapterBase)).

(** The adapter ignores the empty datagrams of this kernel. *)
Lemma demo_ignored (s : udp_socket) seg s' :
  adapter_receive s = Ok (Some seg, s') -> False.
Proof.
  unfold adapter_receive. intros ([[d f] h] & E1 & E)%bind_Ok.
  assert (payload d = []) as Hd.
  { cbn in E1. unfold recv in E1. cbn in E1. apply Ok_inj in E1. by injection E1 as <- _ _. }
  apply bind_Ok in E as ([x a] & E2 & E). apply Ok_inj in E. injection E as -> _. cbn in E2.
  unfold lossy_read in E2. apply bind_Ok in E2 as ([y b] & E2 & E). cbn in E2. unfold udp_read in E2.
  assert (y = None) as ->.
  { destruct (_ && _); [by injection E2 as <- _|]. rewrite Hd in E2. by injection E2 as <- _. }
  destruct (should_drop _ _ _) as [b1 a1]. apply Ok_inj in E. by destruct b1.
Qed.

Definition demo_argv : list string := ["tcp_udp"; "-w"; "4000"; "1"; "80"]%string.
Definition demo_started : started (LossyFdAdapter Z FdAdapterBase) :=
  match udp_start 0 demo_argv [] with
  | Ok (inl p) => p
  | _ => mk_started TCPConfig.default SpongeSocket.demo_config false
           (mk_socket demo_sock demo_sock (mkLossyFdAdapter 0 (mkFdAdapterBase SpongeSocket.demo_config false))
              demo_sock None false false false false [])
  end.
Lemma demo_starts : udp_start 0 demo_argv [] = Ok (inl demo_started).
Proof.
  assert (E : match udp_start 0 demo_argv [] with Ok (inl _) => true | _ => false end = true)
    by by vm_compute.
  unfold demo_started in *. destruct (udp_start _ _ _) as [[p|code]|f]; done.
Qed.

Definition demo_opening := open_started (In := received_datagram) (Out := Address * bytes) 0 [] 0 demo_started.
Definition demo_thread : outcome (bool * list (Rule udp_socket) * udp_socket) :=
  '(_, rules, s) ← demo_opening; _tcp_loop (fun _ => true) demo_rounds 0 rules s.

Lemma demo_thread_runs : exists r1 rules1 s1 r2 rules2 s2,
  open_started (In := received_datagram) (Out := Address * bytes) 0 [] 0 demo_started =
    Ok (r1, rules1, s1) /\
  _tcp_loop (fun _ => true) demo_rounds 0 rules1 s1 = Ok (r2, rules2, s2) /\
  read_from 4 (calls s2) = [x78; x79].
Proof.
  assert (E : match demo_thread with
              | Ok (_, _, s) => bool_decide (read_from 4 (calls s) = [x78; x79])
              | _ => false end = true) by by vm_compute.
  unfold demo_thread, demo_opening in E.
  destruct (open_started _ _ _ _) as [[[r1 rules1] s1]|]; [|done]. cbn [mbind outcome_bind] in E.
  destruct (_tcp_loop _ _ _ _ _) as [[[r2 rules2] s2]|] eqn:E2; [|done].
  apply bool_decide_eq_true in E. by exists r1, rules1, s1, r2, rules2, s2.
Qed.

Lemma programs_are_sound_witness : exists s1 rules1 r1 s2 rules2 r2 c e sent,
  open_started (In := received_datagram) (Out := Address * bytes) 0 [] 0 demo_started =
    Ok (r1, rules1, s1) /\
  _tcp_loop (fun _ => true) demo_rounds 0 rules1 s1 = Ok (r2, rules2, s2) /\
  SpongeSocket._tcp s2 = Some c /\ read_from 4 (calls s2) = [x78; x79] /\
  Forall (accurate (mkWrappingInt32 0) [x78; x79] e) (sent ++ segments_out c).
Proof.
  destruct (programs_are_sound demo_next 0 0 (mkWrappingInt32 0) []) as [Hs _].
  specialize (Hs demo_argv demo_started demo_starts).
  destruct demo_thread_runs as (r1 & rules1 & s1 & r2 & rules2 & s2 & E1 & E2 & Hr).
  assert (fd_num (_thread_data (tcp_socket demo_started)) = 4) as Hfd by by vm_compute.
  unfold sound_runs in Hs. rewrite Hfd in Hs.
  destruct (Hs ltac:(by vm_compute) ltac:(by vm_compute)
    (fun s _ seg s' E c _ _ => match demo_ignored s seg s' E with end)
    [] 0 r1 rules1 s1 demo_rounds 0 r2 rules2 s2 E1 E2) as (_ & _ & c & e & sent & Hc & HF).
  { by rewrite Hr. }
  rewrite Hr in HF. exists s1, rules1, r1, s2, rules2, r2, c, e, sent.
  split; [exact E1|]. split; [exact E2|]. split; [exact Hc|]. split; [exact Hr|]. exact HF.
Defined.
