(* ===== verification/Doctests.v ===== *)
(** * Doctests: the documentation's examples (src/doctests/)

    The three test programs, each made of the example files its source includes.  What the addresses
    example needs of the name service is stated; the parser example is an instance of a
    round trip of integers of all widths; the sockets example runs on a loopback system. *)

From Stdlib Require Import Strings.String.
From S2P Require Import Prelude Buffer Parser Address Kernel FileDescriptor Socket Adapters StreamCopy WebGet Programs.

(** [catch (...)] around the body of [main]. *)
Definition doctest (body : outcome unit) : outcome (ended unit) :=
  catch (_ ← body; Ok (Returned EXIT_SUCCESS (Some tt))).
Definition runtime_error_if (b : bool) : outcome unit := if b then Fault RuntimeError else Ok tt.

(** ** address_dt *)

Section address.
Context `{Resolver}.

Definition google_webserver : outcome Address := of_host "www.google.com" "https".
Definition a_dns_server : outcome Address := of_ip "18.71.0.151" 53.
Definition a_dns_server_numeric (dns : Address) : outcome Z := ipv4_numeric dns.

Definition address_dt : outcome (ended unit) :=
  doctest
    (google ← google_webserver;
     dns ← a_dns_server;
     numeric ← a_dns_server_numeric dns;
     p ← port google;
     runtime_error_if (negb (p =? 443) || negb (numeric =? 0x12470097))).
End address.

(** ** parser_dt *)

Definition serialized (val1 val2 val3 val4 : Z) : bytes :=
  let buffer := [z2b 0x32] in
  let buffer := NetUnparser.u32 buffer val1 in
  let buffer := NetUnparser.u16 buffer val2 in
  let buffer := NetUnparser.u8 buffer val3 in
  NetUnparser.u32 buffer val4.

Definition deserialized : parser (Z * Z * Z * Z * Z) :=
  out0 ← NetParser.u8; out1 ← NetParser.u32; out2 ← NetParser.u16; out3 ← NetParser.u8; out4 ← NetParser.u32;
  mret (out0, out1, out2, out3, out4).

Definition parser_example (val1 val2 val3 val4 : Z) : outcome unit :=
  '(out, _) ← deserialized (NetParser.new (of_string (serialized val1 val2 val3 val4)));
  let '(out0, out1, out2, out3, out4) := out in
  runtime_error_if (negb (out0 =? 0x32) || negb (out1 =? val1) || negb (out2 =? val2) || negb (out3 =? val3)
    || negb (out4 =? val4)).

Definition parser_dt : outcome (ended unit) := doctest (parser_example 0xdeadbeef 0xc0c0 0xff 0x0c05fefe).

(** ** socket_dt *)

Section socket.
Context `{Kernel} `{Resolver}.
Implicit Types (h : history).

Definition there : bytes := to_bytes "hi there".
Definition yourself : bytes := to_bytes "hi yourself".
Definition portnum (random : Z) : Z := u16 (random mod 50000 + 1025).
Definition wrong (recvd recvd2 : bytes) : bool := bool_decide (recvd <> there) || bool_decide (recvd2 <> yourself).

(** The destructors at the end of a block, the last object's first. *)
Definition destroy_all (fs : list FDWrapper) h : history := foldl (fun h f => snd (FileDescriptor.destroy f h)) h fs.

Definition socket_example_1 (random : Z) h : outcome history :=
  '(sock1, h) ← new_socket AF_INET SOCK_DGRAM h;
  a ← of_ip "127.0.0.1" (portnum random);
  h ← bind a sock1 h;
  '(sock2, h) ← new_socket AF_INET SOCK_DGRAM h;
  a ← of_ip "127.0.0.1" (portnum random);
  '(sock2, h) ← sendto a (BufferViewList.of_string there) sock2 h;
  '(recvd, sock1, h) ← recv MTU sock1 h;
  h ← connect (source_address recvd) sock1 h;
  '(sock1, h) ← send (BufferViewList.of_string yourself) sock1 h;
  '(recvd2, sock2, h) ← recv MTU sock2 h;
  _ ← runtime_error_if (wrong (payload recvd) (payload recvd2));
  Ok (destroy_all [sock2; sock1] h).

Definition socket_example_2 (random : Z) h : outcome history :=
  '(sock1, h) ← new_socket AF_INET SOCK_STREAM h;
  a ← of_ip "127.0.0.1" (portnum random);
  h ← bind a sock1 h;
  h ← listen 1 sock1 h;
  '(sock2, h) ← new_socket AF_INET SOCK_STREAM h;
  a ← of_ip "127.0.0.1" (portnum random);
  h ← connect a sock2 h;
  '(sock3, sock1, h) ← accept sock1 h;
  '(_, sock3, h) ← write_string there true sock3 h;
  '(recvd, sock2, h) ← read SIZE_MAX sock2 h;
  '(_, sock2, h) ← write_string yourself true sock2 h;
  '(recvd2, sock3, h) ← read SIZE_MAX sock3 h;
  '(sock1, h) ← close sock1 h;
  '(sock2, h) ← close sock2 h;
  '(sock3, h) ← shutdown SHUT_RDWR sock3 h;
  _ ← runtime_error_if (wrong recvd recvd2);
  Ok (destroy_all [sock3; sock2; sock1] h).

Definition socket_example_3 h : outcome history :=
  let r := k_socketpair AF_UNIX SOCK_STREAM h in
  '(fd0, fd1) ← system_call r;
  let h := h ++ [SocketPair AF_UNIX SOCK_STREAM r] in
  f0 ← FileDescriptor.new fd0;
  '(pipe1, h) ← socket_of_fd AF_UNIX SOCK_STREAM f0 h;
  f1 ← FileDescriptor.new fd1;
  '(pipe2, h) ← socket_of_fd AF_UNIX SOCK_STREAM f1 h;
  '(_, pipe1, h) ← write_string there true pipe1 h;
  '(recvd, pipe2, h) ← read SIZE_MAX pipe2 h;
  '(_, pipe2, h) ← write_string yourself true pipe2 h;
  '(recvd2, pipe1, h) ← read SIZE_MAX pipe1 h;
  _ ← runtime_error_if (wrong recvd recvd2);
  Ok (destroy_all [pipe2; pipe1] h).

Definition socket_dt (random1 random2 : Z) h : outcome (ended unit) :=
  doctest (h ← socket_example_1 random1 h; h ← socket_example_2 random2 h; h ← socket_example_3 h; Ok tt).
End socket.

(** ** The examples are right *)

(** Integers of the four widths in a row come back, whatever they are. *)
Lemma parser_example_ok val1 val2 val3 val4 :
  is_u32 val1 -> is_u16 val2 -> is_u8 val3 -> is_u32 val4 -> parser_example val1 val2 val3 val4 = Ok tt.
Proof.
  intros H1 H2 H3 H4. unfold parser_example, serialized. rewrite unparse_u32, unparse_u8, unparse_u16, unparse_u32.
  change [z2b 0x32] with (enc 1 0x32). rewrite <- !app_assoc. set (s := _ ++ _).
  assert (HR : Parser.ready (NetParser.new (of_string s)) s).
  { split_and!; [done|apply buffer_of_string_wf|done]. unfold s. autorewrite with zlist. by rewrite !zlen_enc. }
  destruct (parse_enc 1 _ 0x32 _ HR) as (p0 & E0 & HR0); [done|].
  destruct (parse_enc 4 _ val1 _ HR0) as (p1 & E1 & HR1); [done|].
  destruct (parse_enc 2 _ val2 _ HR1) as (p2 & E2 & HR2); [done|].
  destruct (parse_enc 1 _ val3 _ HR2) as (p3 & E3 & HR3); [done|].
  destruct (parse_enc 4 p3 val4 []) as (p4 & E4 & _); [by rewrite app_nil_r|done|].
  assert (E : deserialized (NetParser.new (of_string s)) = Ok (0x32, val1, val2, val3, val4, p4)).
  { unfold deserialized, NetParser.u8, NetParser.u32, NetParser.u16, mbind, parser_bind.
    change 1 with (Z.of_nat 1). change 4 with (Z.of_nat 4). change 2 with (Z.of_nat 2).
    by rewrite E0, E1, E2, E3, E4. }
  rewrite E. cbn [mbind outcome_bind]. by rewrite !Z.eqb_refl.
Qed.

Lemma parser_dt_succeeds : parser_dt = Ok (Returned EXIT_SUCCESS (Some tt)).
Proof. by vm_compute. Qed.

(** The example for addresses succeeds when the name service knows Google's server. *)
Lemma address_dt_succeeds `{ResolverLaws} i : inet_ntoa 0x12470097 = "18.71.0.151"%string -> is_u32 i ->
  of_host "www.google.com" "https" = Ok (inet i 443) -> address_dt = Ok (Returned EXIT_SUCCESS (Some tt)).
Proof.
  intros Hn Hi Hg. unfold address_dt, google_webserver, a_dns_server, a_dns_server_numeric. rewrite Hg, <- Hn. rewrite of_ip_inet by lia.
  cbn [mbind outcome_bind]. rewrite inet_numeric by lia. cbn [mbind outcome_bind]. by rewrite inet_port by lia.
Qed.

(** ** A loopback system for socket_dt

    Descriptors are numbered by the history.  A datagram goes to the descriptors bound to its destination; a
    stream's bytes to the other end of the connection or pair. *)

Definition fresh_fd (h : history) : Z := 3 + 2 * zlen h.

Fixpoint name_of (fd : Z) (h : history) : bytes :=
  match h with
  | [] => sockaddr_in 0x7f000001 (40000 + fd)
  | Call (SysBind f a) _ :: h => if f =? fd then a else name_of fd h
  | _ :: h => name_of fd h
  end.
Fixpoint connected_to (fd : Z) (h : history) : bytes :=
  match h with
  | [] => []
  | Call (SysConnect f a) _ :: h => if f =? fd then a else connected_to fd h
  | _ :: h => connected_to fd h
  end.
Definition datagrams_for (fd : Z) (h : history) : list datagram :=
  omap (fun e =>
    match e with
    | Sendmsg f dest iov _ =>
      let dest := match dest with Some a => a | None => connected_to f h end in
      if bool_decide (dest = name_of fd h) then Some (mk_datagram (name_of f h) (iov_bytes iov)) else None
    | _ => None
    end) h.
Definition datagrams_read (fd : Z) (h : history) : nat :=
  length (List.filter (fun e => match e with Recvfrom f _ _ => f =? fd | _ => false end) h).

(** The ends of connections and pairs; [pending] is who connected last. *)
Fixpoint ends (pending : Z) (h : history) : list (Z * Z) :=
  match h with
  | [] => []
  | Call (SysConnect f _) _ :: h => ends f h
  | Call (SysAccept _) (Sys a) :: h => (a, pending) :: ends pending h
  | SocketPair _ _ (Sys p) :: h => p :: ends pending h
  | _ :: h => ends pending h
  end.
Definition peer (fd : Z) (h : history) : Z :=
  foldr (fun p q => if fst p =? fd then snd p else if snd p =? fd then fst p else q) (-1) (ends (-1) h).
Definition paired (fd : Z) (h : history) : bool :=
  existsb (fun e => match e with SocketPair _ _ (Sys (a, b)) => (a =? fd) || (b =? fd) | _ => false end) h.

Definition loopback : Kernel := {|
  k_call c h := match c with SysSocket _ _ _ | SysAccept _ => Sys (fresh_fd h) | _ => Sys 0 end;
  k_read fd n h := Sys (ztake n (zdrop (zlen (read_from fd h)) (written_to (peer fd h) h)));
  k_writev _ iov _ := Sys (zlen (iov_bytes iov));
  k_recvfrom fd _ h := match datagrams_for fd h !! datagrams_read fd h with Some d => Sys d | None => Errno 11 end;
  k_sendmsg _ _ iov _ := Sys (zlen (iov_bytes iov));
  k_getsockopt fd _ option h :=
    Sys (if option =? SO_TYPE then SOCK_STREAM else if paired fd h then AF_UNIX else AF_INET, SIZE_OF_INT);
  k_getname _ _ _ := Errno 22;
  k_socketpair _ _ h := Sys (fresh_fd h, fresh_fd h + 1) |}.

Definition dotted_resolver : Resolver := {|
  getaddrinfo node service _ :=
    match scan_digits service None with
    | Some n => if bool_decide (node = "127.0.0.1"%string) then Some (sockaddr_in 0x7f000001 n) else None
    | None => None
    end;
  getnameinfo _ := None;
  inet_ntoa _ := "127.0.0.1"%string |}.

(** On it all three examples exchange their greetings. *)
Lemma socket_dt_succeeds :
  @socket_dt loopback dotted_resolver 123456789 4000000000 [] = Ok (Returned EXIT_SUCCESS (Some tt)).
Proof. by vm_compute. Qed.

(** Without a socket there is an exception, and [main] reports the failure. *)
Lemma socket_dt_fails r1 r2 (K : Kernel) (R : Resolver) (e : Z) :
  @k_call K (SysSocket AF_INET SOCK_DGRAM 0) [] = Errno e ->
  @socket_dt K R r1 r2 [] = Ok (Returned EXIT_FAILURE None).
Proof.
  intros He. unfold socket_dt, socket_example_1, new_socket, sys_call. rewrite He. unfold int_call.
  by rewrite system_call_throws.
Qed.
